(* ===== verification/_CoqProject ===== *)
-Q . S2P
Prelude.v
Text.v
Regexp.v
Calendar.v
Model.v
Externals.v
DB.v
MemDB.v
RedisDB.v
RedisDBProps.v
RedisNumbers.v
RedisSetup.v
Presence.v
Broker.v
MemBroker.v
RedisBroker.v
RedisBrokerProps.v
RedisAck.v
RedisDelivery.v
Attachments.v
S3Attachments.v
Forwarder.v
Service.v
ServiceProps.v
Connection.v
Protocol.v
Web.v
WebClient.v
Forwarding.v
Tassis.v
TassisExec.v
TassisSteps.v
TassisInv.v
TassisProps.v
Goroutines.v
Interleaving.v
Calls.v
InterleavingInv.v
InterleavingSafe.v
InterleavingProps.v
InterleavingAccess.v
InterleavingTransfer.v
Channels.v
Federation.v
Scenario.v
RedisURL.v
Main.v
WebScenario.v
TassisScenario.v
InterleavingScenario.v
FederationScenario.v
Telemetry.v
TestHarness.v
TestService.v
TestRate.v
