(* ===== verification/Prelude.v ===== *)
(** * tassis: key distribution and message transport, verified

    tassis is a server for end-to-end encrypted messaging.  Clients connect over
    websockets, register the pre keys of their devices, fetch the pre keys of
    other devices anonymously, and send sealed messages that the server stores
    until the receiving device acknowledges them.  Messages for devices on another
    tassis are forwarded.  This library models the server as Rocq functions and
    transition systems and proves what makes it correct, and, where the code falls
    short of what it means to do, proves that instead.

    ** The program and its model

    Parts (under src/), the files that model them, and how they interact:

    - model/ (messages.go, the types and getters of Messages.pb.go) and util/time.go:
      Model.v, modules [util] and [model].  Messages are records, the oneof payload
      is the inductive type [isMessage_Payload], pointers that may be nil are
      options, uint32 and int64 are integers with their wrap-around written out.
      Errors are [goerror]; a function that returns a value and an error returns
      [result].
    - db/db.go: the class [DB] of DB.v.  [DBSpec] is the abstract registry it stands
      for (devices with their keys, one chat number per identity) and [DBLaws] the
      contract between a database and the service.
    - db/memdb: MemDB.v, module [memdb], which discharges [DBLaws].
    - db/redisdb: RedisDB.v, module [redisdb] with the Go code and the four Lua
      scripts; RedisDBProps.v (devices and their keys against [DBSpec]);
      RedisNumbers.v (chat numbers and the rate limit); RedisSetup.v (New, which loads
      the scripts, and that of the Redis broker).
    - presence/: Presence.v, the class [Presence], modules [mempresence] and
      [staticpresence].
    - broker/broker.go: the class [Broker] of Broker.v.  [BrokerView] says what can be
      seen of a broker (what is stored by topic, what an acker refers to, what is on
      its way to a subscriber, for how many publications there is room) and
      [BrokerLaws] is the contract between a broker and the service.
    - broker/membroker: MemBroker.v, module [membroker] with its code, the relation
      [step] for the interleaving of one topic's goroutines, and the instance of
      [BrokerLaws].
    - broker/redisbroker: RedisBroker.v, module [redisbroker] with the Go code and
      ack.lua; RedisBrokerProps.v (ids, acknowledgements, trimming); RedisAck.v (what an
      acknowledgement settles); RedisDelivery.v (the reader and subscriber goroutines).
    - attachments/attachments.go and testsupport/noopattachments.go: Attachments.v.
    - attachments/s3attachments: S3Attachments.v, module [s3attachments], with the
      dates of Calendar.v.
    - forwarder/: Forwarder.v, modules [forwarder], [memforwarder], [webforwarder].
    - service/serviceimpl/serviceimpl.go: Service.v, module [serviceimpl]: one
      function per handler, on the state [st] of a connection ([cn]) and of what the
      connections share ([en]).
      ServiceProps.v has its theorems; Connection.v runs the goroutines of a
      connection in every interleaving; Protocol.v says what a client may receive.
    - service/serviceimpl/forwarding.go and New: Forwarding.v, module [forwarding].
    - a whole process (serviceimpl.go and forwarding.go together): Tassis.v, module
      [tassis]: all connections, the forwarding workers, the replies of other hosts
      and the transfer goroutine over one shared environment, with a record of what
      becomes of each message.  TassisExec.v runs it as a function; TassisSteps.v has
      the effect of each step on the broker, TassisInv.v the invariant, TassisProps.v
      the theorems, TassisScenario.v a conversation to which they are applied.  There a
      handler runs in one piece.
    - the same process call by call: Goroutines.v, module [goroutines], has each handler
      as the program of calls its goroutine makes; Interleaving.v, module
      [interleaving], runs a pool of them, a step being one call of one goroutine.
      InterleavingInv.v has the rules to reason about a goroutine among others,
      InterleavingSafe.v applies them to every program, InterleavingProps.v has the
      theorems on messages, InterleavingAccess.v those on the registry, with rules of
      their own, Calls.v goes through the programs for what they do not do,
      InterleavingTransfer.v is about why registrations disappear, Channels.v, module
      [channels], gives the channel to each client its room for ten messages, and
      InterleavingScenario.v has runs in which handlers alternate.
    - web/web.go: Web.v, module [web]: the handler of a request, the two goroutines
      of a websocket with the channel to the client, for any service behind it, and
      the count of open connections.
    - webclient/webclient.go: WebClient.v, module [webclient], and [pipe], a client
      and a server connected by two streams of frames.
    - two such processes (forwarder.go between them): Federation.v, the system of two
      servers, one forwarding to the other; FederationScenario.v runs it.
    - main.go: RedisURL.v, module [main] (reading the environment, with the regular
      expressions of Regexp.v), and Main.v, module [server] (putting the parts
      together).
    - telemetry/telemetry.go: Telemetry.v, module [telemetry].
    - testsupport/testsupport.go, as service/serviceimpl/serviceimpl_test.go runs it:
      TestService.v, module [testservice], each [t.Run] a definition, over
      TestHarness.v: two servers of Tassis.v, their clients, and time; TestRate.v has
      the block on rate limiting, against the Redis script.

    The service is written against the classes [DB], [Broker], [Presence],
    [Attachments] and [LRU], so its theorems hold for every implementation that
    keeps the laws.  Scenario.v puts the in-memory implementations together, runs a
    conversation between two clients, and applies the theorems to it; WebScenario.v
    does so behind a websocket.

    Packages outside the repository are parameters (Externals.v): identity keys and
    base 32 ([Identity]), protobuf ([Proto], [MessageProto], [Prototext]), the LRU cache
    ([LRU]), the Redis server ([RedisStreams] in RedisBroker.v, [RedisData] in
    RedisDB.v, [Scripts] in RedisSetup.v), the S3 client ([S3] in S3Attachments.v),
    OpenTelemetry (Telemetry.v), Ed25519 (TestService.v) and the certificates of
    crypto/tls (arguments in Main.v).  Their documented behaviour is a class of laws
    where a theorem relies on it, with a concrete instance where examples and
    witnesses are evaluated.  Text.v has the string
    functions of Go's standard library that the Redis code uses.

    This file has what all others share: outcomes of Go code (return, panic,
    block), machine integers, strings, map iteration in any order, stacks.

    ** What the theorems show

    - Authentication and access (ServiceProps.v, Connection.v): a connection is
      authenticated only by a signature over its own nonce, its identity never
      changes afterwards, a request on the wrong kind of connection has no effect but
      an Error, and the registry changes only for the device that is authenticated.
    - Requests (ServiceProps.v, Connection.v): each is answered once (but one for no
      upload authorizations, which is not answered), outbound
      messages are stored once and on the right topic or refused, an Ack reaches
      exactly its own message, the choice of a chat number terminates and is right.
    - The protocol (Protocol.v): whatever a client is sent is a reply of the
      documented kind to its own request, or one of the messages a server sends
      unasked, and numbers keep their width.
    - The running server (TassisProps.v), for every broker that keeps the laws and
      every interleaving of the goroutines: each connection behaves as one of
      Connection.v; what is delivered was sent to the very device whose key the
      connection has proven to own; and no message that was acknowledged to its sender
      is lost: it is stored, or was acknowledged by its device or by another host, or
      has been failing for longer than the time-out.
    - Interleaving (Goroutines.v, InterleavingProps.v, InterleavingAccess.v,
      InterleavingTransfer.v, Channels.v): a handler that is not interrupted
      computes what Service.v says; and when any goroutine may run between any two
      calls of a handler, or a handler stops half-way, still no message is lost that
      was published for a sender, senders are told only of messages that were
      published, what is delivered was sent to the device that receives it, and a
      registration is changed only for a connection that has proven it acts for the
      device, and goes away otherwise only after the device was seen at another host.
      A goroutine with a message for a client whose channel is full waits until the
      client takes one.
    - Two servers (Federation.v): what one counts as relayed the other has accepted, so
      no acknowledged message is lost between them.
    - The test suite, as an example (TestService.v): it passes on the in-memory parts,
      under the schedule of TestHarness.v, in which the servers only make steps of
      Tassis.v; when its rate limiting block passes (TestRate.v).
    - Storage (MemDB.v): refinement of the abstract registry, one-time keys are
      handed out once, numbers are unique and constant.
    - Attachments (S3Attachments.v): the policy, the form and the download URL of an
      upload authorization name the same object, and folders name days of the
      calendar.
    - Storage on Redis (RedisDBProps.v, RedisNumbers.v): registering, unregistering
      and requesting keys refine the abstract registry, with the exception the
      theorems name, and errors touch only the devices concerned; what a request for
      keys hands out when other clients act between its commands; device keys can be
      read back; chat numbers stay consistent and constant if other clients keep them
      so during the sleep of a rate-limited registration, and the rate limit spaces
      registrations as it should.
    - Delivery (MemBroker.v, RedisBrokerProps.v, RedisDelivery.v): no loss and
      integrity in every interleaving; in-order delivery without gaps for the Redis
      broker under the conditions the theorem names.
    - Forwarding (Forwarder.v, Forwarding.v): every callback is called once, every
      message is accounted for until it is delivered, acknowledged or expired.
    - Transport (Web.v, WebClient.v): in both directions a websocket passes messages
      on in order and each once, until a write fails, after which what the service
      sends is lost; a client and a server joined by their frames exchange messages in
      order.
    - Configuration (RedisURL.v, Main.v): which URLs are accepted and what is read
      from them, stated without the regular expression; the options for Redis; the
      service that [main] puts together delivers what its clients send.
    - Faults: two requests that stop the process, and a third, for the keys of a device
      on Redis that is being unregistered; a topic and a Redis reader that
      jam; a client that does not read its replies and so jams its handler, and a
      goroutine that outlives its connection (Channels.v, [handing_keeps_handler] of
      Web.v); draining a closed client, which never
      ends; passwords with a colon cut short; offsets and acknowledgements compared wrongly; acknowledgements that settle earlier messages too, so that the Redis broker does not keep [BrokerLaws] (RedisAck.v); subscribers that skip
      messages; a device hidden by unregistering another; short numbers that are reassigned; hosts compared with case; a
      login that goes on after an error; connections to other hosts that are never
      replaced; a device that registers again while its messages are transferred, and
      is unregistered; replies that settle messages sent to another host; metrics that keep running when they were started by half.

    ** Bounds, fuel and time

    Loops that are not structural carry fuel: [getNumberLoop] (the length of the
    number plus one; [getNumber_correct] shows it returns), [process] of the
    in-memory broker ([process_progress]), [Drain] of the websocket client
    (one more than its buffered messages when the channel is open; for a closed channel the
    theorem is that no fuel is enough).  Counters wrap as in Go:
    theorems that need distinct sequence numbers bound the number of messages by
    [2^32] or [2^63] (for the running server, [broker_room]: one publication per step).
    In Federation.v the hosts that the first server dials are all the second one.
    The test suite has fuel for its waiting loops, and runs out of none of it.  Clock readings are arguments; a time-out is a step that may
    happen at any time.

    What other clients of a Redis server do between two commands of a method, or
    between the commands of a pipeline that is not a transaction, is an argument
    [others] of the methods of RedisDB.v: the [n]-th function is what happens in the
    [n]-th gap.  A script and a transaction run in one piece, as Redis documents.

    ** What is not modelled

    Connection.v, Protocol.v, Tassis.v, Federation.v and TestService.v run a handler in
    one piece; interleaving it with others call by call is Interleaving.v, which proves
    again what is claimed of messages and of who changes the registry, but not the
    theorems on which replies a client gets and on two servers.  There the mutexes of the publisher
    cache and of the forwarder are left out, and a connection may deliver several
    messages at once: both only add interleavings.  The room on
    the channel to a client is not in Tassis.v and Interleaving.v: Channels.v and Web.v
    have it, and every run with it is one of Interleaving.v.  The pings
    that keep a websocket open are left out; logging and tracing only report; the
    reflection code of Messages.pb.go is generated.  Of the logins of
    the rate limiting test only the times are modelled (TestRate.v).

    Possible extensions: the service over a broker whose acknowledgements are cumulative,
    as those of Redis are; servers that forward to each other in both directions. *)

From stdpp Require Export base tactics list gmap strings fin_maps.
From Stdlib Require Export ZArith Lia.
From Stdlib Require String.
From Stdlib Require Export Ascii.

(** ** Scope, hint databases *)

Declare Scope go_scope.
Delimit Scope go_scope with go.
Create HintDb tassis.
Create Rewrite HintDb tassis.

(** ** Outcomes of Go code

    A call of a Go function returns, panics (nil dereference, index out of
    range, failed type assertion) or blocks (a send on a full channel).  No
    goroutine of the repository recovers, so a panic ends the process. *)

Inductive outcome (A : Type) : Type :=
| Ret (a : A)
| Panic
| Block.
Arguments Ret {A} a.
Arguments Panic {A}.
Arguments Block {A}.

#[export] Instance outcome_ret : MRet outcome := @Ret.
#[export] Instance outcome_bind : MBind outcome := λ A B f m,
  match m with Ret a => f a | Panic => Panic | Block => Block end.

#[export] Instance outcome_fmap : FMap outcome := λ A B f m,
  match m with Ret a => Ret (f a) | Panic => Panic | Block => Block end.

(** Dereference of a pointer modelled as an option. *)
Definition deref {A} (p : option A) : outcome A :=
  match p with Some a => Ret a | None => Panic end.

Lemma bind_Ret_inv {A B} (m : outcome A) (f : A → outcome B) b :
  (m ≫= f) = Ret b → ∃ a, m = Ret a ∧ f a = Ret b.
Proof. destruct m; simpl; naive_solver. Qed.

Lemma deref_Ret_inv {A} (p : option A) a : deref p = Ret a → p = Some a.
Proof. destruct p; simpl; naive_solver. Qed.

(** Splits every hypothesis saying that a sequence of calls returned. *)
Ltac inv_ret :=
  repeat match goal with
  | H : (_ ≫= _) = Ret _ |- _ =>
      let a := fresh "r" in let Ha := fresh "Hcall" in
      apply bind_Ret_inv in H as (a & Ha & H); cbn beta in H
  | H : deref _ = Ret _ |- _ => apply deref_Ret_inv in H
  | H : Ret _ = Ret _ |- _ => injection H as H; subst
  | H : mret _ = Ret _ |- _ => injection H as H; subst
  | H : (_, _) = (_, _) |- _ => injection H as H; subst
  | H : Panic = Ret _ |- _ => discriminate H
  | H : Block = Ret _ |- _ => discriminate H
  | H : let '(_, _) := ?p in _ |- _ => destruct p eqn:?
  | p : (_ * _)%type |- _ => destruct p
  end; simplify_eq/=.

(** ** Machine integers *)

Definition two32 : Z := 4294967296.
Definition two63 : Z := 9223372036854775808.
Definition two64 : Z := 18446744073709551616.

(** [uint32] wrap-around, [int32] and [int64] wrap-around and saturation. *)
Definition wrap_u32 (z : Z) : Z := (z mod two32)%Z.
Definition wrap_i32 (z : Z) : Z := ((z + 2147483648) mod two32 - 2147483648)%Z.
Definition wrap_i64 (z : Z) : Z := ((z + two63) mod two64 - two63)%Z.
Definition sat_i64 (z : Z) : Z := Z.max (- two63) (Z.min (two63 - 1) z).
Definition in_i64 (z : Z) : Prop := (- two63 <= z < two63)%Z.

Lemma wrap_i64_small z : in_i64 z → wrap_i64 z = z.
Proof.
  unfold in_i64, wrap_i64. intros H. rewrite Z.mod_small; unfold two64, two63 in *; lia.
Qed.

Lemma wrap_i64_range z : in_i64 (wrap_i64 z).
Proof.
  unfold in_i64, wrap_i64. pose proof (Z.mod_pos_bound (z + two63) two64).
  unfold two64, two63 in *; lia.
Qed.

Lemma sat_i64_small z : in_i64 z → sat_i64 z = z.
Proof. unfold in_i64, sat_i64. lia. Qed.

Lemma wrap_u32_range z : (0 <= wrap_u32 z < two32)%Z.
Proof. apply Z.mod_pos_bound. unfold two32; lia. Qed.

Lemma wrap_u32_small z : (0 <= z < two32)%Z → wrap_u32 z = z.
Proof. apply Z.mod_small. Qed.

Lemma wrap_u32_add a b : wrap_u32 (wrap_u32 a + b) = wrap_u32 (a + b).
Proof. unfold wrap_u32. by rewrite Zplus_mod_idemp_l. Qed.

(** Two counters fewer than [2^32] apart do not wrap to the same value. *)
Lemma wrap_u32_inj a b :
  wrap_u32 a = wrap_u32 b → (Z.abs (a - b) < two32)%Z → a = b.
Proof.
  unfold wrap_u32. intros H Hd.
  assert (Hm : ((a - b) mod two32 = 0)%Z) by (rewrite Zminus_mod, H, Z.sub_diag; done).
  apply Z.mod_divide in Hm as [q Hq]; unfold two32 in *; nia.
Qed.

#[export] Hint Resolve wrap_i64_range wrap_u32_range : tassis.
#[export] Hint Rewrite wrap_i64_small sat_i64_small wrap_u32_small using (unfold in_i64, two63, two32 in *; lia) : tassis.

(** ** Strings

    Go strings and byte slices are both byte sequences; we use [string]
    (sequences of 8-bit characters) for the contents of either. *)

Fixpoint str_take (n : nat) (s : string) : string :=
  match n, s with
  | S n', String c s' => String c (str_take n' s')
  | _, _ => EmptyString
  end.

Fixpoint str_drop (n : nat) (s : string) : string :=
  match n, s with
  | S n', String _ s' => str_drop n' s'
  | O, _ => s
  | S _, EmptyString => EmptyString
  end.

(** [s[:n]] and [s[n:]]: out of range indices panic. *)
Definition slice_to (n : nat) (s : string) : outcome string :=
  if decide (n <= String.length s) then Ret (str_take n s) else Panic.
Definition slice_from (n : nat) (s : string) : outcome string :=
  if decide (n <= String.length s) then Ret (str_drop n s) else Panic.

Lemma str_app_cons c (s t : string) : (String c s +:+ t = String c (s +:+ t))%string.
Proof. done. Qed.

Lemma str_take_drop n s : (str_take n s +:+ str_drop n s)%string = s.
Proof. revert s; induction n as [|n IH]; intros [|c s]; simpl; [done..|].
  by rewrite str_app_cons, IH.
Qed.

Lemma str_length_app s t : String.length (s +:+ t) = String.length s + String.length t.
Proof. induction s as [|c s IH]; [done|]. rewrite str_app_cons; simpl. by rewrite IH. Qed.

Lemma str_length_take n s : n <= String.length s → String.length (str_take n s) = n.
Proof.
  revert s; induction n as [|n IH]; intros [|c s]; simpl; intros; try lia.
  rewrite IH; lia.
Qed.

Lemma str_app_assoc (r s t : string) : ((r +:+ s) +:+ t = r +:+ (s +:+ t))%string.
Proof. induction r as [|c r IH]; [done|]. by rewrite !str_app_cons, IH. Qed.

Lemma str_app_nil_r (s : string) : (s +:+ "" = s)%string.
Proof. induction s as [|c s IH]; [done|]. by rewrite str_app_cons, IH. Qed.

Lemma str_app_nil_inv (s t : string) : (s +:+ t = "")%string → s = "" ∧ t = "".
Proof. by destruct s. Qed.

Lemma str_app_inj_l (p s t : string) : (p +:+ s = p +:+ t)%string → s = t.
Proof. induction p as [|c p IH]; [done|]. rewrite !str_app_cons. intros [= E]. auto. Qed.

(** Two ways of cutting a string: one cut is inside a part of the other. *)
Lemma str_app_split (s t s' t' : string) :
  (s +:+ t = s' +:+ t')%string →
  (∃ v, s' = s +:+ v ∧ t = v +:+ t')%string ∨ (∃ v, s = s' +:+ v ∧ t' = v +:+ t)%string.
Proof.
  revert s'. induction s as [|c s IH]; intros [|c' s'] E.
  - left. by exists "". - left. by exists (String c' s'). - right. by exists (String c s).
  - rewrite !str_app_cons in E. injection E as <- E.
    destruct (IH _ E) as [(v & -> & ->)|(v & -> & ->)]; [left|right]; by exists v.
Qed.

(** [c + s] repeated [n] times in front. *)
Fixpoint str_prefix_n (n : nat) (p s : string) : string :=
  match n with O => s | S n' => (p +:+ str_prefix_n n' p s)%string end.

Lemma str_length_prefix_n n p s :
  String.length (str_prefix_n n p s) = n * String.length p + String.length s.
Proof. induction n as [|n IH]; simpl; [done|]. rewrite str_length_app, IH. lia. Qed.

(** [strings.ToLower] on ASCII letters; other bytes are unchanged. *)
Definition ascii_lower (c : ascii) : ascii :=
  let n := nat_of_ascii c in
  if decide (65 <= n <= 90) then ascii_of_nat (n + 32) else c.

Fixpoint to_lower (s : string) : string :=
  match s with
  | EmptyString => EmptyString
  | String c s' => String (ascii_lower c) (to_lower s')
  end.

Lemma ascii_lower_idemp c : ascii_lower (ascii_lower c) = ascii_lower c.
Proof. destruct c as [[] [] [] [] [] [] [] []]; reflexivity. Qed.

Lemma to_lower_idemp s : to_lower (to_lower s) = to_lower s.
Proof. induction s as [|c s IH]; simpl; [done|]. by rewrite ascii_lower_idemp, IH. Qed.

(** ** Map iteration

    Go iterates over a map in an unspecified order.  The model of a [range]
    loop takes the order from this class: theorems hold for every order. *)

Class MapRange : Type := {
  map_range : ∀ {V : Type}, gmap string V → list (string * V);
  map_range_perm : ∀ {V : Type} (m : gmap string V), map_range m ≡ₚ map_to_list m;
}.

(** The order used to evaluate examples. *)
Definition canonical_range : MapRange :=
  {| map_range := λ V m, map_to_list m; map_range_perm := λ V m, Permutation_refl _ |}.

Section map_range_facts.
Context `{MR : MapRange} {V : Type}.
Implicit Type m : gmap string V.

Lemma elem_of_map_range m k v : (k, v) ∈ map_range m ↔ m !! k = Some v.
Proof. by rewrite map_range_perm, elem_of_map_to_list. Qed.

Lemma NoDup_map_range_fst m : NoDup (map_range m).*1.
Proof. rewrite map_range_perm. apply NoDup_fst_map_to_list. Qed.

Lemma map_range_nil_inv m : map_range m = [] → m = ∅.
Proof.
  intros H. apply map_empty; intros k. destruct (m !! k) as [v|] eqn:E; [|done].
  apply elem_of_map_range in E. rewrite H in E. by apply elem_of_nil in E.
Qed.

Lemma length_map_range m : length (map_range m) = size m.
Proof. by rewrite map_range_perm, length_map_to_list. Qed.
End map_range_facts.

(** ** Options *)

Lemma fmap_Some_ext {A B} (f g : A → B) (o : option A) :
  (∀ x, o = Some x → f x = g x) → f <$> o = g <$> o.
Proof. intros H. destruct o as [x|]; [|done]. simpl. by rewrite H. Qed.

Lemma fmap_Some_id {A} (f : A → A) (o : option A) :
  (∀ x, o = Some x → f x = x) → f <$> o = o.
Proof. intros H. destruct o as [x|]; [|done]. simpl. by rewrite H. Qed.

Lemma fmap_of_Some {A B} (f : A → B) x : f <$> Some x = Some (f x).
Proof. done. Qed.

(** ** Lists: taking the last element off a slice used as a stack *)

Definition pop_last {A} (l : list A) : option A * list A :=
  match last l with
  | Some x => (Some x, take (length l - 1) l)
  | None => (None, l)
  end.

Lemma pop_last_snoc {A} (l : list A) x : pop_last (l ++ [x]) = (Some x, l).
Proof.
  unfold pop_last. rewrite last_snoc, length_app, take_app_length'; [done|simpl; lia].
Qed.

Lemma pop_last_nil {A} : pop_last (@nil A) = (None, []).
Proof. done. Qed.

Lemma pop_last_fst {A} (l : list A) : (pop_last l).1 = last l.
Proof. unfold pop_last. by destruct (last l). Qed.

(** The two shapes of a stack pop. *)
Lemma pop_last_cases {A} (l : list A) :
  (l = [] ∧ pop_last l = (None, [])) ∨ (∃ x l', l = l' ++ [x] ∧ pop_last l = (Some x, l')).
Proof.
  destruct l as [|x l'] using rev_ind; [by left|]. right. exists x, l'.
  by rewrite pop_last_snoc.
Qed.
