(* ===== verification/Text.v ===== *)
(** * Text: the string functions of Go's standard library that the Redis code uses

    [strings.Split] on a single character, the order of strings,
    [strconv.Atoi] and the decimal form that [%d] prints. *)

From S2P Require Import Prelude.

(** ** strings.Split(s, sep) for a separator of one character *)

Fixpoint str_split (sep : ascii) (s : string) : list string :=
  match s with
  | EmptyString => [EmptyString]
  | String c s' =>
      if decide (c = sep) then EmptyString :: str_split sep s'
      else match str_split sep s' with
           | p :: ps => String c p :: ps
           | [] => [String c EmptyString]
           end
  end.

Fixpoint str_all (P : ascii → bool) (s : string) : bool :=
  match s with EmptyString => true | String c s' => P c && str_all P s' end.

Lemma str_all_app P s t : str_all P (s +:+ t) = str_all P s && str_all P t.
Proof. induction s as [|c s IH]; [done|]. rewrite str_app_cons; simpl. by rewrite IH, andb_assoc. Qed.

Lemma str_all_false_inv P s :
  str_all P s = false → ∃ v x w, s = (v +:+ String x w)%string ∧ P x = false.
Proof.
  induction s as [|c s IH]; simpl; [done|]. destruct (P c) eqn:Hc; simpl.
  - intros (v & x & w & -> & Hx)%IH. by exists (String c v), x, w.
  - intros _. by exists "", c, s.
Qed.

Lemma str_split_none sep s :
  str_all (λ c, negb (bool_decide (c = sep))) s = true → str_split sep s = [s].
Proof.
  induction s as [|c s IH]; simpl; [done|]. intros [Hc Hs]%andb_prop.
  rewrite decide_False; [|by case_bool_decide]. by rewrite IH.
Qed.

Lemma str_split_app sep s t :
  str_all (λ c, negb (bool_decide (c = sep))) s = true →
  str_split sep (s +:+ String sep t) = s :: str_split sep t.
Proof.
  induction s as [|c s IH]; intros H.
  - simpl. by rewrite decide_True.
  - rewrite str_app_cons. simpl in H |- *. apply andb_prop in H as [Hc Hs].
    rewrite decide_False; [|by case_bool_decide]. by rewrite IH.
Qed.

(** ** Decimal digits *)

Definition is_digit (c : ascii) : bool := bool_decide (48 <= nat_of_ascii c <= 57).
Definition digit_val (c : ascii) : Z := Z.of_nat (nat_of_ascii c) - 48.
Definition digit (d : Z) : ascii := ascii_of_nat (Z.to_nat (48 + d)).

Definition is_digits (s : string) : bool := str_all is_digit s.

(** The number a string of digits stands for. *)
Fixpoint val_from (acc : Z) (s : string) : Z :=
  match s with EmptyString => acc | String c s' => val_from (10 * acc + digit_val c) s' end.
Definition val (s : string) : Z := val_from 0 s.

(** [strconv.Atoi]: the value, and whether there is an error.  On a syntax error
    the value is 0, out of range it is the nearest int. *)
Definition atoi_digits (neg : bool) (s : string) : Z * bool :=
  if decide (s = "") then (0%Z, true)
  else if is_digits s then
    let v := if neg then (- val s)%Z else val s in
    (sat_i64 v, negb (bool_decide (in_i64 v)))
  else (0%Z, true).

Definition atoi (s : string) : Z * bool :=
  match s with
  | String "-"%char s' => atoi_digits true s'
  | String "+"%char s' => atoi_digits false s'
  | _ => atoi_digits false s
  end.

(** [%d] of an int. *)
Fixpoint itoa_loop (fuel : nat) (n : Z) (acc : string) : string :=
  match fuel with
  | O => acc
  | S fuel' =>
      let acc' := String (digit (n mod 10)) acc in
      if decide (n / 10 = 0)%Z then acc' else itoa_loop fuel' (n / 10) acc'
  end.

(** 20 digits are enough for 64 bits. *)
Definition itoa (n : Z) : string :=
  if decide (n < 0)%Z then String "-"%char (itoa_loop 20 (- n) "") else itoa_loop 20 n "".

Lemma is_digit_range c : is_digit c = true → (0 <= digit_val c <= 9)%Z.
Proof. unfold is_digit, digit_val. intros H%bool_decide_eq_true. lia. Qed.

Lemma digit_val_digit d : (0 <= d <= 9)%Z → digit_val (digit d) = d ∧ is_digit (digit d) = true.
Proof.
  intros H. unfold digit_val, is_digit, digit.
  rewrite nat_ascii_embedding by lia. split; [lia|]. apply bool_decide_eq_true. lia.
Qed.

Lemma val_from_app acc s t : val_from acc (s +:+ t) = val_from (val_from acc s) t.
Proof. revert acc; induction s as [|c s IH]; intros acc; [done|]. rewrite str_app_cons; simpl. apply IH. Qed.

(** The accumulated value dominates what follows. *)
Lemma val_from_bounds acc s :
  is_digits s = true →
  (acc * 10 ^ Z.of_nat (String.length s) <= val_from acc s < (acc + 1) * 10 ^ Z.of_nat (String.length s))%Z.
Proof.
  revert acc; induction s as [|c s IH]; intros acc H; cbn [val_from String.length]; [lia|].
  simpl in H. apply andb_prop in H as [Hc Hs]. apply is_digit_range in Hc. apply (IH (10 * acc + digit_val c)%Z) in Hs.
  rewrite Nat2Z.inj_succ, Z.pow_succ_r by lia.
  assert (0 < 10 ^ Z.of_nat (String.length s))%Z by (apply Z.pow_pos_nonneg; lia). nia.
Qed.

Lemma val_nonneg s : is_digits s = true → (0 <= val s)%Z.
Proof. intros H. pose proof (val_from_bounds 0 s H). unfold val. lia. Qed.

(** ** The order of strings is the order of numbers, for equally long numerals *)

Lemma digits_compare s t acc :
  is_digits s = true → is_digits t = true → String.length s = String.length t →
  String.compare s t = (val_from acc s ?= val_from acc t)%Z.
Proof.
  revert t acc; induction s as [|c s IH]; intros [|d t] acc Hs Ht Hl; cbn in Hl; try lia.
  { simpl. by rewrite Z.compare_refl. }
  simpl in Hs, Ht. apply andb_prop in Hs as [Hc Hs]. apply andb_prop in Ht as [Hd Ht].
  cbn [String.compare val_from]. injection Hl as Hl.
  assert (Hcd : Ascii.compare c d = (digit_val c ?= digit_val d)%Z).
  { unfold Ascii.compare, digit_val, nat_of_ascii. rewrite !N_nat_Z, <- N2Z.inj_compare.
    destruct (Z.compare_spec (Z.of_N (N_of_ascii c)) (Z.of_N (N_of_ascii d))); symmetry;
      [apply Z.compare_eq_iff|apply Z.compare_lt_iff|apply Z.compare_gt_iff]; lia. }
  rewrite Hcd. apply is_digit_range in Hc, Hd.
  pose proof (val_from_bounds (10 * acc + digit_val c) s Hs) as Bs.
  pose proof (val_from_bounds (10 * acc + digit_val d) t Ht) as Bt. rewrite <- Hl in Bt.
  assert (0 < 10 ^ Z.of_nat (String.length s))%Z by (apply Z.pow_pos_nonneg; lia).
  destruct (Z.compare_spec (digit_val c) (digit_val d)) as [E|E|E].
  - rewrite E. by apply IH.
  - symmetry. apply Z.compare_lt_iff. nia.
  - symmetry. apply Z.compare_gt_iff. nia.
Qed.

Lemma digits_ltb s t :
  is_digits s = true → is_digits t = true → String.length s = String.length t →
  String.ltb s t = bool_decide (val s < val t)%Z.
Proof.
  intros Hs Ht Hl. unfold String.ltb. rewrite (digits_compare s t 0 Hs Ht Hl). fold (val s) (val t).
  destruct (Z.compare_spec (val s) (val t)); symmetry;
    [apply bool_decide_eq_false|apply bool_decide_eq_true|apply bool_decide_eq_false]; lia.
Qed.

(** ** Atoi on digits, and round trips *)

Lemma atoi_val s :
  is_digits s = true → s ≠ "" → in_i64 (val s) → atoi s = (val s, false).
Proof.
  intros Hd Hne Hi. assert (E : atoi s = atoi_digits false s).
  { destruct s as [|c s]; [done|]. simpl in Hd. apply andb_prop in Hd as [Hc _].
    destruct c as [[] [] [] [] [] [] [] []]; try done; discriminate Hc. }
  rewrite E. unfold atoi_digits. rewrite decide_False, Hd by done.
  rewrite sat_i64_small by done. by rewrite bool_decide_true.
Qed.

Lemma itoa_loop_spec fuel n acc :
  (0 <= n < 10 ^ Z.of_nat fuel)%Z → fuel ≠ 0 → is_digits acc = true →
  is_digits (itoa_loop fuel n acc) = true ∧ itoa_loop fuel n acc ≠ "" ∧
  val_from 0 (itoa_loop fuel n acc) = val_from n acc.
Proof.
  revert n acc; induction fuel as [|fuel IH]; intros n acc Hn H0 Ha; [done|].
  destruct (digit_val_digit (n mod 10)) as [Hv Hd]; [pose proof (Z.mod_pos_bound n 10); lia|].
  cbn [itoa_loop]. case_decide as Hq.
  - assert (n mod 10 = n)%Z as E by (pose proof (Z.div_mod n 10); lia).
    split_and!; [unfold is_digits; cbn [str_all]; by rewrite Hd|done|]. cbn [val_from]. rewrite Hv, E. f_equal; lia.
  - rewrite Nat2Z.inj_succ, Z.pow_succ_r in Hn by lia.
    assert (0 <= n / 10 < 10 ^ Z.of_nat fuel)%Z.
    { split; [apply Z.div_pos; lia|]. apply Z.div_lt_upper_bound; lia. }
    destruct (IH (n / 10)%Z (String (digit (n mod 10)) acc)) as (H1 & H2 & H3); [done| |unfold is_digits; cbn [str_all]; by rewrite Hd|].
    { intros ->. simpl in *. lia. }
    split_and!; [done..|]. rewrite H3. cbn [val_from]. rewrite Hv. f_equal.
    pose proof (Z.div_mod n 10). lia.
Qed.

Lemma itoa_spec n :
  (0 <= n < two63)%Z → is_digits (itoa n) = true ∧ itoa n ≠ "" ∧ val (itoa n) = n.
Proof.
  intros Hn. unfold itoa. rewrite decide_False by lia.
  destruct (itoa_loop_spec 20 n "") as (H1 & H2 & H3); [unfold two63 in *; lia|done|done|].
  split_and!; [done..|]. exact H3.
Qed.

Lemma atoi_itoa n : in_i64 n → (atoi (itoa n)).1 = n.
Proof.
  intros Hn. destruct (decide (n < 0)%Z) as [Hneg|Hpos].
  - unfold itoa. rewrite decide_True by done.
    destruct (itoa_loop_spec 20 (- n) "") as (H1 & H2 & H3); [unfold in_i64, two63 in *; lia|done|done|].
    unfold atoi, atoi_digits. rewrite decide_False, H1 by done. unfold val. rewrite H3.
    change (val_from (- n) "") with (- n)%Z. rewrite Z.opp_involutive. by apply sat_i64_small.
  - destruct (itoa_spec n) as (H1 & H2 & H3); [unfold in_i64 in Hn; lia|].
    rewrite atoi_val; [by rewrite H3|done|done|by rewrite H3].
Qed.

Lemma digits_no_dash s : is_digits s = true → str_all (λ c, negb (bool_decide (c = "-"%char))) s = true.
Proof.
  induction s as [|c s IH]; simpl; [done|]. intros [Hc Hs]%andb_prop. rewrite IH by done.
  rewrite andb_true_r. apply negb_true_iff, bool_decide_eq_false. intros ->. discriminate Hc.
Qed.
