(* ===== verification/Regexp.v ===== *)
(** * Regexp: the fragment of Go's regexp package that the server uses

    [regexp.FindStringSubmatch] for an anchored expression built from character
    classes, greedy repetition of a class, greedy options and groups.  The matcher
    tries the alternatives in Perl's order, as Go documents.  [matches] is the
    language an expression describes, and [run_priority] says which of the possible
    matches of a repetition is found. *)

From S2P Require Import Prelude Text.

Inductive re :=
| Eps
| Chr (p : ascii → bool)
| Seq (a b : re)
| Star (p : ascii → bool)
| Opt (a : re)
| Grp (n : nat) (a : re).

Definition Plus (p : ascii → bool) : re := Seq (Chr p) (Star p).

(** A literal string. *)
Fixpoint Lit (s : string) : re :=
  match s with
  | EmptyString => Eps
  | String c s' => Seq (Chr (λ x, bool_decide (x = c))) (Lit s')
  end.

(** The text between two positions, given what remains at each. *)
Definition consumed (s rest : string) : string := str_take (String.length s - String.length rest) s.

(** The texts of the groups. *)
Notation caps := (gmap nat string).

Fixpoint star (p : ascii → bool) {A} (k : string → option A) (s : string) : option A :=
  match s with
  | String a s' =>
      if p a then match star p k s' with Some x => Some x | None => k s end else k s
  | EmptyString => k s
  end.

Fixpoint run {A} (r : re) (s : string) (c : caps) (k : string → caps → option A) : option A :=
  match r with
  | Eps => k s c
  | Chr p => match s with String a s' => if p a then k s' c else None | EmptyString => None end
  | Seq a b => run a s c (λ s' c', run b s' c' k)
  | Star p => star p (λ s', k s' c) s
  | Opt a => match run a s c k with Some x => Some x | None => k s c end
  | Grp n a => run a s c (λ s' c', k s' (<[n := consumed s s']> c'))
  end.

(** [^r$]: the whole text and the groups [1..n], "" for a group that took no part;
    nil if there is no match. *)
Definition FindStringSubmatch (r : re) (n : nat) (s : string) : list string :=
  match run r s ∅ (λ rest c, if decide (rest = "") then Some c else None) with
  | Some c => s :: ((λ i, default "" (c !! i)) <$> seq 1 n)
  | None => []
  end.

(** ** What an expression describes *)

Inductive matches : re → string → Prop :=
| matches_eps : matches Eps ""
| matches_chr p c : p c = true → matches (Chr p) (String c "")
| matches_seq a b s t : matches a s → matches b t → matches (Seq a b) (s +:+ t)
| matches_star p s : str_all p s = true → matches (Star p) s
| matches_opt_none a : matches (Opt a) ""
| matches_opt_some a s : matches a s → matches (Opt a) s
| matches_grp n a s : matches a s → matches (Grp n a) s.

(** ** The order of the alternatives *)

Lemma star_none {A} p (k : string → option A) s :
  star p k s = None ↔ ∀ t u, s = (t +:+ u)%string → str_all p t = true → k u = None.
Proof.
  induction s as [|a s IH]; simpl.
  - split; [|by intros H; apply (H "" "")]. intros H t u E _. symmetry in E. by apply str_app_nil_inv in E as [_ ->].
  - split.
    + intros H [|b t] u E Ht.
      * rewrite <- (E : String a s = u). by destruct (p a), (star p k s).
      * rewrite str_app_cons in E. injection E as <- E. simpl in Ht. apply andb_prop in Ht as [Hp Ht].
        rewrite Hp in H. destruct (star p k s) eqn:Es; [done|]. by apply (proj1 IH eq_refl t).
    + intros H. rewrite (H "" (String a s)) by done. destruct (p a) eqn:Hp; [|done].
      rewrite (proj2 IH); [done|]. intros t u -> Ht. apply (H (String a t)); [done|]. simpl. by rewrite Hp.
Qed.

(** The longest repetition that lets the rest match is taken. *)
Lemma star_some {A} p (k : string → option A) s x :
  star p k s = Some x →
  ∃ t u, s = (t +:+ u)%string ∧ str_all p t = true ∧ k u = Some x ∧
    ∀ v w, u = (v +:+ w)%string → v ≠ "" → str_all p v = true → k w = None.
Proof.
  induction s as [|a s IH]; simpl; intros H.
  - exists "", "". split_and!; [done..|]. intros v w E Hv _. symmetry in E. by apply str_app_nil_inv in E as [-> _].
  - destruct (p a) eqn:Hp; [destruct (star p k s) as [y|] eqn:Es|].
    + injection H as ->. destruct (IH eq_refl) as (t & u & -> & Ht & Hk & Hmax).
      exists (String a t), u. split_and!; [done| |done..]. simpl. by rewrite Hp.
    + exists "", (String a s). split_and!; [done..|]. intros [|b v] w E Hv Ha; [done|].
      rewrite str_app_cons in E. injection E as <- E. simpl in Ha. apply andb_prop in Ha as [_ Ha].
      by apply (proj1 (star_none p k s) Es v).
    + exists "", (String a s). split_and!; [done..|]. intros [|b v] w E Hv Ha; [done|].
      rewrite str_app_cons in E. injection E as <- E. simpl in Ha. by rewrite Hp in Ha.
Qed.

(** ** Matching and the language *)

(** A continuation whose success does not depend on the groups. *)
Definition caps_free {A} (k : string → caps → option A) : Prop := ∀ u c c', k u c = None → k u c' = None.

Lemma run_none {A} r : ∀ s c (k : string → caps → option A), caps_free k →
  run r s c k = None ↔ ∀ t u, s = (t +:+ u)%string → matches r t → k u c = None.
Proof.
  induction r as [|p|a IHa b IHb|p|a IHa|n a IHa]; intros s c k Hk; simpl.
  - split; [|intros H; by apply (H "" s); [|constructor]]. intros H t u -> Ht. by inversion Ht; subst.
  - split.
    + intros H t u -> Ht. inversion Ht as [|p' c' Hp| | | | |]; subst. simpl in H. by rewrite Hp in H.
    + intros H. destruct s as [|a s]; [done|]. destruct (p a) eqn:Hp; [|done].
      by apply (H (String a "") s); [|constructor].
  - assert (Hb : caps_free (λ s' c', run b s' c' k)).
    { intros u c1 c2. rewrite !IHb by done. intros H t u' E Ht. by apply (Hk _ c1), (H t). }
    rewrite IHa by done. split.
    + intros H t u -> Ht. inversion Ht as [| |a' b' t1 t2 H1 H2| | | |]; subst.
      pose proof (H t1 (t2 +:+ u)%string (str_app_assoc _ _ _) H1) as H3. cbn beta in H3.
      rewrite IHb in H3 by done. by apply (H3 t2).
    + intros H t u -> Ht. rewrite IHb by done. intros t2 u2 -> Ht2.
      apply (H (t +:+ t2)%string); [by rewrite str_app_assoc|]. by constructor.
  - rewrite star_none. split; intros H t u E Ht; apply (H t u E); [by inversion Ht|by constructor].
  - split.
    + intros H t u -> Ht. destruct (run a _ c k) eqn:Ea; [done|]. inversion Ht; subst; [done|].
      by apply (proj1 (IHa _ _ _ Hk) Ea t).
    + intros H. rewrite (proj2 (IHa _ _ _ Hk)); [by apply (H "" s); [|constructor]|].
      intros t u E Ht. apply (H t u E). by constructor.
  - rewrite IHa by (intros u c1 c2; apply Hk). split.
    + intros H t u E Ht. inversion Ht; subst. eapply Hk, H; done.
    + intros H t u E Ht. eapply Hk, (H t u E). by constructor.
Qed.

Lemma run_some {A} r : ∀ s c (k : string → caps → option A) x,
  run r s c k = Some x → ∃ t u c', s = (t +:+ u)%string ∧ matches r t ∧ k u c' = Some x.
Proof.
  induction r as [|p|a IHa b IHb|p|a IHa|n a IHa]; intros s c k x H; simpl in H.
  - exists "", s, c. split_and!; [done|constructor|done].
  - destruct s as [|a s]; [done|]. destruct (p a) eqn:Hp; [|done].
    exists (String a ""), s, c. split_and!; [done|by constructor|done].
  - apply IHa in H as (t & u & c' & -> & Ht & H). apply IHb in H as (t2 & u2 & c2 & -> & Ht2 & H).
    exists (t +:+ t2)%string, u2, c2. split_and!; [by rewrite str_app_assoc|by constructor|done].
  - apply star_some in H as (t & u & -> & Ht & H & _). exists t, u, c. split_and!; [done|by constructor|done].
  - destruct (run a s c k) as [y|] eqn:Ea.
    + injection H as ->. apply IHa in Ea as (t & u & c' & -> & Ht & Ea). exists t, u, c'.
      split_and!; [done|by constructor|done].
    + exists "", s, c. split_and!; [done|constructor|done].
  - apply IHa in H as (t & u & c' & -> & Ht & H). eexists t, u, _. split_and!; [done|by constructor|exact H].
Qed.

(** Matching decides the language of the expression: FindStringSubmatch finds a
    match of the anchored expression exactly when the text belongs to the language
    the expression describes, whatever the order in which alternatives are tried. *)
Theorem FindStringSubmatch_decides r n s : FindStringSubmatch r n s ≠ [] ↔ matches r s.
Proof.
  unfold FindStringSubmatch. set (k := λ (rest : string) (c : caps), if decide (rest = "") then Some c else None).
  assert (Hk : caps_free k) by (intros u c c'; unfold k; by case_decide).
  destruct (run r s ∅ k) as [c|] eqn:E.
  - split; [|done]. intros _. apply run_some in E as (t & u & c' & -> & Ht & Hu). unfold k in Hu.
    case_decide; [|done]. subst. by rewrite str_app_nil_r.
  - split; [done|]. intros Hm. exfalso. rewrite run_none in E by done.
    apply (E s "") in Hm; [done|by rewrite str_app_nil_r].
Qed.
