(* ===== verification/Calendar.v ===== *)
(** * Calendar: dates of Go's time package

    The civil date of a day, as [time.Time] computes it, and the layout
    "20060102".  [day_number] is the reference: days counted by the leap years and
    the lengths of the months of the Gregorian calendar. *)

From S2P Require Import Prelude Text.

#[local] Open Scope Z_scope.

(** Year, month and day of a day counted from 1 January 1970. *)
Definition civil (days : Z) : Z * Z * Z :=
  let z := days + 719468 in
  let era := z / 146097 in
  let doe := z mod 146097 in
  let yoe := (doe - doe / 1460 + doe / 36524 - doe / 146096) / 365 in
  let doy := doe - (365 * yoe + yoe / 4 - yoe / 100) in
  let mp := (5 * doy + 2) / 153 in
  let d := doy - (153 * mp + 2) / 5 + 1 in
  let m := if decide (mp < 10) then mp + 3 else mp - 9 in
  (yoe + era * 400 + (if decide (m <= 2) then 1 else 0), m, d).

(** ** The reference *)

Definition leap (y : Z) : bool :=
  bool_decide (y mod 4 = 0) && (negb (bool_decide (y mod 100 = 0)) || bool_decide (y mod 400 = 0)).

(** Days of the months before [m] in a year of 365 days. *)
Definition days_before_month (m : Z) : Z :=
  default 0 ([0; 31; 59; 90; 120; 151; 181; 212; 243; 273; 304; 334] !! Z.to_nat (m - 1)).
Definition days_in_month (y m : Z) : Z :=
  if decide (m = 2) then (if leap y then 29 else 28)
  else if decide (m = 4 ∨ m = 6 ∨ m = 9 ∨ m = 11) then 30 else 31.

(** Leap years up to [y]. *)
Definition leaps_to (y : Z) : Z := y / 4 - y / 100 + y / 400.

Definition day_number (date : Z * Z * Z) : Z :=
  let '(y, m, d) := date in
  365 * (y - 1970) + (leaps_to (y - 1) - leaps_to 1969) + days_before_month m
  + (if leap y && bool_decide (2 < m) then 1 else 0) + (d - 1).

Definition valid_date (date : Z * Z * Z) : Prop :=
  let '(y, m, d) := date in 1 <= m <= 12 ∧ 1 <= d <= days_in_month y m.

(** The year of the 400-year era, counted from March, and the day in it. *)
Lemma yoe_bounds doe :
  0 <= doe < 146097 →
  let yoe := (doe - doe / 1460 + doe / 36524 - doe / 146096) / 365 in
  0 <= yoe < 400 ∧ 0 <= doe - (365 * yoe + yoe / 4 - yoe / 100) ∧
  doe < 365 * (yoe + 1) + (yoe + 1) / 4 - (yoe + 1) / 100 + (yoe + 1) / 400.
Proof. intros H yoe. unfold yoe. Z.div_mod_to_equations. lia. Qed.

Lemma leap_spec y : leaps_to y = leaps_to (y - 1) + (if leap y then 1 else 0).
Proof.
  unfold leaps_to, leap. repeat case_bool_decide; simpl; Z.div_mod_to_equations; lia.
Qed.

Ltac solve_month :=
  cbv zeta; repeat case_decide; try (exfalso; lia);
  repeat match goal with |- context [days_before_month ?x] =>
    let v := eval vm_compute in (days_before_month x) in change (days_before_month x) with v end;
  unfold days_in_month; split_and!; try (intros ?; split_and!);
  try (intros; repeat case_decide; try destruct (leap _); Z.div_mod_to_equations; lia).

(** Month and day of a day in the year that starts in March, by the month's index. *)
Lemma month_table mp doy :
  mp ∈ [0; 1; 2; 3; 4; 5; 6; 7; 8; 9; 10; 11] → 0 <= doy <= 365 → 153 * mp <= 5 * doy + 2 < 153 * mp + 153 →
  let d := doy - (153 * mp + 2) / 5 + 1 in
  let m := if decide (mp < 10) then mp + 3 else mp - 9 in
  1 <= m <= 12 ∧ 1 <= d ∧
  (m <= 2 → doy = days_before_month m + 306 + (d - 1) ∧ d <= if decide (m = 2) then 29 else 31) ∧
  (2 < m → doy = days_before_month m - 59 + (d - 1) ∧ ∀ y, d <= days_in_month y m).
Proof.
  intros Hin Hdoy Hmp.
  repeat (apply elem_of_cons in Hin as [->|Hin]; [solve_month|]).
  by apply elem_of_nil in Hin.
Qed.

Lemma month_day doy :
  0 <= doy <= 365 →
  let mp := (5 * doy + 2) / 153 in mp ∈ [0; 1; 2; 3; 4; 5; 6; 7; 8; 9; 10; 11] ∧ 153 * mp <= 5 * doy + 2 < 153 * mp + 153.
Proof.
  intros H mp. assert (Hmp : 0 <= mp <= 11 ∧ 153 * mp <= 5 * doy + 2 < 153 * mp + 153)
    by (unfold mp; Z.div_mod_to_equations; lia).
  split; [|lia]. rewrite !elem_of_cons. lia.
Qed.

Lemma leaps_era y era : leaps_to (y + era * 400) = leaps_to y + 97 * era.
Proof. unfold leaps_to. Z.div_mod_to_equations. lia. Qed.

(** A date whose year starts in March, in the reference count. *)
Lemma day_number_march y m d doy :
  1 <= m <= 12 → 1 <= d →
  (m <= 2 → doy = days_before_month m + 306 + (d - 1)) → (2 < m → doy = days_before_month m - 59 + (d - 1)) →
  day_number (y + (if decide (m <= 2) then 1 else 0), m, d) = 365 * y + leaps_to y + doy - 719468.
Proof.
  intros Hm Hd H1 H2. unfold day_number. change (leaps_to 1969) with 477. pose proof (leap_spec y) as Hl.
  case_decide as Hc.
  - specialize (H1 Hc). rewrite (bool_decide_false (2 < m)), andb_false_r by lia.
    replace (y + 1 - 1) with y by lia. lia.
  - specialize (H2 ltac:(lia)). rewrite (bool_decide_true (2 < m)), andb_true_r by lia. rewrite Z.add_0_r. lia.
Qed.

Lemma civil_spec n : valid_date (civil n) ∧ day_number (civil n) = n.
Proof.
  unfold civil. set (z := n + 719468). set (era := z / 146097). set (doe := z mod 146097).
  assert (Hdoe : 0 <= doe < 146097) by (unfold doe; apply Z.mod_pos_bound; lia).
  assert (Hz : z = 146097 * era + doe) by (unfold era, doe; apply Z.div_mod; lia).
  destruct (yoe_bounds doe Hdoe) as (Hy & Hd0 & Hd1).
  set (yoe := (doe - doe / 1460 + doe / 36524 - doe / 146096) / 365) in *.
  set (doy := doe - (365 * yoe + yoe / 4 - yoe / 100)) in *.
  assert (Hleap : doy <= 364 + (if leap (yoe + era * 400 + 1) then 1 else 0)).
  { pose proof (leap_spec (yoe + era * 400 + 1)) as Hl. replace (yoe + era * 400 + 1 - 1) with (yoe + era * 400) in Hl by lia.
    replace (yoe + era * 400 + 1) with (yoe + 1 + era * 400) in * by lia. rewrite !leaps_era in Hl.
    unfold leaps_to in Hl. unfold doy. rewrite (Z.div_small yoe 400) in Hl by lia. lia. }
  assert (Hdoy : 0 <= doy <= 365) by (destruct (leap _); lia).
  destruct (month_day doy Hdoy) as [Hin Hmp]. destruct (month_table _ doy Hin Hdoy Hmp) as (Hm & Hd & H1 & H2).
  cbv zeta in *. set (mp := (5 * doy + 2) / 153) in *. set (m := if decide (mp < 10) then mp + 3 else mp - 9) in *.
  set (d := doy - (153 * mp + 2) / 5 + 1) in *. split.
  - split; [done|]. split; [done|]. destruct (decide (m <= 2)) as [Hc|Hc]; [|apply H2; lia].
    destruct (H1 Hc) as [E Hb]. unfold days_in_month. repeat case_decide; try lia.
    assert (Em : days_before_month m = 31) by (by replace m with 2 by lia). destruct (leap _); lia.
  - rewrite (day_number_march _ m d doy) by naive_solver. rewrite leaps_era. unfold leaps_to.
    rewrite (Z.div_small yoe 400) by lia. unfold doy, z in *. lia.
Qed.

Lemma civil_valid n : valid_date (civil n).
Proof. apply civil_spec. Qed.

(** Dates are right: the civil date of the [n]-th day since 1 January 1970 is a
    date of the Gregorian calendar, and counting its days by leap years and
    lengths of months gives [n]. *)
Theorem civil_day_number n : valid_date (civil n) ∧ day_number (civil n) = n.
Proof. apply civil_spec. Qed.

(** ** The layout "20060102" *)

(** The last [w] digits of [n]. *)
Fixpoint digits (w : nat) (n : Z) : string :=
  match w with
  | O => ""
  | S w' => (digits w' (n / 10) +:+ String (digit (n mod 10)) "")%string
  end.

(** A number in at least [w] digits, as the time package writes it. *)
Definition pad (w : nat) (n : Z) : string :=
  let abs := Z.abs n in
  let s := if decide (abs < 10 ^ Z.of_nat w) then digits w abs else itoa abs in
  if decide (n < 0) then ("-" +:+ s)%string else s.

Definition format_20060102 (date : Z * Z * Z) : string :=
  let '(y, m, d) := date in (pad 4 y +:+ pad 2 m +:+ pad 2 d)%string.

(** Reading the layout. *)
Definition parse_20060102 (s : string) : Z * Z * Z :=
  (val (str_take 4 s), val (str_take 2 (str_drop 4 s)), val (str_drop 6 s)).

Lemma val_from_snoc acc s c : val_from acc (s +:+ String c "") = 10 * val_from acc s + digit_val c.
Proof. by rewrite val_from_app. Qed.

Lemma digits_spec w n : 0 <= n < 10 ^ Z.of_nat w → String.length (digits w n) = w ∧ val (digits w n) = n.
Proof.
  revert n. induction w as [|w IH]; intros n Hn; [split; [done|]; change (10 ^ Z.of_nat 0) with 1 in Hn; change (val (digits 0 n)) with 0; lia|].
  rewrite Nat2Z.inj_succ, Z.pow_succ_r in Hn by lia. cbn [digits].
  destruct (IH (n / 10)) as [H1 H2]; [split; [apply Z.div_pos; lia|apply Z.div_lt_upper_bound; lia]|].
  destruct (digit_val_digit (n mod 10)) as [Hv _]; [pose proof (Z.mod_pos_bound n 10); lia|].
  split; [rewrite str_length_app, H1; simpl; lia|]. unfold val in *. rewrite val_from_snoc, H2, Hv.
  pose proof (Z.div_mod n 10). lia.
Qed.

Lemma pad_spec w n : 0 <= n < 10 ^ Z.of_nat w → String.length (pad w n) = w ∧ val (pad w n) = n.
Proof.
  intros Hn. unfold pad. rewrite Z.abs_eq, decide_False, decide_True by lia. by apply digits_spec.
Qed.

Lemma str_take_app_length n s t : String.length s = n → str_take n (s +:+ t) = s.
Proof. intros <-. induction s as [|a s IH]; [by destruct t|]. rewrite str_app_cons. simpl. by rewrite IH. Qed.
Lemma str_drop_app_length n s t : String.length s = n → str_drop n (s +:+ t) = t.
Proof. intros <-. induction s as [|a s IH]; [by destruct t|]. rewrite str_app_cons. simpl. done. Qed.

Lemma format_parse y m d :
  0 <= y < 10000 → 0 <= m < 100 → 0 <= d < 100 →
  parse_20060102 (format_20060102 (y, m, d)) = (y, m, d) ∧ String.length (format_20060102 (y, m, d)) = 8%nat.
Proof.
  intros Hy Hm Hd. destruct (pad_spec 4 y Hy) as [Ly Vy]. destruct (pad_spec 2 m Hm) as [Lm Vm].
  destruct (pad_spec 2 d Hd) as [Ld Vd]. unfold format_20060102, parse_20060102.
  split; [|by rewrite !str_length_app, Ly, Lm, Ld].
  rewrite <- (str_app_assoc _ _ (pad 2 d)) at 3. rewrite (str_drop_app_length 6) by (by rewrite str_length_app, Ly, Lm).
  rewrite str_take_app_length, str_drop_app_length, str_take_app_length by done. congruence.
Qed.

Example today : format_20060102 (civil 18717) = "20210331".
Proof. reflexivity. Qed.
