(* ===== verification/Model.v ===== *)
(** * Model: messages, errors and clocks

    Packages [model] (model/messages.go and the data types of
    model/Messages.pb.go) and [util] (util/time.go).  A [[]byte] is its content
    as a [string]; where the code tells nil from empty the field is an [option].
    Pointer fields that a wire message may leave out ([Login.Address],
    [OutboundMessage.To], [ForwardedMessage.Message]) are options, and reading
    through an absent one panics.  Time is a number of nanoseconds since the
    Unix epoch. *)

From S2P Require Import Prelude.

#[local] Open Scope Z_scope.

Module util.

Definition nanosPerMilli : Z := 1000000.

(** [t.UnixNano()] is an [int64]; the division truncates. *)
Definition UnixMillis (t : Z) : Z := Z.quot (wrap_i64 t) nanosPerMilli.

Definition NowUnixMillis (now : Z) : Z := UnixMillis now.

Definition TimeFromMillis (millis : Z) : Z := wrap_i64 (millis * nanosPerMilli).

(** [time.Since] saturates at the bounds of [time.Duration]. *)
Definition DurationSince (now millis : Z) : Z := sat_i64 (now - TimeFromMillis millis).

End util.

Module model.

(** ** Messages.pb.go: data *)

Record Error := mkError { Error_Name : string; Error_Description : string }.

Record Address := mkAddress { Address_IdentityKey : string; Address_DeviceId : string }.

Record Configuration := mkConfiguration { Configuration_MaxAttachmentSize : Z }.

Record Login := mkLogin { Login_Address : option Address; Login_Nonce : string }.

Record AuthChallenge := mkAuthChallenge { AuthChallenge_Nonce : string }.

Record AuthResponse := mkAuthResponse {
  AuthResponse_Login : string;
  AuthResponse_Signature : string }.

Record Register := mkRegister {
  Register_SignedPreKey : string;
  Register_OneTimePreKeys : list string }.

Record RequestPreKeys := mkRequestPreKeys {
  RequestPreKeys_IdentityKey : string;
  RequestPreKeys_KnownDeviceIds : list string }.

(** [OneTimePreKey] is nil when none is left. *)
Record PreKey := mkPreKey {
  PreKey_DeviceId : string;
  PreKey_SignedPreKey : string;
  PreKey_OneTimePreKey : option string }.

Record PreKeys := mkPreKeys { PreKeys_PreKeys : list PreKey }.

(** [KeysRequested] is a [uint32]. *)
Record PreKeysLow := mkPreKeysLow { PreKeysLow_KeysRequested : Z }.

Record OutboundMessage := mkOutboundMessage {
  OutboundMessage_To : option Address;
  OutboundMessage_UnidentifiedSenderMessage : option string }.

Record InboundMessage := mkInboundMessage {
  InboundMessage_UnidentifiedSenderMessage : option string }.

(** [NumRequested] is an [int32]. *)
Record RequestUploadAuthorizations := mkRequestUploadAuthorizations {
  RequestUploadAuthorizations_NumRequested : Z }.

Record UploadAuthorization := mkUploadAuthorization {
  UploadAuthorization_UploadURL : string;
  UploadAuthorization_UploadFormData : gmap string string;
  UploadAuthorization_AuthorizationExpiresAt : Z;
  UploadAuthorization_MaxUploadSize : Z;
  UploadAuthorization_DownloadURL : string }.

Record UploadAuthorizations := mkUploadAuthorizations {
  UploadAuthorizations_Authorizations : list UploadAuthorization }.

Record FindChatNumberByShortNumber := mkFindChatNumberByShortNumber {
  FindChatNumberByShortNumber_ShortNumber : string }.

Record FindChatNumberByIdentityKey := mkFindChatNumberByIdentityKey {
  FindChatNumberByIdentityKey_IdentityKey : string }.

Record ChatNumber := mkChatNumber {
  ChatNumber_Number : string;
  ChatNumber_ShortNumber : string;
  ChatNumber_Domain : string }.

(** The [oneof] of a [Message]; [Ack] and [Unregister] carry no data. *)
Inductive isMessage_Payload :=
| Message_Ack
| Message_Error (e : Error)
| Message_Configuration (c : Configuration)
| Message_AuthChallenge (c : AuthChallenge)
| Message_AuthResponse (r : AuthResponse)
| Message_Register (r : Register)
| Message_Unregister
| Message_RequestPreKeys (r : RequestPreKeys)
| Message_PreKeys (p : PreKeys)
| Message_PreKeysLow (p : PreKeysLow)
| Message_RequestUploadAuthorizations (r : RequestUploadAuthorizations)
| Message_UploadAuthorizations (u : UploadAuthorizations)
| Message_OutboundMessage (o : OutboundMessage)
| Message_InboundMessage (i : InboundMessage)
| Message_FindChatNumberByShortNumber (f : FindChatNumberByShortNumber)
| Message_FindChatNumberByIdentityKey (f : FindChatNumberByIdentityKey)
| Message_ChatNumber (c : ChatNumber).

(** [Sequence] is a [uint32]; a message off the wire may have no payload. *)
Record Message := mkMessage {
  Message_Sequence : Z;
  Message_Payload : option isMessage_Payload }.

Record ForwardedMessage := mkForwardedMessage {
  ForwardedMessage_Message : option OutboundMessage;
  ForwardedMessage_FirstFailed : Z;
  ForwardedMessage_LastFailed : Z }.

(** ** Messages.pb.go: getters of the [oneof], nil unless the payload is of that type *)

Definition GetAuthChallenge (m : Message) : option AuthChallenge :=
  match Message_Payload m with Some (Message_AuthChallenge x) => Some x | _ => None end.
Definition GetConfiguration (m : Message) : option Configuration :=
  match Message_Payload m with Some (Message_Configuration x) => Some x | _ => None end.
Definition GetChatNumber (m : Message) : option ChatNumber :=
  match Message_Payload m with Some (Message_ChatNumber x) => Some x | _ => None end.
Definition GetError (m : Message) : option Error :=
  match Message_Payload m with Some (Message_Error x) => Some x | _ => None end.
Definition GetPreKeys (m : Message) : option PreKeys :=
  match Message_Payload m with Some (Message_PreKeys x) => Some x | _ => None end.
Definition GetPreKeysLow (m : Message) : option PreKeysLow :=
  match Message_Payload m with Some (Message_PreKeysLow x) => Some x | _ => None end.
Definition GetUploadAuthorizations (m : Message) : option UploadAuthorizations :=
  match Message_Payload m with Some (Message_UploadAuthorizations x) => Some x | _ => None end.
Definition GetInboundMessage (m : Message) : option InboundMessage :=
  match Message_Payload m with Some (Message_InboundMessage x) => Some x | _ => None end.
Definition GetAuthResponse (m : Message) : option AuthResponse :=
  match Message_Payload m with Some (Message_AuthResponse r) => Some r | _ => None end.
Definition GetRegister (m : Message) : option Register :=
  match Message_Payload m with Some (Message_Register r) => Some r | _ => None end.
Definition GetRequestPreKeys (m : Message) : option RequestPreKeys :=
  match Message_Payload m with Some (Message_RequestPreKeys r) => Some r | _ => None end.
Definition GetRequestUploadAuthorizations (m : Message) : option RequestUploadAuthorizations :=
  match Message_Payload m with Some (Message_RequestUploadAuthorizations r) => Some r | _ => None end.
Definition GetOutboundMessage (m : Message) : option OutboundMessage :=
  match Message_Payload m with Some (Message_OutboundMessage r) => Some r | _ => None end.
Definition GetFindChatNumberByShortNumber (m : Message) : option FindChatNumberByShortNumber :=
  match Message_Payload m with Some (Message_FindChatNumberByShortNumber r) => Some r | _ => None end.
Definition GetFindChatNumberByIdentityKey (m : Message) : option FindChatNumberByIdentityKey :=
  match Message_Payload m with Some (Message_FindChatNumberByIdentityKey r) => Some r | _ => None end.

(** [ForwardedMessage.GetMessage] and [OutboundMessage.GetUnidentifiedSenderMessage]
    also work on a nil receiver. *)
Definition GetMessage (m : option ForwardedMessage) : option OutboundMessage :=
  match m with Some x => ForwardedMessage_Message x | None => None end.
Definition GetUnidentifiedSenderMessage (m : option OutboundMessage) : option string :=
  match m with Some x => OutboundMessage_UnidentifiedSenderMessage x | None => None end.

(** ** messages.go: errors *)

Definition ErrUnknown : Error := mkError "unknown_error" "".
Definition ErrInvalidIdentityKey : Error := mkError "invalid_identity_key" "".
Definition ErrUnknownIdentity : Error := mkError "unknown_identity" "".
Definition ErrUnknownShortNumber : Error := mkError "unnkown_short_number" "".
Definition ErrNumberTaken : Error := mkError "number_taken" "".
Definition ErrUnknownDevice : Error := mkError "unknown_device" "".
Definition ErrUnauthorized : Error := mkError "unauthorized" "".
Definition ErrNonAnonymous : Error := mkError "attempted_anonymous_op_on_authenticated_connection" "".
Definition ErrUnableToOpenSubscriber : Error := mkError "unable_to_open_subscriber" "".
Definition ErrUnableToACK : Error := mkError "unable_to_ack" "".

(** A Go [error]: the pointer of one of the package variables above, another
    pointer to an [Error], or an error of some other type known by its text. *)
Inductive goerror :=
| Sentinel (e : Error)
| Fresh (e : Error)
| Untyped (text : string).

(** Method [Error] of a pointer to [Error]. *)
Definition Error_Error (err : Error) : string :=
  (Error_Name err +:+ ":" +:+ Error_Description err)%string.

(** [error.Error()] *)
Definition error_text (err : goerror) : string :=
  match err with Sentinel e | Fresh e => Error_Error e | Untyped t => t end.

Definition WithDescription (err : Error) (description : string) : Error :=
  mkError (Error_Name err) description.

Definition WithError (err : Error) (other : goerror) : Error :=
  WithDescription err (error_text other).

Definition TypedError (err : goerror) : Error :=
  match err with
  | Sentinel e | Fresh e => e
  | Untyped t => WithDescription ErrUnknown t
  end.

(** [errors.Is] against a package variable compares pointers. *)
Definition error_Is (err : goerror) (target : Error) : bool :=
  match err with
  | Sentinel e => bool_decide (Error_Name e = Error_Name target ∧
                               Error_Description e = Error_Description target)
  | _ => false
  end.

(** A value or an error: the usual two results of a Go function. *)
Inductive result (A : Type) : Type :=
| Ok (a : A)
| Err (e : goerror).
Arguments Ok {A} a.
Arguments Err {A} e.

(** ** messages.go: forwarded messages *)

Definition MarkFailed (now : Z) (msg : ForwardedMessage) : ForwardedMessage :=
  let n := util.NowUnixMillis now in
  mkForwardedMessage (ForwardedMessage_Message msg)
    (if decide (ForwardedMessage_FirstFailed msg = 0) then n else ForwardedMessage_FirstFailed msg)
    n.

Definition HasBeenFailingFor (now : Z) (msg : ForwardedMessage) : Z :=
  if decide (ForwardedMessage_FirstFailed msg = 0) then 0
  else util.DurationSince now (ForwardedMessage_FirstFailed msg).

Definition DurationSinceLastFailure (now : Z) (msg : ForwardedMessage) : Z :=
  if decide (ForwardedMessage_LastFailed msg = 0) then 0
  else util.DurationSince now (ForwardedMessage_LastFailed msg).

(** ** messages.go: the message builder, a [uint32] counter *)

Record MessageBuilder := mkMessageBuilder { seq : Z }.

(** [atomic.AddUint32(&mb.seq, 1)] *)
Definition next_seq (mb : MessageBuilder) : Z := wrap_u32 (seq mb + 1).

Definition AttachNextSequence (mb : MessageBuilder) (msg : Message) : MessageBuilder * Message :=
  (mkMessageBuilder (next_seq mb), mkMessage (next_seq mb) (Message_Payload msg)).

Definition Build (mb : MessageBuilder) (payload : isMessage_Payload) : MessageBuilder * Message :=
  (mkMessageBuilder (next_seq mb), mkMessage (next_seq mb) (Some payload)).

Definition NewAck (orig : Message) : Message :=
  mkMessage (Message_Sequence orig) (Some Message_Ack).

Definition NewError (orig : Message) (err : Error) : Message :=
  mkMessage (Message_Sequence orig) (Some (Message_Error err)).

(** ** Decidable equality *)

#[export] Instance Error_eq_dec : EqDecision Error.
Proof. solve_decision. Defined.
#[export] Instance Address_eq_dec : EqDecision Address.
Proof. solve_decision. Defined.
#[export] Instance Register_eq_dec : EqDecision Register.
Proof. solve_decision. Defined.
#[export] Instance PreKey_eq_dec : EqDecision PreKey.
Proof. solve_decision. Defined.
#[export] Instance OutboundMessage_eq_dec : EqDecision OutboundMessage.
Proof. solve_decision. Defined.
#[export] Instance ForwardedMessage_eq_dec : EqDecision ForwardedMessage.
Proof. solve_decision. Defined.
#[export] Instance goerror_eq_dec : EqDecision goerror.
Proof. solve_decision. Defined.

End model.

Export model.

(** ** Clocks *)

(** Instants the code can represent in milliseconds without wrapping. *)
Definition millis_ok (m : Z) : Prop := - two63 <= m * util.nanosPerMilli < two63.

Lemma UnixMillis_range t :
  in_i64 t → util.UnixMillis t * util.nanosPerMilli - util.nanosPerMilli < t
             < util.UnixMillis t * util.nanosPerMilli + util.nanosPerMilli.
Proof.
  intros Ht. unfold util.UnixMillis, util.nanosPerMilli. rewrite wrap_i64_small by done.
  pose proof (Z.quot_rem' t 1000000). pose proof (Z.rem_bound_abs t 1000000). lia.
Qed.

Lemma UnixMillis_TimeFromMillis m :
  millis_ok m → util.UnixMillis (util.TimeFromMillis m) = m.
Proof.
  intros Hm. unfold util.UnixMillis, util.TimeFromMillis, util.nanosPerMilli in *.
  rewrite !(wrap_i64_small (m * 1000000)) by done. apply Z.quot_mul. lia.
Qed.

Lemma DurationSince_exact now m :
  millis_ok m → in_i64 (now - m * util.nanosPerMilli) →
  util.DurationSince now m = now - m * util.nanosPerMilli.
Proof.
  intros Hm Hd. unfold util.DurationSince, util.TimeFromMillis.
  rewrite (wrap_i64_small (m * _)) by done. by rewrite sat_i64_small.
Qed.

(** ** Errors *)

Lemma error_Is_Sentinel e t : error_Is (Sentinel e) t = true ↔ e = t.
Proof.
  unfold error_Is. rewrite bool_decide_eq_true. destruct e, t; simpl. naive_solver.
Qed.

(** ** The message builder *)

(** The sequence numbers of [n] consecutive builds. *)
Fixpoint build_seqs (n : nat) (mb : MessageBuilder) : list Z :=
  match n with
  | O => []
  | S n' => next_seq mb :: build_seqs n' (mkMessageBuilder (next_seq mb))
  end.

Lemma build_seqs_spec n mb i s :
  build_seqs n mb !! i = Some s → s = wrap_u32 (seq mb + 1 + Z.of_nat i).
Proof.
  revert mb i; induction n as [|n IH]; intros mb [|i] H; simplify_eq/=.
  - unfold next_seq. f_equal. lia.
  - apply IH in H as ->. simpl. unfold next_seq.
    rewrite <-Z.add_assoc, wrap_u32_add. f_equal. lia.
Qed.

Lemma length_build_seqs n mb : length (build_seqs n mb) = n.
Proof. revert mb; induction n as [|n IH]; intros mb; simpl; [done|by rewrite IH]. Qed.

(** A message builder hands out pairwise distinct sequence numbers, each a
    [uint32], over any run of at most [2^32] builds; no two messages built on a
    connection share a sequence number before the counter has gone all the way
    round. *)
Theorem build_seqs_distinct (n : nat) (mb : MessageBuilder) :
  Z.of_nat n <= two32 →
  NoDup (build_seqs n mb) ∧ Forall (λ s, 0 <= s < two32) (build_seqs n mb).
Proof.
  intros Hn. split.
  - apply NoDup_alt. intros i j s Hi Hj.
    pose proof (lookup_lt_Some _ _ _ Hi) as Li. pose proof (lookup_lt_Some _ _ _ Hj) as Lj.
    rewrite length_build_seqs in *.
    apply build_seqs_spec in Hi. apply build_seqs_spec in Hj. subst.
    apply wrap_u32_inj in Hj; lia.
  - apply Forall_lookup. intros i s Hi%build_seqs_spec. subst. apply wrap_u32_range.
Qed.

Lemma build_seqs_distinct_witness :
  Z.of_nat 3 <= two32 ∧
  build_seqs 3 (mkMessageBuilder 4294967294) = [4294967295; 0; 1] ∧
  NoDup (build_seqs 3 (mkMessageBuilder 4294967294)).
Proof.
  split; [done|]. split; [reflexivity|].
  apply (build_seqs_distinct 3 (mkMessageBuilder 4294967294)). done.
Defined.

(** ** Forwarded messages that keep failing *)

Definition fail_at (msg : ForwardedMessage) (ts : list Z) : ForwardedMessage :=
  foldl (λ m t, MarkFailed t m) msg ts.

(** The first failure time is set once and never moves. *)
Lemma fail_at_FirstFailed msg ts :
  ForwardedMessage_FirstFailed msg ≠ 0 →
  ForwardedMessage_FirstFailed (fail_at msg ts) = ForwardedMessage_FirstFailed msg.
Proof.
  revert msg; induction ts as [|t ts IH]; intros msg Hne; simpl; [done|].
  assert (E : ForwardedMessage_FirstFailed (MarkFailed t msg) = ForwardedMessage_FirstFailed msg)
    by (unfold MarkFailed; simpl; by rewrite decide_False).
  unfold fail_at in IH. rewrite IH; congruence.
Qed.

Lemma fail_at_Message msg ts :
  ForwardedMessage_Message (fail_at msg ts) = ForwardedMessage_Message msg.
Proof. revert msg; induction ts as [|t ts IH]; intros msg; simpl; [done|]. unfold fail_at in IH. by rewrite IH. Qed.

(** However often a forwarded message has failed after its first failure at
    [t0], [HasBeenFailingFor] measures the time since [t0] (up to the
    millisecond it is recorded in), and the message itself is unchanged: the
    time-out that discards a message counts from its first failure and
    retries do not extend it. *)
Theorem failing_time_counts_from_first_failure
    (o : option OutboundMessage) (t0 now : Z) (ts : list Z) :
  util.nanosPerMilli <= t0 → t0 <= now → now < two63 →
  let msg := fail_at (mkForwardedMessage o 0 0) (t0 :: ts) in
  ForwardedMessage_Message msg = o ∧
  now - t0 <= HasBeenFailingFor now msg < now - t0 + util.nanosPerMilli.
Proof.
  intros H0 Hn Hb msg. split; [apply fail_at_Message|].
  assert (Hq : 0 < util.UnixMillis t0 ∧ util.UnixMillis t0 * util.nanosPerMilli <= t0
               < util.UnixMillis t0 * util.nanosPerMilli + util.nanosPerMilli).
  { unfold util.UnixMillis, util.nanosPerMilli in *. unfold two63 in *.
    rewrite wrap_i64_small by (unfold in_i64, two63; lia).
    rewrite Z.quot_div_nonneg by lia. pose proof (Z.div_mod t0 1000000).
    pose proof (Z.mod_pos_bound t0 1000000). lia. }
  assert (HF : ForwardedMessage_FirstFailed msg = util.UnixMillis t0).
  { unfold msg, fail_at. simpl foldl. fold (fail_at (MarkFailed t0 (mkForwardedMessage o 0 0)) ts).
    rewrite fail_at_FirstFailed; unfold MarkFailed; simpl; unfold util.NowUnixMillis; [done|lia]. }
  unfold HasBeenFailingFor. rewrite HF, decide_False by lia.
  rewrite DurationSince_exact; unfold millis_ok, in_i64, two63, util.nanosPerMilli in *; lia.
Qed.

Lemma failing_time_counts_from_first_failure_witness :
  HasBeenFailingFor 3600000000000
    (fail_at (mkForwardedMessage None 0 0) [1500000000; 2000000000; 3500000000000]) = 3598500000000 ∧
  3600000000000 - 1500000000 <= HasBeenFailingFor 3600000000000
    (fail_at (mkForwardedMessage None 0 0) [1500000000; 2000000000; 3500000000000]).
Proof.
  split; [reflexivity|].
  apply (failing_time_counts_from_first_failure None 1500000000 3600000000000
           [2000000000; 3500000000000]); unfold util.nanosPerMilli, two63; lia.
Defined.

(** Milliseconds survive the trip through [TimeFromMillis] and back, for
    every instant whose nanoseconds fit an [int64]. *)
Theorem millis_round_trip (m : Z) :
  millis_ok m → util.UnixMillis (util.TimeFromMillis m) = m.
Proof. apply UnixMillis_TimeFromMillis. Qed.

Lemma millis_round_trip_witness :
  millis_ok 1617235200123 ∧ util.UnixMillis (util.TimeFromMillis 1617235200123) = 1617235200123.
Proof.
  assert (H : millis_ok 1617235200123) by (unfold millis_ok, util.nanosPerMilli, two63; lia).
  split; [exact H|]. exact (millis_round_trip 1617235200123 H).
Defined.
