(* ===== verification/Externals.v ===== *)
(** * Externals: what the repository calls and does not contain

    Packages [libmessaging-go/identity] and [libmessaging-go/encoding] and the
    generated protobuf codecs are parameters of the model: a class of
    operations each, and a class of the documented laws the code relies on.
    The instances [toy_identity] and [bit_proto] are concrete functions that
    satisfy the laws; examples and witnesses are evaluated with them. *)

From S2P Require Import Prelude Model.

(** ** Keys and their printed forms *)

(** [PublicKey_String], [PublicKeyFromString]: the printed form of an identity
    key; [PublicKey_Number]: the key as a long "phone number";
    [PublicKey_Verify k data sig]; [base32_Encode], [base32_Decode]: the
    human-friendly base 32 encoding used for device ids. *)
Class Identity : Type := {
  PublicKey_String : string → string;
  PublicKeyFromString : string → result string;
  PublicKey_Number : string → string;
  PublicKey_Verify : string → string → string → bool;
  base32_Encode : string → string;
  base32_Decode : string → result string;
}.

(** Characters that the key names of [redisdb] use as separators. *)
Definition separators : list ascii := [":"%char; "{"%char; "}"%char].

Fixpoint str_chars (s : string) : list ascii :=
  match s with EmptyString => [] | String c s' => c :: str_chars s' end.

Definition no_separator (s : string) : Prop := ∀ c, c ∈ str_chars s → c ∉ separators.

Lemma app_sep_inj (c : ascii) (s s' x x' : string) :
  c ∉ str_chars s → c ∉ str_chars s' → (s +:+ String c x = s' +:+ String c x')%string → s = s' ∧ x = x'.
Proof.
  revert s'; induction s as [|a s IH]; intros [|a' s'] Hs Hs' E; simpl in *.
  - split; [done|]. by injection E.
  - exfalso. injection E as -> _. set_solver.
  - exfalso. injection E as -> _. set_solver.
  - injection E as -> E. destruct (IH s') as [-> ->]; [set_solver..|done|done].
Qed.

Lemma clean_not s c : no_separator s → c ∈ separators → c ∉ str_chars s.
Proof. intros H Hc Hin. by apply (H c). Qed.

Class IdentityLaws `{!Identity} : Prop := {
  PublicKey_String_inverse : ∀ k,
    String.length k = 32%nat → PublicKeyFromString (PublicKey_String k) = Ok k;
  base32_inverse : ∀ d, base32_Decode (base32_Encode d) = Ok d;
  PublicKey_String_clean : ∀ k, no_separator (PublicKey_String k);
  base32_clean : ∀ d, no_separator (base32_Encode d);
}.

Section identity_facts.
Context {ID : Identity} {IDL : IdentityLaws}.

Lemma base32_Encode_inj d d' : base32_Encode d = base32_Encode d' → d = d'.
Proof. intros E. pose proof (base32_inverse d). pose proof (base32_inverse d'). congruence. Qed.

Lemma PublicKey_String_inj k k' :
  String.length k = 32%nat → String.length k' = 32%nat →
  PublicKey_String k = PublicKey_String k' → k = k'.
Proof.
  intros Hk Hk' E. pose proof (PublicKey_String_inverse k Hk).
  pose proof (PublicKey_String_inverse k' Hk'). congruence.
Qed.
End identity_facts.

(** ** Protobuf *)

Class Proto : Type := {
  Marshal_Login : Login → result string;
  Unmarshal_Login : string → result Login;
  Marshal_ForwardedMessage : ForwardedMessage → result string;
  Unmarshal_ForwardedMessage : string → result ForwardedMessage;
}.

(** proto3 leaves out an empty [bytes] field, which is read back as nil. *)
Definition wire_normal (m : ForwardedMessage) : Prop :=
  GetUnidentifiedSenderMessage (ForwardedMessage_Message m) ≠ Some "".

Class ProtoLaws `{!Proto} : Prop := {
  Login_round_trip : ∀ l b, Marshal_Login l = Ok b → Unmarshal_Login b = Ok l;
  ForwardedMessage_round_trip : ∀ m b, wire_normal m →
    Marshal_ForwardedMessage m = Ok b → Unmarshal_ForwardedMessage b = Ok m;
}.

(** Messages on the wire of a websocket.  Reading back what was written gives the
    message in its wire form, in which an empty [bytes] field is nil. *)
Class MessageProto : Type := {
  Marshal_Message : Message → result string;
  Unmarshal_Message : string → result Message;
}.

Class MessageProtoLaws `{!MessageProto} : Type := {
  wire_form : Message → Message;
  Message_round_trip : ∀ m b, Marshal_Message m = Ok b → Unmarshal_Message b = Ok (wire_form m);
}.

(** The text form of a message, [Address.String()], which also works on nil. *)
Class Prototext : Type := {
  Address_String : option Address → string;
}.

(** ** The LRU cache of [hashicorp/golang-lru]

    [lru_view] is the content of a cache.  [Get] may reorder but not change it;
    [Add] stores the entry, may drop others, and returns the values it dropped,
    for which the cache calls the eviction callback. *)
Class LRU (C V : Type) : Type := {
  lru_New : Z → result C;
  lru_Get : string → C → C * option V;
  lru_Add : string → V → C → C * list V;
}.

Class LRULaws (C V : Type) `{!LRU C V} : Type := {
  lru_view : C → gmap string V;
  lru_New_law : ∀ n c, lru_New n = Ok c → lru_view c = ∅;
  lru_Get_law : ∀ k c, ∃ c', lru_Get k c = (c', lru_view c !! k) ∧ lru_view c' = lru_view c;
  lru_Add_law : ∀ k v c c' out, lru_Add k v c = (c', out) →
    lru_view c' !! k = Some v ∧ lru_view c' ⊆ <[k := v]> (lru_view c);
}.

(** ** A concrete identity library: two characters per byte *)

Definition nibble (a b c d : bool) : ascii :=
  match a, b, c, d with
  | false, false, false, false => "0" | true, false, false, false => "1"
  | false, true, false, false => "2" | true, true, false, false => "3"
  | false, false, true, false => "4" | true, false, true, false => "5"
  | false, true, true, false => "6" | true, true, true, false => "7"
  | false, false, false, true => "8" | true, false, false, true => "9"
  | false, true, false, true => "a" | true, true, false, true => "b"
  | false, false, true, true => "c" | true, false, true, true => "d"
  | false, true, true, true => "e" | true, true, true, true => "f"
  end%char.

Definition unnibble (c : ascii) : option (bool * bool * bool * bool) :=
  match c with
  | "0" => Some (false, false, false, false) | "1" => Some (true, false, false, false)
  | "2" => Some (false, true, false, false) | "3" => Some (true, true, false, false)
  | "4" => Some (false, false, true, false) | "5" => Some (true, false, true, false)
  | "6" => Some (false, true, true, false) | "7" => Some (true, true, true, false)
  | "8" => Some (false, false, false, true) | "9" => Some (true, false, false, true)
  | "a" => Some (false, true, false, true) | "b" => Some (true, true, false, true)
  | "c" => Some (false, false, true, true) | "d" => Some (true, false, true, true)
  | "e" => Some (false, true, true, true) | "f" => Some (true, true, true, true)
  | _ => None
  end%char.

Fixpoint hex (s : string) : string :=
  match s with
  | EmptyString => EmptyString
  | String (Ascii a b c d e f g h) s' =>
      String (nibble e f g h) (String (nibble a b c d) (hex s'))
  end.

Fixpoint unhex (s : string) : option string :=
  match s with
  | EmptyString => Some EmptyString
  | String hi (String lo s') =>
      match unnibble hi, unnibble lo, unhex s' with
      | Some (e, f, g, h), Some (a, b, c, d), Some t => Some (String (Ascii a b c d e f g h) t)
      | _, _, _ => None
      end
  | String _ EmptyString => None
  end.

Lemma unnibble_nibble a b c d : unnibble (nibble a b c d) = Some (a, b, c, d).
Proof. by destruct a, b, c, d. Qed.

Lemma nibble_clean a b c d : nibble a b c d ∉ separators.
Proof. destruct a, b, c, d; by apply (bool_decide_unpack _). Qed.

Lemma unhex_hex s : unhex (hex s) = Some s.
Proof.
  induction s as [|[a b c d e f g h] s IH]; simpl; [done|].
  by rewrite !unnibble_nibble, IH.
Qed.

Lemma hex_clean s : no_separator (hex s).
Proof.
  induction s as [|[a b c d e f g h] s IH]; simpl; intros x Hx; [set_solver|].
  simpl in Hx. rewrite !elem_of_cons in Hx.
  destruct Hx as [->|[->|Hx]]; [apply nibble_clean..|by apply IH].
Qed.

(** A decoder that reports failure in an error. *)
Definition unhex_result (s : string) : result string :=
  match unhex s with Some t => Ok t | None => Err (Untyped "invalid encoding") end.

(** A signature is valid when it is the key followed by the data; the number is
    the printed key, padded to at least 12 characters. *)
Definition toy_identity : Identity := {|
  PublicKey_String := hex;
  PublicKeyFromString := unhex_result;
  PublicKey_Number := λ k, (hex k +:+ "111111111111111111")%string;
  PublicKey_Verify := λ k data sig, bool_decide (sig = (k +:+ data)%string);
  base32_Encode := hex;
  base32_Decode := unhex_result;
|}.

Lemma toy_identity_laws : @IdentityLaws toy_identity.
Proof.
  split; simpl; unfold unhex_result; intros; try rewrite unhex_hex; auto using hex_clean.
Qed.

(** ** A concrete codec: stdpp's countable encoding, written out in bits *)

Fixpoint bits_of (p : positive) : string :=
  match p with
  | xH => EmptyString
  | xO p' => String "0"%char (bits_of p')
  | xI p' => String "1"%char (bits_of p')
  end.

Fixpoint of_bits (s : string) : positive :=
  match s with
  | EmptyString => xH
  | String c s' => if decide (c = "1"%char) then xI (of_bits s') else xO (of_bits s')
  end.

Lemma of_bits_bits_of p : of_bits (bits_of p) = p.
Proof. induction p as [p IH|p IH|]; simpl; [by rewrite IH..|done]. Qed.

Definition address_code (a : Address) : string * string :=
  (Address_IdentityKey a, Address_DeviceId a).
Definition address_decode (p : string * string) : Address := mkAddress p.1 p.2.

Definition login_code (l : Login) : option (string * string) * string :=
  (address_code <$> Login_Address l, Login_Nonce l).
Definition login_decode (p : option (string * string) * string) : Login :=
  mkLogin (address_decode <$> p.1) p.2.

Definition outbound_code (o : OutboundMessage) : option (string * string) * option string :=
  (address_code <$> OutboundMessage_To o, OutboundMessage_UnidentifiedSenderMessage o).
Definition outbound_decode (p : option (string * string) * option string) : OutboundMessage :=
  mkOutboundMessage (address_decode <$> p.1) p.2.

Definition forwarded_code (m : ForwardedMessage)
    : option (option (string * string) * option string) * (Z * Z) :=
  (outbound_code <$> ForwardedMessage_Message m,
   (ForwardedMessage_FirstFailed m, ForwardedMessage_LastFailed m)).
Definition forwarded_decode
    (p : option (option (string * string) * option string) * (Z * Z)) : ForwardedMessage :=
  mkForwardedMessage (outbound_decode <$> p.1) p.2.1 p.2.2.

Lemma login_decode_code l : login_decode (login_code l) = l.
Proof. by destruct l as [[[]|] ]. Qed.
Lemma forwarded_decode_code m : forwarded_decode (forwarded_code m) = m.
Proof. by destruct m as [[[[[]|] ?]|] ? ?]. Qed.

Definition decode_result {A B} `{Countable A} (f : A → B) (s : string) : result B :=
  match decode (of_bits s) with Some a => Ok (f a) | None => Err (Untyped "proto: cannot parse") end.

Lemma decode_result_encode {A B} `{Countable A} (f : A → B) a :
  decode_result f (bits_of (encode a)) = Ok (f a).
Proof. unfold decode_result. by rewrite of_bits_bits_of, decode_encode. Qed.

Definition bit_proto : Proto := {|
  Marshal_Login := λ l, Ok (bits_of (encode (login_code l)));
  Unmarshal_Login := decode_result login_decode;
  Marshal_ForwardedMessage := λ m, Ok (bits_of (encode (forwarded_code m)));
  Unmarshal_ForwardedMessage := decode_result forwarded_decode;
|}.

Lemma bit_proto_laws : @ProtoLaws bit_proto.
Proof.
  split; simpl; intros; simplify_eq; rewrite decode_result_encode.
  - by rewrite login_decode_code.
  - by rewrite forwarded_decode_code.
Qed.

Definition toy_prototext : Prototext := {|
  Address_String := λ a, match a with
    | Some x => (hex (Address_IdentityKey x) +:+ "/" +:+ hex (Address_DeviceId x))%string
    | None => "<nil>" end;
|}.

(** ** A concrete cache: the most recent entries first *)

Record lru_list (V : Type) := mkLru { lru_size : nat; lru_entries : list (string * V) }.
Arguments mkLru {V} _ _.
Arguments lru_size {V} _.
Arguments lru_entries {V} _.

Definition without {V} (k : string) (l : list (string * V)) : list (string * V) :=
  filter (λ x, x.1 ≠ k) l.

Definition entry_of {V} (k : string) (l : list (string * V)) : option V :=
  snd <$> head (filter (λ x, x.1 = k) l).

Definition list_LRU (V : Type) : LRU (lru_list V) V := {|
  lru_New := λ n, if decide (n <= 0)%Z then Err (Untyped "must provide a positive size")
                  else Ok (mkLru (Z.to_nat n) []);
  lru_Get := λ k c, match entry_of k (lru_entries c) with
    | Some v => (mkLru (lru_size c) ((k, v) :: without k (lru_entries c)), Some v)
    | None => (c, None) end;
  lru_Add := λ k v c,
    let l := (k, v) :: without k (lru_entries c) in
    (mkLru (lru_size c) (take (S (lru_size c - 1)) l), (drop (S (lru_size c - 1)) l).*2);
|}.

Section list_LRU_facts.
Context {V : Type}.
Implicit Type l : list (string * V).

Definition list_view (l : list (string * V)) : gmap string V := list_to_map l.

Lemma entry_of_view k l : entry_of k l = list_view l !! k.
Proof.
  unfold entry_of, list_view. induction l as [|[k' v] l IH]; [done|].
  rewrite filter_cons, list_to_map_cons, lookup_insert; simpl.
  by repeat case_decide; subst.
Qed.

Lemma list_view_without k l : list_view (without k l) = delete k (list_view l).
Proof.
  unfold list_view, without. induction l as [|[k' v] l IH]; [simpl; by rewrite delete_empty|].
  rewrite filter_cons; simpl. case_decide as Hk; simpl.
  - by rewrite IH, delete_insert_ne by congruence.
  - subst k'. by rewrite IH, delete_insert_eq.
Qed.

Lemma list_view_take n l : list_view (take n l) ⊆ list_view l.
Proof.
  unfold list_view. revert n; induction l as [|[k v] l IH]; intros [|n]; simpl; try done.
  - apply map_empty_subseteq.
  - by apply insert_mono.
Qed.

Definition list_LRU_laws : @LRULaws (lru_list V) V (list_LRU V).
Proof.
  refine (Build_LRULaws (lru_list V) V (list_LRU V) (λ c, list_view (lru_entries c)) _ _ _).
  - intros n c. simpl. case_decide; [done|]. by intros [= <-].
  - intros k c. simpl. rewrite entry_of_view. destruct (list_view _ !! k) as [v|] eqn:E; [|by eauto].
    eexists. split; [done|]. cbn [lru_entries]. unfold list_view at 1. rewrite list_to_map_cons.
    change (<[k:=v]> (list_view (without k (lru_entries c))) = list_view (lru_entries c)).
    by rewrite list_view_without, insert_delete_eq, insert_id.
  - intros k v c c' out [= <- _]. cbn [lru_entries]. split.
    + unfold list_view. simpl. by rewrite lookup_insert_eq.
    + transitivity (list_view ((k, v) :: without k (lru_entries c))); [exact (list_view_take (S (lru_size c - 1)) _)|].
      change (<[k:=v]> (list_view (without k (lru_entries c))) ⊆ <[k:=v]> (list_view (lru_entries c))).
      rewrite list_view_without, insert_delete_eq. reflexivity.
Defined.
End list_LRU_facts.
