(* ===== verification/DB.v ===== *)
(** * DB: the database interface and what it promises

    [db.DB] (db/db.go) is the interface the service uses.  The class [DB] has
    its operations over a state [D]; [DBSpec] is the abstract registry they
    maintain: the registration of each device and the chat number of each
    identity, by printed identity key. *)

From S2P Require Import Prelude Model Externals.

(** ** db/db.go *)

Class DB (D : Type) : Type := {
  db_Register : string → string → Register → D → outcome (D * option goerror);
  db_Unregister : string → string → D → outcome (D * option goerror);
  db_RequestPreKeys : RequestPreKeys → D → outcome (D * result (list PreKey));
  db_PreKeysRemaining : string → string → D → outcome (D * result Z);
  db_AllRegisteredDevices : D → outcome (D * result (list Address));
  db_RegisterChatNumber : string → string → string → D → outcome (D * result (string * string));
  db_FindChatNumberByShortNumber : string → D → outcome (D * result string);
  db_FindChatNumberByIdentityKey : string → D → outcome (D * result (string * string));
}.

(** ** The abstract registry *)

Module DBSpec.

(** [devices] by printed identity key and device id; [numbers] gives each
    identity its number and short number. *)
Record state := mkState {
  devices : gmap (string * string) Register;
  numbers : gmap string (string * string) }.

Definition empty : state := mkState ∅ ∅.

(** Same signed pre key: the one-time keys are added; otherwise the
    registration is replaced. *)
Definition merge (old : option Register) (new : Register) : Register :=
  match old with
  | Some r =>
      if decide (Register_SignedPreKey r = Register_SignedPreKey new)
      then mkRegister (Register_SignedPreKey r)
             (Register_OneTimePreKeys r ++ Register_OneTimePreKeys new)
      else new
  | None => new
  end.

Definition register (k d : string) (r : Register) (s : state) : state :=
  mkState (<[(k, d) := merge (devices s !! (k, d)) r]> (devices s)) (numbers s).

Definition unregister (k d : string) (s : state) : state :=
  mkState (delete (k, d) (devices s)) (numbers s).

(** What one pre key request hands out for a device: its signed pre key and the
    newest one-time key; that key is gone afterwards. *)
Definition handed_out (d : string) (r : Register) : PreKey :=
  mkPreKey d (Register_SignedPreKey r) (last (Register_OneTimePreKeys r)).

Definition consume (r : Register) : Register :=
  mkRegister (Register_SignedPreKey r) (pop_last (Register_OneTimePreKeys r)).2.

(** The devices of [k] that are not in [known] give up one key each. *)
Definition request (k : string) (known : list string) (s : state) : state :=
  mkState
    (map_imap (λ kd r, Some (if decide (kd.1 = k ∧ kd.2 ∉ known) then consume r else r)) (devices s))
    (numbers s).

Definition device_count (k d : string) (s : state) : option nat :=
  (λ r, length (Register_OneTimePreKeys r)) <$> devices s !! (k, d).

Definition assign_number (k n sn : string) (s : state) : state :=
  mkState (devices s) (<[k := (n, sn)]> (numbers s)).

(** A number is taken when some identity has it. *)
Definition taken (n : string) (s : state) : Prop :=
  map_Exists (λ _ p, p.1 = n) (numbers s).

(** Numbers belong to one identity each. *)
Definition numbers_unique (s : state) : Prop :=
  ∀ k k' n sn sn', numbers s !! k = Some (n, sn) → numbers s !! k' = Some (n, sn') → k = k'.

End DBSpec.

(** ** The contract of the interface

    [reg_view] is the abstract registry a database state stands for and
    [db_wf] its invariant.  The contract covers what the service relies on:
    an operation on a well-formed state returns, keeps the invariant, has its
    effect on the registry when it succeeds and none when it reports an error. *)

Class DBLaws (D : Type) `{!Identity, !DB D} : Type := {
  reg_view : D → DBSpec.state;
  db_wf : D → Prop;
  Register_law : ∀ k d r s, db_wf s → ∃ s' e,
    db_Register k d r s = Ret (s', e) ∧ db_wf s' ∧
    reg_view s' = (if e then reg_view s
                   else DBSpec.register (PublicKey_String k) d r (reg_view s));
  Unregister_law : ∀ k d s, db_wf s → ∃ s' e,
    db_Unregister k d s = Ret (s', e) ∧ db_wf s' ∧
    reg_view s' = (if e then reg_view s
                   else DBSpec.unregister (PublicKey_String k) d (reg_view s));
  RequestPreKeys_law : ∀ rq s, db_wf s → ∃ s' res,
    db_RequestPreKeys rq s = Ret (s', res) ∧ db_wf s' ∧
    reg_view s' = match res with
                  | Ok _ => DBSpec.request (PublicKey_String (RequestPreKeys_IdentityKey rq))
                              (RequestPreKeys_KnownDeviceIds rq) (reg_view s)
                  | Err _ => reg_view s
                  end;
  PreKeysRemaining_law : ∀ k d s, db_wf s → ∃ res,
    db_PreKeysRemaining k d s = Ret (s, res) ∧
    ∀ n, res = Ok n →
      Z.of_nat <$> DBSpec.device_count (PublicKey_String k) d (reg_view s) = Some n;
  AllRegisteredDevices_law : ∀ s, db_wf s → ∃ res, db_AllRegisteredDevices s = Ret (s, res);
  RegisterChatNumber_law : ∀ k n sn s, db_wf s → ∃ s' res,
    db_RegisterChatNumber k n sn s = Ret (s', res) ∧ db_wf s' ∧
    match res with
    | Ok p =>
        match DBSpec.numbers (reg_view s) !! PublicKey_String k with
        | Some q => p = q ∧ reg_view s' = reg_view s
        | None => p = (n, sn) ∧ ¬ DBSpec.taken n (reg_view s) ∧
                  reg_view s' = DBSpec.assign_number (PublicKey_String k) n sn (reg_view s)
        end
    | Err e => reg_view s' = reg_view s ∧
               (error_Is e ErrNumberTaken = true → DBSpec.taken n (reg_view s))
    end;
  FindChatNumberByShortNumber_law : ∀ sn s, db_wf s → ∃ res,
    db_FindChatNumberByShortNumber sn s = Ret (s, res);
  FindChatNumberByIdentityKey_law : ∀ k s, db_wf s → ∃ res,
    db_FindChatNumberByIdentityKey k s = Ret (s, res) ∧
    ∀ p, res = Ok p → DBSpec.numbers (reg_view s) !! PublicKey_String k = Some p;
}.

(** ** Facts about the registry *)

Section spec_facts.
Implicit Type s : DBSpec.state.

Lemma register_other k d k' d' r s :
  (k, d) ≠ (k', d') →
  DBSpec.devices (DBSpec.register k d r s) !! (k', d') = DBSpec.devices s !! (k', d').
Proof. intros. unfold DBSpec.register; simpl. by rewrite lookup_insert_ne. Qed.

Lemma unregister_other k d k' d' s :
  (k, d) ≠ (k', d') →
  DBSpec.devices (DBSpec.unregister k d s) !! (k', d') = DBSpec.devices s !! (k', d').
Proof. intros. unfold DBSpec.unregister; simpl. by rewrite lookup_delete_ne. Qed.

Lemma request_lookup k known s k' d' :
  DBSpec.devices (DBSpec.request k known s) !! (k', d') =
  (λ r, if decide (k' = k ∧ d' ∉ known) then DBSpec.consume r else r) <$> DBSpec.devices s !! (k', d').
Proof.
  unfold DBSpec.request; simpl. rewrite map_lookup_imap.
  by destruct (DBSpec.devices s !! (k', d')).
Qed.

(** Without devices to ask, a request changes nothing. *)
Lemma request_unknown k known s :
  (∀ d, DBSpec.devices s !! (k, d) = None) → DBSpec.request k known s = s.
Proof.
  intros Hno. destruct s as [sd sn]. unfold DBSpec.request; simpl in *. f_equal.
  apply map_eq; intros [k' d']. rewrite map_lookup_imap.
  destruct (sd !! (k', d')) as [r|] eqn:E; simpl; [|done]. rewrite decide_False; [done|].
  intros [-> _]. by rewrite Hno in E.
Qed.
End spec_facts.
