(* ===== verification/MemDB.v ===== *)
(** * MemDB: the in-memory database (db/memdb/memdb.go)

    Each method runs under the mutex from its first map access to its return,
    so a call is one transition.  The registration pointers in [identities] are
    only reachable through the map while the lock is held, so they are values
    here.  The file ends with the refinement of the abstract registry. *)

From S2P Require Import Prelude Model Externals DB.

Module memdb.
Section memdb.
Context {ID : Identity} {MR : MapRange}.

Record memdb := mkMemdb {
  identities : gmap string (gmap string Register);
  identityKeyToNumber : gmap string string;
  numberToIdentityKey : gmap string string;
  numberToShortNumber : gmap string string;
  shortNumberToNumber : gmap string string }.

Definition New : memdb := mkMemdb ∅ ∅ ∅ ∅ ∅.

Definition set_identities (d : memdb) m : memdb :=
  mkMemdb m (identityKeyToNumber d) (numberToIdentityKey d)
    (numberToShortNumber d) (shortNumberToNumber d).

(** [subtle.ConstantTimeCompare(x, y) == 1] iff the contents are equal. *)
Definition Register (identityKey deviceId : string) (registration : model.Register) (d : memdb)
    : outcome (memdb * option goerror) :=
  let identityKeyString := PublicKey_String identityKey in
  let identity := default ∅ (identities d !! identityKeyString) in
  let entry :=
    match identity !! deviceId with
    | Some existing =>
        if decide (Register_SignedPreKey existing = Register_SignedPreKey registration)
        then (* Add pre-keys *)
          mkRegister (Register_SignedPreKey existing)
            (Register_OneTimePreKeys existing ++ Register_OneTimePreKeys registration)
        else registration
    | None => registration
    end in
  Ret (set_identities d (<[identityKeyString := <[deviceId := entry]> identity]> (identities d)),
       None).

Definition Unregister (identityKey deviceId : string) (d : memdb)
    : outcome (memdb * option goerror) :=
  let identityKeyString := PublicKey_String identityKey in
  match identities d !! identityKeyString with
  | Some identity =>
      let identity' := delete deviceId identity in
      if decide (size identity' = 0)
      then Ret (set_identities d (delete identityKeyString (identities d)), None)
      else Ret (set_identities d (<[identityKeyString := identity']> (identities d)), None)
  | None => Ret (d, None)
  end.

Definition isKnownDeviceId (request : RequestPreKeys) (deviceId : string) : bool :=
  bool_decide (deviceId ∈ RequestPreKeys_KnownDeviceIds request).

(** One turn of the loop over the devices of the identity. *)
Definition requestDevice (request : RequestPreKeys)
    (acc : gmap string model.Register * list PreKey) (entry : string * model.Register)
    : gmap string model.Register * list PreKey :=
  let '(identity, result) := acc in
  let '(deviceId, registration) := entry in
  if isKnownDeviceId request deviceId then acc
  else
    let '(oneTimePreKey, rest) := pop_last (Register_OneTimePreKeys registration) in
    (<[deviceId := mkRegister (Register_SignedPreKey registration) rest]> identity,
     result ++ [mkPreKey deviceId (Register_SignedPreKey registration) oneTimePreKey]).

Definition RequestPreKeys (request : RequestPreKeys) (d : memdb)
    : outcome (memdb * result (list PreKey)) :=
  let identityKeyString := PublicKey_String (RequestPreKeys_IdentityKey request) in
  match identities d !! identityKeyString with
  | None => Ret (d, Err (Sentinel ErrUnknownIdentity))
  | Some identity =>
      let '(identity', result) := foldl (requestDevice request) (identity, []) (map_range identity) in
      Ret (set_identities d (<[identityKeyString := identity']> (identities d)), Ok result)
  end.

Definition PreKeysRemaining (identityKey deviceId : string) (d : memdb)
    : outcome (memdb * result Z) :=
  match identities d !! PublicKey_String identityKey with
  | None => Ret (d, Err (Sentinel ErrUnknownIdentity))
  | Some identity =>
      match identity !! deviceId with
      | None => Ret (d, Err (Sentinel ErrUnknownDevice))
      | Some device => Ret (d, Ok (Z.of_nat (length (Register_OneTimePreKeys device))))
      end
  end.

(** The inner loop over devices, then the outer loop over identities; the first
    key that does not parse ends both. *)
Fixpoint deviceAddresses (identityKey : string) (devices : list (string * model.Register))
    (acc : list Address) : result (list Address) :=
  match devices with
  | [] => Ok acc
  | (deviceId, _) :: rest =>
      match PublicKeyFromString identityKey with
      | Err err => Err err
      | Ok idKey => deviceAddresses identityKey rest (acc ++ [mkAddress idKey deviceId])
      end
  end.

Fixpoint allAddresses (ids : list (string * gmap string model.Register)) (acc : list Address)
    : result (list Address) :=
  match ids with
  | [] => Ok acc
  | (identityKey, devices) :: rest =>
      match deviceAddresses identityKey (map_range devices) acc with
      | Err err => Err err
      | Ok acc' => allAddresses rest acc'
      end
  end.

Definition AllRegisteredDevices (d : memdb) : outcome (memdb * result (list Address)) :=
  Ret (d, allAddresses (map_range (identities d)) []).

Definition RegisterChatNumber (identityKey newNumber newShortNumber : string) (d : memdb)
    : outcome (memdb * result (string * string)) :=
  let identityKeyString := PublicKey_String identityKey in
  match identityKeyToNumber d !! identityKeyString with
  | Some number => (* already registered *)
      Ret (d, Ok (number, default "" (numberToShortNumber d !! number)))
  | None =>
      match numberToIdentityKey d !! newNumber with
      | Some _ => (* number already belongs to a different identity key *)
          Ret (d, Err (Sentinel ErrNumberTaken))
      | None =>
          Ret (mkMemdb (identities d)
                 (<[identityKeyString := newNumber]> (identityKeyToNumber d))
                 (<[newNumber := identityKeyString]> (numberToIdentityKey d))
                 (<[newNumber := newShortNumber]> (numberToShortNumber d))
                 (<[newShortNumber := newNumber]> (shortNumberToNumber d)),
               Ok (newNumber, newShortNumber))
      end
  end.

Definition FindChatNumberByShortNumber (shortNumber : string) (d : memdb)
    : outcome (memdb * result string) :=
  match shortNumberToNumber d !! shortNumber with
  | None => Ret (d, Err (Sentinel ErrUnknownShortNumber))
  | Some number => Ret (d, Ok number)
  end.

Definition FindChatNumberByIdentityKey (identityKey : string) (d : memdb)
    : outcome (memdb * result (string * string)) :=
  match identityKeyToNumber d !! PublicKey_String identityKey with
  | None => Ret (d, Err (Sentinel ErrUnknownIdentity))
  | Some number => Ret (d, Ok (number, default "" (numberToShortNumber d !! number)))
  end.

#[export] Instance memdb_DB : DB memdb := {|
  db_Register := Register;
  db_Unregister := Unregister;
  db_RequestPreKeys := RequestPreKeys;
  db_PreKeysRemaining := PreKeysRemaining;
  db_AllRegisteredDevices := AllRegisteredDevices;
  db_RegisterChatNumber := RegisterChatNumber;
  db_FindChatNumberByShortNumber := FindChatNumberByShortNumber;
  db_FindChatNumberByIdentityKey := FindChatNumberByIdentityKey;
|}.

(** ** Invariant and abstraction *)

(** No identity without devices; the number maps agree with each other. *)
Record wf (d : memdb) : Prop := {
  wf_nonempty : ∀ k m, identities d !! k = Some m → m ≠ ∅;
  wf_numbers : ∀ k n, identityKeyToNumber d !! k = Some n ↔ numberToIdentityKey d !! n = Some k;
  wf_short : ∀ n, is_Some (numberToIdentityKey d !! n) ↔ is_Some (numberToShortNumber d !! n);
  wf_short_back : ∀ sn n, shortNumberToNumber d !! sn = Some n → numberToShortNumber d !! n = Some sn;
}.

Definition view (d : memdb) : DBSpec.state :=
  DBSpec.mkState
    (map_uncurry (M1:=gmap string) (M2:=gmap string) (M12:=gmap (string * string)) (identities d))
    ((λ n, (n, default "" (numberToShortNumber d !! n))) <$> identityKeyToNumber d : gmap string _).

#[local] Arguments view : simpl never.
#[local] Arguments DBSpec.request : simpl never.

(** ** Pre key requests *)

Lemma requestDevice_step rq m acc e :
  requestDevice rq (m, acc) e =
  if decide (e.1 ∈ RequestPreKeys_KnownDeviceIds rq) then (m, acc)
  else (<[e.1 := DBSpec.consume e.2]> m, acc ++ [DBSpec.handed_out e.1 e.2]).
Proof.
  destruct e as [d r]; unfold requestDevice, isKnownDeviceId, DBSpec.handed_out, DBSpec.consume; simpl.
  case_bool_decide; case_decide; try done.
  rewrite <-pop_last_fst. by destruct (pop_last _).
Qed.

Lemma requestDevices_result rq l m acc :
  (foldl (requestDevice rq) (m, acc) l).2 =
  acc ++ (uncurry DBSpec.handed_out <$> filter (λ e, e.1 ∉ RequestPreKeys_KnownDeviceIds rq) l).
Proof.
  revert m acc; induction l as [|[d r] l IH]; intros m acc; cbn [foldl].
  { by rewrite filter_nil, app_nil_r. }
  rewrite requestDevice_step, filter_cons; simpl.
  destruct (decide (d ∈ _)).
  - rewrite decide_False by (intros ?; done). apply IH.
  - rewrite decide_True by done. by rewrite IH, <-app_assoc.
Qed.

Lemma requestDevices_devices rq l m acc d :
  NoDup l.*1 →
  (∀ d' r, (d', r) ∈ l → m !! d' = Some r) →
  (foldl (requestDevice rq) (m, acc) l).1 !! d =
  (λ r, if decide (d ∈ l.*1 ∧ d ∉ RequestPreKeys_KnownDeviceIds rq) then DBSpec.consume r else r)
    <$> m !! d.
Proof.
  revert m acc; induction l as [|[d' r] l IH]; intros m acc Hnd Hm; cbn [foldl].
  { symmetry. apply fmap_Some_id. intros r _. rewrite decide_False; [done|set_solver]. }
  rewrite fmap_cons in Hnd; apply NoDup_cons in Hnd as [Hni Hnd].
  assert (Hr : m !! d' = Some r) by (apply Hm; set_solver).
  assert (Hl : ∀ d'' r', (d'', r') ∈ l → d'' ≠ d') by (intros d'' r' Hin ->; apply Hni, list_elem_of_fmap; by exists (d', r')).
  rewrite requestDevice_step. cbn [fst snd].
  destruct (decide (d' ∈ RequestPreKeys_KnownDeviceIds rq)) as [Hk|Hk].
  - rewrite IH by (try done; intros; apply Hm; set_solver).
    apply fmap_Some_ext; intros r' _. repeat case_decide; try done; set_solver.
  - rewrite IH; [|done|].
    2:{ intros d'' r' Hin. rewrite lookup_insert_ne by (intros <-; by eapply Hl).
        apply Hm; set_solver. }
    rewrite lookup_insert. destruct (decide (d' = d)) as [<-|Hd].
    + rewrite Hr, !fmap_of_Some. f_equal.
      rewrite decide_False by set_solver. by rewrite decide_True by set_solver.
    + apply fmap_Some_ext; intros r' _.
      repeat case_decide; try done; set_solver.
Qed.

(** The loop as a whole: what it returns and what it leaves behind. *)
Lemma request_loop rq m :
  foldl (requestDevice rq) (m, []) (map_range m) =
  ((map_imap (λ d r, Some (if decide (d ∉ RequestPreKeys_KnownDeviceIds rq) then DBSpec.consume r else r)) m),
   uncurry DBSpec.handed_out <$> filter (λ e, e.1 ∉ RequestPreKeys_KnownDeviceIds rq) (map_range m)).
Proof.
  apply injective_projections; simpl; [|by rewrite requestDevices_result].
  apply map_eq; intros d. rewrite requestDevices_devices, map_lookup_imap.
  - destruct (m !! d) as [r|] eqn:E; simpl; [|done]. f_equal.
    assert (d ∈ (map_range m).*1)
      by (apply list_elem_of_fmap; exists (d, r); by rewrite elem_of_map_range).
    by repeat case_decide; try tauto.
  - apply NoDup_map_range_fst.
  - by intros d' r ?%elem_of_map_range.
Qed.

(** ** Each operation refines its abstract counterpart *)

Lemma view_devices d k dev :
  DBSpec.devices (view d) !! (k, dev) = identities d !! k ≫= (.!! dev).
Proof. unfold view; simpl. apply lookup_map_uncurry. Qed.

Lemma view_numbers d k :
  DBSpec.numbers (view d) !! k =
  (λ n, (n, default "" (numberToShortNumber d !! n))) <$> identityKeyToNumber d !! k.
Proof. unfold view; simpl. by rewrite lookup_fmap. Qed.

Lemma view_taken d n : wf d → DBSpec.taken n (view d) ↔ is_Some (numberToIdentityKey d !! n).
Proof.
  intros W. unfold DBSpec.taken, map_Exists. setoid_rewrite view_numbers. split.
  - intros (k & [n' sn] & H & ?). apply fmap_Some in H as (n'' & H & ?). simplify_eq/=.
    exists k. by apply (wf_numbers d W).
  - intros [k H]. apply (wf_numbers d W) in H. eexists k, _. by rewrite H.
Qed.

Lemma set_identities_wf d m :
  wf d → (∀ k x, m !! k = Some x → x ≠ ∅) → wf (set_identities d m).
Proof. intros [] ?. by split. Qed.

Lemma view_set_identities d m s :
  (∀ k dev, m !! k ≫= (.!! dev) = DBSpec.devices s !! (k, dev)) →
  DBSpec.numbers s = DBSpec.numbers (view d) →
  view (set_identities d m) = s.
Proof.
  intros Hd Hn. destruct s as [sd sn]; simpl in *. unfold view at 1; simpl. f_equal.
  - apply map_eq; intros [k dev]. by rewrite lookup_map_uncurry, Hd.
  - done.
Qed.

Lemma New_wf : wf New.
Proof. split; simpl; intros; rewrite ?lookup_empty in *; naive_solver. Qed.

Lemma New_view : view New = DBSpec.empty.
Proof. unfold view; simpl. by rewrite fmap_empty. Qed.

Lemma default_lookup (o : option (gmap string model.Register)) dev :
  default ∅ o !! dev = o ≫= (.!! dev).
Proof. destruct o; simpl; [done|apply lookup_empty]. Qed.

Lemma Register_refines k dev r d : wf d → ∃ d',
  Register k dev r d = Ret (d', None) ∧ wf d' ∧
  view d' = DBSpec.register (PublicKey_String k) dev r (view d).
Proof.
  intros W. unfold Register. rewrite default_lookup, <-view_devices.
  fold (DBSpec.merge (DBSpec.devices (view d) !! (PublicKey_String k, dev)) r).
  eexists; split; [done|]. split.
  - apply set_identities_wf; [done|]. intros k' x. rewrite lookup_insert. case_decide; intros; simplify_eq.
    + apply insert_non_empty.
    + by eapply wf_nonempty.
  - apply view_set_identities; [|done]. intros k' dev'. unfold DBSpec.register.
    cbn [DBSpec.devices]. set (e := DBSpec.merge _ _).
    destruct (decide ((k', dev') = (PublicKey_String k, dev))) as [E|Hne]; simplify_eq.
    { by rewrite !lookup_insert_eq; simpl; rewrite lookup_insert_eq. }
    rewrite (lookup_insert_ne (DBSpec.devices _)), view_devices, lookup_insert by congruence.
    case_decide; subst; [|done]. simpl. rewrite lookup_insert_ne by congruence. apply default_lookup.
Qed.

Lemma Unregister_refines k dev d : wf d → ∃ d',
  Unregister k dev d = Ret (d', None) ∧ wf d' ∧
  view d' = DBSpec.unregister (PublicKey_String k) dev (view d).
Proof.
  intros W. unfold Unregister, DBSpec.unregister.
  destruct (identities d !! PublicKey_String k) as [m|] eqn:E.
  - case_decide as Hs; (eexists; split; [done|]; split;
      [apply set_identities_wf; [done|] | apply view_set_identities; [|done]]).
    + intros k' x. rewrite lookup_delete_Some. intros [_ ?]. by eapply wf_nonempty.
    + apply map_size_empty_iff in Hs. intros k' dev'. cbn [DBSpec.devices].
      destruct (decide ((k', dev') = (PublicKey_String k, dev))) as [Eq|Hne]; simplify_eq.
      { by rewrite !lookup_delete_eq. }
      rewrite (lookup_delete_ne (DBSpec.devices _)), view_devices by congruence.
      destruct (decide (k' = PublicKey_String k)) as [->|]; [|by rewrite lookup_delete_ne].
      rewrite lookup_delete_eq, E; simpl. symmetry.
      rewrite <-(lookup_delete_ne m dev) by congruence. by rewrite Hs.
    + intros k' x. rewrite lookup_insert. case_decide; intros; simplify_eq.
      * intros He. apply Hs. by rewrite He, map_size_empty.
      * by eapply wf_nonempty.
    + intros k' dev'. cbn [DBSpec.devices].
      destruct (decide ((k', dev') = (PublicKey_String k, dev))) as [Eq|Hne]; simplify_eq.
      { rewrite lookup_insert_eq; simpl. by rewrite !lookup_delete_eq. }
      rewrite (lookup_delete_ne (DBSpec.devices _)), view_devices by congruence.
      destruct (decide (k' = PublicKey_String k)) as [->|]; [|by rewrite lookup_insert_ne].
      rewrite lookup_insert_eq, E; simpl. by rewrite lookup_delete_ne by congruence.
  - exists d. split; [done|]. split; [done|]. destruct (view d) as [vd vn] eqn:Hv; simpl. f_equal.
    symmetry. apply delete_id. pose proof (view_devices d (PublicKey_String k) dev) as H.
    by rewrite Hv, E in H.
Qed.

Lemma RequestPreKeys_refines rq d : wf d → ∃ d' res,
  RequestPreKeys rq d = Ret (d', res) ∧ wf d' ∧
  view d' = match res with
            | Ok _ => DBSpec.request (PublicKey_String (RequestPreKeys_IdentityKey rq))
                        (RequestPreKeys_KnownDeviceIds rq) (view d)
            | Err _ => view d
            end.
Proof.
  intros W. unfold RequestPreKeys.
  destruct (identities d !! PublicKey_String _) as [m|] eqn:E; [|by eauto].
  rewrite request_loop. do 2 eexists; split; [done|]. simpl. split.
  - apply set_identities_wf; [done|]. intros k' x. rewrite lookup_insert. case_decide; intros Hx; simplify_eq.
    + pose proof (wf_nonempty d W _ _ E) as Hne. apply map_choose in Hne as (dev & r & Hr).
      intros He. apply (f_equal (.!! dev)) in He. rewrite map_lookup_imap, Hr in He. done.
    + by eapply wf_nonempty.
  - apply view_set_identities; [|done]. intros k' dev'. rewrite request_lookup, view_devices, lookup_insert.
    destruct (decide (PublicKey_String (RequestPreKeys_IdentityKey rq) = k')) as [<-|Hk]; simpl.
    + rewrite E; simpl. rewrite map_lookup_imap. destruct (m !! dev'); simpl; [|done]. f_equal.
      repeat case_decide; naive_solver.
    + destruct (identities d !! k' ≫= _); simpl; [|done]. rewrite decide_False; naive_solver.
Qed.

Lemma insert_number_wf k n sn d :
  wf d → identityKeyToNumber d !! k = None → numberToIdentityKey d !! n = None →
  wf (mkMemdb (identities d)
        (<[k := n]> (identityKeyToNumber d)) (<[n := k]> (numberToIdentityKey d))
        (<[n := sn]> (numberToShortNumber d)) (<[sn := n]> (shortNumberToNumber d))).
Proof.
  intros [W1 W2 W3 W4] Hk Hn. split; simpl; [done|..].
  - intros k' n'. rewrite !lookup_insert.
    repeat case_decide; subst; try done; [naive_solver|..]; rewrite ?W2, <-?W2; naive_solver.
  - intros n'. rewrite !lookup_insert. case_decide; [by split; eauto|apply W3].
  - intros sn' n'. rewrite !lookup_insert. destruct (decide (sn = sn')) as [<-|].
    + intros [= <-]. by rewrite decide_True.
    + intros Hs%W4. rewrite decide_False; [done|]. intros <-.
      destruct (proj2 (W3 n)); [by eexists|congruence].
Qed.

Lemma RegisterChatNumber_refines k n sn d : wf d → ∃ d' res,
  RegisterChatNumber k n sn d = Ret (d', res) ∧ wf d' ∧
  match res with
  | Ok p =>
      match DBSpec.numbers (view d) !! PublicKey_String k with
      | Some q => p = q ∧ d' = d
      | None => p = (n, sn) ∧ ¬ DBSpec.taken n (view d) ∧
                view d' = DBSpec.assign_number (PublicKey_String k) n sn (view d)
      end
  | Err e => d' = d ∧ e = Sentinel ErrNumberTaken ∧ DBSpec.taken n (view d) ∧
             DBSpec.numbers (view d) !! PublicKey_String k = None
  end.
Proof.
  intros W. unfold RegisterChatNumber. rewrite view_numbers.
  destruct (identityKeyToNumber d !! _) as [m|] eqn:Ek; simpl; [by eauto 10|].
  pose proof (view_taken d n W) as Ht.
  destruct (numberToIdentityKey d !! n) as [k'|] eqn:En.
  { assert (DBSpec.taken n (view d)) by (apply Ht; eauto). by do 2 eexists. }
  do 2 eexists. split; [done|]. split; [by apply insert_number_wf|].
  split; [done|]. split; [by rewrite Ht; intros [? ?]|].
  unfold view, DBSpec.assign_number; cbn [DBSpec.devices DBSpec.numbers identityKeyToNumber numberToShortNumber]. f_equal.
  apply map_eq; intros k'. rewrite lookup_insert, !lookup_fmap, lookup_insert.
  case_decide; simpl; [by rewrite lookup_insert_eq|].
  apply fmap_Some_ext. intros m Hm. rewrite lookup_insert_ne; [done|].
  intros ->. apply (wf_numbers d W) in Hm. congruence.
Qed.

(** The database meets the contract of the interface. *)
#[export] Instance memdb_laws : DBLaws memdb.
Proof.
  refine {| reg_view := view; db_wf := wf |}; intros.
  - edestruct Register_refines as (s' & ? & ? & ?); [done|]. by exists s', None.
  - edestruct Unregister_refines as (s' & ? & ? & ?); [done|]. by exists s', None.
  - by apply RequestPreKeys_refines.
  - unfold db_PreKeysRemaining; simpl. unfold PreKeysRemaining, DBSpec.device_count. rewrite view_devices.
    destruct (identities s !! _) as [m|]; [|eexists; split; [done|naive_solver]].
    simpl. destruct (m !! d); (eexists; split; [done|naive_solver]).
  - by eexists.
  - edestruct (RegisterChatNumber_refines k n sn s) as (s' & res & E & W & Hres); [done|].
    exists s', res. split; [done|]. split; [done|]. destruct res as [p|e].
    + destruct (DBSpec.numbers _ !! _); naive_solver.
    + naive_solver.
  - unfold db_FindChatNumberByShortNumber; simpl. unfold FindChatNumberByShortNumber.
    destruct (shortNumberToNumber s !! sn); eauto.
  - unfold db_FindChatNumberByIdentityKey; simpl. unfold FindChatNumberByIdentityKey.
    rewrite lookup_fmap. destruct (identityKeyToNumber s !! _); (eexists; split; [done|naive_solver]).
Defined.

End memdb.
End memdb.

Import memdb.
#[global] Arguments view : simpl never.

(** ** Runs of the database *)

Section memdb_props.
Context {ID : Identity} {MR : MapRange}.

(** The calls a client can make, and what they do to the state. *)
Inductive call :=
| CRegister (k d : string) (r : model.Register)
| CUnregister (k d : string)
| CRequestPreKeys (rq : model.RequestPreKeys)
| CPreKeysRemaining (k d : string)
| CAllRegisteredDevices
| CRegisterChatNumber (k n sn : string)
| CFindByShortNumber (sn : string)
| CFindByIdentityKey (k : string).

Definition exec (c : call) (d : memdb) : outcome memdb :=
  match c with
  | CRegister k dev r => fst <$> (Register k dev r d : outcome _)
  | CUnregister k dev => fst <$> (Unregister k dev d : outcome _)
  | CRequestPreKeys rq => fst <$> (RequestPreKeys rq d : outcome _)
  | CPreKeysRemaining k dev => fst <$> (PreKeysRemaining k dev d : outcome _)
  | CAllRegisteredDevices => fst <$> (AllRegisteredDevices d : outcome _)
  | CRegisterChatNumber k n sn => fst <$> (RegisterChatNumber k n sn d : outcome _)
  | CFindByShortNumber sn => fst <$> (FindChatNumberByShortNumber sn d : outcome _)
  | CFindByIdentityKey k => fst <$> (FindChatNumberByIdentityKey k d : outcome _)
  end.

Fixpoint execs (cs : list call) (d : memdb) : outcome memdb :=
  match cs with
  | [] => Ret d
  | c :: cs' => exec c d ≫= execs cs'
  end.

(** The same calls on the abstract registry. *)
Definition abs_call (c : call) (s : DBSpec.state) : DBSpec.state :=
  match c with
  | CRegister k d r => DBSpec.register (PublicKey_String k) d r s
  | CUnregister k d => DBSpec.unregister (PublicKey_String k) d s
  | CRequestPreKeys rq =>
      DBSpec.request (PublicKey_String (RequestPreKeys_IdentityKey rq))
        (RequestPreKeys_KnownDeviceIds rq) s
  | CRegisterChatNumber k n sn =>
      match DBSpec.numbers s !! PublicKey_String k with
      | Some _ => s
      | None => if decide (map_Exists (λ _ p, p.1 = n) (DBSpec.numbers s)) then s
                else DBSpec.assign_number (PublicKey_String k) n sn s
      end
  | _ => s
  end.

Lemma exec_simulates c d : wf d → ∃ d',
  exec c d = Ret d' ∧ wf d' ∧ view d' = abs_call c (view d).
Proof.
  intros W. destruct c as [k dev r|k dev|rq|k dev| |k n sn|sn|k]; cbn [exec abs_call].
  - destruct (Register_refines k dev r d W) as (d' & -> & ? & ?). by exists d'.
  - destruct (Unregister_refines k dev d W) as (d' & -> & ? & ?). by exists d'.
  - destruct (RequestPreKeys_refines rq d W) as (d' & res & E & ? & Hv).
    rewrite E. exists d'. split; [done|]. split; [done|]. rewrite Hv.
    destruct res as [ks|e]; [done|]. symmetry. apply request_unknown. intros dev.
    rewrite view_devices. revert E. unfold RequestPreKeys.
    destruct (identities d !! _); [|done]. by destruct (foldl _ _ _).
  - exists d. split; [|done]. unfold PreKeysRemaining.
    destruct (identities d !! _) as [m|]; [|done]. by destruct (m !! dev).
  - by exists d.
  - destruct (RegisterChatNumber_refines k n sn d W) as (d' & res & -> & ? & Hv).
    exists d'. split; [done|]. split; [done|]. fold (DBSpec.taken n (view d)).
    destruct res as [p|e].
    + destruct (DBSpec.numbers (view d) !! _); [naive_solver|].
      rewrite decide_False by naive_solver. naive_solver.
    + destruct Hv as (-> & _ & Ht & ->). by rewrite decide_True.
  - exists d. split; [|done]. unfold FindChatNumberByShortNumber.
    by destruct (shortNumberToNumber d !! sn).
  - exists d. split; [|done]. unfold FindChatNumberByIdentityKey.
    by destruct (identityKeyToNumber d !! _).
Qed.

(** C14: the in-memory database refines the abstract registry: every sequence of
    calls on a new database returns without a panic, keeps the invariant (no
    identity without devices; the four number maps agree) and leaves exactly
    the registry that the same calls produce on the specification. *)
Theorem memdb_refines_registry (cs : list call) :
  ∃ d, execs cs New = Ret d ∧ wf d ∧ view d = foldl (λ s c, abs_call c s) DBSpec.empty cs.
Proof.
  rewrite <-New_view. generalize New_wf. generalize New as d.
  induction cs as [|c cs IH]; intros d W; simpl; [by exists d|].
  destruct (exec_simulates c d W) as (d' & -> & W' & <-). simpl. by apply IH.
Qed.

Lemma memdb_reachable_wf (cs : list call) : ∃ d, execs cs New = Ret d ∧ wf d.
Proof.
  generalize New_wf. generalize New as d.
  induction cs as [|c cs IH]; intros d W; simpl; [by exists d|].
  destruct (exec_simulates c d W) as (d' & -> & W' & _). by apply IH.
Qed.

(** ** Handing out pre keys *)

(** A request for an identity with registered devices returns, in some
    order, exactly one pre key for every device of the identity that the
    request does not list as known: its signed pre key and its newest one-time
    key, or none if it has run out. *)
Theorem RequestPreKeys_result (rq : model.RequestPreKeys) (d : memdb) (m : gmap string model.Register) :
  identities d !! PublicKey_String (RequestPreKeys_IdentityKey rq) = Some m →
  ∃ d' ks, RequestPreKeys rq d = Ret (d', Ok ks) ∧
    NoDup (PreKey_DeviceId <$> ks) ∧
    (∀ p, p ∈ ks ↔ ∃ dev r, m !! dev = Some r ∧ dev ∉ RequestPreKeys_KnownDeviceIds rq ∧
                            p = mkPreKey dev (Register_SignedPreKey r) (last (Register_OneTimePreKeys r))).
Proof.
  intros E. unfold RequestPreKeys. rewrite E, request_loop. do 2 eexists. split; [done|]. split.
  - rewrite <-list_fmap_compose.
    rewrite (list_fmap_ext (PreKey_DeviceId ∘ uncurry DBSpec.handed_out) fst) by (by intros ? []).
    apply NoDup_fmap_fst; [|apply NoDup_filter, (NoDup_fmap_1 fst), NoDup_map_range_fst].
    intros dev r1 r2. rewrite !list_elem_of_filter, !elem_of_map_range. naive_solver.
  - intros p. rewrite list_elem_of_fmap. setoid_rewrite list_elem_of_filter. split.
    + intros ([dev r] & -> & Hk & Hin%elem_of_map_range). eauto.
    + intros (dev & r & Hm & Hk & ->). exists (dev, r). by rewrite elem_of_map_range.
Qed.

Lemma device_after_request rq d d' ks dev r :
  RequestPreKeys rq d = Ret (d', Ok ks) →
  identities d !! PublicKey_String (RequestPreKeys_IdentityKey rq) ≫= (.!! dev) = Some r →
  dev ∉ RequestPreKeys_KnownDeviceIds rq →
  DBSpec.handed_out dev r ∈ ks ∧
  identities d' !! PublicKey_String (RequestPreKeys_IdentityKey rq) ≫= (.!! dev) = Some (DBSpec.consume r).
Proof.
  unfold RequestPreKeys. destruct (identities d !! _) as [m|] eqn:E; [|done].
  rewrite request_loop. intros [= <- <-] Hm Hd; simpl in *. split.
  - apply list_elem_of_fmap. exists (dev, r). split; [done|].
    by rewrite list_elem_of_filter, elem_of_map_range.
  - rewrite lookup_insert_eq; simpl. rewrite map_lookup_imap, Hm; simpl. by rewrite decide_True.
Qed.

(** Requests in a row; the pre keys each returned. *)
Fixpoint requests (rqs : list model.RequestPreKeys) (d : memdb) : outcome (memdb * list (list PreKey)) :=
  match rqs with
  | [] => Ret (d, [])
  | rq :: rqs' =>
      '(d', res) ← RequestPreKeys rq d;
      '(d'', kss) ← requests rqs' d';
      Ret (d'', match res with Ok ks => ks :: kss | Err _ => [] :: kss end)
  end.

(** The pre keys a reply has for a device. *)
Definition keys_for (dev : string) (ks : list PreKey) : list PreKey := filter (λ p, PreKey_DeviceId p = dev) ks.

Lemma keys_for_one dev ks p :
  NoDup (PreKey_DeviceId <$> ks) → p ∈ ks → PreKey_DeviceId p = dev → keys_for dev ks = [p].
Proof.
  intros Hnd Hin <-. unfold keys_for. induction ks as [|q ks IH]; [by apply not_elem_of_nil in Hin|].
  rewrite fmap_cons in Hnd. apply NoDup_cons in Hnd as [Hq Hnd]. apply elem_of_cons in Hin as [->|Hin].
  - rewrite filter_cons_True by done. f_equal. clear IH Hnd. induction ks as [|r ks IH]; [done|].
    rewrite fmap_cons in Hq. apply not_elem_of_cons in Hq as [Hr Hq]. rewrite filter_cons_False by congruence. by apply IH.
  - rewrite filter_cons_False; [by apply IH|]. intros E. apply Hq. rewrite E. by apply list_elem_of_fmap_2.
Qed.

Lemma pop_last_take (l : list string) : (pop_last l).2 = take (length l - 1) l.
Proof.
  destruct (pop_last_cases l) as [[-> ->]|(x & l' & -> & ->)]; [done|]. simpl.
  rewrite length_app. simpl. replace (length l' + 1 - 1) with (length l') by lia. by rewrite take_app_length.
Qed.

(** C15: one-time pre keys are disposable.  If a device holds the keys [otks],
    the [i]-th of any row of requests that ask for it returns exactly one pre key of
    the device, with the [i]-th one-time key counting from the newest, so no key is
    given out twice, and once the keys have run out the requests get the signed pre
    key alone; afterwards the device holds the keys that were not given out. *)
Theorem one_time_keys_given_once
    (rqs : list model.RequestPreKeys) (d : memdb) (k dev spk : string) (otks : list string) :
  identities d !! PublicKey_String k ≫= (.!! dev) = Some (mkRegister spk otks) →
  Forall (λ rq, RequestPreKeys_IdentityKey rq = k ∧ dev ∉ RequestPreKeys_KnownDeviceIds rq) rqs →
  ∃ d' kss, requests rqs d = Ret (d', kss) ∧ length kss = length rqs ∧
    (∀ i ks, kss !! i = Some ks → keys_for dev ks = [mkPreKey dev spk (reverse otks !! i)]) ∧
    identities d' !! PublicKey_String k ≫= (.!! dev) =
      Some (mkRegister spk (take (length otks - length rqs) otks)).
Proof.
  intros Hdev Hall. revert d otks Hdev.
  induction Hall as [|rq rqs [Hk Hkn] Hall IH]; intros d otks Hdev.
  { eexists _, _. split_and!; [done..|]. simpl. by rewrite Nat.sub_0_r, firstn_all. }
  destruct (identities d !! PublicKey_String k) as [m|] eqn:Em; [|done]. simpl in Hdev.
  destruct (RequestPreKeys_result rq d m) as (d1 & ks & Er & Hnd & _); [by rewrite Hk|].
  destruct (device_after_request rq d d1 ks dev (mkRegister spk otks) Er) as [Hin Hnext]; [by rewrite Hk, Em|done|].
  apply (keys_for_one dev) in Hin; [|done..]. unfold DBSpec.consume in Hnext. cbn [Register_SignedPreKey Register_OneTimePreKeys] in Hnext.
  rewrite Hk, pop_last_take in Hnext. destruct (IH d1 _ Hnext) as (d' & kss & Hr & Hlen & Hks & Hend).
  exists d', (ks :: kss). cbn [requests]. rewrite Er; cbn; rewrite Hr; cbn.
  split; [done|]. split; [by rewrite Hlen|]. split.
  - intros [|i] ks' Hi; simplify_eq/=.
    + rewrite Hin. unfold DBSpec.handed_out; simpl.
      destruct (pop_last_cases otks) as [[-> _]|(x & l & -> & _)]; [done|]. by rewrite last_snoc, reverse_snoc.
    + rewrite (Hks _ _ Hi). destruct (pop_last_cases otks) as [[-> _]|(x & l & -> & _)]; [done|].
      rewrite length_app. simpl. replace (length l + 1 - 1) with (length l) by lia.
      by rewrite take_app_length, reverse_snoc.
  - rewrite Hend, take_take, length_take. do 2 f_equal. f_equal; lia.
Qed.

(** ** Chat numbers *)

Lemma abs_call_keeps_number c s k p :
  DBSpec.numbers s !! k = Some p → DBSpec.numbers (abs_call c s) !! k = Some p.
Proof.
  intros Hk. destruct c; simpl; try done.
  destruct (DBSpec.numbers s !! PublicKey_String k0) eqn:E; [done|].
  case_decide; [done|]. simpl. rewrite lookup_insert_ne; [done|]. congruence.
Qed.

Lemma abs_calls_keep_number cs s k p :
  DBSpec.numbers s !! k = Some p →
  DBSpec.numbers (foldl (λ s c, abs_call c s) s cs) !! k = Some p.
Proof.
  revert s; induction cs as [|c cs IH]; intros s Hk; simpl; [done|].
  by apply IH, abs_call_keeps_number.
Qed.

Lemma execs_simulate cs d : wf d → ∃ d',
  execs cs d = Ret d' ∧ wf d' ∧ view d' = foldl (λ s c, abs_call c s) (view d) cs.
Proof.
  revert d; induction cs as [|c cs IH]; intros d W; simpl; [by exists d|].
  destruct (exec_simulates c d W) as (d1 & -> & W1 & <-). simpl. by apply IH.
Qed.

(** An identity's chat number is constant over time.  Once
    [RegisterChatNumber] has given an identity a number and a short number,
    both [RegisterChatNumber] (with whatever new proposal) and
    [FindChatNumberByIdentityKey] answer with that pair after any sequence of
    calls. *)
Theorem chat_number_constant
    (k n sn n' sn' : string) (d d1 : memdb) (p : string * string) (cs : list call) :
  wf d → RegisterChatNumber k n sn d = Ret (d1, Ok p) →
  ∃ d2, execs cs d1 = Ret d2 ∧
    FindChatNumberByIdentityKey k d2 = Ret (d2, Ok p) ∧
    RegisterChatNumber k n' sn' d2 = Ret (d2, Ok p).
Proof.
  intros W E. destruct (RegisterChatNumber_refines k n sn d W) as (d' & res & E' & W' & Hv).
  rewrite E in E'. simplify_eq.
  assert (Hp : DBSpec.numbers (view d') !! PublicKey_String k = Some p).
  { destruct (DBSpec.numbers (view d) !! _) as [q|] eqn:Eq; [naive_solver|].
    destruct Hv as (-> & _ & ->). simpl. apply lookup_insert_eq. }
  destruct (execs_simulate cs d' W') as (d2 & Ex & W2 & Hv2).
  apply (abs_calls_keep_number cs) in Hp. rewrite <-Hv2, view_numbers in Hp.
  apply fmap_Some in Hp as (m & Hm & ->).
  exists d2. split; [done|]. unfold FindChatNumberByIdentityKey, RegisterChatNumber. by rewrite Hm.
Qed.

(** Numbers belong to one identity each: in every reachable state two
    different printed identity keys never have the same number. *)
Theorem chat_numbers_unique (cs : list call) :
  ∃ d, execs cs New = Ret d ∧ DBSpec.numbers_unique (view d).
Proof.
  destruct (memdb_reachable_wf cs) as (d & E & W). exists d. split; [done|].
  intros k k' n sn sn'. rewrite !view_numbers. intros Hk Hk'.
  apply fmap_Some in Hk as (m & Hm & ?). apply fmap_Some in Hk' as (m' & Hm' & ?). simplify_eq.
  apply (wf_numbers d W) in Hm, Hm'. congruence.
Qed.

(** A short number, unlike a number, is not protected.  When a second
    identity registers a different free number with the same short number, the
    registration succeeds and the short number then leads to the second
    identity's number, while the first identity is still told that it owns
    it. *)
Theorem short_number_reassigned (k1 k2 n1 n2 sn : string) (d : memdb) :
  wf d →
  identityKeyToNumber d !! PublicKey_String k1 = Some n1 →
  numberToShortNumber d !! n1 = Some sn →
  identityKeyToNumber d !! PublicKey_String k2 = None →
  numberToIdentityKey d !! n2 = None →
  ∃ d', RegisterChatNumber k2 n2 sn d = Ret (d', Ok (n2, sn)) ∧
    FindChatNumberByShortNumber sn d' = Ret (d', Ok n2) ∧
    FindChatNumberByIdentityKey k1 d' = Ret (d', Ok (n1, sn)) ∧ n1 ≠ n2.
Proof.
  intros W H1 Hsn H2 Hn2. assert (Hne : n1 ≠ n2).
  { intros ->. apply (wf_numbers d W) in H1. congruence. }
  unfold RegisterChatNumber. rewrite H2, Hn2. eexists. split; [done|].
  unfold FindChatNumberByShortNumber, FindChatNumberByIdentityKey; simpl.
  rewrite lookup_insert_eq, (lookup_insert_ne (identityKeyToNumber d)), H1 by congruence.
  by rewrite lookup_insert_ne, Hsn by done.
Qed.
End memdb_props.

(** ** Evaluation on concrete databases *)

Definition kA : string := "identity-A".
Definition kB : string := "identity-B".

(** A database in which device [d1] of [kA] registered three keys. *)
Definition db_A : outcome memdb :=
  fst <$> @Register toy_identity kA "d1" (mkRegister "spk" ["k1"; "k2"; "k3"]) New.

Definition db_A_state : memdb := match db_A with Ret d => d | _ => New end.

Lemma RequestPreKeys_result_witness :
  ∃ d' ks, @RequestPreKeys toy_identity canonical_range (mkRequestPreKeys kA []) db_A_state = Ret (d', Ok ks) ∧
    ks = [mkPreKey "d1" "spk" (Some "k3")].
Proof.
  destruct (@RequestPreKeys_result toy_identity canonical_range (mkRequestPreKeys kA []) db_A_state
              {["d1" := mkRegister "spk" ["k1"; "k2"; "k3"]]} eq_refl) as (d' & ks & E & _).
  exists d', ks. split; [exact E|]. revert E. vm_compute. by intros [= _ <-].
Defined.

Lemma one_time_keys_given_once_witness :
  ∃ d' kss, @requests toy_identity canonical_range (replicate 4 (mkRequestPreKeys kA [])) db_A_state = Ret (d', kss) ∧
    kss = [[mkPreKey "d1" "spk" (Some "k3")]; [mkPreKey "d1" "spk" (Some "k2")];
           [mkPreKey "d1" "spk" (Some "k1")]; [mkPreKey "d1" "spk" None]].
Proof.
  destruct (@one_time_keys_given_once toy_identity canonical_range
              (replicate 4 (mkRequestPreKeys kA [])) db_A_state kA "d1" "spk" ["k1"; "k2"; "k3"] eq_refl)
    as (d' & kss & E & _).
  { repeat constructor; set_solver. }
  exists d', kss. split; [exact E|]. revert E. vm_compute. by intros [= _ <-].
Defined.

(** A database in which [kA] has a number. *)
Definition db_N : memdb :=
  match @RegisterChatNumber toy_identity kA "111111111111-A" "111111111111" New with
  | Ret (d, _) => d | _ => New end.

Lemma db_N_wf : wf db_N.
Proof. apply (insert_number_wf _ _ _ New New_wf); reflexivity. Qed.

Lemma chat_number_constant_witness :
  ∃ d2, @execs toy_identity canonical_range
          [CRegister kA "d1" (mkRegister "spk" []); CRegisterChatNumber kB "222" "22"; CUnregister kA "d1"] db_N = Ret d2 ∧
    @FindChatNumberByIdentityKey toy_identity kA d2 = Ret (d2, Ok ("111111111111-A", "111111111111")).
Proof.
  destruct (@chat_number_constant toy_identity canonical_range kA "111111111111-A" "111111111111" "9" "9" New db_N
              ("111111111111-A", "111111111111")
              [CRegister kA "d1" (mkRegister "spk" []); CRegisterChatNumber kB "222" "22"; CUnregister kA "d1"]
              New_wf eq_refl) as (d2 & E & F & _).
  exists d2. by split.
Defined.

Lemma short_number_reassigned_witness :
  ∃ d', @RegisterChatNumber toy_identity kB "111111111111-B" "111111111111" db_N
          = Ret (d', Ok ("111111111111-B", "111111111111")) ∧
    FindChatNumberByShortNumber "111111111111" d' = Ret (d', Ok "111111111111-B").
Proof.
  destruct (@short_number_reassigned toy_identity kA kB "111111111111-A" "111111111111-B" "111111111111" db_N
              db_N_wf eq_refl eq_refl eq_refl eq_refl) as (d' & E & F & _).
  exists d'. by split.
Defined.
