(* ===== verification/RedisDB.v ===== *)
(** * RedisDB: the database on Redis (db/redisdb/redisdb.go and its scripts)

    The Redis commands are a parameter, the class [RedisData] over a server state
    [R]; the Lua scripts are translated into functions on [R], which the server runs
    atomically.  A command over the network, [redis_call], may fail, and so may a
    pipeline of commands, [redis_pipeline].  Other clients of the server act between
    two commands, except within a transaction: what they do in the [n]-th gap of a
    method is [others n].  The clock is a parameter too. *)

From S2P Require Import Prelude Text Model Externals DB.

(** ** Redis commands *)

Class RedisData (R : Type) : Type := {
  hget : string → string → R → option string;
  hset : string → string → string → R → R;
  del : list string → R → R;
  sadd : string → string → R → R;
  srem : string → string → R → R;
  scard : string → R → Z;
  smembers : string → R → list string;
  lpush : string → list string → R → R;
  lpop : string → R → R * option string;
  llen : string → R → Z;
  key_exists : string → R → bool;
  keys_with_prefix : string → R → list string;
  getset : string → string → R → R * option string;
  incrby : string → Z → R → R * Z;
  redis_call : ∀ {X : Type}, (R → R * X) → R → R * result X;
  redis_pipeline : ∀ {X : Type}, list (R → R * X) → R → R * result (list X);
}.

(** The commands of a pipeline run one after the other. *)
Fixpoint run_all {R X : Type} (cmds : list (R → R * X)) (r : R) : R * list X :=
  match cmds with
  | [] => (r, [])
  | cmd :: rest =>
      let '(r1, x) := cmd r in
      let '(r2, xs) := run_all rest r1 in
      (r2, x :: xs)
  end.

Module redisdb.

Definition minMillisPerChatNumberRegistration : Z := 500.
Definition identityToNumberKey : string := "{global}identity->number".
Definition numberToIdentityKey : string := "{global}number->identity".
Definition numberToShortNumberKey : string := "{global}number->shortnumber".
Definition shortNumberToNumberKey : string := "{global}shortnumber->number".
Definition lastRegistrationTimeKey : string := "{global}last-registration-time".
Definition registrationTokensKey : string := "{global}registration-tokens".

Section redisdb.
Context {ID : Identity} {R : Type} {RD : RedisData R}.
Context (now : R → Z) (others : nat → R → R).

(** ** Keys *)

Definition deviceKeyFromString (identityKey deviceId : string) : string :=
  ("device:{" +:+ PublicKey_String identityKey +:+ "}:" +:+ deviceId)%string.
Definition deviceKey (identityKey deviceId : string) : string :=
  deviceKeyFromString identityKey (base32_Encode deviceId).
Definition identityDevicesKey (identityKey : string) : string :=
  ("identity->devices:{" +:+ PublicKey_String identityKey +:+ "}")%string.
Definition oneTimePreKeysKey (deviceKey : string) : string := ("otpk:" +:+ deviceKey)%string.

(** ** The scripts *)

(** register.lua *)
Definition registerScript (deviceKey identityDevicesKey oneTimePreKeysKey newSignedPreKey deviceId : string)
    (r : R) : R * Z :=
  let oldSignedPreKey := hget deviceKey "signedPreKey" r in
  let r1 := sadd identityDevicesKey deviceId r in
  if decide (Some newSignedPreKey = oldSignedPreKey) then (r1, 1%Z)
  else (del [oneTimePreKeysKey] (hset deviceKey "signedPreKey" newSignedPreKey r1), 0%Z).

(** unregister.lua *)
Definition unregisterScript (deviceKey identityDevicesKey oneTimePreKeysKey deviceId : string)
    (r : R) : R * Z :=
  let remainingDevices := scard identityDevicesKey r in
  let r1 := if decide (remainingDevices = 1)%Z then del [identityDevicesKey] r
            else srem identityDevicesKey deviceId r in
  (del [deviceKey; oneTimePreKeysKey] r1, 0%Z).

(** get_pre_key.lua *)
Definition getPreKeyScript (deviceKey oneTimePreKeysKey : string) (r : R)
    : R * (option string * option string) :=
  let signedPreKey := hget deviceKey "signedPreKey" r in
  let '(r1, oneTimePreKey) := lpop oneTimePreKeysKey r in
  (r1, (signedPreKey, oneTimePreKey)).

(** What register_chat_number.lua returns: a number, or a table. *)
Inductive reply := ReplyInt (n : Z) | ReplyTable (a b : option string).

(** The last part of the script. *)
Definition newRegistration (identityKey newNumber newShortNumber : string) (r : R) : R :=
  hset shortNumberToNumberKey newShortNumber newNumber
    (hset numberToShortNumberKey newNumber newShortNumber
      (hset numberToIdentityKey newNumber identityKey
        (hset identityToNumberKey identityKey newNumber r))).

(** The rate limiting part: the tokens that are missing, if any. *)
Definition rateLimit (requiredTokens now : Z) (r : R) : R * option Z :=
  if decide (0 < requiredTokens)%Z then
    let '(r1, lastRegistrationTime) := getset lastRegistrationTimeKey (itoa now) r in
    match lastRegistrationTime with
    | Some t =>
        let delta := (now - (atoi t).1 - requiredTokens)%Z in
        let '(r2, availableTokens) := incrby registrationTokensKey delta r1 in
        if decide (availableTokens < 0)%Z then (r2, Some (-1 * availableTokens)%Z) else (r2, None)
    | None => (r1, None)
    end
  else (r, None).

(** The script from the check of the number on. *)
Definition registerIfFree (identityKey newNumber newShortNumber : string)
    (requiredTokens now : Z) (r : R) : R * reply :=
  match hget numberToIdentityKey newNumber r with
  | Some _ => (* number already belongs to a different identity key *) (r, ReplyInt (-1))
  | None =>
      match rateLimit requiredTokens now r with
      | (r1, Some missing) => (r1, ReplyInt missing)
      | (r1, None) =>
          (newRegistration identityKey newNumber newShortNumber r1,
           ReplyTable (Some newNumber) (Some newShortNumber))
      end
  end.

(** register_chat_number.lua *)
Definition registerChatNumberScript (identityKey newNumber newShortNumber : string)
    (requiredTokens now : Z) (r : R) : R * reply :=
  match hget identityToNumberKey identityKey r with
  | Some number =>
      if decide (number = "")
      then registerIfFree identityKey newNumber newShortNumber requiredTokens now r
      else (* already registered *) (r, ReplyTable (Some number) (hget numberToShortNumberKey number r))
  | None => registerIfFree identityKey newNumber newShortNumber requiredTokens now r
  end.

(** ** The methods *)

(** The error of a call, and the state. *)
Definition callErr {X} (x : R * result X) : R * option goerror :=
  match x with (r, Ok _) => (r, None) | (r, Err e) => (r, Some e) end.

(** The commands of Register: the script, then LPUSH if there are keys. *)
Definition registerCmds (identityKey deviceId : string) (registration : Register) : list (R → R * Z) :=
  let dk := deviceKey identityKey deviceId in
  let otpk := oneTimePreKeysKey dk in
  registerScript dk (identityDevicesKey identityKey) otpk
    (Register_SignedPreKey registration) (base32_Encode deviceId) ::
  match Register_OneTimePreKeys registration with
  | [] => []
  | l => [λ r, let r1 := lpush otpk l r in (r1, llen otpk r1)]
  end.

Definition Register (identityKey deviceId : string) (registration : Register) (r : R)
    : outcome (R * option goerror) :=
  Ret (callErr (redis_pipeline (registerCmds identityKey deviceId registration) r)).

Definition Unregister (identityKey deviceId : string) (r : R) : outcome (R * option goerror) :=
  let dk := deviceKey identityKey deviceId in
  Ret (callErr (redis_call (unregisterScript dk (identityDevicesKey identityKey)
                              (oneTimePreKeysKey dk) (base32_Encode deviceId)) r)).

Definition isKnown (request : RequestPreKeys) (deviceId : string) : bool :=
  bool_decide (deviceId ∈ base32_Encode <$> RequestPreKeys_KnownDeviceIds request).

(** The pipeline: one script per device, in order. *)
Definition getPreKeyCmds (identityKey : string) (deviceIds : list string)
    : list (R → R * (option string * option string)) :=
  (λ deviceId, let dk := deviceKeyFromString identityKey deviceId in
    getPreKeyScript dk (oneTimePreKeysKey dk)) <$> deviceIds.

(** The commands of a pipeline that is not a transaction: the other clients act before
    each. *)
Definition interrupted {X} (cmds : list (R → R * X)) : list (R → R * X) :=
  imap (λ n cmd r, cmd (others n r)) cmds.

(** The loop over the results; a device without a signed pre key panics. *)
Fixpoint toPreKeys (deviceIds : list string) (outs : list (option string * option string))
    : outcome (result (list PreKey)) :=
  match deviceIds, outs with
  | deviceId :: ds, out :: os =>
      match base32_Decode deviceId with
      | Err err => Ret (Err (Untyped ("unable to parse deviceId '" +:+ deviceId +:+ "': " +:+ error_text err)%string))
      | Ok d =>
          signedPreKey ← deref out.1;
          rest ← toPreKeys ds os;
          Ret (match rest with
               | Ok l => Ok (mkPreKey d signedPreKey out.2 :: l)
               | Err e => Err e
               end)
      end
  | _, _ => Ret (Ok [])
  end.

Definition RequestPreKeys (request : RequestPreKeys) (r : R) : outcome (R * result (list PreKey)) :=
  let identityKey := RequestPreKeys_IdentityKey request in
  match redis_call (λ r, (r, smembers (identityDevicesKey identityKey) r)) r with
  | (r1, Err e) => Ret (r1, Err e)
  | (r1, Ok identityDevices) =>
      let deviceIds := filter (λ d, isKnown request d = false) identityDevices in
      match redis_pipeline (interrupted (getPreKeyCmds identityKey deviceIds)) r1 with
      | (r2, Err e) => Ret (r2, Err e)
      | (r2, Ok outs) =>
          res ← toPreKeys deviceIds outs;
          Ret (r2, match res with
                   | Ok [] => Err (Sentinel ErrUnknownIdentity)
                   | _ => res
                   end)
      end
  end.

(** EXISTS and LLEN; [Result] of a command has the zero value when there is none. *)
Definition preKeysRemainingCmds (deviceKey : string) : list (R → R * Z) :=
  [λ r, (r, if key_exists deviceKey r then 1 else 0)%Z;
   λ r, (r, llen (oneTimePreKeysKey deviceKey) r)].

Definition PreKeysRemaining (identityKey deviceId : string) (r : R) : outcome (R * result Z) :=
  match redis_pipeline (interrupted (preKeysRemainingCmds (deviceKey identityKey deviceId))) r with
  | (r1, Err e) => Ret (r1, Err e)
  | (r1, Ok outs) =>
      let deviceExists := default 0%Z (outs !! 0) in
      let numPreKeys := default 0%Z (outs !! 1) in
      Ret (r1, if decide (deviceExists = 0)%Z then Err (Sentinel ErrUnknownDevice) else Ok numPreKeys)
  end.

(** [strings.Trim(s, "{}")] *)
Definition is_brace (c : ascii) : bool := bool_decide (c = "{"%char ∨ c = "}"%char).
Fixpoint trim_left (s : string) : string :=
  match s with String c s' => if is_brace c then trim_left s' else s | EmptyString => s end.
Fixpoint trim_right (s : string) : string :=
  match s with
  | EmptyString => EmptyString
  | String c s' =>
      match trim_right s' with
      | EmptyString => if is_brace c then EmptyString else String c EmptyString
      | t => String c t
      end
  end.
Definition trim_braces (s : string) : string := trim_right (trim_left s).

(** The address in a device key; [parts[1]] and [parts[2]] panic if missing. *)
Definition parseDeviceKey (deviceKey : string) : outcome (result Address) :=
  let parts := str_split ":" deviceKey in
  p1 ← deref (parts !! 1);
  match PublicKeyFromString (trim_braces p1) with
  | Err e => Ret (Err e)
  | Ok identityKey =>
      p2 ← deref (parts !! 2);
      match base32_Decode p2 with
      | Err e => Ret (Err e)
      | Ok deviceId => Ret (Ok (mkAddress identityKey deviceId))
      end
  end.

Fixpoint parseDeviceKeys (deviceKeys : list string) : outcome (result (list Address)) :=
  match deviceKeys with
  | [] => Ret (Ok [])
  | k :: ks =>
      a ← parseDeviceKey k;
      match a with
      | Err e => Ret (Err e)
      | Ok addr =>
          rest ← parseDeviceKeys ks;
          Ret (match rest with Ok l => Ok (addr :: l) | Err e => Err e end)
      end
  end.

Definition AllRegisteredDevices (r : R) : outcome (R * result (list Address)) :=
  match redis_call (λ r, (r, keys_with_prefix "device:" r)) r with
  | (r1, Err e) => Ret (r1, Err e)
  | (r1, Ok deviceKeys) => res ← parseDeviceKeys deviceKeys; Ret (r1, res)
  end.

(** [results[0].(string), results[1].(string)] *)
Definition asNumbers (x : reply) : outcome (string * string) :=
  match x with
  | ReplyTable a b => n ← deref a; sn ← deref b; Ret (n, sn)
  | ReplyInt _ => Panic
  end.

(** If the script asks to wait, the others go on while we sleep and the script
    runs again without rate limiting. *)
Definition RegisterChatNumber (identityKey newNumber newShortNumber : string) (r : R)
    : outcome (R * result (string * string)) :=
  let k := PublicKey_String identityKey in
  match redis_call (registerChatNumberScript k newNumber newShortNumber
                      minMillisPerChatNumberRegistration (now r)) r with
  | (r1, Err e) => Ret (r1, Err e)
  | (r1, Ok (ReplyInt n)) =>
      if decide (n = -1)%Z then Ret (r1, Err (Sentinel ErrNumberTaken))
      else
        match redis_call (registerChatNumberScript k newNumber newShortNumber 0 (now r)) (others 0 r1) with
        | (r2, Err e) => Ret (r2, Err e)
        | (r2, Ok result) =>
            match result with
            | ReplyInt (-1) => Ret (r2, Err (Sentinel ErrNumberTaken))
            | _ => p ← asNumbers result; Ret (r2, Ok p)
            end
        end
  | (r1, Ok result) => p ← asNumbers result; Ret (r1, Ok p)
  end.

(** HGET of a missing field is the error [redis.Nil]. *)
Definition redisNil : goerror := Untyped "redis: nil".
Definition callHGet (key field : string) (r : R) : R * result string :=
  match redis_call (λ r, (r, hget key field r)) r with
  | (r1, Ok (Some v)) => (r1, Ok v)
  | (r1, Ok None) => (r1, Err redisNil)
  | (r1, Err e) => (r1, Err e)
  end.

Definition FindChatNumberByShortNumber (shortNumber : string) (r : R) : outcome (R * result string) :=
  match callHGet shortNumberToNumberKey shortNumber r with
  | (r1, Err e) => Ret (r1, Err e)
  | (r1, Ok number) =>
      Ret (r1, if decide (number = "") then Err (Sentinel ErrUnknownShortNumber) else Ok number)
  end.

Definition FindChatNumberByIdentityKey (identityKey : string) (r : R) : outcome (R * result (string * string)) :=
  match callHGet identityToNumberKey (PublicKey_String identityKey) r with
  | (r1, Err e) => Ret (r1, Err e)
  | (r1, Ok number) =>
      if decide (number = "") then Ret (r1, Err (Sentinel ErrUnknownIdentity))
      else
        match callHGet numberToShortNumberKey number (others 0 r1) with
        | (r2, Err e) => Ret (r2, Err e)
        | (r2, Ok shortNumber) => Ret (r2, Ok (number, shortNumber))
        end
  end.

Definition redisdb_DB : DB R := {|
  db_Register := Register;
  db_Unregister := Unregister;
  db_RequestPreKeys := RequestPreKeys;
  db_PreKeysRemaining := PreKeysRemaining;
  db_AllRegisteredDevices := AllRegisteredDevices;
  db_RegisterChatNumber := RegisterChatNumber;
  db_FindChatNumberByShortNumber := FindChatNumberByShortNumber;
  db_FindChatNumberByIdentityKey := FindChatNumberByIdentityKey;
|}.

End redisdb.
End redisdb.
