(* ===== verification/RedisDBProps.v ===== *)
(** * RedisDBProps: the Redis database implements the registry, mostly

    [store] and its operations are the documented meaning of the Redis commands
    the database uses; [RedisDataLaws] says that a server behaves like it.
    [represents] relates a store to the abstract registry of DB.v.  Registering,
    unregistering and requesting keys simulate the registry, with the exceptions
    the theorems name. *)

From S2P Require Import Prelude Text Model Externals DB RedisDB.

Import redisdb.

(** ** What Redis stores *)

Record store := mkStore {
  hashes : gmap string (gmap string string);
  sets : gmap string (gset string);
  lists : gmap string (list string);
  strs : gmap string string }.

Definition hash_at (σ : store) (k : string) : gmap string string := default ∅ (hashes σ !! k).
Definition set_at (σ : store) (k : string) : gset string := default ∅ (sets σ !! k).
Definition list_at (σ : store) (k : string) : list string := default [] (lists σ !! k).

Definition s_hset (k f v : string) (σ : store) : store :=
  mkStore (<[k := <[f := v]> (hash_at σ k)]> (hashes σ)) (sets σ) (lists σ) (strs σ).
Definition s_del (k : string) (σ : store) : store :=
  mkStore (delete k (hashes σ)) (delete k (sets σ)) (delete k (lists σ)) (delete k (strs σ)).
Definition s_sadd (k x : string) (σ : store) : store :=
  mkStore (hashes σ) (<[k := {[x]} ∪ set_at σ k]> (sets σ)) (lists σ) (strs σ).
Definition s_srem (k x : string) (σ : store) : store :=
  mkStore (hashes σ) (<[k := set_at σ k ∖ {[x]}]> (sets σ)) (lists σ) (strs σ).
Definition s_list (k : string) (l : list string) (σ : store) : store :=
  mkStore (hashes σ) (sets σ) (<[k := l]> (lists σ)) (strs σ).
Definition s_str (k v : string) (σ : store) : store :=
  mkStore (hashes σ) (sets σ) (lists σ) (<[k := v]> (strs σ)).

(** The value of a string that INCRBY works on. *)
Definition counter (σ : store) (k : string) : Z := (atoi (default "0" (strs σ !! k))).1.

(** LPUSH puts its arguments in front one after the other; LPOP takes the first.
    A command that succeeds ran on the server; one that fails ran or did not.  Of a
    pipeline that fails, some of the commands ran (also in a transaction: Redis
    does not roll back).  The commands of a transaction run without a gap; those of a
    plain pipeline are given with what other clients do before them ([interrupted]). *)
Class RedisDataLaws (R : Type) `{!RedisData R} : Type := {
  view : R → store;
  hget_law : ∀ k f r, hget k f r = hash_at (view r) k !! f;
  hset_law : ∀ k f v r, view (hset k f v r) = s_hset k f v (view r);
  del_law : ∀ ks r, view (del ks r) = foldl (λ σ k, s_del k σ) (view r) ks;
  sadd_law : ∀ k x r, view (sadd k x r) = s_sadd k x (view r);
  srem_law : ∀ k x r, view (srem k x r) = s_srem k x (view r);
  scard_law : ∀ k r, scard k r = Z.of_nat (size (set_at (view r) k));
  smembers_law : ∀ k r, smembers k r ≡ₚ elements (set_at (view r) k);
  lpush_law : ∀ k l r, view (lpush k l r) = s_list k (reverse l ++ list_at (view r) k) (view r);
  lpop_law : ∀ k r, (lpop k r).2 = head (list_at (view r) k) ∧
    view (lpop k r).1 = s_list k (tail (list_at (view r) k)) (view r);
  getset_law : ∀ k v r, (getset k v r).2 = strs (view r) !! k ∧ view (getset k v r).1 = s_str k v (view r);
  incrby_law : ∀ k n r, ∃ s, view (incrby k n r).1 = s_str k s (view r) ∧
    let m := (counter (view r) k + n)%Z in in_i64 m → (incrby k n r).2 = m ∧ s = itoa m;
  call_ok : ∀ X (f : R → R * X) r r' x, redis_call f r = (r', Ok x) → f r = (r', x);
  call_err : ∀ X (f : R → R * X) r r' e, redis_call f r = (r', Err e) → r' = r ∨ r' = (f r).1;
  pipeline_ok : ∀ X (fs : list (R → R * X)) r r' xs,
    redis_pipeline fs r = (r', Ok xs) → run_all fs r = (r', xs);
  pipeline_err : ∀ X (fs : list (R → R * X)) r r' e,
    redis_pipeline fs r = (r', Err e) → ∃ fs', fs' `sublist_of` fs ∧ r' = (run_all fs' r).1;
}.

(** ** Keys *)

Section keys.
Context {ID : Identity} {IDL : IdentityLaws}.

(** Device keys are different for different identities or devices. *)
Lemma deviceKeyFromString_inj k k' b b' :
  deviceKeyFromString k b = deviceKeyFromString k' b' → PublicKey_String k = PublicKey_String k' ∧ b = b'.
Proof.
  unfold deviceKeyFromString. intros E. apply str_app_inj_l in E.
  change ("}:" +:+ b)%string with (String "}" (":" +:+ b)) in E.
  change ("}:" +:+ b')%string with (String "}" (":" +:+ b')) in E.
  apply app_sep_inj in E as [-> E]; [|apply clean_not; [apply PublicKey_String_clean|set_solver]..].
  split; [done|]. by apply str_app_inj_l in E.
Qed.

Lemma deviceKey_inj k k' d d' :
  deviceKey k d = deviceKey k' d' → PublicKey_String k = PublicKey_String k' ∧ d = d'.
Proof. intros [? ?%base32_Encode_inj]%deviceKeyFromString_inj. done. Qed.

Lemma oneTimePreKeysKey_inj a b : oneTimePreKeysKey a = oneTimePreKeysKey b → a = b.
Proof. apply str_app_inj_l. Qed.

Lemma identityDevicesKey_inj k k' :
  identityDevicesKey k = identityDevicesKey k' → PublicKey_String k = PublicKey_String k'.
Proof.
  unfold identityDevicesKey. intros E. apply str_app_inj_l in E.
  apply app_sep_inj in E as [-> _]; [done|apply clean_not; [apply PublicKey_String_clean|set_solver]..].
Qed.

Lemma clean_all s c :
  no_separator s → c ∈ separators → str_all (λ x, negb (bool_decide (x = c))) s = true.
Proof.
  intros H Hc. induction s as [|a s IH]; [done|]. simpl.
  rewrite bool_decide_false, IH; [done| |].
  - intros x Hx. apply H. simpl. set_solver.
  - intros ->. apply (H c); [|done]. simpl. set_solver.
Qed.

Lemma clean_no_brace s : no_separator s → str_all (λ x, negb (is_brace x)) s = true.
Proof.
  intros H. induction s as [|a s IH]; [done|]. simpl. rewrite IH; [|intros x Hx; apply H; simpl; set_solver].
  unfold is_brace. rewrite bool_decide_false; [done|].
  intros Ha. apply (H a); [simpl; set_solver|]. unfold separators. destruct Ha as [-> | ->]; set_solver.
Qed.

Lemma trim_right_brace s : str_all (λ x, negb (is_brace x)) s = true → trim_right (s +:+ "}") = s.
Proof.
  induction s as [|c s IH]; [done|]. rewrite str_app_cons. simpl. intros [Hc Hs]%andb_prop.
  rewrite IH by done. destruct s; [|done]. by apply negb_true_iff in Hc as ->.
Qed.

Lemma trim_braces_key s : no_separator s → trim_braces ("{" +:+ s +:+ "}") = s.
Proof.
  intros H. unfold trim_braces. change (trim_left ("{" +:+ s +:+ "}")) with (trim_left (s +:+ "}")).
  apply clean_no_brace in H. destruct s as [|c s]; [done|]. rewrite <- (trim_right_brace (String c s)) at 2 by done.
  f_equal. rewrite str_app_cons. simpl. simpl in H. apply andb_prop in H as [Hc _]. by apply negb_true_iff in Hc as ->.
Qed.

(** Parsing the key under which a device is stored gives its address. *)
Lemma parse_deviceKey k d :
  String.length k = 32 → parseDeviceKey (deviceKey k d) = Ret (Ok (mkAddress k d)).
Proof.
  intros Hk. unfold parseDeviceKey.
  assert (E : str_split ":" (deviceKey k d) = ["device"; "{" +:+ PublicKey_String k +:+ "}"; base32_Encode d]%string).
  { unfold deviceKey, deviceKeyFromString.
    change ("device:{" +:+ PublicKey_String k +:+ "}:" +:+ base32_Encode d)%string
      with ("device" +:+ String ":" ("{" +:+ PublicKey_String k +:+ "}:" +:+ base32_Encode d))%string.
    rewrite str_split_app by done. f_equal.
    replace ("{" +:+ PublicKey_String k +:+ "}:" +:+ base32_Encode d)%string
      with (("{" +:+ PublicKey_String k +:+ "}") +:+ String ":" (base32_Encode d))%string by (by rewrite !str_app_assoc).
    rewrite str_split_app.
    - f_equal. apply str_split_none, clean_all; [apply base32_clean|set_solver].
    - rewrite !str_all_app, (clean_all (PublicKey_String k)); [done|apply PublicKey_String_clean|set_solver]. }
  rewrite E. cbn [lookup list_lookup deref mbind outcome_bind].
  rewrite trim_braces_key by apply PublicKey_String_clean.
  rewrite PublicKey_String_inverse by done. by rewrite base32_inverse.
Qed.

(** The keys under which devices are stored. *)
Definition device_keys (addrs : list Address) : list string :=
  (λ a, deviceKey (Address_IdentityKey a) (Address_DeviceId a)) <$> addrs.

(** C35: device keys can be read back: from the keys under which devices of 32-byte
    identity keys are stored, AllRegisteredDevices reports every device under its
    own address, in the same order. *)
Theorem device_keys_round_trip addrs :
  Forall (λ a, String.length (Address_IdentityKey a) = 32) addrs →
  parseDeviceKeys (device_keys addrs) = Ret (Ok addrs).
Proof.
  induction 1 as [|[k d] addrs Hk _ IH]; [done|]. cbn [device_keys fmap list_fmap parseDeviceKeys].
  rewrite parse_deviceKey by done. cbn [mbind outcome_bind]. by unfold device_keys in IH; rewrite IH.
Qed.
End keys.

(** ** The registry in the store *)

Section refinement.
Context {ID : Identity} {IDL : IdentityLaws} {R : Type} {RD : RedisData R} {RL : RedisDataLaws R}.
Implicit Types (σ : store) (r : R) (v : DBSpec.state).

(** The registration of a device: its signed pre key, and its one-time keys,
    which the list has newest first. *)
Definition reg_at σ (k d : string) : option model.Register :=
  (λ spk, mkRegister spk (reverse (list_at σ (oneTimePreKeysKey (deviceKey k d))))) <$>
  (hash_at σ (deviceKey k d) !! "signedPreKey").

(** The device set of an identity lists exactly its registered devices. *)
Definition sets_agree σ : Prop :=
  ∀ k b, b ∈ set_at σ (identityDevicesKey k) ↔ ∃ d, b = base32_Encode d ∧ is_Some (reg_at σ k d).

Record represents σ v : Prop := {
  rep_devices : ∀ k d, DBSpec.devices v !! (PublicKey_String k, d) = reg_at σ k d;
  rep_sets : sets_agree σ }.

(** Identities with the same printed key are the same to the database. *)
Lemma deviceKey_same k k' d : PublicKey_String k = PublicKey_String k' → deviceKey k d = deviceKey k' d.
Proof. intros E. unfold deviceKey, deviceKeyFromString. by rewrite E. Qed.
Lemma identityDevicesKey_same k k' :
  PublicKey_String k = PublicKey_String k' → identityDevicesKey k = identityDevicesKey k'.
Proof. intros E. unfold identityDevicesKey. by rewrite E. Qed.

(** The kinds of keys are told apart by their first letters. *)
Lemma key_kinds k d k' d' :
  deviceKey k d ≠ oneTimePreKeysKey (deviceKey k' d') ∧ deviceKey k d ≠ identityDevicesKey k' ∧
  oneTimePreKeysKey (deviceKey k d) ≠ identityDevicesKey k'.
Proof. split_and!; intros E; discriminate E. Qed.

(** Lookups after the store operations. *)
Lemma hash_at_hset k f x σ k' :
  hash_at (s_hset k f x σ) k' = if decide (k' = k) then <[f := x]> (hash_at σ k) else hash_at σ k'.
Proof. unfold hash_at at 1, s_hset; simpl. rewrite lookup_insert. by repeat case_decide; subst. Qed.
Lemma hash_at_del k σ k' : hash_at (s_del k σ) k' = if decide (k' = k) then ∅ else hash_at σ k'.
Proof. unfold hash_at, s_del; simpl. rewrite lookup_delete. by repeat case_decide; subst. Qed.
Lemma list_at_del k σ k' : list_at (s_del k σ) k' = if decide (k' = k) then [] else list_at σ k'.
Proof. unfold list_at, s_del; simpl. rewrite lookup_delete. by repeat case_decide; subst. Qed.
Lemma set_at_del k σ k' : set_at (s_del k σ) k' = if decide (k' = k) then ∅ else set_at σ k'.
Proof. unfold set_at, s_del; simpl. rewrite lookup_delete. by repeat case_decide; subst. Qed.
Lemma list_at_list k l σ k' : list_at (s_list k l σ) k' = if decide (k' = k) then l else list_at σ k'.
Proof. unfold list_at, s_list; simpl. rewrite lookup_insert. by repeat case_decide; subst. Qed.
Lemma set_at_sadd k x σ k' :
  set_at (s_sadd k x σ) k' = if decide (k' = k) then {[x]} ∪ set_at σ k else set_at σ k'.
Proof. unfold set_at at 1, s_sadd; simpl. rewrite lookup_insert. by repeat case_decide; subst. Qed.
Lemma set_at_srem k x σ k' :
  set_at (s_srem k x σ) k' = if decide (k' = k) then set_at σ k ∖ {[x]} else set_at σ k'.
Proof. unfold set_at at 1, s_srem; simpl. rewrite lookup_insert. by repeat case_decide; subst. Qed.

(** A change of the store that touches one device. *)
Definition changes_device σ σ' (k d : string) (reg : option model.Register) : Prop :=
  (∀ k' d', reg_at σ' k' d' =
     if decide (PublicKey_String k' = PublicKey_String k ∧ d' = d) then reg else reg_at σ k' d') ∧
  (∀ k', set_at σ' (identityDevicesKey k') =
     if decide (PublicKey_String k' = PublicKey_String k)
     then match reg with
          | Some _ => {[base32_Encode d]} ∪ set_at σ (identityDevicesKey k)
          | None => set_at σ (identityDevicesKey k) ∖ {[base32_Encode d]}
          end
     else set_at σ (identityDevicesKey k')).

Lemma changes_device_sets σ σ' k d reg : changes_device σ σ' k d reg → sets_agree σ → sets_agree σ'.
Proof.
  intros [Hr Hs] H k' b. rewrite Hs. destruct (decide (PublicKey_String k' = PublicKey_String k)) as [E|E].
  - assert (Esame : ∀ d', reg_at σ k' d' = reg_at σ k d').
    { intros d'. unfold reg_at. by rewrite (deviceKey_same k' k). }
    destruct reg as [rg|].
    + rewrite elem_of_union, elem_of_singleton, (H k b). split.
      * intros [->|(d' & -> & Hs')]; [exists d; by rewrite Hr, decide_True|]. exists d'. split; [done|].
        rewrite Hr, Esame. by destruct (decide _).
      * intros (d' & -> & Hs'). rewrite Hr, Esame in Hs'. destruct (decide _) as [[_ ->]|]; [by left|right; eauto].
    + rewrite elem_of_difference, elem_of_singleton, (H k b). split.
      * intros [(d' & -> & Hs') Hne]. exists d'. split; [done|]. rewrite Hr, Esame, decide_False; [done|].
        by intros [_ ->].
      * intros (d' & -> & Hs'). rewrite Hr, Esame in Hs'. destruct (decide _) as [|Hne]; [by destruct Hs'|].
        split; [eauto|]. intros ->%base32_Encode_inj. by apply Hne.
  - rewrite (H k' b). apply exist_proper. intros d'. rewrite Hr, decide_False; [done|]. by intros [? _].
Qed.

Lemma changes_device_represents σ σ' v v' k d reg :
  changes_device σ σ' k d reg → represents σ v →
  (∀ k' d', DBSpec.devices v' !! (k', d') =
     if decide ((k', d') = (PublicKey_String k, d)) then reg else DBSpec.devices v !! (k', d')) →
  represents σ' v'.
Proof.
  intros Hc [Hd Hs] Hv. split; [|by eapply changes_device_sets]. intros k' d'. rewrite Hv.
  destruct Hc as [Hr _]. rewrite Hr.
  destruct (decide (PublicKey_String k' = PublicKey_String k ∧ d' = d)) as [[E ->]|Hne].
  - by rewrite decide_True by congruence.
  - rewrite decide_False; [apply Hd|]. intros [= ? ?]. by apply Hne.
Qed.

(** Lookups in a device's hash and list decide by identity and device. *)
Lemma deviceKey_eq k d k' d' :
  deviceKey k' d' = deviceKey k d ↔ PublicKey_String k' = PublicKey_String k ∧ d' = d.
Proof.
  split; [apply deviceKey_inj|]. intros [E ->]. by apply deviceKey_same.
Qed.

(** The server's part of registering. *)
Definition registerAll (k d : string) (rg : model.Register) (r : R) : R :=
  let dk := deviceKey k d in
  let otpk := oneTimePreKeysKey dk in
  let r1 := (registerScript dk (identityDevicesKey k) otpk (Register_SignedPreKey rg) (base32_Encode d) r).1 in
  match Register_OneTimePreKeys rg with [] => r1 | l => lpush otpk l r1 end.

(** Its effect on the store: the device set, the hash and the list. *)
Lemma registerAll_view k d rg r :
  let σ := view r in let σ' := view (registerAll k d rg r) in
  let dk := deviceKey k d in let same := decide (Some (Register_SignedPreKey rg) = hash_at σ dk !! "signedPreKey") in
  (∀ k', set_at σ' (identityDevicesKey k') = set_at (s_sadd (identityDevicesKey k) (base32_Encode d) σ) (identityDevicesKey k')) ∧
  (∀ k' d', hash_at σ' (deviceKey k' d') !! "signedPreKey" =
     if decide (deviceKey k' d' = dk) then Some (Register_SignedPreKey rg)
     else hash_at σ (deviceKey k' d') !! "signedPreKey") ∧
  (∀ k' d', list_at σ' (oneTimePreKeysKey (deviceKey k' d')) =
     if decide (deviceKey k' d' = dk)
     then reverse (Register_OneTimePreKeys rg) ++ (if same then list_at σ (oneTimePreKeysKey dk) else [])
     else list_at σ (oneTimePreKeysKey (deviceKey k' d'))).
Proof.
  intros σ σ' dk same.
  set (r1 := (registerScript dk (identityDevicesKey k) (oneTimePreKeysKey dk) (Register_SignedPreKey rg)
                (base32_Encode d) r).1).
  assert (E1 : view r1 = if same then s_sadd (identityDevicesKey k) (base32_Encode d) σ
    else s_del (oneTimePreKeysKey dk) (s_hset dk "signedPreKey" (Register_SignedPreKey rg)
           (s_sadd (identityDevicesKey k) (base32_Encode d) σ))).
  { unfold r1, registerScript, same. rewrite hget_law. fold σ. destruct (decide _); simpl.
    - by rewrite sadd_law. - by rewrite del_law, hset_law, sadd_law. }
  assert (E' : hash_at σ' = hash_at (view r1) ∧ set_at σ' = set_at (view r1) ∧ ∀ x, list_at σ' x =
    if decide (x = oneTimePreKeysKey dk)
    then reverse (Register_OneTimePreKeys rg) ++ list_at (view r1) (oneTimePreKeysKey dk) else list_at (view r1) x).
  { unfold σ', registerAll. fold dk. fold r1. destruct (Register_OneTimePreKeys rg) as [|x l].
    - split_and!; [done..|]. intros x. by case_decide; subst.
    - rewrite lpush_law. split_and!; [done..|]. intros y. apply list_at_list. }
  destruct E' as (Eh & Es & El). rewrite Eh, Es. setoid_rewrite El. rewrite E1. clear E1 Eh Es El.
  destruct (key_kinds k d k d) as (N1 & N2 & N3).
  assert (Nd : ∀ k' d', deviceKey k' d' ≠ oneTimePreKeysKey dk) by (intros k' d'; exact (proj1 (key_kinds k' d' k d))).
  assert (Ni : ∀ k', identityDevicesKey k' ≠ oneTimePreKeysKey dk) by (intros k' E; exact (proj2 (proj2 (key_kinds k d k' d)) (eq_sym E))).
  split_and!.
  - intros k'. destruct same; [done|]. by rewrite set_at_del, decide_False.
  - intros k' d'. destruct same as [Hs|Hs].
    + destruct (decide (deviceKey k' d' = dk)) as [E|]; [rewrite E; exact (eq_sym Hs)|done].
    + rewrite hash_at_del, decide_False, hash_at_hset by done.
      destruct (decide (deviceKey k' d' = dk)) as [E|]; [by rewrite lookup_insert_eq|done].
  - intros k' d'. destruct (decide (deviceKey k' d' = dk)) as [E|Hne].
    + rewrite decide_True by (by rewrite E). f_equal. destruct same; [done|]. by rewrite list_at_del, decide_True.
    + assert (Hne' : oneTimePreKeysKey (deviceKey k' d') ≠ oneTimePreKeysKey dk) by (by intros ?%oneTimePreKeysKey_inj).
      rewrite decide_False by done. destruct same; [done|]. by rewrite list_at_del, decide_False.
Qed.

Lemma registerAll_changes k d rg r :
  changes_device (view r) (view (registerAll k d rg r)) k d (Some (DBSpec.merge (reg_at (view r) k d) rg)).
Proof.
  destruct (registerAll_view k d rg r) as (Hs & Hh & Hl). split.
  - intros k' d'. unfold reg_at at 1. rewrite Hh, Hl.
    destruct (decide (PublicKey_String k' = PublicKey_String k ∧ d' = d)) as [E|E].
    + rewrite !(decide_True _ _ (proj2 (deviceKey_eq k d k' d') E)).
      unfold reg_at. rewrite fmap_of_Some. f_equal. unfold DBSpec.merge.
      destruct (hash_at (view r) (deviceKey k d) !! "signedPreKey") as [spk|] eqn:Eh; cbn [fmap option_fmap option_map Register_SignedPreKey Register_OneTimePreKeys].
      * destruct (decide (spk = Register_SignedPreKey rg)) as [->|Hne].
        -- rewrite decide_True by done. by rewrite reverse_app, reverse_involutive.
        -- rewrite decide_False by congruence. rewrite app_nil_r, reverse_involutive. by destruct rg.
      * rewrite decide_False by done. rewrite app_nil_r, reverse_involutive. by destruct rg.
    + rewrite !decide_False by (rewrite deviceKey_eq; done). done.
  - intros k'. rewrite Hs, set_at_sadd.
    destruct (decide (PublicKey_String k' = PublicKey_String k)) as [E|E].
    + by rewrite decide_True by (by apply identityDevicesKey_same).
    + rewrite decide_False; [done|]. by intros ?%identityDevicesKey_inj.
Qed.

Lemma registerCmds_all k d rg r : (run_all (registerCmds k d rg) r).1 = registerAll k d rg r.
Proof.
  unfold registerCmds, registerAll. cbn [run_all]. destruct (registerScript _ _ _ _ _ r) as [r1 z] eqn:E.
  by destruct (Register_OneTimePreKeys rg).
Qed.

(** Commands that leave every other device alone. *)
Definition only_touches (k d : string) σ σ' : Prop :=
  ∀ k' d', (PublicKey_String k', d') ≠ (PublicKey_String k, d) → reg_at σ' k' d' = reg_at σ k' d'.

Lemma run_all_touches {X} k d (cmds : list (R → R * X)) r :
  Forall (λ cmd, ∀ r, only_touches k d (view r) (view (cmd r).1)) cmds →
  only_touches k d (view r) (view (run_all cmds r).1).
Proof.
  intros H. revert r. induction H as [|cmd cmds Hc _ IH]; intros r k' d' Hne; [done|]. simpl.
  destruct (cmd r) as [r1 x] eqn:E. specialize (IH r1 k' d' Hne). destruct (run_all cmds r1) as [r2 xs].
  simpl in *. rewrite IH. specialize (Hc r k' d' Hne). by rewrite E in Hc.
Qed.

Lemma registerCmds_touch k d rg :
  Forall (λ cmd, ∀ r, only_touches k d (view r) (view (cmd r).1)) (registerCmds k d rg).
Proof.
  assert (Hne : ∀ k' d', (PublicKey_String k', d') ≠ (PublicKey_String k, d) → deviceKey k' d' ≠ deviceKey k d).
  { intros k' d' Hne E. apply Hne. by destruct (deviceKey_inj _ _ _ _ E) as [-> ->]. }
  constructor.
  - intros r. destruct (registerAll_changes k d (mkRegister (Register_SignedPreKey rg) []) r) as [Hr _].
    intros k' d' H. specialize (Hr k' d'). rewrite decide_False in Hr; [exact Hr|]. intros [? ?]; apply H; congruence.
  - destruct (Register_OneTimePreKeys rg) as [|x l]; constructor; [|constructor].
    intros r k' d' H. simpl. rewrite lpush_law. unfold reg_at. rewrite list_at_list, decide_False; [done|].
    intros E%oneTimePreKeysKey_inj. by apply (Hne k' d').
Qed.

(** C27: registering on Redis.  Whenever the store represents a registry, Register
    returns; if it reports no error, the store represents the registry with that
    registration (with the old signed pre key the one-time keys are added,
    otherwise they replace the old ones); and whether it fails or not, no other
    device's registration changes. *)
Theorem redis_Register_refines k d rg r v :
  represents (view r) v →
  ∃ r' e, Register k d rg r = Ret (r', e) ∧
    (e = None → represents (view r') (DBSpec.register (PublicKey_String k) d rg v)) ∧
    ∀ k' d', (PublicKey_String k', d') ≠ (PublicKey_String k, d) →
      reg_at (view r') k' d' = DBSpec.devices v !! (PublicKey_String k', d').
Proof.
  intros Hrep. unfold Register.
  destruct (redis_pipeline (registerCmds k d rg) r) as [r' [xs|e]] eqn:E; simpl; do 2 eexists; (split; [done|]).
  - apply pipeline_ok in E. pose proof (registerCmds_all k d rg r) as Er. rewrite E in Er. simpl in Er. subst r'.
    assert (Hr : represents (view (registerAll k d rg r)) (DBSpec.register (PublicKey_String k) d rg v)).
    { apply (changes_device_represents _ _ v _ k d _ (registerAll_changes k d rg r) Hrep).
      intros k' d'. unfold DBSpec.register; simpl. rewrite lookup_insert, (rep_devices _ _ Hrep).
      by repeat case_decide. }
    split; [done|]. intros k' d' Hne. rewrite <- (rep_devices _ _ Hr). by apply register_other.
  - apply pipeline_err in E as (fs' & Hsub & ->). split; [done|]. intros k' d' Hne.
    rewrite (rep_devices _ _ Hrep). apply (run_all_touches k d); [|done].
    pose proof (registerCmds_touch k d rg) as Ht. rewrite Forall_forall in Ht |- *.
    intros c Hc. apply Ht. by eapply elem_of_submseteq, sublist_submseteq.
Qed.

(** The effect of unregister.lua on a device that is registered, or when the
    identity does not have exactly one device. *)
Definition unregisterAll (k d : string) : R → R * Z :=
  unregisterScript (deviceKey k d) (identityDevicesKey k) (oneTimePreKeysKey (deviceKey k d)) (base32_Encode d).

Lemma unregisterAll_view k d r :
  view (unregisterAll k d r).1 =
  s_del (oneTimePreKeysKey (deviceKey k d)) (s_del (deviceKey k d)
    (if decide (size (set_at (view r) (identityDevicesKey k)) = 1) then s_del (identityDevicesKey k) (view r)
     else s_srem (identityDevicesKey k) (base32_Encode d) (view r))).
Proof.
  unfold unregisterAll, unregisterScript. simpl. rewrite del_law. simpl. rewrite scard_law.
  repeat case_decide; try lia; simpl; [by rewrite del_law|by rewrite srem_law].
Qed.

Lemma unregisterAll_regs k d r k' d' :
  reg_at (view (unregisterAll k d r).1) k' d' =
  if decide (PublicKey_String k' = PublicKey_String k ∧ d' = d) then None else reg_at (view r) k' d'.
Proof.
  rewrite unregisterAll_view. set (σ := if decide (size _ = 1) then _ else _).
  assert (Eh : hash_at σ (deviceKey k' d') = hash_at (view r) (deviceKey k' d')).
  { unfold σ. case_decide; [|done]. rewrite hash_at_del, decide_False; [done|]. apply (key_kinds k' d' k d'). }
  assert (El : list_at σ (oneTimePreKeysKey (deviceKey k' d')) = list_at (view r) (oneTimePreKeysKey (deviceKey k' d'))).
  { unfold σ. case_decide; [|done]. rewrite list_at_del, decide_False; [done|]. apply (key_kinds k' d' k d'). }
  unfold reg_at. rewrite hash_at_del, decide_False by apply (key_kinds k' d' k d). rewrite hash_at_del.
  destruct (decide (PublicKey_String k' = PublicKey_String k ∧ d' = d)) as [H|H].
  - by rewrite decide_True by (by apply deviceKey_eq).
  - assert (Hne : deviceKey k' d' ≠ deviceKey k d) by (by rewrite deviceKey_eq).
    rewrite decide_False, Eh by done. rewrite list_at_del, decide_False by (by intros ?%oneTimePreKeysKey_inj).
    rewrite list_at_del, decide_False, El; [done|]. intros E. exact (proj1 (key_kinds k d k' d') (eq_sym E)).
Qed.

Lemma unregisterAll_set k d r k' :
  set_at (view (unregisterAll k d r).1) (identityDevicesKey k') =
  if decide (PublicKey_String k' = PublicKey_String k)
  then if decide (size (set_at (view r) (identityDevicesKey k)) = 1) then ∅
       else set_at (view r) (identityDevicesKey k) ∖ {[base32_Encode d]}
  else set_at (view r) (identityDevicesKey k').
Proof.
  rewrite unregisterAll_view.
  rewrite set_at_del, decide_False by (intros E; exact (proj2 (proj2 (key_kinds k d k' d)) (eq_sym E))).
  rewrite set_at_del, decide_False by (intros E; exact (proj1 (proj2 (key_kinds k d k' d)) (eq_sym E))).
  destruct (decide (PublicKey_String k' = PublicKey_String k)) as [E|E].
  - rewrite (identityDevicesKey_same k' k) by done. case_decide.
    + by rewrite set_at_del, decide_True. + by rewrite set_at_srem, decide_True.
  - assert (Hne : identityDevicesKey k' ≠ identityDevicesKey k) by (by intros ?%identityDevicesKey_inj).
    case_decide; [by rewrite set_at_del, decide_False|by rewrite set_at_srem, decide_False].
Qed.

Lemma unregisterAll_changes k d r :
  sets_agree (view r) →
  is_Some (reg_at (view r) k d) ∨ size (set_at (view r) (identityDevicesKey k)) ≠ 1 →
  changes_device (view r) (view (unregisterAll k d r).1) k d None.
Proof.
  intros Hs Hd. split; [apply unregisterAll_regs|]. intros k'. rewrite unregisterAll_set.
  case_decide; [|done]. destruct (decide (size _ = 1)) as [E1|]; [|done].
  destruct Hd as [Hd|]; [|done]. apply size_1_elem_of in E1 as [x Ex].
  assert (Hin : base32_Encode d ∈ set_at (view r) (identityDevicesKey k)) by (apply Hs; eauto).
  clear Hs. apply set_eq. intros y. revert Hin. rewrite elem_of_difference, !Ex, !elem_of_singleton, elem_of_empty.
  intros <-. tauto.
Qed.

(** C30: unregistering on Redis.  If the device is registered, or the identity does
    not have exactly one device, then unregistering without an error leaves a
    store that represents the registry without the device; when the call fails,
    the device was removed or nothing happened. *)
Theorem redis_Unregister_refines k d r v :
  represents (view r) v →
  is_Some (DBSpec.devices v !! (PublicKey_String k, d)) ∨
    size (set_at (view r) (identityDevicesKey k)) ≠ 1 →
  ∃ r' e, Unregister k d r = Ret (r', e) ∧
    (represents (view r') (DBSpec.unregister (PublicKey_String k) d v) ∨ is_Some e ∧ r' = r).
Proof.
  intros Hrep Hd. rewrite (rep_devices _ _ Hrep) in Hd. unfold Unregister. fold (unregisterAll k d).
  assert (Hr : represents (view (unregisterAll k d r).1) (DBSpec.unregister (PublicKey_String k) d v)).
  { apply (changes_device_represents _ _ v _ k d _ (unregisterAll_changes k d r (rep_sets _ _ Hrep) Hd) Hrep).
    intros k' d'. unfold DBSpec.unregister; simpl. rewrite lookup_delete. by repeat case_decide. }
  destruct (redis_call (unregisterAll k d) r) as [r' [xs|e]] eqn:E; simpl; do 2 eexists; (split; [done|]).
  - left. apply call_ok in E. by rewrite E in Hr.
  - apply call_err in E as [-> | ->]; eauto.
Qed.

Lemma size_set_one (X : gset string) x : (∀ y, y ∈ X ↔ y = x) → size X = 1.
Proof. intros H. rewrite <- (size_singleton (C:=gset string) x). f_equal. set_solver. Qed.

(** ** Requesting pre keys *)

(** What the script returns for a registration. *)
Definition keys_of (rg : model.Register) : option string * option string :=
  (Some (Register_SignedPreKey rg), last (Register_OneTimePreKeys rg)).

(** What it returns for a device, registered or not. *)
Definition gives (reg : option model.Register) (out : option string * option string) : Prop :=
  match reg with Some rg => out = keys_of rg | None => out.1 = None end.

(** The device gives up its newest one-time key, and nothing else changes. *)
Definition takes_key (k d : string) (r r' : R) : Prop :=
  (∀ k' d', reg_at (view r') k' d' =
     if decide (PublicKey_String k' = PublicKey_String k ∧ d' = d)
     then DBSpec.consume <$> reg_at (view r) k' d' else reg_at (view r) k' d') ∧
  (∀ x, set_at (view r') x = set_at (view r) x).

(** One script takes the newest one-time key of its device. *)
Lemma getPreKeyScript_spec k d r :
  let out := getPreKeyScript (deviceKey k d) (oneTimePreKeysKey (deviceKey k d)) r in
  gives (reg_at (view r) k d) out.2 ∧ takes_key k d r out.1.
Proof.
  unfold getPreKeyScript, takes_key. destruct (lpop_law (oneTimePreKeysKey (deviceKey k d)) r) as [E1 E2].
  destruct (lpop _ r) as [r1 o]. simpl in *. subst o. rewrite hget_law. split_and!; [| |by intros; rewrite E2].
  { unfold reg_at. destruct (hash_at _ _ !! _) as [spk|]; [|done]. simpl. unfold keys_of. simpl. by rewrite last_reverse. }
  intros k' d'. rewrite E2. unfold reg_at. rewrite list_at_list.
  destruct (decide (PublicKey_String k' = PublicKey_String k ∧ d' = d)) as [H|H].
  - assert (E : deviceKey k' d' = deviceKey k d) by (by apply deviceKey_eq).
    rewrite E, decide_True by done. change (hash_at (s_list ?a ?b ?c)) with (hash_at c).
    destruct (hash_at (view r) (deviceKey k d) !! "signedPreKey"); [|done]. simpl. f_equal.
    unfold DBSpec.consume. simpl. f_equal.
    destruct (list_at (view r) _) as [|x l]; [done|]. by rewrite reverse_cons, pop_last_snoc.
  - rewrite decide_False; [done|]. intros ?%oneTimePreKeysKey_inj. by apply H, deviceKey_eq.
Qed.

(** The devices are served one after the other, and before each the other clients
    act; [regs] has what is registered for each device when it is served. *)
Inductive served (k : string) : (nat → R → R) → list string → R → list (option model.Register) → R → Prop :=
| served_nil others r : served k others [] r [] r
| served_cons others d ds r r1 regs r2 :
    takes_key k d (others 0 r) r1 → served k (λ n, others (S n)) ds r1 regs r2 →
    served k others (d :: ds) r (reg_at (view (others 0 r)) k d :: regs) r2.

Lemma served_length k others ds r regs r' : served k others ds r regs r' → length regs = length ds.
Proof. induction 1; simpl; congruence. Qed.

Lemma getPreKeyCmds_served k others ds r :
  let out := run_all (interrupted others (getPreKeyCmds k (base32_Encode <$> ds))) r in
  ∃ regs, served k others ds r regs out.1 ∧ Forall2 gives regs out.2.
Proof.
  revert others r. induction ds as [|d ds IH]; intros others r; simpl.
  { exists []. split; constructor. }
  fold (deviceKey k d). destruct (getPreKeyScript_spec k d (others 0 r)) as [Hg Ht].
  destruct (getPreKeyScript _ _ (others 0 r)) as [r1 o]. destruct (IH (λ n, others (S n)) r1) as (regs & Hs & Hos).
  unfold interrupted, getPreKeyCmds in *. simpl in Hs, Hos |- *.
  change (λ n cmd r, cmd (others (S n) r)) with
    ((λ (n : nat) (cmd : R → R * (option string * option string)) (r : R), cmd (others n r)) ∘ S) in Hs, Hos.
  destruct (run_all _ r1) as [r2 os]. simpl in *. eexists.
  split; [exact (served_cons _ _ _ _ _ _ _ _ Ht Hs)|by constructor].
Qed.

(** The results become the pre keys of the devices, if all are registered. *)
Lemma toPreKeys_ok ds regs outs :
  Forall2 gives (Some <$> regs) outs → length regs = length ds →
  toPreKeys (base32_Encode <$> ds) outs = Ret (Ok (zip_with DBSpec.handed_out ds regs)).
Proof.
  revert ds outs. induction regs as [|rg regs IH]; intros [|d ds] outs H Hl; try done. simpl in H. inversion H; subst.
  rewrite fmap_cons. cbn [toPreKeys]. rewrite base32_inverse. erewrite IH; [|done|simpl in Hl; lia].
  match goal with H : gives _ _ |- _ => simpl in H; rewrite H end. done.
Qed.

Lemma toPreKeys_panic ds regs outs :
  Forall2 gives regs outs → length regs = length ds → None ∈ regs →
  toPreKeys (base32_Encode <$> ds) outs = Panic.
Proof.
  intros H. revert ds. induction H as [|rg o regs outs Hg H IH]; intros [|d ds] Hl Hin; try done; [by apply not_elem_of_nil in Hin|].
  rewrite fmap_cons. cbn [toPreKeys]. rewrite base32_inverse. destruct rg as [rg|]; simpl in Hg.
  - rewrite Hg. cbn [keys_of fst deref mbind outcome_bind]. rewrite IH; [done|simpl in Hl; lia|].
    by apply elem_of_cons in Hin as [|].
  - by rewrite Hg.
Qed.

Lemma all_registered (regs : list (option model.Register)) : None ∈ regs ∨ ∃ l, regs = Some <$> l.
Proof.
  induction regs as [|[rg|] regs IH]; [right; by exists []| |left; by left].
  destruct IH as [?|[l ->]]; [left; by right|right; by exists (rg :: l)].
Qed.

(** Some of the commands of the pipeline, with what the others do before them. *)
Lemma interrupted_sublist {X} (others : nat → R → R) (cmds fs : list (R → R * X)) :
  fs `sublist_of` interrupted others cmds →
  ∃ others' cmds', fs = interrupted others' cmds' ∧ cmds' `sublist_of` cmds ∧ ∀ n, ∃ m, others' n = others m.
Proof.
  revert others fs. induction cmds as [|c cmds IH]; intros others fs H; unfold interrupted in H; simpl in H.
  - apply sublist_nil_r in H as ->. exists others, []. split_and!; [done..|]. by intros n; exists n.
  - apply sublist_cons_r in H as [H|(fs' & -> & H)];
      destruct (IH (λ n, others (S n)) _ H) as (oth & cs & -> & Hs & Ho).
    + exists oth, cs. split_and!; [done|by constructor|]. intros n. destruct (Ho n) as [m ->]. by exists (S m).
    + exists (λ n, match n with 0 => others 0 | S n' => oth n' end), (c :: cs). split_and!; [done|by constructor|].
      intros [|n]; [by exists 0|]. destruct (Ho n) as [m ->]. by exists (S m).
Qed.

(** When the others do nothing. *)
Lemma served_alone k ds r regs r' :
  served k (λ _ r, r) ds r regs r' → NoDup ds →
  regs = reg_at (view r) k <$> ds ∧
  (∀ k' d', reg_at (view r') k' d' =
     if decide (PublicKey_String k' = PublicKey_String k ∧ d' ∈ ds)
     then DBSpec.consume <$> reg_at (view r) k' d' else reg_at (view r) k' d') ∧
  (∀ x, set_at (view r') x = set_at (view r) x).
Proof.
  remember (λ (_ : nat) (r : R), r) as others eqn:Eo. intros H. revert Eo. induction H as [others r|others d ds r r1 regs r2 [Hr Hs] H IH]; intros -> Hnd.
  - split_and!; [done| |done]. intros k' d'. rewrite decide_False; [done|]. intros [_ ?%elem_of_nil]. done.
  - apply NoDup_cons in Hnd as [Hd Hnd]. destruct (IH eq_refl Hnd) as (-> & I2 & I3). split_and!.
    + rewrite fmap_cons. f_equal. apply list_fmap_ext. intros i x Hx%list_elem_of_lookup_2. rewrite Hr, decide_False; [done|].
      by intros [_ ->].
    + intros k' d'. rewrite I2, Hr. repeat case_decide; try done; set_solver.
    + intros x. by rewrite I3.
Qed.

(** While the others leave the devices of the identity registered, they are. *)
Lemma served_registered k others ds r regs r' :
  served k others ds r regs r' → Forall (λ d, is_Some (reg_at (view r) k d)) ds →
  (∀ n r d, is_Some (reg_at (view r) k d) → is_Some (reg_at (view (others n r)) k d)) → None ∉ regs.
Proof.
  induction 1 as [others r|others d ds r r1 regs r2 [Hr _] H IH]; intros Hall Ho; [apply not_elem_of_nil|].
  apply Forall_cons in Hall as [Hd Hall]. apply not_elem_of_cons. split.
  - destruct (Ho 0 r d Hd) as [? ->]. done.
  - apply IH; [|by intros n; apply (Ho (S n))]. eapply Forall_impl; [exact Hall|]. intros d' Hd'%(Ho 0). rewrite Hr.
    case_decide; [by rewrite fmap_is_Some|done].
Qed.

(** Once a device is not registered, and the others do not register it, it is not
    when it is served. *)
Lemma served_gone k others ds r regs r' d :
  served k others ds r regs r' → d ∈ ds → reg_at (view (others 0 r)) k d = None →
  (∀ n r, reg_at (view r) k d = None → reg_at (view (others (S n) r)) k d = None) → None ∈ regs.
Proof.
  intros H. induction H as [others r|others d' ds r r1 regs r2 [Hr _] H IH]; intros Hin Hd Ho; [by apply not_elem_of_nil in Hin|].
  apply elem_of_cons in Hin as [->|Hin]; [rewrite Hd; by left|]. right. apply IH; [done| |by intros n; apply Ho].
  apply Ho. rewrite Hr. case_decide; by rewrite Hd.
Qed.

(** Encoded device ids come from device ids. *)
Lemma encoded_preimage (bs : list string) :
  NoDup bs → Forall (λ b, ∃ d, b = base32_Encode d) bs → ∃ ds, bs = base32_Encode <$> ds ∧ NoDup ds.
Proof.
  intros Hnd. induction 1 as [|b bs [d ->] _ IH]; [exists []; split; [done|constructor]|].
  inversion Hnd; subst. destruct IH as (ds & -> & Hds); [done|]. exists (d :: ds). split; [done|].
  constructor; [|done]. intros Hin. by eapply (list_elem_of_fmap_2 base32_Encode) in Hin.
Qed.

Lemma sublist_fmap_pre {A B} (f : A → B) (l : list A) (l' : list B) :
  l' `sublist_of` (f <$> l) → ∃ l0, l' = f <$> l0 ∧ l0 `sublist_of` l.
Proof.
  revert l'. induction l as [|x l IH]; intros l' H; simpl in H.
  - apply sublist_nil_r in H as ->. by exists [].
  - apply sublist_cons_r in H as [H|(l'' & -> & H)]; destruct (IH _ H) as (l0 & -> & Hl0).
    + exists l0. split; [done|]. by constructor.
    + exists (x :: l0). split; [done|]. by constructor.
Qed.

(** The devices the request asks for. *)
Definition asked v (rq : model.RequestPreKeys) (ds : list string) : Prop :=
  NoDup ds ∧ ∀ d, d ∈ ds ↔ d ∉ RequestPreKeys_KnownDeviceIds rq ∧
    is_Some (DBSpec.devices v !! (PublicKey_String (RequestPreKeys_IdentityKey rq), d)).

Lemma asked_devices rq r v :
  represents (view r) v → ∃ ds, asked v rq ds ∧
    filter (λ b, isKnown rq b = false) (smembers (identityDevicesKey (RequestPreKeys_IdentityKey rq)) r) =
    base32_Encode <$> ds.
Proof.
  intros Hrep. set (k := RequestPreKeys_IdentityKey rq).
  set (bs := filter (λ b, isKnown rq b = false) (smembers (identityDevicesKey k) r)).
  assert (Hin : ∀ b, b ∈ bs ↔ isKnown rq b = false ∧ ∃ d, b = base32_Encode d ∧ is_Some (reg_at (view r) k d)).
  { intros b. unfold bs. rewrite list_elem_of_filter, smembers_law, elem_of_elements. by rewrite (rep_sets _ _ Hrep k b). }
  destruct (encoded_preimage bs) as (ds & E & Hnd).
  - apply NoDup_filter. rewrite smembers_law. apply NoDup_elements.
  - apply Forall_forall. intros b (_ & d & -> & _)%Hin. by exists d.
  - exists ds. split; [|done]. split; [done|]. intros d.
    assert (Hd : d ∈ ds ↔ base32_Encode d ∈ bs).
    { rewrite E. split; [apply list_elem_of_fmap_2|]. by intros (d' & ->%base32_Encode_inj & ?)%list_elem_of_fmap. }
    rewrite Hd, Hin, (rep_devices _ _ Hrep). unfold isKnown. rewrite bool_decide_eq_false, list_elem_of_fmap. split.
    + intros [Hk (d' & ->%base32_Encode_inj & ?)]. split; [|done]. intros ?. apply Hk. eauto.
    + intros [Hk ?]. split; [|eauto]. by intros (d' & ->%base32_Encode_inj & ?).
Qed.

Lemma request_represents rq ds σ σ' v :
  asked v rq ds → represents σ v →
  (∀ k' d', reg_at σ' k' d' =
     if decide (PublicKey_String k' = PublicKey_String (RequestPreKeys_IdentityKey rq) ∧ d' ∈ ds)
     then DBSpec.consume <$> reg_at σ k' d' else reg_at σ k' d') →
  (∀ x, set_at σ' x = set_at σ x) →
  represents σ' (DBSpec.request (PublicKey_String (RequestPreKeys_IdentityKey rq))
                   (RequestPreKeys_KnownDeviceIds rq) v).
Proof.
  intros [_ Hin] [Hd Hs] Hr Hset. split.
  - intros k' d'. rewrite request_lookup, Hr, Hd. destruct (reg_at σ k' d') as [rg|] eqn:E; [|by repeat case_decide].
    assert (Hiff : PublicKey_String k' = PublicKey_String (RequestPreKeys_IdentityKey rq) ∧ d' ∈ ds ↔
      PublicKey_String k' = PublicKey_String (RequestPreKeys_IdentityKey rq) ∧ d' ∉ RequestPreKeys_KnownDeviceIds rq).
    { rewrite Hin. split; [tauto|]. intros [Ek Hk]. split_and!; [done..|]. by rewrite <- Ek, Hd, E. }
    simpl. by rewrite (decide_ext _ _ _ _ Hiff); case_decide.
  - intros k' b. rewrite Hset, (Hs k' b). apply exist_proper. intros d'. rewrite Hr.
    case_decide; [|done]. by rewrite fmap_is_Some.
Qed.

Lemma read_call {X} (g : R → X) r : (redis_call (λ r, (r, g r)) r).1 = r.
Proof.
  destruct (redis_call _ r) as [r' [x|e]] eqn:E; simpl.
  - apply call_ok in E. by simplify_eq. - by apply call_err in E as [-> | ->].
Qed.

(** What RequestPreKeys does, whatever the other clients do meanwhile. *)
Lemma RequestPreKeys_served others rq r v :
  represents (view r) v →
  let k := RequestPreKeys_IdentityKey rq in
  ∃ ds, asked v rq ds ∧
  match RequestPreKeys others rq r with
  | Ret (r', Ok l) => ∃ regs, served k others ds r (Some <$> regs) r' ∧ l = zip_with DBSpec.handed_out ds regs ∧ l ≠ []
  | Ret (r', Err e) => ∃ ds' others' regs, served k others' ds' r regs r' ∧ ds' `sublist_of` ds ∧
      ∀ n, ∃ m, others' n = others m
  | Panic => ∃ regs r', served k others ds r regs r' ∧ None ∈ regs
  | Block => False
  end.
Proof.
  intros Hrep k. destruct (asked_devices rq r v Hrep) as (ds & Hds & Eds). fold k in Eds. exists ds. split; [done|].
  assert (Hnone : ∃ ds' others' regs, served k others' ds' r regs r ∧ ds' `sublist_of` ds ∧ ∀ n, ∃ m, others' n = others m).
  { exists [], others, []. split_and!; [constructor|apply sublist_nil_l|]. intros n. by exists n. }
  unfold RequestPreKeys. fold k. pose proof (read_call (smembers (identityDevicesKey k)) r) as Er.
  destruct (redis_call _ r) as [r1 [devs|e]] eqn:E; simpl in Er; subst r1; [|done].
  apply call_ok in E as [= <-]. rewrite Eds. destruct (redis_pipeline _ r) as [r' [outs|e]] eqn:E.
  - apply pipeline_ok in E. destruct (getPreKeyCmds_served k others ds r) as (regs & Hs & Hos). rewrite E in Hs, Hos.
    simpl in Hs, Hos. pose proof (served_length _ _ _ _ _ _ Hs) as Hl. destruct (all_registered regs) as [Hn|[l ->]].
    + rewrite (toPreKeys_panic ds regs outs) by done. by exists regs, r'.
    + rewrite length_fmap in Hl. rewrite (toPreKeys_ok ds l outs) by done. simpl.
      destruct (zip_with DBSpec.handed_out ds l) eqn:Ez; [|by exists l; rewrite <- Ez; split_and!; [..|rewrite Ez]].
      assert (ds = []) as -> by (by destruct ds, l). assert (l = []) as -> by (by destruct l). inversion Hs. subst. done.
  - apply pipeline_err in E as (fs' & Hsub & ->). apply interrupted_sublist in Hsub as (oth & cs & -> & Hsub & Ho).
    unfold getPreKeyCmds in Hsub. rewrite <- list_fmap_compose in Hsub. apply sublist_fmap_pre in Hsub as (ds' & -> & Hsub).
    rewrite list_fmap_compose. destruct (getPreKeyCmds_served k oth ds' r) as (regs & Hs & _).
    unfold getPreKeyCmds in Hs. by exists ds', oth, regs.
Qed.

(** C28: requesting pre keys on Redis, with other clients at work.  The method asks for
    the identity's devices and then runs one script for each device that the request
    does not list as known, and other clients may do anything before each script
    ([others], without any condition).  If the store represents a registry at first,
    then: if keys are returned, they are, in order, for each of these devices the signed
    pre key and the newest one-time key it had when it was served, at least one device
    was served, and its script took exactly that one-time key; if it fails with an
    error, some of the devices were served so; and it panics only if one of the devices
    is not registered any more when it is served, so never while the others leave the
    devices of the identity registered. *)
Theorem redis_RequestPreKeys_interleaved others rq r v :
  represents (view r) v →
  let k := RequestPreKeys_IdentityKey rq in
  ∃ ds, asked v rq ds ∧
  match RequestPreKeys others rq r with
  | Ret (r', Ok l) => ∃ regs, served k others ds r (Some <$> regs) r' ∧ l = zip_with DBSpec.handed_out ds regs ∧ l ≠ []
  | Ret (r', Err e) => ∃ ds' others' regs, served k others' ds' r regs r' ∧ ds' `sublist_of` ds ∧
      ∀ n, ∃ m, others' n = others m
  | Panic => (∃ regs r', served k others ds r regs r' ∧ None ∈ regs) ∧
      ¬ (∀ n r d, is_Some (reg_at (view r) k d) → is_Some (reg_at (view (others n r)) k d))
  | Block => False
  end.
Proof.
  intros Hrep k. destruct (RequestPreKeys_served others rq r v Hrep) as (ds & Hds & H). exists ds. split; [done|].
  destruct (RequestPreKeys others rq r) as [[r' [l|e]]| |]; [done..| |done]. split; [done|]. intros Ho.
  destruct H as (regs & r' & Hs & Hn). revert Hn. eapply served_registered; [exact Hs| |done].
  apply Forall_forall. intros d [_ Hd]%Hds. by rewrite <- (rep_devices _ _ Hrep).
Qed.

(** C29: requesting pre keys on Redis while no other client acts has the effect of the
    abstract registry.  Whenever the store represents a registry the request returns,
    without a panic.  If it succeeds, it hands out, for exactly the registered devices
    of the identity that the request does not list as known, and there is at least one,
    the signed pre key and the newest one-time key, and the store then represents the
    registry without those one-time keys.  If it fails, every device keeps its
    registration, less at most one key. *)
Theorem redis_RequestPreKeys_refines rq r v :
  represents (view r) v →
  ∃ r' res, RequestPreKeys (λ _ r, r) rq r = Ret (r', res) ∧
    (∀ l, res = Ok l →
      represents (view r') (DBSpec.request (PublicKey_String (RequestPreKeys_IdentityKey rq))
                              (RequestPreKeys_KnownDeviceIds rq) v) ∧
      l ≠ [] ∧ ∃ ds, asked v rq ds ∧
        Forall2 (λ d p, ∃ rg, DBSpec.devices v !! (PublicKey_String (RequestPreKeys_IdentityKey rq), d) = Some rg ∧
                              p = DBSpec.handed_out d rg) ds l) ∧
    (∀ k d, reg_at (view r') k d = reg_at (view r) k d ∨
            reg_at (view r') k d = DBSpec.consume <$> reg_at (view r) k d).
Proof.
  intros Hrep. set (k := RequestPreKeys_IdentityKey rq).
  destruct (RequestPreKeys_served (λ _ r, r) rq r v Hrep) as (ds & [Hnd Hin] & H). fold k in H.
  assert (Hall : Forall (λ d, is_Some (reg_at (view r) k d)) ds).
  { apply Forall_forall. intros d [_ Hd]%Hin. by rewrite <- (rep_devices _ _ Hrep). }
  destruct (RequestPreKeys _ rq r) as [[r' [l|e]]| |].
  - destruct H as (regs & Hs & -> & Hne). destruct (served_alone _ _ _ _ _ Hs Hnd) as (Er & H2 & H3).
    do 2 eexists. split; [done|]. split.
    + intros l' [= <-]. split; [by apply (request_represents rq ds (view r))|]. split; [done|]. exists ds. split; [done|].
      clear -Er Hrep. revert regs Er. induction ds as [|d ds IH]; intros [|rg regs] Er; simpl in *; try done.
      injection Er as Ed Er. constructor; [|by apply IH]. exists rg. by rewrite (rep_devices _ _ Hrep).
    + intros k' d'. rewrite H2. case_decide; auto.
  - destruct H as (ds' & oth & regs & Hs & Hsub & Ho).
    assert (Hoth : served k (λ _ r, r) ds' r regs r').
    { clear -Hs Ho. induction Hs as [oth r|oth d ds r r1 regs r2 Ht Hs IH]; [constructor|].
      destruct (Ho 0) as [_ E]. rewrite E in *. apply (served_cons k (λ _ r, r) d ds r r1 regs r2 Ht), IH.
      intros n. destruct (Ho (S n)) as [m ->]. by exists m. }
    destruct (served_alone _ _ _ _ _ Hoth) as (_ & H2 & _); [by eapply sublist_NoDup|].
    do 2 eexists. split; [done|]. split; [done|]. intros k' d'. rewrite H2. case_decide; auto.
  - destruct H as (regs & r' & Hs & Hn). exfalso. revert Hn. by eapply served_registered.
  - done.
Qed.

(** The network is up. *)
Definition reliable : Prop :=
  (∀ X (f : R → R * X) r r' e, redis_call f r ≠ (r', Err e)) ∧
  (∀ X (fs : list (R → R * X)) r r' e, redis_pipeline fs r ≠ (r', Err e)).

(** C32: unregistering a device ends a process that is handing out its keys.  Take an
    identity with a registered device, a request for its pre keys that does not list
    the device as known, and another client that unregisters the device, with
    Unregister, after the request has read the identity's devices and before its
    pipeline runs.  If nothing registers the device again in time and the network is
    up, RequestPreKeys panics. *)
Theorem unregister_during_request_panics others rq d r v :
  let k := RequestPreKeys_IdentityKey rq in
  reliable → represents (view r) v →
  is_Some (DBSpec.devices v !! (PublicKey_String k, d)) → d ∉ RequestPreKeys_KnownDeviceIds rq →
  Unregister k d r = Ret (others 0 r, None) →
  (∀ n r, reg_at (view r) k d = None → reg_at (view (others (S n) r)) k d = None) →
  RequestPreKeys others rq r = Panic.
Proof.
  intros k [Hc Hp] Hrep Hd Hk Hu Ho. unfold RequestPreKeys. fold k.
  destruct (asked_devices rq r v Hrep) as (ds & [_ Hin] & Eds). fold k in Eds.
  pose proof (read_call (smembers (identityDevicesKey k)) r) as Er.
  destruct (redis_call _ r) as [r1 [devs|e]] eqn:E; [|by apply Hc in E]. simpl in Er. subst r1.
  apply call_ok in E as [= <-]. rewrite Eds.
  destruct (redis_pipeline _ r) as [r' [outs|e]] eqn:E; [|by apply Hp in E]. apply pipeline_ok in E.
  destruct (getPreKeyCmds_served k others ds r) as (regs & Hs & Hos). rewrite E in Hs, Hos. simpl in Hs, Hos.
  rewrite (toPreKeys_panic ds regs outs); [done|done|by eapply served_length|].
  eapply served_gone; [exact Hs|by apply Hin| |done].
  unfold Unregister in Hu. fold (unregisterAll k d) in Hu.
  destruct (redis_call (unregisterAll k d) r) as [r1 [x|e]] eqn:Eu; simplify_eq/=. apply call_ok in Eu.
  pose proof (unregisterAll_regs k d r k d) as Hg. rewrite Eu, decide_True in Hg by done. done.
Qed.

(** C33: unregistering a device that is not registered hides one that is.  If an
    identity has exactly one registered device and another device of it is
    unregistered, unregister.lua deletes the identity's device set: the registered
    device is still there, but no request for the identity's pre keys succeeds. *)
Theorem unregister_unknown_device_hides_other k d d1 rg r r' v :
  represents (view r) v →
  DBSpec.devices v !! (PublicKey_String k, d1) = Some rg →
  (∀ d', is_Some (DBSpec.devices v !! (PublicKey_String k, d')) → d' = d1) → d ≠ d1 →
  Unregister k d r = Ret (r', None) →
  reg_at (view r') k d1 = Some rg ∧
  ∀ others rq, RequestPreKeys_IdentityKey rq = k → ∃ r'' e, RequestPreKeys others rq r' = Ret (r'', Err e).
Proof.
  intros Hrep Hd1 Honly Hne Hu. unfold Unregister in Hu. fold (unregisterAll k d) in Hu.
  destruct (redis_call (unregisterAll k d) r) as [r1 [x|e]] eqn:E; simplify_eq/=. apply call_ok in E.
  pose proof (unregisterAll_regs k d r k d1) as Hr. pose proof (unregisterAll_set k d r k) as Hs. rewrite E in Hr, Hs.
  rewrite decide_False in Hr by (intros [_ ->]; done). simpl in Hr, Hs. rewrite <- (rep_devices _ _ Hrep), Hd1 in Hr.
  rewrite decide_True in Hs by done. rewrite decide_True in Hs.
  2: { apply (size_set_one _ (base32_Encode d1)). intros b. rewrite (rep_sets _ _ Hrep k b). split.
       - intros (d' & -> & Hd'). by rewrite (Honly d') by (by rewrite (rep_devices _ _ Hrep)).
       - intros ->. exists d1. by rewrite <- (rep_devices _ _ Hrep), Hd1. }
  split; [done|]. intros others rq <-. unfold RequestPreKeys.
  set (k := RequestPreKeys_IdentityKey rq) in *. pose proof (read_call (smembers (identityDevicesKey k)) r') as Er.
  destruct (redis_call _ r') as [r2 [devs|e]] eqn:E2; simpl in Er; subst r2; [|eauto].
  apply call_ok in E2 as [= <-].
  assert (Em : smembers (identityDevicesKey k) r' = []).
  { apply Permutation_nil. symmetry. rewrite smembers_law, Hs. by rewrite elements_empty. }
  rewrite Em. simpl. destruct (redis_pipeline _ r') as [r2 [outs|e]]; eauto.
Qed.
End refinement.

(** ** A server that never fails *)

Definition store_redis : RedisData store := {|
  hget := λ k f σ, hash_at σ k !! f;
  hset := s_hset;
  del := λ ks σ, foldl (λ σ k, s_del k σ) σ ks;
  sadd := s_sadd;
  srem := s_srem;
  scard := λ k σ, Z.of_nat (size (set_at σ k));
  smembers := λ k σ, elements (set_at σ k);
  lpush := λ k l σ, s_list k (reverse l ++ list_at σ k) σ;
  lpop := λ k σ, (s_list k (tail (list_at σ k)) σ, head (list_at σ k));
  llen := λ k σ, Z.of_nat (length (list_at σ k));
  key_exists := λ k σ, bool_decide (hash_at σ k ≠ ∅ ∨ set_at σ k ≠ ∅ ∨ list_at σ k ≠ [] ∨ is_Some (strs σ !! k));
  keys_with_prefix := λ p σ, filter (λ k, String.prefix p k = true) (elements (dom (hashes σ)));
  getset := λ k v σ, (s_str k v σ, strs σ !! k);
  incrby := λ k n σ, let m := (counter σ k + n)%Z in (s_str k (itoa m) σ, m);
  redis_call := λ X f σ, let '(σ', x) := f σ in (σ', Ok x);
  redis_pipeline := λ X fs σ, let '(σ', xs) := run_all fs σ in (σ', Ok xs);
|}.

Definition store_laws : @RedisDataLaws store store_redis.
Proof.
  refine {| view := λ σ, σ |}; try done.
  - intros k n σ. by eexists.
  - intros X f r r' x. simpl. by destruct (f r) as [? ?]; intros; simplify_eq.
  - intros X f r r' e. simpl. by destruct (f r).
  - intros X fs r r' xs. simpl. by destruct (run_all fs r); intros; simplify_eq.
  - intros X fs r r' e. simpl. by destruct (run_all fs r).
Defined.

(** ** Instances of the properties *)

Section witnesses.
#[local] Existing Instances toy_identity toy_identity_laws store_redis store_laws.

Definition alice : string := "0123456789abcdef0123456789abcdef".
Definition empty_store : store := mkStore ∅ ∅ ∅ ∅.
Definition alice_reg : model.Register := mkRegister "spk" ["k1"; "k2"].
Definition alice_registry : DBSpec.state := DBSpec.register (PublicKey_String alice) "phone" alice_reg DBSpec.empty.
Definition alice_store : store := registerAll alice "phone" alice_reg empty_store.

Lemma empty_represents : represents (view empty_store) DBSpec.empty.
Proof.
  split; [done|]. intros k b. split; [by intros ?%elem_of_empty|]. by intros (d & _ & [? ?]).
Qed.

Lemma alice_represents : represents (view alice_store) alice_registry.
Proof.
  apply (changes_device_represents _ _ DBSpec.empty _ alice "phone" _
           (registerAll_changes alice "phone" alice_reg empty_store) empty_represents).
  intros k' d'. unfold alice_registry, DBSpec.register. simpl. rewrite lookup_insert, lookup_empty. by repeat case_decide.
Qed.

Lemma alice_phone : DBSpec.devices alice_registry !! (PublicKey_String alice, "phone") = Some alice_reg.
Proof. unfold alice_registry, DBSpec.register. simpl. by rewrite lookup_insert_eq. Qed.

Lemma alice_only_phone d : is_Some (DBSpec.devices alice_registry !! (PublicKey_String alice, d)) → d = "phone".
Proof.
  unfold alice_registry, DBSpec.register. cbn [DBSpec.devices].
  rewrite lookup_insert. intros [x Hx]. by case_decide; simplify_eq.
Qed.

Lemma device_keys_round_trip_witness :
  parseDeviceKeys (device_keys [mkAddress alice "phone"; mkAddress alice "tablet"]) =
  Ret (Ok [mkAddress alice "phone"; mkAddress alice "tablet"]).
Proof. apply device_keys_round_trip. repeat constructor. Defined.

Lemma redis_Register_refines_witness :
  ∃ r' e, Register alice "phone" alice_reg empty_store = Ret (r', e) ∧
    (e = None → represents (view r') alice_registry).
Proof.
  destruct (redis_Register_refines alice "phone" alice_reg empty_store _ empty_represents)
    as (r' & e & H1 & H2 & _). by exists r', e.
Defined.

Lemma redis_Unregister_refines_witness :
  ∃ r' e, Unregister alice "phone" alice_store = Ret (r', e) ∧
    (represents (view r') (DBSpec.unregister (PublicKey_String alice) "phone" alice_registry) ∨
     is_Some e ∧ r' = alice_store).
Proof.
  apply (redis_Unregister_refines alice "phone" alice_store _ alice_represents). left. rewrite alice_phone. eauto.
Defined.

Lemma redis_RequestPreKeys_refines_witness :
  ∃ r' res, RequestPreKeys (λ _ r, r) (mkRequestPreKeys alice []) alice_store = Ret (r', res) ∧
    ∀ l, res = Ok l → l ≠ [].
Proof.
  destruct (redis_RequestPreKeys_refines (mkRequestPreKeys alice []) alice_store _ alice_represents)
    as (r' & res & H1 & H2 & _). exists r', res. split; [done|]. intros l Hl. exact (proj1 (proj2 (H2 l Hl))).
Defined.

(** Another client takes a key of Alice's phone before the script of the request. *)
Definition takes_first (n : nat) (σ : store) : store :=
  (getPreKeyScript (deviceKey alice "phone") (oneTimePreKeysKey (deviceKey alice "phone")) σ).1.

Lemma redis_RequestPreKeys_interleaved_witness :
  ∃ ds, asked alice_registry (mkRequestPreKeys alice []) ds ∧
    ∃ r' regs, RequestPreKeys takes_first (mkRequestPreKeys alice []) alice_store =
                 Ret (r', Ok (zip_with DBSpec.handed_out ds regs)) ∧
      zip_with DBSpec.handed_out ds regs = [mkPreKey "phone" "spk" (Some "k1")] ∧
      served alice takes_first ds alice_store (Some <$> regs) r'.
Proof.
  destruct (redis_RequestPreKeys_interleaved takes_first (mkRequestPreKeys alice []) alice_store _ alice_represents)
    as (ds & Hds & H).
  assert (E : ∃ r', RequestPreKeys takes_first (mkRequestPreKeys alice []) alice_store =
    Ret (r', Ok [mkPreKey "phone" "spk" (Some "k1")])) by (eexists; vm_compute; reflexivity).
  destruct E as [r' E]. exists ds. split; [exact Hds|]. rewrite E in H. destruct H as (regs & Hs & Hl & _).
  exists r', regs. rewrite <- Hl. split; [exact E|]. split; [reflexivity|exact Hs].
Defined.

Lemma store_reliable : reliable (R:=store).
Proof.
  split; intros X f r r' e; simpl; [by destruct (f r)|by destruct (run_all f r)].
Qed.

(** Another client unregisters the phone. *)
Definition unregisters_first (n : nat) (σ : store) : store :=
  match n with
  | 0 => match Unregister alice "phone" σ with Ret (σ', _) => σ' | _ => σ end
  | S _ => σ
  end.

Lemma unregister_during_request_panics_witness :
  RequestPreKeys unregisters_first (mkRequestPreKeys alice []) alice_store = Panic.
Proof.
  apply (unregister_during_request_panics unregisters_first (mkRequestPreKeys alice []) "phone" alice_store alice_registry).
  - exact store_reliable.
  - exact alice_represents.
  - exists alice_reg. exact alice_phone.
  - apply not_elem_of_nil.
  - reflexivity.
  - done.
Defined.

Lemma unregister_unknown_device_hides_other_witness :
  ∃ r', Unregister alice "tablet" alice_store = Ret (r', None) ∧
    reg_at (view r') alice "phone" = Some alice_reg ∧
    ∃ r'' e, RequestPreKeys (λ _ r, r) (mkRequestPreKeys alice []) r' = Ret (r'', Err e).
Proof.
  eexists. split; [reflexivity|].
  destruct (unregister_unknown_device_hides_other alice "tablet" "phone" alice_reg alice_store _ alice_registry
              alice_represents alice_phone alice_only_phone ltac:(done) eq_refl) as [H1 H2].
  split; [exact H1|]. by apply H2.
Defined.
End witnesses.
