(* ===== verification/RedisNumbers.v ===== *)
(** * RedisNumbers: chat numbers on Redis

    What register_chat_number.lua and RegisterChatNumber (db/redisdb/redisdb.go)
    keep true of the four number hashes, whatever other clients do while a
    rate-limited caller sleeps, and how the rate limit spaces registrations. *)

From S2P Require Import Prelude Text Model Externals DB RedisDB RedisDBProps.

Import redisdb.

(** ** The rate limit *)

Section rate_limit.
Context {R : Type} {RD : RedisData R} {RL : RedisDataLaws R}.
Implicit Type r : R.

(** The times the attempts of registering at [ts] have to wait. *)
Fixpoint waits (ts : list Z) r : list (option Z) :=
  match ts with
  | [] => []
  | t :: ts' =>
      let '(r', w) := rateLimit minMillisPerChatNumberRegistration t r in w :: waits ts' r'
  end.

(** The clock stays below 2^52 milliseconds. *)
Definition clock_ok (t : Z) : Prop := (0 <= t < 2 ^ 52)%Z.

(** The state of the limiter: an attempt was made at [t], and the balance is [c]. *)
Definition limiter r (t c : Z) : Prop :=
  strs (view r) !! lastRegistrationTimeKey = Some (itoa t) ∧ counter (view r) registrationTokensKey = c.

Lemma rateLimit_step r t0 c t :
  limiter r t0 c → clock_ok t0 → clock_ok t → in_i64 (c + (t - t0) - 500) →
  let out := rateLimit minMillisPerChatNumberRegistration t r in
  limiter out.1 t (c + (t - t0) - 500) ∧
  out.2 = if decide (c + (t - t0) - 500 < 0)%Z then Some (-1 * (c + (t - t0) - 500))%Z else None.
Proof.
  intros [Hl Hc] Ht0 Ht Hin. unfold rateLimit. rewrite decide_True by done.
  destruct (getset_law lastRegistrationTimeKey (itoa t) r) as [G1 G2]. rewrite Hl in G1.
  destruct (getset _ _ r) as [r1 o]. simpl in *. subst o.
  rewrite atoi_itoa by (unfold clock_ok, in_i64, two63 in *; lia).
  assert (Ec : counter (view r1) registrationTokensKey = c) by (by rewrite G2; unfold counter, s_str; simpl; rewrite lookup_insert_ne).
  set (delta := (t - t0 - minMillisPerChatNumberRegistration)%Z).
  assert (Ed : (c + delta = c + (t - t0) - 500)%Z) by (unfold delta, minMillisPerChatNumberRegistration; lia).
  destruct (incrby_law registrationTokensKey delta r1) as (s & I1 & I2). rewrite Ec, Ed in I2. simpl in I2.
  specialize (I2 Hin) as [I2 ->]. destruct (incrby _ _ r1) as [r2 a]. simpl in *. subst a.
  assert (Hlim : limiter r2 t (c + (t - t0) - 500)).
  { unfold limiter, counter. rewrite I1, G2. unfold s_str; simpl.
    rewrite lookup_insert_ne, !lookup_insert_eq by done. simpl. by rewrite atoi_itoa. }
  by destruct (decide _).
Qed.

Lemma waits_spaced ts r t0 c i t :
  limiter r t0 c → clock_ok t0 → Forall clock_ok ts →
  (Z.abs (c - t0) + 2 ^ 52 + 500 * Z.of_nat (length ts) < two63)%Z →
  ts !! i = Some t → ∃ w, waits ts r !! i = Some w ∧
  (t + default 0 w = Z.max t (t0 - c + minMillisPerChatNumberRegistration * (Z.of_nat i + 1)))%Z.
Proof.
  intros Hl Ht0 Hts. revert r t0 c i Hl Ht0. induction Hts as [|t1 ts Ht1 Hts IH]; intros r t0 c i Hl Ht0 Hb Hi; [done|].
  cbn [length] in Hb. rewrite Nat2Z.inj_succ in Hb.
  destruct (rateLimit_step r t0 c t1 Hl Ht0 Ht1) as [Hl' Ho].
  { unfold clock_ok, in_i64, two63 in *. lia. }
  cbn [waits]. destruct (rateLimit _ t1 r) as [r1 w1]. simpl in Hl', Ho. subst w1.
  destruct i as [|i]; cbn [lookup list_lookup] in Hi |- *; [simplify_eq; eexists; split; [done|]|].
  - unfold minMillisPerChatNumberRegistration. destruct (decide _); simpl; lia.
  - destruct (IH r1 t1 _ i Hl' Ht1) as (w & Hw & E); [lia|done|]. exists w. split; [done|]. rewrite E. unfold minMillisPerChatNumberRegistration. lia.
Qed.

(** C34: the rate limit.  After an attempt at time [t0] that left the balance [c],
    the [i]-th of the following attempts (counting from 0), made at time [t], may
    go on, after the wait it is told, exactly at the later of [t] and
    [t0 - c + 500 * (i + 1)]: over time no more than two numbers per second are
    registered, beyond the balance left unused. *)
Theorem rate_limit_spaces_registrations ts r t0 c i t :
  limiter r t0 c → clock_ok t0 → Forall clock_ok ts →
  (Z.abs (c - t0) + 2 ^ 52 + 500 * Z.of_nat (length ts) < two63)%Z →
  ts !! i = Some t → ∃ w, waits ts r !! i = Some w ∧
  (t + default 0 w = Z.max t (t0 - c + minMillisPerChatNumberRegistration * (Z.of_nat i + 1)))%Z.
Proof. apply waits_spaced. Qed.

End rate_limit.

(** ** The number hashes *)

(** Every identity's number leads back to it and has a short number, every number's
    owner has that number, every short number in use can be looked up, and looking it
    up gives a number in use that has this short number: the last one registered with
    it. *)
Record numbers_wf (σ : store) : Prop := {
  nw_back : ∀ k n, hash_at σ identityToNumberKey !! k = Some n →
    n ≠ "" ∧ hash_at σ numberToIdentityKey !! n = Some k ∧ is_Some (hash_at σ numberToShortNumberKey !! n);
  nw_forth : ∀ n k, hash_at σ numberToIdentityKey !! n = Some k → hash_at σ identityToNumberKey !! k = Some n;
  nw_short : ∀ n sn, hash_at σ numberToShortNumberKey !! n = Some sn →
    is_Some (hash_at σ shortNumberToNumberKey !! sn);
  nw_long : ∀ sn n, hash_at σ shortNumberToNumberKey !! sn = Some n →
    hash_at σ numberToShortNumberKey !! n = Some sn ∧ is_Some (hash_at σ numberToIdentityKey !! n) }.

(** The identity with printed key [k] has this number and short number. *)
Definition owns (σ : store) (k : string) (p : string * string) : Prop :=
  hash_at σ identityToNumberKey !! k = Some p.1 ∧ hash_at σ numberToShortNumberKey !! p.1 = Some p.2.

(** What every step keeps. *)
Definition keeps_numbers (σ σ' : store) : Prop :=
  numbers_wf σ → numbers_wf σ' ∧ ∀ k p, owns σ k p → owns σ' k p.

Lemma keeps_numbers_refl σ : keeps_numbers σ σ.
Proof. by intros W. Qed.
Lemma keeps_numbers_trans σ1 σ2 σ3 : keeps_numbers σ1 σ2 → keeps_numbers σ2 σ3 → keeps_numbers σ1 σ3.
Proof. intros H12 H23 W. destruct (H12 W) as [W2 O2]. destruct (H23 W2) as [W3 O3]. eauto. Qed.

Lemma keeps_numbers_strs σ σ' : hashes σ' = hashes σ → keeps_numbers σ σ'.
Proof.
  intros E. assert (Eh : ∀ x, hash_at σ' x = hash_at σ x) by (intros x; unfold hash_at; by rewrite E).
  intros W. split.
  - split; intros a b; rewrite !Eh; [apply (nw_back _ W)|apply (nw_forth _ W)|apply (nw_short _ W)|apply (nw_long _ W)].
  - intros k p [? ?]. split; by rewrite Eh.
Qed.

Section numbers.
Context {R : Type} {RD : RedisData R} {RL : RedisDataLaws R}.
Implicit Type r : R.

Lemma rateLimit_hashes req now r : hashes (view (rateLimit req now r).1) = hashes (view r).
Proof.
  unfold rateLimit. destruct (decide _); [|done].
  destruct (getset_law lastRegistrationTimeKey (itoa now) r) as [_ G]. destruct (getset _ _ r) as [r1 [t|]]; simpl in *.
  - set (delta := (_ - _ - _)%Z). destruct (incrby_law registrationTokensKey delta r1) as (s & I & _).
    destruct (incrby _ _ r1) as [r2 a]. simpl in I. by destruct (decide _); simpl; rewrite I; simpl; rewrite G.
  - by rewrite G.
Qed.

Lemma rateLimit_keeps req now r : keeps_numbers (view r) (view (rateLimit req now r).1).
Proof. apply keeps_numbers_strs, rateLimit_hashes. Qed.

Lemma rateLimit_positive req now r m : (rateLimit req now r).2 = Some m → (0 < req ∧ 0 < m)%Z.
Proof.
  unfold rateLimit. destruct (decide _) as [Hr|]; [|done]. destruct (getset _ _ r) as [r1 [t|]]; [|done].
  destruct (incrby _ _ r1) as [r2 a]. case_decide; [|done]. simpl. intros [= <-]. lia.
Qed.

Lemma newRegistration_hashes k n sn r :
  let σ := view r in let σ' := view (newRegistration k n sn r) in
  hash_at σ' identityToNumberKey = <[k := n]> (hash_at σ identityToNumberKey) ∧
  hash_at σ' numberToIdentityKey = <[n := k]> (hash_at σ numberToIdentityKey) ∧
  hash_at σ' numberToShortNumberKey = <[n := sn]> (hash_at σ numberToShortNumberKey) ∧
  hash_at σ' shortNumberToNumberKey = <[sn := n]> (hash_at σ shortNumberToNumberKey).
Proof. intros σ σ'. unfold σ', newRegistration. rewrite !hset_law, !hash_at_hset. done. Qed.

(** Assigning a free number to an identity without one. *)
Lemma newRegistration_keeps k n sn r :
  n ≠ "" → hash_at (view r) identityToNumberKey !! k = None → hash_at (view r) numberToIdentityKey !! n = None →
  keeps_numbers (view r) (view (newRegistration k n sn r)) ∧ owns (view (newRegistration k n sn r)) k (n, sn).
Proof.
  intros Hn Hk Hfree. destruct (newRegistration_hashes k n sn r) as (E1 & E2 & E3 & E4). split.
  - intros [Wb Wf Ws Wl]. split; [split|].
    + intros k' n'. rewrite E1, E2, E3. rewrite lookup_insert_Some. intros [[<- <-]|[Hne H]].
      * by rewrite !lookup_insert_eq.
      * destruct (Wb _ _ H) as (? & ? & ?). rewrite !lookup_insert_ne by congruence. done.
    + intros n' k'. rewrite E1, E2. rewrite lookup_insert_Some. intros [[<- <-]|[Hne H]].
      * by rewrite lookup_insert_eq.
      * apply Wf in H. rewrite lookup_insert_ne by congruence. done.
    + intros n' sn'. rewrite E3, E4, lookup_insert_is_Some. intros [[<- <-]|[Hne H]]%lookup_insert_Some; [by left|].
      destruct (decide (sn = sn')); [by left|right]. split; [done|by eapply Ws].
    + intros sn' n'. rewrite E2, E3, E4. intros [[<- <-]|[Hne H]]%lookup_insert_Some; [by rewrite !lookup_insert_eq|].
      destruct (Wl _ _ H) as [? [k' Hk']]. rewrite !lookup_insert_ne by congruence. split; [done|by exists k'].
    + intros k' [n' sn'] [H1 H2]. simpl in *. destruct (Wb _ _ H1) as (_ & H & _).
      split; simpl; rewrite ?E1, ?E3, lookup_insert_ne by congruence; done.
  - split; simpl; rewrite ?E1, ?E3; apply lookup_insert_eq.
Qed.

(** What the script answers: the number is taken, or (only when limited) a wait,
    or the numbers the identity now owns. *)
Definition answer_ok (req : Z) (k : string) (out : R * reply) : Prop :=
  match out.2 with
  | ReplyInt m => m = (-1)%Z ∨ (0 < req)%Z ∧ (0 < m)%Z
  | ReplyTable a b => ∃ p, a = Some p.1 ∧ b = Some p.2 ∧ owns (view out.1) k p
  end.

Lemma registerIfFree_spec k n sn req now r :
  n ≠ "" → hash_at (view r) identityToNumberKey !! k = None →
  let out := registerIfFree k n sn req now r in
  keeps_numbers (view r) (view out.1) ∧ answer_ok req k out.
Proof.
  intros Hn Hk out. unfold out, registerIfFree. rewrite hget_law.
  destruct (hash_at _ numberToIdentityKey !! n) eqn:Hfree; [by split; [apply keeps_numbers_refl|left]|].
  pose proof (rateLimit_keeps req now r) as Hkeep.
  assert (Hh : hashes (view (rateLimit req now r).1) = hashes (view r)) by apply rateLimit_hashes.
  assert (Hw : ∀ m, (rateLimit req now r).2 = Some m → (0 < req ∧ 0 < m)%Z) by apply rateLimit_positive.
  destruct (rateLimit req now r) as [r1 [m|]]; simpl in *.
  - split; [done|]. right. by apply Hw.
  - destruct (newRegistration_keeps k n sn r1 Hn) as [K O]; [(unfold hash_at; by rewrite Hh)..|].
    split; [by eapply keeps_numbers_trans|]. by exists (n, sn).
Qed.

Lemma registerChatNumberScript_spec k n sn req now r :
  n ≠ "" → numbers_wf (view r) →
  let out := registerChatNumberScript k n sn req now r in
  keeps_numbers (view r) (view out.1) ∧ answer_ok req k out.
Proof.
  intros Hn W out. unfold out, registerChatNumberScript. rewrite !hget_law.
  destruct (hash_at (view r) identityToNumberKey !! k) as [n0|] eqn:Hk; [|by apply registerIfFree_spec].
  destruct (nw_back _ W _ _ Hk) as (Hne & _ & [sn0 Hs]). rewrite decide_False by done.
  split; [apply keeps_numbers_refl|]. exists (n0, sn0). simpl. by rewrite hget_law.
Qed.

(** Reading the numbers off the answer does not panic. *)
Lemma asNumbers_ok req k r1 a b :
  answer_ok req k (r1, ReplyTable a b) → ∃ p, asNumbers (ReplyTable a b) = Ret p ∧ owns (view r1) k p.
Proof. intros (p & Ea & Eb & Ho). simpl in *. subst. exists p. split; [by destruct p|done]. Qed.

Lemma call_keeps {X} (f : R → R * X) r r' x :
  keeps_numbers (view r) (view (f r).1) → redis_call f r = (r', x) → keeps_numbers (view r) (view r').
Proof.
  intros H E. destruct x as [x|e].
  - apply call_ok in E. by rewrite E in H.
  - apply call_err in E as [-> | ->]; [apply keeps_numbers_refl|done].
Qed.

Context {ID : Identity} (now : R → Z) (others : nat → R → R).

(** The second half of RegisterChatNumber, after the sleep. *)
Lemma second_call k n sn t r :
  n ≠ "" → numbers_wf (view r) →
  ∃ r2 res, match redis_call (registerChatNumberScript k n sn 0 t) r with
      | (r2, Err e) => Ret (r2, Err e)
      | (r2, Ok result) =>
          match result with
          | ReplyInt (-1) => Ret (r2, Err (Sentinel ErrNumberTaken))
          | _ => p ← asNumbers result; Ret (r2, Ok p)
          end
      end = Ret (r2, res) ∧ keeps_numbers (view r) (view r2) ∧ ∀ p, res = Ok p → owns (view r2) k p.
Proof.
  intros Hn W. destruct (registerChatNumberScript_spec k n sn 0 t r Hn W) as [K A].
  destruct (redis_call _ r) as [r2 x] eqn:E. pose proof (call_keeps _ _ _ _ K E) as K2. clear K.
  destruct x as [x|e]; [|by do 2 eexists; split_and!]. apply call_ok in E. rewrite E in A.
  destruct x as [m|a b].
  - destruct A as [->|[? _]]; [|lia]. by do 2 eexists; split_and!.
  - destruct (asNumbers_ok _ _ _ _ _ A) as (p & -> & Ho). do 2 eexists; split_and!; [done..|]. by intros ? [= <-].
Qed.

(** C31: chat numbers on Redis, with other clients at work.  If the number hashes
    agree, the other clients keep them so and take no number away while we sleep,
    and the proposed number is not empty, then RegisterChatNumber returns without a
    panic, the hashes agree afterwards, every identity still owns what it owned,
    no two identities own the same number, and a success reports the numbers the
    identity owns.  The hashes are the four of the script: that of the short numbers
    leads from every short number in use to a number that has it. *)
Theorem redis_chat_numbers_kept k n sn r :
  (∀ i r, keeps_numbers (view r) (view (others i r))) →
  numbers_wf (view r) → n ≠ "" →
  ∃ r' res, RegisterChatNumber now others k n sn r = Ret (r', res) ∧
    numbers_wf (view r') ∧
    (∀ k' p, owns (view r) k' p → owns (view r') k' p) ∧
    (∀ k1 k2 p1 p2, owns (view r') k1 p1 → owns (view r') k2 p2 → p1.1 = p2.1 → k1 = k2) ∧
    (∀ p, res = Ok p → owns (view r') (PublicKey_String k) p).
Proof.
  intros Hoth W Hn.
  assert (H : ∃ r' res, RegisterChatNumber now others k n sn r = Ret (r', res) ∧
    keeps_numbers (view r) (view r') ∧ (∀ p, res = Ok p → owns (view r') (PublicKey_String k) p)).
  { unfold RegisterChatNumber.
    destruct (registerChatNumberScript_spec (PublicKey_String k) n sn minMillisPerChatNumberRegistration (now r) r Hn W) as [K A].
    destruct (redis_call _ r) as [r1 x] eqn:E. pose proof (call_keeps _ _ _ _ K E) as K1. clear K.
    destruct x as [x|e]; [|by do 2 eexists; split_and!]. apply call_ok in E. rewrite E in A. destruct x as [m|a b].
    - destruct (decide (m = -1)%Z); [by do 2 eexists; split_and!|].
      destruct (K1 W) as [W1 _]. destruct (Hoth 0 r1 W1) as [W2 _].
      destruct (second_call (PublicKey_String k) n sn (now r) (others 0 r1) Hn W2) as (r2 & res & E2 & K2 & O2).
      exists r2, res. split; [exact E2|]. split; [|done]. eauto using keeps_numbers_trans.
    - destruct (asNumbers_ok _ _ _ _ _ A) as (p & -> & Ho). do 2 eexists; split_and!; [done..|]. by intros ? [= <-]. }
  destruct H as (r' & res & E & K & O). destruct (K W) as [W' O']. exists r', res. split_and!; [done..| |done].
  intros k1 k2 [n1 s1] [n2 s2] [H1 _] [H2 _] [= ->]. simpl in *.
  apply (nw_back _ W') in H1 as (_ & H1 & _), H2 as (_ & H2 & _). congruence.
Qed.
End numbers.

(** ** Instances of the properties *)

Section witnesses.
#[local] Existing Instances toy_identity toy_identity_laws store_redis store_laws.

Definition limited_store : store :=
  mkStore ∅ ∅ ∅ (<[lastRegistrationTimeKey := itoa 1600000000000]> ∅).

Lemma limited_store_limiter : limiter limited_store 1600000000000 0.
Proof.
  split; [apply lookup_insert_eq|]. unfold counter. change (strs (view limited_store)) with (strs limited_store).
  unfold limited_store. cbn [strs]. by rewrite lookup_insert_ne.
Qed.

Lemma rate_limit_spaces_registrations_witness :
  ∃ w, waits [1600000000100; 1600000000200]%Z limited_store !! 1 = Some w ∧
    (1600000000200 + default 0 w = Z.max 1600000000200 (1600000000000 - 0 + 500 * (1 + 1)))%Z.
Proof.
  apply (rate_limit_spaces_registrations [1600000000100; 1600000000200]%Z limited_store 1600000000000 0 1 1600000000200);
    [exact limited_store_limiter|unfold clock_ok; lia|repeat constructor; lia|unfold two63; simpl; lia|done].
Defined.

Lemma redis_chat_numbers_kept_witness :
  ∃ r' res, RegisterChatNumber (λ _, 1600000000100%Z) (λ _ r, r) alice "n1" "s1" limited_store = Ret (r', res) ∧
    ∀ p, res = Ok p → owns (view r') (PublicKey_String alice) p.
Proof.
  destruct (redis_chat_numbers_kept (λ _, 1600000000100%Z) (λ _ r, r) alice "n1" "s1" limited_store)
    as (r' & res & H1 & _ & _ & _ & H2); [intros i r; apply keeps_numbers_refl|by split|done|].
  exists r', res. exact (conj H1 H2).
Defined.
End witnesses.
