(* ===== verification/RedisSetup.v ===== *)
(** * RedisSetup: loading the scripts (New of redisdb.go and of redisbroker.go)

    The database and the broker load their Lua scripts when they are made and run
    them later by the hash that Redis returned.  RedisDB.v and RedisBroker.v run the
    scripts themselves; here is why the hashes stand for them. *)

From S2P Require Import Prelude Model.

(** [SCRIPT LOAD] of a Redis server. *)
Class Scripts (R : Type) : Type := { ScriptLoad : string → R → R * result string }.

(** [script_at]: the script that [EVALSHA] runs for a hash.  Redis keeps scripts until
    it is told to flush them. *)
Class ScriptLaws (R : Type) `{!Scripts R} : Type := {
  script_at : R → string → option string;
  ScriptLoad_law : ∀ text r r' res, ScriptLoad text r = (r', res) →
    (∀ sha t, script_at r sha = Some t → script_at r' sha = Some t) ∧
    ∀ sha, res = Ok sha → script_at r' sha = Some text }.

Module redisdb_setup.
Section setup.
Context {R : Type} `{!Scripts R}.
(** The files register.lua, unregister.lua, get_pre_key.lua, register_chat_number.lua. *)
Context (registerScript unregisterScript getPreKeyScript registerChatNumberScript : string).

Record redisDB := mkRedisDB {
  registerScriptSHA : string; unregisterScriptSHA : string;
  getPreKeyScriptSHA : string; registerChatNumberScriptSHA : string }.

Definition unable (name : string) (err : goerror) : goerror :=
  Untyped ("unable to load " +:+ name +:+ ": " +:+ error_text err)%string.

Definition New (r : R) : R * result redisDB :=
  match ScriptLoad registerScript r with
  | (r, Err err) => (r, Err (unable "registerScript" err))
  | (r, Ok registerScriptSHA) =>
      match ScriptLoad unregisterScript r with
      | (r, Err err) => (r, Err (unable "unregisterScript" err))
      | (r, Ok unregisterScriptSHA) =>
          match ScriptLoad getPreKeyScript r with
          | (r, Err err) => (r, Err (unable "getPreKeyScript" err))
          | (r, Ok getPreKeyScriptSHA) =>
              match ScriptLoad registerChatNumberScript r with
              | (r, Err err) => (r, Err (unable "registerNumberScript" err))
              | (r, Ok registerChatNumberScriptSHA) =>
                  (r, Ok (mkRedisDB registerScriptSHA unregisterScriptSHA getPreKeyScriptSHA registerChatNumberScriptSHA))
              end
          end
      end
  end.
End setup.
End redisdb_setup.

Module redisbroker_setup.
Section setup.
Context {R : Type} `{!Scripts R} (ackScript : string).

(** The subscribers by stream and by their identifier, and the acks that wait in a
    channel of capacity 10000. *)
Record redisBroker {Sub Ack : Type} := mkRedisBroker {
  subscribersByStream : gmap string (gmap string Sub); acks : list Ack; ackScriptSHA : string }.
#[global] Arguments redisBroker : clear implicits.

Definition New {Sub Ack : Type} (r : R) : R * result (redisBroker Sub Ack) :=
  match ScriptLoad ackScript r with
  | (r, Err err) => (r, Err (Untyped ("unable to load ackScript: " +:+ error_text err)%string))
  | (r, Ok sha) => (r, Ok (mkRedisBroker Sub Ack ∅ [] sha))
  end.
End setup.
End redisbroker_setup.

(** ** The hashes name the scripts *)

Section loaded.
Context {R : Type} `{!Scripts R, !ScriptLaws R}.

(** Everything that could be run still can. *)
Definition keeps_scripts (r r' : R) : Prop := ∀ sha t, script_at r sha = Some t → script_at r' sha = Some t.

Lemma load_ok text r r' sha :
  ScriptLoad text r = (r', Ok sha) → keeps_scripts r r' ∧ script_at r' sha = Some text.
Proof. intros [Hk Hs]%ScriptLoad_law. auto. Qed.

Lemma db_scripts_loaded t1 t2 t3 t4 (r r' : R) d :
  redisdb_setup.New t1 t2 t3 t4 r = (r', Ok d) →
  keeps_scripts r r' ∧
  script_at r' (redisdb_setup.registerScriptSHA d) = Some t1 ∧
  script_at r' (redisdb_setup.unregisterScriptSHA d) = Some t2 ∧
  script_at r' (redisdb_setup.getPreKeyScriptSHA d) = Some t3 ∧
  script_at r' (redisdb_setup.registerChatNumberScriptSHA d) = Some t4.
Proof.
  unfold redisdb_setup.New.
  destruct (ScriptLoad t1 r) as [r1 [s1|]] eqn:E1; [|done]. destruct (ScriptLoad t2 r1) as [r2 [s2|]] eqn:E2; [|done].
  destruct (ScriptLoad t3 r2) as [r3 [s3|]] eqn:E3; [|done]. destruct (ScriptLoad t4 r3) as [r4 [s4|]] eqn:E4; [|done].
  intros [= <- <-]. simpl.
  apply load_ok in E1 as [K1 ?], E2 as [K2 ?], E3 as [K3 ?], E4 as [K4 ?].
  split_and!; auto. intros sha t Ht. auto.
Qed.

(** The broker is made first and the database second, with the same server (main.go):
    afterwards all five hashes run the scripts they were loaded from. *)
Lemma scripts_loaded {Sub Ack} t0 t1 t2 t3 t4 (r r1 r2 : R) (b : redisbroker_setup.redisBroker Sub Ack) d :
  redisbroker_setup.New t0 r = (r1, Ok b) → redisdb_setup.New t1 t2 t3 t4 r1 = (r2, Ok d) →
  script_at r2 (redisbroker_setup.ackScriptSHA b) = Some t0 ∧
  script_at r2 (redisdb_setup.registerScriptSHA d) = Some t1 ∧
  script_at r2 (redisdb_setup.unregisterScriptSHA d) = Some t2 ∧
  script_at r2 (redisdb_setup.getPreKeyScriptSHA d) = Some t3 ∧
  script_at r2 (redisdb_setup.registerChatNumberScriptSHA d) = Some t4.
Proof.
  unfold redisbroker_setup.New. destruct (ScriptLoad t0 r) as [r0 [s0|]] eqn:E; [|done]. intros [= <- <-].
  apply load_ok in E as [_ E]. intros [Hk Hs]%db_scripts_loaded. auto.
Qed.
End loaded.
