(* ===== verification/Presence.v ===== *)
(** * Presence: where a device can be reached

    [presence.Repository] (presence/presence.go) with its two implementations,
    presence/mempresence/mempresence.go and
    presence/staticpresence/staticpresence.go. *)

From S2P Require Import Prelude Model Externals.

(** ** presence/presence.go; addresses are pointers, so possibly nil *)

Class Presence (P : Type) : Type := {
  presence_Announce : option Address → string → P → P * option goerror;
  presence_Find : option Address → P → P * result string;
}.

Module mempresence.
Section mempresence.
Context {PT : Prototext}.

Record repo := mkRepo { m : gmap string string }.

Definition NewRepository : repo := mkRepo ∅.

Definition Announce (addr : option Address) (tassisHost : string) (r : repo) : repo * option goerror :=
  (mkRepo (<[Address_String addr := tassisHost]> (m r)), None).

Definition Find (addr : option Address) (r : repo) : repo * result string :=
  match m r !! Address_String addr with
  | None => (r, Err (Sentinel ErrUnknownDevice))
  | Some tassisHost => (r, Ok tassisHost)
  end.

#[export] Instance mempresence_Presence : Presence repo := {|
  presence_Announce := Announce;
  presence_Find := Find;
|}.
End mempresence.
End mempresence.

Module staticpresence.

Record repo := mkRepo { tassisHost : string }.

Definition NewRepository (tassisHost : string) : repo := mkRepo tassisHost.

Definition Announce (addr : option Address) (tassisHost : string) (r : repo) : repo * option goerror :=
  (* no-op *) (r, None).

Definition Find (addr : option Address) (r : repo) : repo * result string :=
  (r, Ok (tassisHost r)).

#[export] Instance staticpresence_Presence : Presence repo := {|
  presence_Announce := Announce;
  presence_Find := Find;
|}.
End staticpresence.

(** ** The last announcement wins *)

Section announcements.
Context {PT : Prototext}.

Definition announce_all (l : list (Address * string)) (r : mempresence.repo) : mempresence.repo :=
  foldl (λ r x, (mempresence.Announce (Some x.1) x.2 r).1) r l.

(** The host of the last announcement for an address. *)
Definition last_host (a : Address) (l : list (Address * string)) : option string :=
  snd <$> last (filter (λ x, Address_String (Some x.1) = Address_String (Some a)) l).

(** After any sequence of announcements on a new in-memory repository,
    [Find] returns the host of the last announcement for that address, and
    reports an unknown device for an address that was never announced. *)
Theorem Find_last_announcement (l : list (Address * string)) (a : Address) :
  (mempresence.Find (Some a) (announce_all l mempresence.NewRepository)).2 =
  match last_host a l with
  | Some h => Ok h
  | None => Err (Sentinel ErrUnknownDevice)
  end.
Proof.
  assert (H : mempresence.m (announce_all l mempresence.NewRepository) !! Address_String (Some a)
              = last_host a l).
  { unfold announce_all, last_host. induction l as [|[b h] l IH] using rev_ind; [done|].
    rewrite foldl_app, filter_app; simpl. rewrite lookup_insert, filter_cons, filter_nil; simpl.
    case_decide; [by rewrite last_snoc|]. by rewrite app_nil_r. }
  unfold mempresence.Find. rewrite H. by destruct (last_host a l).
Qed.
End announcements.
