(* ===== verification/Broker.v ===== *)
(** * Broker: the message broker interface (broker/broker.go)

    A broker hands out subscribers and publishers of named topics.  The closure
    that [Message.Acker] returns is represented by the data it captures, an
    [Acker], and calling it is [broker_Ack].  Receiving from the channel of
    [Subscriber.Messages] is [broker_Receive], which gives nothing while no
    message is available. *)

From S2P Require Import Prelude Model.

Class Broker (B : Type) : Type := {
  Subscriber : Type;
  Publisher : Type;
  Acker : Type;
  broker_NewSubscriber : string → B → B * result Subscriber;
  broker_NewPublisher : string → B → B * result Publisher;
  broker_Publish : Publisher → option string → B → outcome (B * option goerror);
  broker_Receive : Subscriber → B → B * option (option string * Acker);
  broker_Ack : Acker → B → outcome (B * option goerror);
  broker_CloseSubscriber : Subscriber → B → B;
  broker_ClosePublisher : Publisher → B → B;
}.

(** What a broker's state means to its clients.  [backlog] is what is stored for a
    topic, in no particular order; [ack_target] is the stored message an acker
    stands for, if it is still there; [issued b a x]: the broker has handed out [a]
    with the data [x]; [in_transit b t x]: [x] is stored for the topic [t] or on its
    way to a subscriber of it; [sub_topic] is the topic a subscriber reads.
    [broker_room n] is the broker's invariant, with room for [n] more
    publications before a counter wraps. *)
Class BrokerView (B : Type) `{!Broker B} : Type := {
  pub_topic : Publisher → string;
  ack_topic : Acker → string;
  backlog : B → string → list (option string);
  ack_target : B → Acker → option (option string);
  sub_topic : B → Subscriber → option string;
  issued : B → Acker → option string → Prop;
  in_transit : B → string → option string → Prop;
  broker_room : nat → B → Prop;
}.

Section broker_view.
Context {B : Type} {BI : Broker B} {BV : BrokerView B}.
Implicit Types b : B.

Definition broker_wf b : Prop := broker_room 0 b.

(** Two states that store the same messages. *)
Definition same_store b b' : Prop :=
  (∀ t, backlog b' t = backlog b t) ∧ (∀ a, ack_target b' a = ack_target b a).

(** Subscribers and ackers stay what they are, room is kept and nothing new is on
    its way. *)
Record steady b b' : Prop := {
  steady_sub : ∀ s t, sub_topic b s = Some t → sub_topic b' s = Some t;
  steady_issued : ∀ a x, issued b a x → issued b' a x;
  steady_transit : ∀ t x, in_transit b' t x → in_transit b t x;
  steady_room : ∀ n, broker_room n b → broker_room n b' }.

Definition quiet b b' : Prop := same_store b b' ∧ steady b b'.

(** [x] was published on the topic of [p]. *)
Record published_on (p : Publisher) (x : option string) b b' : Prop := {
  published_sub : ∀ s t, sub_topic b s = Some t → sub_topic b' s = Some t;
  published_issued : broker_room 1 b → ∀ a y, issued b a y → issued b' a y;
  published_transit : ∀ t y, in_transit b' t y → in_transit b t y ∨ t = pub_topic p ∧ y = x;
  published_room : ∀ n, broker_room (S n) b → broker_room n b' }.

#[export] Instance same_store_preorder : PreOrder same_store.
Proof.
  split; [done|]. intros b1 b2 b3 [H1 H1'] [H2 H2'].
  split; intros x; [rewrite H2|rewrite H2']; auto.
Qed.

#[export] Instance steady_preorder : PreOrder steady.
Proof. split; [done|]. intros b1 b2 b3 [] []. split; auto. Qed.

#[export] Instance quiet_preorder : PreOrder quiet.
Proof. split; [done|]. intros b1 b2 b3 [] []. split; etransitivity; eauto. Qed.

Lemma quiet_wf b b' : quiet b b' → broker_wf b → broker_wf b'.
Proof. intros [_ H]. apply (steady_room _ _ H). Qed.
End broker_view.

(** What a client may assume.  Making and closing publishers and subscribers and
    receiving change no stored message; a publication that succeeds adds the message
    to what is stored for the publisher's topic and to nothing else; a subscriber is
    given messages of its own topic, with ackers that stand for them; an
    acknowledgement that succeeds removes the acker's own message and nothing
    else. *)
Class BrokerLaws (B : Type) `{!Broker B} : Type := {
  #[global] broker_view :: BrokerView B;
  room_less : ∀ n b, broker_room (S n) b → broker_room n b;
  backlog_in_transit : ∀ b t x, x ∈ backlog b t → in_transit b t x;
  issued_target : ∀ b a x y, issued b a x → ack_target b a = Some y → y = x;
  NewPublisher_law : ∀ t b b' res,
    broker_wf b → broker_NewPublisher t b = (b', res) →
    quiet b b' ∧ ∀ p, res = Ok p → pub_topic p = t;
  ClosePublisher_law : ∀ p b, broker_wf b → quiet b (broker_ClosePublisher p b);
  NewSubscriber_law : ∀ t b b' res,
    broker_wf b → broker_NewSubscriber t b = (b', res) →
    quiet b b' ∧ ∀ s, res = Ok s → sub_topic b' s = Some t;
  CloseSubscriber_law : ∀ s b, broker_wf b → quiet b (broker_CloseSubscriber s b);
  Receive_law : ∀ sub b b' r,
    broker_wf b → broker_Receive sub b = (b', r) →
    quiet b b' ∧ ∀ t x a, sub_topic b sub = Some t → r = Some (x, a) →
      ack_topic a = t ∧ in_transit b t x ∧ issued b' a x;
  Publish_law : ∀ p x b b' e,
    broker_wf b → broker_Publish p x b = Ret (b', e) →
    (∀ t, backlog b' t ≡ₚ
      match e with
      | Some _ => backlog b t
      | None => if decide (t = pub_topic p) then x :: backlog b t else backlog b t
      end) ∧
    (∀ a y, issued b a y → ack_target b' a = ack_target b a) ∧
    match e with Some _ => steady b b' | None => published_on p x b b' end;
  Ack_law : ∀ a b b' e, broker_Ack a b = Ret (b', e) →
    steady b b' ∧ ∀ t, backlog b t ≡ₚ
      match e with
      | Some _ => backlog b' t
      | None => (if decide (t = ack_topic a) then option_list (ack_target b a) else []) ++ backlog b' t
      end;
}.

Lemma close_all_quiet {B} `{!Broker B, !BrokerLaws B} (l : list Publisher) (b : B) :
  broker_wf b → quiet b (foldl (λ b x, broker_ClosePublisher x b) b l).
Proof.
  revert b; induction l as [|p l IH]; intros b W; simpl; [done|].
  pose proof (ClosePublisher_law p b W) as Hq. etransitivity; [exact Hq|]. by apply IH, (quiet_wf b).
Qed.
