(* ===== verification/MemBroker.v ===== *)
(** * MemBroker: the in-memory broker (broker/membroker/membroker.go)

    A topic is a counter, a channel of 10000 sequence numbers and the map of
    messages that were published and not acknowledged.  [Publish], [ack] and
    the two locked sections of [subscriber.process] run under the topic's
    mutex.  The module gives the code as executable transitions; the relation
    [step] interleaves one topic's publishers, subscribers and ackers at the
    grain of the mutex and of channel operations; [membroker_Broker] is the
    sequential reading used by clients. *)

From S2P Require Import Prelude Model Broker.

Module membroker.

Definition chCapacity : Z := 10000.

Record topic := mkTopic {
  seq : Z;
  ch : list Z;
  messages : gmap Z (option string) }.

Definition newTopic : topic := mkTopic 0 [] ∅.

(** [Publish] up to the send: number the message and store it. *)
Definition storeMessage (msg : option string) (t : topic) : topic * Z :=
  (mkTopic (wrap_i64 (seq t + 1)) (ch t) (<[seq t := msg]> (messages t)), seq t).

(** [t.ch <- seq]: blocks while the channel is full. *)
Definition sendSeq (q : Z) (t : topic) : option topic :=
  if decide (Z.of_nat (length (ch t)) < chCapacity)%Z
  then Some (mkTopic (seq t) (ch t ++ [q]) (messages t)) else None.

Definition Publish (msg : option string) (t : topic) : outcome topic :=
  let '(t', q) := storeMessage msg t in
  match sendSeq q t' with Some t'' => Ret t'' | None => Block end.

Definition ack (q : Z) (t : topic) : topic :=
  mkTopic (seq t) (ch t) (delete q (messages t)).

(** [message]: what [Data] and [Acker] see. *)
Record message := mkMessage { msg_seq : Z; msg_data : option string }.

(** Where the goroutine of a subscriber is: before it has copied the stored
    messages, sending the copies, at the [select], holding a sequence number it
    took off the channel, offering a message, returned. *)
Inductive pc :=
| Starting
| Replaying (pending : list message)
| Selecting
| Taken (q : Z)
| Offering (msg : message)
| Done.

Record subscriber := mkSubscriber { at_pc : pc; closed : bool }.

Definition newSubscriber : subscriber := mkSubscriber Starting false.

(** [copyOfExisting], in the order the second loop visits it. *)
Definition copyOfExisting (t : topic) : list message :=
  (λ x, mkMessage x.1 x.2) <$> map_to_list (messages t).

(** The second locked section: a number whose message is gone, or whose data is
    nil, is skipped. *)
Definition lookupTaken (q : Z) (t : topic) : pc :=
  match messages t !! q with
  | Some (Some data) => Offering (mkMessage q (Some data))
  | _ => Selecting
  end.

Definition Close (s : subscriber) : subscriber := mkSubscriber (at_pc s) true.

(** ** The broker as its clients see it, one call at a time *)

Record membroker := mkMembroker {
  topics : gmap string topic;
  subscribers : list (string * subscriber) }.

Definition New : membroker := mkMembroker ∅ [].

Definition getOrCreateTopic (topicName : string) (mb : membroker) : membroker * topic :=
  match topics mb !! topicName with
  | Some t => (mb, t)
  | None => (mkMembroker (<[topicName := newTopic]> (topics mb)) (subscribers mb), newTopic)
  end.

Definition NewSubscriber (topicName : string) (mb : membroker) : membroker * result nat :=
  let '(mb', _) := getOrCreateTopic topicName mb in
  (mkMembroker (topics mb') (subscribers mb' ++ [(topicName, newSubscriber)]),
   Ok (length (subscribers mb'))).

(** A publisher is the topic itself: we keep its name. *)
Definition NewPublisher (topicName : string) (mb : membroker) : membroker * result string :=
  let '(mb', _) := getOrCreateTopic topicName mb in (mb', Ok topicName).

Definition topicOf (topicName : string) (mb : membroker) : topic :=
  default newTopic (topics mb !! topicName).

Definition setTopic (topicName : string) (t : topic) (mb : membroker) : membroker :=
  mkMembroker (<[topicName := t]> (topics mb)) (subscribers mb).

Definition publishTo (topicName : string) (msg : option string) (mb : membroker)
    : outcome (membroker * option goerror) :=
  t ← Publish msg (topicOf topicName mb); Ret (setTopic topicName t mb, None).

Definition ackMessage (a : string * Z) (mb : membroker) : outcome (membroker * option goerror) :=
  Ret (setTopic a.1 (ack a.2 (topicOf a.1 mb)) mb, None).

(** Runs [process] until it offers a message or waits at the [select]. *)
Fixpoint process (fuel : nat) (t : topic) (p : pc) : topic * pc * option message :=
  match fuel with
  | O => (t, p, None)
  | S fuel' =>
      match p with
      | Starting => process fuel' t (Replaying (copyOfExisting t))
      | Replaying (msg :: rest) => (t, Replaying rest, Some msg)
      | Replaying [] => process fuel' t Selecting
      | Selecting =>
          match ch t with
          | [] => (t, Selecting, None)
          | q :: rest => process fuel' (mkTopic (seq t) rest (messages t)) (Taken q)
          end
      | Taken q => process fuel' t (lookupTaken q t)
      | Offering msg => (t, Selecting, Some msg)
      | Done => (t, Done, None)
      end
  end.

(** Enough for any state: two turns per queued number and three more. *)
Definition processFuel (t : topic) : nat := 2 * length (ch t) + 4.

Definition receive (i : nat) (mb : membroker) : membroker * option (option string * (string * Z)) :=
  match subscribers mb !! i with
  | None => (mb, None)
  | Some (topicName, s) =>
      if closed s then (mb, None)
      else
        let t := topicOf topicName mb in
        let '(t', p', m) := process (processFuel t) t (at_pc s) in
        (mkMembroker (<[topicName := t']> (topics mb))
           (<[i := (topicName, mkSubscriber p' (closed s))]> (subscribers mb)),
         (λ x, (msg_data x, (topicName, msg_seq x))) <$> m)
  end.

Definition closeSubscriber (i : nat) (mb : membroker) : membroker :=
  mkMembroker (topics mb) (alter (λ x, (x.1, Close x.2)) i (subscribers mb)).

(** [topic.Close] does nothing. *)
Definition closePublisher (topicName : string) (mb : membroker) : membroker := mb.

#[export] Instance membroker_Broker : Broker membroker := {|
  Subscriber := nat; Publisher := string; Acker := (string * Z)%type;
  broker_NewSubscriber := NewSubscriber;
  broker_NewPublisher := NewPublisher;
  broker_Publish := publishTo;
  broker_Receive := receive;
  broker_Ack := ackMessage;
  broker_CloseSubscriber := closeSubscriber;
  broker_ClosePublisher := closePublisher;
|}.

End membroker.

Import membroker.

(** ** Interleavings on one topic *)

(** [writer] is the publisher that holds the mutex and waits to send, if any;
    [published] and [acked] record the history. *)
Record world := mkWorld {
  top : topic;
  writer : option Z;
  subs : gmap nat subscriber;
  delivered : gmap nat (list message);
  published : gmap Z (option string);
  acked : gset Z }.

Definition init : world := mkWorld newTopic None ∅ ∅ ∅ ∅.

Definition set_pc (i : nat) (s : subscriber) (p : pc) (w : world) : world :=
  mkWorld (top w) (writer w) (<[i := mkSubscriber p (closed s)]> (subs w))
    (delivered w) (published w) (acked w).

Definition deliver (i : nat) (msg : message) (w : world) : world :=
  mkWorld (top w) (writer w) (subs w)
    (<[i := default [] (delivered w !! i) ++ [msg]]> (delivered w)) (published w) (acked w).

Definition set_top (t : topic) (wr : option Z) (w : world) : world :=
  mkWorld t wr (subs w) (delivered w) (published w) (acked w).

Inductive step : world → world → Prop :=
| step_publish w msg t q :
    writer w = None → storeMessage msg (top w) = (t, q) →
    step w (mkWorld t (Some q) (subs w) (delivered w) (<[q := msg]> (published w)) (acked w))
| step_send w t q :
    writer w = Some q → sendSeq q (top w) = Some t →
    step w (set_top t None w)
| step_ack w i l msg q :
    writer w = None → delivered w !! i = Some l → msg ∈ l → msg_seq msg = q →
    step w (mkWorld (ack q (top w)) None (subs w) (delivered w) (published w) ({[q]} ∪ acked w))
| step_subscribe w i :
    subs w !! i = None →
    step w (mkWorld (top w) (writer w) (<[i := newSubscriber]> (subs w)) (delivered w) (published w) (acked w))
| step_copy w i s pending :
    subs w !! i = Some s → at_pc s = Starting → writer w = None →
    pending ≡ₚ copyOfExisting (top w) →
    step w (set_pc i s (Replaying pending) w)
| step_replay w i s msg rest :
    subs w !! i = Some s → at_pc s = Replaying (msg :: rest) →
    step w (deliver i msg (set_pc i s (Replaying rest) w))
| step_replayed w i s :
    subs w !! i = Some s → at_pc s = Replaying [] →
    step w (set_pc i s Selecting w)
| step_take w i s q rest :
    subs w !! i = Some s → at_pc s = Selecting → ch (top w) = q :: rest →
    step w (set_pc i s (Taken q) (set_top (mkTopic (seq (top w)) rest (messages (top w))) (writer w) w))
| step_lookup w i s q :
    subs w !! i = Some s → at_pc s = Taken q → writer w = None →
    step w (set_pc i s (lookupTaken q (top w)) w)
| step_offer w i s msg :
    subs w !! i = Some s → at_pc s = Offering msg →
    step w (deliver i msg (set_pc i s Selecting w))
| step_timeout w i s msg :
    subs w !! i = Some s → at_pc s = Offering msg →
    step w (set_pc i s Selecting w)
| step_close w i s :
    subs w !! i = Some s →
    step w (mkWorld (top w) (writer w) (<[i := Close s]> (subs w)) (delivered w) (published w) (acked w))
| step_return w i s :
    subs w !! i = Some s → at_pc s = Selecting → closed s = true →
    step w (set_pc i s Done w).

Definition reachable (w : world) : Prop := rtc step init w.

(** ** What holds in every reachable state *)

(** Bounds that keep the [int] counter from wrapping. *)
Definition few (w : world) : Prop := (Z.of_nat (size (published w)) < two63)%Z.

Definition as_published (w : world) (msg : message) : Prop :=
  published w !! msg_seq msg = Some (msg_data msg).

Definition pc_ok (w : world) (p : pc) : Prop :=
  match p with
  | Replaying pending => Forall (as_published w) pending
  | Offering msg => as_published w msg
  | _ => True
  end.

Record inv (w : world) : Prop := {
  inv_seq : seq (top w) = Z.of_nat (size (published w));
  inv_dom : ∀ q, is_Some (published w !! q) → (0 <= q < seq (top w))%Z;
  inv_stored : ∀ q, messages (top w) !! q = if decide (q ∈ acked w) then None else published w !! q;
  inv_acked : ∀ q, q ∈ acked w → ∃ i l msg, delivered w !! i = Some l ∧ msg ∈ l ∧ msg_seq msg = q;
  inv_delivered : ∀ i l, delivered w !! i = Some l → Forall (as_published w) l;
  inv_subs : ∀ i s, subs w !! i = Some s → pc_ok w (at_pc s);
}.

Lemma inv_init : inv init.
Proof. split; simpl; intros; rewrite ?lookup_empty in *; try done; set_solver. Qed.

Lemma stored_as_published w q d :
  inv w → messages (top w) !! q = Some d → published w !! q = Some d.
Proof. intros W. rewrite (inv_stored w W). by case_decide. Qed.

(** Moving a subscriber to a well-formed control point keeps the invariant. *)
Lemma inv_set_pc w i s p : inv w → pc_ok w p → inv (set_pc i s p w).
Proof.
  intros [] Hp. split; simpl; try done. intros j s'. rewrite lookup_insert.
  case_decide; intros; simplify_eq; [done|]. by eapply inv_subs0.
Qed.

Lemma inv_deliver w i msg : inv w → as_published w msg → inv (deliver i msg w).
Proof.
  intros [] Hm. split; simpl; try done.
  - intros q (j & l & m & Hj & Hin & Hq)%inv_acked0. destruct (decide (i = j)) as [<-|].
    + exists i, (l ++ [msg]), m. rewrite lookup_insert_eq, Hj. set_solver.
    + exists j, l, m. by rewrite lookup_insert_ne.
  - intros j l. rewrite lookup_insert. case_decide; intros; simplify_eq; [|by eapply inv_delivered0].
    apply Forall_app; split; [|by constructor]. destruct (delivered w !! j) eqn:E; simpl; [|constructor].
    by eapply inv_delivered0.
Qed.

Lemma step_few w w' : step w w' → few w' → few w.
Proof.
  unfold few. destruct 1; simpl; try done. rewrite map_size_insert.
  destruct (published w !! q); simpl; lia.
Qed.

Lemma fresh_seq w : inv w → published w !! seq (top w) = None.
Proof.
  intros W. destruct (published w !! seq (top w)) eqn:E; [|done].
  pose proof (inv_dom w W (seq (top w))) as H. rewrite E in H. specialize (H ltac:(eauto)). lia.
Qed.

Lemma as_published_mono w w' msg :
  published w ⊆ published w' → as_published w msg → as_published w' msg.
Proof. intros Hs Hm. by eapply lookup_weaken. Qed.

Lemma pc_ok_mono w w' p : published w ⊆ published w' → pc_ok w p → pc_ok w' p.
Proof.
  intros Hs. destruct p; simpl; try done; eauto using as_published_mono.
  intros H. eapply Forall_impl; [exact H|]. eauto using as_published_mono.
Qed.

Lemma inv_publish w msg t q :
  inv w → few (mkWorld t (Some q) (subs w) (delivered w) (<[q := msg]> (published w)) (acked w)) →
  storeMessage msg (top w) = (t, q) →
  published w !! q = None ∧
  inv (mkWorld t (Some q) (subs w) (delivered w) (<[q := msg]> (published w)) (acked w)).
Proof.
  intros W F [= <- <-]. unfold few in F; simpl in F. pose proof (fresh_seq w W) as Hf. split; [done|].
  assert (Hsub : published w ⊆ <[seq (top w) := msg]> (published w)) by (by apply insert_subseteq).
  assert (Hs : wrap_i64 (seq (top w) + 1) = Z.of_nat (S (size (published w)))).
  { pose proof (inv_seq w W). rewrite map_size_insert_None in F by done. rewrite wrap_i64_small; unfold in_i64, two63 in *; lia. }
  pose proof (inv_seq w W) as Hseq. split; simpl.
  - by rewrite map_size_insert_None.
  - intros q. rewrite Hs, lookup_insert. case_decide; [lia|].
    intros Hq%(inv_dom w W). lia.
  - intros q. rewrite !lookup_insert, (inv_stored w W). case_decide as Hq; [|done]. subst q.
    rewrite decide_False; [done|]. intros (i & l & m & Hd & Hin & Hm)%(inv_acked w W).
    pose proof (inv_delivered w W i l Hd) as Hl. rewrite Forall_forall in Hl.
    apply Hl in Hin. unfold as_published in Hin. congruence.
  - apply (inv_acked w W).
  - intros i l Hl%(inv_delivered w W). eapply Forall_impl; [exact Hl|].
    intros. by eapply (as_published_mono w (mkWorld _ _ _ _ _ _)).
  - intros i s Hs'%(inv_subs w W). by eapply (pc_ok_mono w (mkWorld _ _ _ _ _ _)).
Qed.

Lemma inv_ack w i l msg :
  inv w → delivered w !! i = Some l → msg ∈ l →
  inv (mkWorld (ack (msg_seq msg) (top w)) None (subs w) (delivered w) (published w) ({[msg_seq msg]} ∪ acked w)).
Proof.
  intros [] Hd Hin. split; simpl; try done.
  - intros q. rewrite lookup_delete, inv_stored0. repeat case_decide; try done; set_solver.
  - intros q [->%elem_of_singleton|Hq]%elem_of_union; [by exists i, l, msg|by apply inv_acked0].
Qed.

Lemma inv_set_top w t wr :
  inv w → seq t = seq (top w) → messages t = messages (top w) → inv (set_top t wr w).
Proof. intros [] Hs Hm. split; simpl; rewrite ?Hs, ?Hm; done. Qed.

Lemma lookupTaken_ok w q : inv w → pc_ok w (lookupTaken q (top w)).
Proof.
  intros W. unfold lookupTaken. destruct (messages (top w) !! q) as [[data|]|] eqn:E; try done.
  by apply (stored_as_published w q _ W).
Qed.

Lemma copy_ok w pending : inv w → pending ≡ₚ copyOfExisting (top w) → Forall (as_published w) pending.
Proof.
  intros W ->. unfold copyOfExisting. apply Forall_fmap, Forall_forall.
  intros [q d] ?%elem_of_map_to_list. simpl. by apply (stored_as_published w q _ W).
Qed.

Lemma step_inv w w' : step w w' → inv w → few w' → inv w'.
Proof.
  intros Hstep W F. destruct Hstep; simplify_eq/=.
  - eapply inv_publish; [exact W|exact F|eassumption].
  - apply inv_set_top; [done|..]; unfold sendSeq in *; case_decide; by simplify_eq/=.
  - by eapply inv_ack.
  - destruct W; split; simpl; try done. intros j s. rewrite lookup_insert.
    case_decide; intros; simplify_eq/=; [done|eauto].
  - apply inv_set_pc; [done|]. simpl. by apply copy_ok.
  - pose proof (inv_subs w W i s H) as Hp. rewrite H0 in Hp. simpl in Hp. apply Forall_cons in Hp as [? ?].
    apply inv_deliver; [|done]. by apply inv_set_pc.
  - by apply inv_set_pc.
  - apply inv_set_pc; [|done]. by apply inv_set_top.
  - apply inv_set_pc; [done|]. by apply lookupTaken_ok.
  - pose proof (inv_subs w W i s H) as Hp. rewrite H0 in Hp. simpl in Hp.
    apply inv_deliver; [|done]. by apply inv_set_pc.
  - by apply inv_set_pc.
  - pose proof (inv_subs w W i s H) as Hp. destruct W; split; simpl; try done.
    intros j s'. rewrite lookup_insert. case_decide; intros; simplify_eq/=; [done|eauto].
  - by apply inv_set_pc.
Qed.

Lemma reachable_inv w : reachable w → few w → inv w.
Proof.
  intros Hr. refine (rtc_ind_r (λ w, few w → inv w) init _ _ w Hr); [intros _; apply inv_init|].
  intros w1 w2 _ Hs IH F. eapply step_inv; [done| |done]. apply IH. by eapply step_few.
Qed.

(** C16: no message is lost.  In every reachable state (fewer than [2^63]
    messages published) each published message is either still stored, and then
    a subscriber that starts now is sent it, or it was delivered to a
    subscriber and acknowledged. *)
Theorem membroker_no_loss (w : world) (q : Z) (data : option string) :
  reachable w → few w → published w !! q = Some data →
  (messages (top w) !! q = Some data ∧
   ∀ pending, pending ≡ₚ copyOfExisting (top w) → mkMessage q data ∈ pending) ∨
  (q ∈ acked w ∧ ∃ i l, delivered w !! i = Some l ∧ mkMessage q data ∈ l).
Proof.
  intros Hr F Hq. pose proof (reachable_inv w Hr F) as W.
  destruct (decide (q ∈ acked w)) as [Ha|Ha].
  - right. split; [done|]. destruct (inv_acked w W q Ha) as (i & l & [q' d'] & Hd & Hin & ?).
    simplify_eq/=. exists i, l. split; [done|].
    pose proof (inv_delivered w W i l Hd) as Hl. rewrite Forall_forall in Hl.
    pose proof (Hl _ Hin) as Hp. unfold as_published in Hp; simpl in Hp. congruence.
  - left. assert (Hm : messages (top w) !! q = Some data) by (by rewrite (inv_stored w W), decide_False).
    split; [done|]. intros pending ->. apply list_elem_of_fmap. exists (q, data).
    by rewrite elem_of_map_to_list.
Qed.

(** C23: integrity of delivery.  Whatever a subscriber receives was published,
    under the sequence number its acker will acknowledge and with the same
    data. *)
Theorem membroker_integrity (w : world) (i : nat) (l : list message) (msg : message) :
  reachable w → few w → delivered w !! i = Some l → msg ∈ l →
  published w !! msg_seq msg = Some (msg_data msg).
Proof.
  intros Hr F Hd Hin. pose proof (inv_delivered w (reachable_inv w Hr F) i l Hd) as Hl.
  rewrite Forall_forall in Hl. by apply Hl.
Qed.

(** ** A full topic without a running subscriber *)

(** A publisher waits to send on the full channel, holding the mutex, and every
    subscriber is still before its first locked section. *)
Definition jammed (w : world) : Prop :=
  writer w ≠ None ∧ (chCapacity <= Z.of_nat (length (ch (top w))))%Z ∧
  ∀ i s, subs w !! i = Some s → at_pc s = Starting.

Lemma jammed_step w w' :
  step w w' → jammed w →
  jammed w' ∧ top w' = top w ∧ delivered w' = delivered w ∧ published w' = published w ∧ acked w' = acked w.
Proof.
  intros Hs (Hw & Hc & Hsubs).
  destruct Hs; try congruence;
    try (match goal with H : subs _ !! _ = Some _ |- _ => pose proof (Hsubs _ _ H) end; congruence).
  - unfold sendSeq in *. case_decide; [lia|done].
  - split; [|done]. split; [done|]. split; [done|]. simpl. intros j s. rewrite lookup_insert.
    case_decide; intros; simplify_eq/=; eauto.
  - split; [|done]. split; [done|]. split; [done|]. simpl. intros j s'. rewrite lookup_insert.
    case_decide; intros; simplify_eq/=; eauto.
Qed.

(** [n] publications with nobody listening. *)
Lemma publish_many n :
  (Z.of_nat n <= chCapacity)%Z →
  ∃ w, reachable w ∧ writer w = None ∧ subs w = ∅ ∧ delivered w = ∅ ∧
       seq (top w) = Z.of_nat n ∧ length (ch (top w)) = n ∧ size (published w) = n.
Proof.
  induction n as [|n IH]; intros Hn.
  { exists init. split; [apply rtc_refl|done]. }
  destruct IH as (w & Hr & Hw & Hsub & Hdel & Hs & Hl & Hsz); [lia|].
  assert (F : few w) by (unfold few, two63, chCapacity in *; lia).
  pose proof (reachable_inv w Hr F) as W.
  pose proof (fresh_seq w W) as Hf.
  set (t1 := (storeMessage None (top w)).1). set (q := seq (top w)).
  set (w1 := mkWorld t1 (Some q) (subs w) (delivered w) (<[q := None]> (published w)) (acked w)).
  assert (S1 : step w w1) by (by apply step_publish).
  assert (S2 : sendSeq q t1 = Some (mkTopic (seq t1) (ch t1 ++ [q]) (messages t1))).
  { unfold sendSeq. rewrite decide_True; [done|]. simpl. lia. }
  eexists (set_top _ None w1). split.
  { eapply rtc_r; [eapply rtc_r; [exact Hr|exact S1]|]. by eapply step_send. }
  simpl. repeat split; try done.
  - rewrite Hs, wrap_i64_small; unfold in_i64, two63, chCapacity in *; lia.
  - rewrite length_app; simpl. lia.
  - rewrite map_size_insert_None; [lia|done].
Qed.

(** A topic that nobody reads jams for good.  After 10001 publications
    without a subscriber the last publisher waits for room in the channel while
    it holds the topic's mutex; every subscriber that comes later waits for the
    mutex before it reads, so from then on no message is ever delivered,
    published or acknowledged on the topic. *)
Theorem membroker_topic_jams :
  ∃ w, reachable w ∧ Z.of_nat (size (published w)) = (chCapacity + 1)%Z ∧
    ∀ w', rtc step w w' → top w' = top w ∧ published w' = published w ∧ delivered w' = ∅.
Proof.
  destruct (publish_many (Z.to_nat chCapacity)) as (w & Hr & Hw & Hsub & Hdel & Hs & Hl & Hsz);
    [unfold chCapacity; lia|].
  assert (F : few w) by (unfold few, two63, chCapacity in *; lia).
  pose proof (fresh_seq w (reachable_inv w Hr F)) as Hf.
  set (t1 := (storeMessage None (top w)).1). set (q := seq (top w)).
  set (w1 := mkWorld t1 (Some q) (subs w) (delivered w) (<[q := None]> (published w)) (acked w)).
  assert (J : jammed w1).
  { split; [done|]. split; [simpl; rewrite Hl; unfold chCapacity; lia|]. simpl. rewrite Hsub. intros i s. by rewrite lookup_empty. }
  exists w1. split; [eapply rtc_r; [exact Hr|by apply step_publish]|].
  split; [simpl; rewrite map_size_insert_None; [rewrite Hsz; unfold chCapacity; lia|done]|].
  intros w' Hr'.
  enough (jammed w' ∧ top w' = top w1 ∧ published w' = published w1 ∧ delivered w' = ∅) by tauto.
  refine (rtc_ind_r (λ w', jammed w' ∧ top w' = top w1 ∧ published w' = published w1 ∧ delivered w' = ∅)
            w1 _ _ w' Hr'); [done|].
  intros x y _ Hxy (Jx & H1 & H2 & H3). apply (jammed_step x y Hxy) in Jx as (? & ? & ? & ? & ?).
  split_and!; congruence.
Qed.

(** ** The sequential reading *)

(** [process] never waits in vain: run with [processFuel] it stops either
    with a message for the consumer, or because the subscriber has returned, or
    at the [select] with nothing left in the channel. *)
Theorem process_progress (t t' : topic) (p p' : pc) (m : option message) :
  process (processFuel t) t p = (t', p', m) →
  is_Some m ∨ p' = Done ∨ (p' = Selecting ∧ ch t' = []).
Proof.
  assert (Hgo : ∀ fuel t p, 2 * length (ch t) + match p with
      | Starting => 4 | Replaying _ => 3 | Taken _ => 3 | Selecting | Offering _ | Done => 2 end <= fuel →
      process fuel t p = (t', p', m) → is_Some m ∨ p' = Done ∨ (p' = Selecting ∧ ch t' = [])).
  { induction fuel as [|fuel IH]; intros t1 p1 Hf Hp; [destruct p1; lia|].
    destruct p1 as [|[|msg rest]| |q|msg|]; simpl in Hp; cbn [Nat.add] in Hf; simplify_eq; eauto.
    - eapply IH; [|exact Hp]. cbn iota; lia.
    - eapply IH; [|exact Hp]. cbn iota; lia.
    - destruct (ch t1) as [|q rest] eqn:E; simplify_eq; [by eauto|].
      eapply IH; [|exact Hp]. simpl in *. lia.
    - eapply IH; [|exact Hp]. unfold lookupTaken. destruct (messages t1 !! q) as [[]|]; cbn iota; lia. }
  apply Hgo. unfold processFuel. destruct p; lia.
Qed.

Definition stored (mb : membroker) (t : string) : list (option string) :=
  (map_to_list (messages (topicOf t mb))).*2.

Lemma getOrCreateTopic_topicOf n mb t : topicOf t (getOrCreateTopic n mb).1 = topicOf t mb.
Proof.
  unfold getOrCreateTopic, topicOf. destruct (topics mb !! n) eqn:E; [done|]. simpl.
  rewrite lookup_insert. case_decide; subst; [by rewrite E|done].
Qed.

Lemma getOrCreateTopic_subscribers n mb : subscribers (getOrCreateTopic n mb).1 = subscribers mb.
Proof. unfold getOrCreateTopic. by destruct (topics mb !! n). Qed.

(** Reading from a subscriber only moves the channel. *)
Lemma process_same fuel t p t' p' m :
  process fuel t p = (t', p', m) → seq t' = seq t ∧ messages t' = messages t.
Proof.
  revert t p; induction fuel as [|fuel IH]; intros t p H; [by simplify_eq/=|].
  destruct p as [|[|msg rest]| |q|msg|]; simpl in H; simplify_eq; try done; try by apply IH in H.
  destruct (ch t); simplify_eq; [done|]. by apply IH in H.
Qed.

Lemma topicOf_setTopic n t mb t' :
  topicOf t' (setTopic n t mb) = if decide (t' = n) then t else topicOf t' mb.
Proof.
  unfold topicOf, setTopic; simpl. rewrite lookup_insert. by repeat case_decide; subst.
Qed.

Lemma receive_same i mb mb' r t :
  receive i mb = (mb', r) →
  seq (topicOf t mb') = seq (topicOf t mb) ∧ messages (topicOf t mb') = messages (topicOf t mb).
Proof.
  unfold receive. destruct (subscribers mb !! i) as [[n s]|]; [|by intros [= <- _]].
  destruct (closed s); [by intros [= <- _]|].
  destruct (process _ _ _) as [[t1 p1] m] eqn:E. intros [= <- _].
  pose proof (topicOf_setTopic n t1 mb t) as Ht. unfold topicOf, setTopic in Ht; simpl in Ht.
  unfold topicOf at 1 3; simpl. rewrite Ht. case_decide; [|done]. subst. by apply process_same in E.
Qed.

Definition target (mb : membroker) (a : string * Z) : option (option string) :=
  messages (topicOf a.1 mb) !! a.2.

(** What a subscriber's goroutine has in hand. *)
Definition holding (p : pc) : list message :=
  match p with Replaying pending => pending | Offering msg => [msg] | _ => [] end.

(** A number the topic has given out, whose message is this one or is gone. *)
Definition given (t : topic) (q : Z) (x : option string) : Prop :=
  (q < seq t)%Z ∧ ∀ y, messages t !! q = Some y → y = x.

Definition mb_issued (mb : membroker) (a : string * Z) (x : option string) : Prop :=
  given (topicOf a.1 mb) a.2 x.

Definition mb_transit (mb : membroker) (t : string) (x : option string) : Prop :=
  x ∈ stored mb t ∨
  ∃ i s m, subscribers mb !! i = Some (t, s) ∧ m ∈ holding (at_pc s) ∧ msg_data m = x.

(** The counters can count [n] more messages, stored messages were counted, and
    subscribers hold messages that were given out. *)
Record mb_room (n : nat) (mb : membroker) : Prop := {
  room_seq : ∀ t, (0 <= seq (topicOf t mb) ∧ seq (topicOf t mb) + Z.of_nat n < two63)%Z;
  room_keys : ∀ t q, is_Some (messages (topicOf t mb) !! q) → (q < seq (topicOf t mb))%Z;
  room_subs : ∀ i t s m, subscribers mb !! i = Some (t, s) → m ∈ holding (at_pc s) →
    given (topicOf t mb) (msg_seq m) (msg_data m) }.

#[export] Instance membroker_view : BrokerView membroker := {|
  pub_topic := λ p : @Publisher membroker _, p : string;
  ack_topic := λ a : @Acker membroker _, fst (a : string * Z);
  backlog := stored;
  ack_target := target;
  sub_topic := λ mb (i : @Subscriber membroker _), fst <$> subscribers mb !! (i : nat);
  issued := mb_issued;
  in_transit := mb_transit;
  broker_room := mb_room;
|}.

Lemma New_room n : (Z.of_nat n < two63)%Z → mb_room n New.
Proof.
  intros Hn. split; [intros t|intros t q|by intros i t s m]; unfold topicOf, New; simpl; rewrite lookup_empty; simpl; [lia|].
  rewrite lookup_empty. by intros [? ?].
Qed.

Lemma New_no_transit t x : ¬ mb_transit New t x.
Proof.
  intros [H|(i & s & m & H & _)]; [|done].
  unfold stored, topicOf, New in H. simpl in H. rewrite lookup_empty in H. simpl in H.
  rewrite map_to_list_empty in H. by apply elem_of_nil in H.
Qed.

(** Calls that leave every topic's counter and messages alone, and let the
    subscribers hold nothing but what they held or what is stored. *)
Lemma quiet_intro mb mb' :
  (∀ t, seq (topicOf t mb') = seq (topicOf t mb) ∧ messages (topicOf t mb') = messages (topicOf t mb)) →
  (∀ i t s, subscribers mb !! i = Some (t, s) → fst <$> subscribers mb' !! i = Some t) →
  (∀ i t s m, subscribers mb' !! i = Some (t, s) → m ∈ holding (at_pc s) →
     (∃ s0, subscribers mb !! i = Some (t, s0) ∧ m ∈ holding (at_pc s0)) ∨
     messages (topicOf t mb) !! msg_seq m = Some (msg_data m)) →
  quiet mb mb'.
Proof.
  intros Ht Hs Hh. split; [split|split].
  - intros t. unfold backlog; simpl. unfold stored. by destruct (Ht t) as [_ ->].
  - intros [t q]. unfold ack_target; simpl. unfold target. simpl. by destruct (Ht t) as [_ ->].
  - intros i t. unfold sub_topic; simpl. intros ([t0 s] & E & ->)%fmap_Some. by eapply Hs.
  - intros [t q] x. unfold issued; simpl. unfold mb_issued, given; simpl. by destruct (Ht t) as [-> ->].
  - intros t x. unfold in_transit; simpl. unfold mb_transit, stored. destruct (Ht t) as [_ ->].
    intros [?|(i & s & m & Hi & Hm & <-)]; [by left|].
    destruct (Hh _ _ _ _ Hi Hm) as [(s0 & ? & ?)|Hst]; [right; eauto 10|left].
    apply list_elem_of_fmap. exists (msg_seq m, msg_data m). split; [done|]. by apply elem_of_map_to_list.
  - intros n [Hq Hk Hg]. split.
    + intros t. destruct (Ht t) as [-> _]. apply Hq.
    + intros t q. destruct (Ht t) as [-> ->]. apply Hk.
    + intros i t s m Hi Hm. unfold given. destruct (Ht t) as [-> ->].
      destruct (Hh _ _ _ _ Hi Hm) as [(s0 & Hi0 & Hm0)|Hst]; [by eapply Hg|].
      split; [apply Hk; eauto|congruence].
Qed.

(** A subscriber that runs holds, and gives out, what it held or what is stored. *)
Lemma process_holding fuel t p t' p' m x :
  process fuel t p = (t', p', m) → x ∈ holding p' ++ option_list m →
  x ∈ holding p ∨ messages t !! msg_seq x = Some (msg_data x).
Proof.
  revert t p; induction fuel as [|fuel IH]; intros t p H; simpl in H.
  { simplify_eq/=. rewrite app_nil_r. by left. }
  destruct p as [|[|msg rest]| |q|msg|]; simpl in H; simplify_eq/=; rewrite ?app_nil_r.
  - intros Hx. destruct (IH _ _ H Hx) as [Hc|?]; [|by right]. right. simpl in Hc. unfold copyOfExisting in Hc.
    apply list_elem_of_fmap in Hc as ([q d] & -> & Hq). by apply elem_of_map_to_list in Hq.
  - apply (IH _ _ H).
  - intros Hx. left. set_solver.
  - destruct (ch t) as [|q rest]; simplify_eq/=; [by left|]. apply (IH _ _ H).
  - intros Hx. destruct (IH _ _ H Hx) as [Hc|?]; [|by right]. unfold lookupTaken in Hc.
    destruct (messages t !! q) as [[d|]|] eqn:E; simpl in Hc; [|by apply elem_of_nil in Hc..].
    apply list_elem_of_singleton in Hc as ->. by right.
  - by left.
  - by left.
Qed.

Lemma receive_quiet i mb mb' r :
  receive i mb = (mb', r) →
  quiet mb mb' ∧ ∀ t x a, sub_topic mb i = Some t → r = Some (x, a) → mb_room 0 mb →
    a.1 = t ∧ mb_transit mb t x ∧ mb_issued mb' a x.
Proof.
  intros H. pose proof (λ t, receive_same _ _ _ _ t H) as Hs. unfold receive in H. unfold sub_topic; simpl.
  destruct (subscribers mb !! i) as [[n s]|] eqn:Ei; [|simplify_eq; split; [done|by intros ??? [=]]].
  destruct (closed s); [simplify_eq; split; [done|by intros ??? _ [=]]|].
  destruct (process _ _ _) as [[t1 p1] m] eqn:E.
  pose proof (λ x, process_holding _ _ _ _ _ _ x E) as Hh. simplify_eq. split.
  - apply quiet_intro; [done|..]; simpl; intros j t s'.
    + intros Hj. destruct (decide (i = j)) as [->|]; [|by rewrite list_lookup_insert_ne, Hj].
      rewrite list_lookup_insert_eq by (by eapply lookup_lt_Some). by simplify_eq.
    + intros x Hj Hx. destruct (decide (i = j)) as [->|]; [|rewrite list_lookup_insert_ne in Hj by done; eauto].
      rewrite list_lookup_insert_eq in Hj by (by eapply lookup_lt_Some). simplify_eq/=.
      destruct (Hh x) as [?|?]; [set_solver|eauto|eauto].
  - intros t x [t2 q] [= <-] Hm R. destruct m as [msg|]; simplify_eq/=. destruct (Hs t2) as [Hq Hmsg].
    assert (Hst : msg ∈ holding (at_pc s) ∨ messages (topicOf t2 mb) !! msg_seq msg = Some (msg_data msg))
      by (apply Hh; set_solver).
    split; [done|]. split.
    + destruct Hst as [?|Hst]; [right; eauto 10|left]. apply list_elem_of_fmap.
      exists (msg_seq msg, msg_data msg). split; [done|]. by apply elem_of_map_to_list.
    + unfold mb_issued, given. cbn [fst snd]. rewrite Hq, Hmsg.
      destruct Hst as [Hin|Hst]; [by eapply (room_subs _ _ R)|].
      split; [apply (room_keys _ _ R); eauto|congruence].
Qed.

(** Publishing. *)
Lemma given_publish mb p x t q y :
  given (topicOf t mb) q y → mb_room 1 mb →
  given (topicOf t (setTopic p (mkTopic (wrap_i64 (seq (topicOf p mb) + 1)) (ch (topicOf p mb) ++ [seq (topicOf p mb)])
    (<[seq (topicOf p mb) := x]> (messages (topicOf p mb)))) mb)) q y.
Proof.
  intros [Hq Hy] R. rewrite topicOf_setTopic. case_decide as Ht; subst; [|done]. unfold given; simpl.
  pose proof (room_seq _ _ R p). rewrite wrap_i64_small by (unfold in_i64, two63 in *; lia).
  split; [lia|]. intros z. rewrite lookup_insert_ne by lia. apply Hy.
Qed.

Lemma room_weaken m n mb : mb_room m mb → n <= m → mb_room n mb.
Proof. intros [Hs ? ?] ?. split; [|done..]. intros t. specialize (Hs t). lia. Qed.

Lemma publish_on p x mb mb' e :
  publishTo p x mb = Ret (mb', e) → e = None ∧ published_on (B:=membroker) p x mb mb'.
Proof.
  unfold publishTo, Publish; simpl. unfold sendSeq. case_decide; simpl; [|done].
  intros [= <- <-]. split; [done|]. split; simpl.
  - done.
  - intros R [t q] y Hg. unfold issued in *; simpl in *. unfold mb_issued in *. by apply given_publish.
  - intros t y [Hst|(i & s & m & Hi & Hm & <-)]; [|left; right; eauto 10].
    unfold stored in Hst. rewrite topicOf_setTopic in Hst. case_decide; subst; [|by left; left].
    simpl in Hst. apply list_elem_of_fmap in Hst as ([q d] & -> & Hq).
    apply elem_of_map_to_list in Hq. rewrite lookup_insert in Hq. case_decide; simplify_eq; [by right|].
    left; left. apply list_elem_of_fmap. exists (q, d). split; [done|]. by apply elem_of_map_to_list.
  - intros n R. pose proof (room_seq _ _ R p) as Hp. split; simpl.
    + intros t. rewrite topicOf_setTopic. case_decide; subst; simpl; [|pose proof (room_seq _ _ R t); lia].
      rewrite wrap_i64_small by (unfold in_i64, two63 in *; lia). lia.
    + intros t q. rewrite topicOf_setTopic. case_decide; subst; simpl; [|apply (room_keys _ _ R)].
      rewrite wrap_i64_small by (unfold in_i64, two63 in *; lia). rewrite lookup_insert.
      case_decide; [lia|]. intros Hq%(room_keys _ _ R). lia.
    + intros i t s m Hi Hm. apply given_publish; [by eapply (room_subs _ _ R)|].
      eapply room_weaken; [exact R|lia].
Qed.

Lemma fresh_key n mb t : mb_room n mb → messages (topicOf t mb) !! seq (topicOf t mb) = None.
Proof.
  intros R. apply eq_None_not_Some. intros H%(room_keys _ _ R). lia.
Qed.

Lemma ack_steady a mb : steady mb (setTopic a.1 (ack a.2 (topicOf a.1 mb)) mb).
Proof.
  assert (Ht : ∀ t, seq (topicOf t (setTopic a.1 (ack a.2 (topicOf a.1 mb)) mb)) = seq (topicOf t mb) ∧
    messages (topicOf t (setTopic a.1 (ack a.2 (topicOf a.1 mb)) mb)) ⊆ messages (topicOf t mb)).
  { intros t. rewrite topicOf_setTopic. case_decide; subst; simpl; [|done]. split; [done|]. apply delete_subseteq. }
  assert (Hg : ∀ t q x, given (topicOf t mb) q x → given (topicOf t (setTopic a.1 (ack a.2 (topicOf a.1 mb)) mb)) q x).
  { intros t q x [Hq Hy]. destruct (Ht t) as [Hs Hm]. unfold given. rewrite Hs. split; [done|].
    intros y H. apply Hy. by eapply lookup_weaken. }
  split; simpl.
  - done.
  - intros [t q] x. apply Hg.
  - intros t x [Hst|H]; [|by right]. left. unfold stored in *.
    apply list_elem_of_fmap in Hst as ([q d] & -> & Hq). apply list_elem_of_fmap. exists (q, d).
    split; [done|]. apply elem_of_map_to_list in Hq. apply elem_of_map_to_list.
    eapply lookup_weaken; [exact Hq|]. apply Ht.
  - intros n [Hq Hk Hh]. split.
    + intros t. destruct (Ht t) as [-> _]. apply Hq.
    + intros t q [d Hd]. destruct (Ht t) as [-> Hm]. apply Hk. exists d. by eapply lookup_weaken.
    + intros i t s m Hi Hm. apply Hg. by eapply Hh.
Qed.

#[export] Instance membroker_laws : BrokerLaws membroker.
Proof.
  refine {| broker_view := membroker_view |}.
  - intros n b R. eapply room_weaken; [exact R|lia].
  - intros b t x H. by left.
  - intros b [t q] x y [_ H]. apply H.
  - intros t b b' res W. unfold broker_NewPublisher; simpl. unfold NewPublisher.
    pose proof (getOrCreateTopic_topicOf t b) as Ht. pose proof (getOrCreateTopic_subscribers t b) as Hs.
    destruct (getOrCreateTopic t b) as [mb' t0]. intros [= <- <-]. simpl in Ht, Hs. split.
    + apply quiet_intro; [intros t'; by rewrite Ht|intros i t' s Hi; by rewrite Hs, Hi|]. rewrite Hs. eauto.
    + by intros p [= <-].
  - done.
  - intros t b b' res W. unfold broker_NewSubscriber; simpl. unfold NewSubscriber.
    pose proof (getOrCreateTopic_topicOf t b) as Ht. pose proof (getOrCreateTopic_subscribers t b) as Hs.
    destruct (getOrCreateTopic t b) as [mb' t0]. intros [= <- <-]. simpl in Ht, Hs. rewrite Hs. split.
    + apply quiet_intro; simpl; [intros t'; unfold topicOf in *; simpl; by rewrite Ht|..]; intros i t' s.
      * intros Hi. by rewrite lookup_app_l, Hi by (by eapply lookup_lt_Some).
      * intros m [Hi|[_ Hi]]%lookup_app_Some Hm; [eauto|].
        apply list_lookup_singleton_Some in Hi as [_ [= <- <-]]. simpl in Hm. by apply elem_of_nil in Hm.
    + intros s [= <-]. unfold sub_topic; simpl. by rewrite lookup_app_r, Nat.sub_diag by done.
  - intros i b W. apply quiet_intro; simpl; [done|..]; intros j t s.
    + intros Hj. unfold closeSubscriber; simpl. destruct (decide (i = j)) as [->|];
        [by rewrite list_lookup_alter_eq, Hj|by rewrite list_lookup_alter_ne, Hj].
    + intros m Hj Hm. unfold closeSubscriber in Hj; simpl in Hj. destruct (decide (i = j)) as [->|];
        [|rewrite list_lookup_alter_ne in Hj by done; eauto].
      rewrite list_lookup_alter_eq in Hj. destruct (subscribers b !! j) as [[t0 s0]|] eqn:E; simplify_eq/=. eauto.
  - intros i b b' r W H. destruct (receive_quiet _ _ _ _ H) as [Hq Hr]. split; [done|].
    intros t x a Hs Hx. by apply Hr.
  - intros p x b b' e W H. destruct (publish_on _ _ _ _ _ H) as [-> Hp]. split_and!; [| |done].
    + intros t. unfold backlog; simpl. unfold stored. revert H. unfold broker_Publish; simpl.
      unfold publishTo, Publish; simpl. unfold sendSeq. case_decide; simpl; [|done]. intros [= <-].
      rewrite topicOf_setTopic. case_decide; subst; simpl; [|done].
      rewrite map_to_list_insert by (by eapply fresh_key). done.
    + intros [t q] y [Hq _]. unfold ack_target; simpl. unfold target; simpl. revert H. unfold broker_Publish; simpl.
      unfold publishTo, Publish; simpl. unfold sendSeq. case_decide; simpl; [|done]. intros [= <-].
      rewrite topicOf_setTopic. case_decide; subst; simpl; [|done]. by rewrite lookup_insert_ne by (simpl in Hq; lia).
  - intros [n q] b b' e [= <- <-]. split; [apply (ack_steady (n, q))|]. intros t.
    unfold backlog, ack_target; simpl. unfold stored, target. rewrite topicOf_setTopic. simpl.
    case_decide; subst; simpl; [|done]. destruct (messages (topicOf n b) !! q) as [x|] eqn:E; simpl.
    + rewrite <- (map_to_list_delete _ _ _ E). done.
    + by rewrite delete_id.
Defined.

(** ** A concrete run: one message published and delivered to one subscriber *)

Definition run_topic : topic := mkTopic 1 [0%Z] {[0%Z := Some "hello"]}.

Definition run_world : world :=
  mkWorld run_topic None {[0 := mkSubscriber (Replaying []) false]}
    {[0 := [mkMessage 0 (Some "hello")]]} {[0%Z := Some "hello"]} ∅.

Lemma run_world_reachable : reachable run_world.
Proof.
  eapply rtc_l; [by apply (step_publish init (Some "hello"))|].
  eapply rtc_l; [by eapply step_send|].
  eapply rtc_l; [by apply (step_subscribe _ 0)|].
  eapply rtc_l; [eapply (step_copy _ 0 _ [mkMessage 0 (Some "hello")]); [done..|]; vm_compute; done|].
  eapply rtc_l; [by eapply (step_replay _ 0)|].
  vm_compute. apply rtc_refl.
Qed.

Lemma membroker_no_loss_witness :
  messages (top run_world) !! 0%Z = Some (Some "hello") ∨ 0%Z ∈ acked run_world.
Proof.
  destruct (membroker_no_loss run_world 0 (Some "hello") run_world_reachable) as [[H _]|[H _]];
    [done|done|by left|by right].
Defined.

Lemma membroker_integrity_witness : published run_world !! 0%Z = Some (Some "hello").
Proof.
  apply (membroker_integrity run_world 0 [mkMessage 0 (Some "hello")] (mkMessage 0 (Some "hello"))
           run_world_reachable); [done|done|apply list_elem_of_here].
Defined.

Lemma process_progress_witness :
  process (processFuel run_topic) run_topic Starting
    = (run_topic, Replaying [], Some (mkMessage 0 (Some "hello"))) ∧
  (is_Some (Some (mkMessage 0 (Some "hello"))) ∨ Replaying [] = Done ∨ (Replaying [] = Selecting ∧ ch run_topic = [])).
Proof.
  split; [vm_compute; reflexivity|].
  apply (process_progress run_topic run_topic Starting). vm_compute. reflexivity.
Defined.
