(* ===== verification/RedisBroker.v ===== *)
(** * RedisBroker: the broker on Redis streams (broker/redisbroker)

    Message ids ("offsets") are strings "<ms>-<seq>".  The Redis server is a
    parameter, the class [RedisStreams]; ack.lua, which the server runs, is
    translated.  The module [redisbroker] has the code; [RedisBrokerProps] the
    goroutines as a transition system and the theorems. *)

From S2P Require Import Prelude Text Model.

(** ** The Redis commands the broker uses

    An entry of a stream has an id and, if it was written by the broker, a field
    "data".  A [Get] of a missing key ([redis.Nil]) is [None]; reading streams
    that have nothing new is an empty list.  A script is given as what it does to
    its key: from the value of the key to the value to set, if any.  Pipelines
    run their commands in order and return the first error. *)
Class RedisStreams (R : Type) : Type := {
  redis_XAdd : string → string → R → R * option goerror;
  redis_XRead : list string → R → R * result (list (string * list (string * option string)));
  redis_Get : string → R → R * result (option string);
  redis_EvalShaAll : list (string * (option string → option string)) → R → R * option goerror;
  redis_Keys : string → R → R * result (list string);
  redis_MGet : list string → R → R * result (list (option string));
  redis_XTrimMinIDAll : list (string * string) → R → R * option goerror;
  redis_XTrimAll : list (string * Z) → R → R * option goerror;
}.

Module redisbroker.

Definition emptyOffset : string := "".
Definition minOffset : string := "0".

Definition streamName (topicName : string) : string := ("topic:{" +:+ topicName +:+ "}")%string.
Definition offsetName (stream : string) : string := ("offset:" +:+ stream)%string.

(** [aParts[0]] cannot fail: Split returns at least one part. *)
Definition part0 (parts : list string) : string := default "" (parts !! 0).
Definition part1 (parts : list string) : string := default "" (parts !! 1).

Definition offsetLessThan (a b : string) : bool :=
  let aParts := str_split "-" a in
  let bParts := str_split "-" b in
  if String.ltb (part0 aParts) (part0 bParts) then true
  else if decide (length aParts = 1 ∨ length bParts = 1) then false
  else
    let aSeq := (atoi (part1 aParts)).1 in
    let bSeq := (atoi (part1 bParts)).1 in
    bool_decide (aSeq < bSeq)%Z.

(** ** ack.lua *)

(** [string.gmatch(s, "[^-]+")]: the non-empty parts. *)
Definition luaParts (s : string) : list string := filter (λ p, p ≠ "") (str_split "-" s).

(** [a > b] for optional strings; comparing nil raises an error, which leaves
    the key as it is. *)
Definition luaGreater (a b : option string) : option bool :=
  match a, b with
  | Some x, Some y => Some (String.ltb y x)
  | _, _ => None
  end.

(** The value the script sets, if any, given the old value of the key. *)
Definition ackScript (newOffset : string) (oldOffset : option string) : option string :=
  match oldOffset with
  | None => Some newOffset
  | Some old =>
      let newParts := luaParts newOffset in
      let oldParts := luaParts old in
      match luaGreater (newParts !! 0) (oldParts !! 0) with
      | Some true => Some newOffset
      | Some false =>
          if decide (newParts !! 0 = oldParts !! 0)
          then match luaGreater (newParts !! 1) (oldParts !! 1) with
               | Some true => Some newOffset
               | _ => None
               end
          else None
      | None => None
      end
  end.

(** ** Subscribers *)

(** A delivered message: its id and its data. *)
Record message := mkMessage { msg_offset : string; msg_data : string }.

(** [out] collects what was put on [messagesOut]. *)
Record subscriber := mkSubscriber { stream : string; offset : string; out : list message }.

(** The body of the loop over a batch in [process]. *)
Definition processMsg (sub : subscriber) (msg : message) : subscriber :=
  if offsetLessThan (offset sub) (msg_offset msg)
  then mkSubscriber (stream sub) (msg_offset msg) (out sub ++ [msg])
  else sub.

Definition processBatch (sub : subscriber) (msgs : list message) : subscriber :=
  foldl processMsg sub msgs.

(** ** Reading *)

(** The loop over the subscribers of a stream in [gatherStreamsWithOffsets]. *)
Definition lowerOf (lowestOffset offset : string) : string :=
  if decide (lowestOffset = emptyOffset) then offset
  else if offsetLessThan offset lowestOffset then offset else lowestOffset.

Definition lowestOffset (offsets : list string) : string := foldl lowerOf emptyOffset offsets.

(** The arguments of XREAD: all streams, then all offsets. *)
Definition gatherStreamsWithOffsets (subscribersByStream : list (string * list subscriber)) : list string :=
  (subscribersByStream.*1 ++ ((λ x, lowestOffset (offset <$> x.2)) <$> subscribersByStream)).

(** [msg.Values["data"].(string)] panics if the field is missing. *)
Definition toMessage (entry : string * option string) : outcome message :=
  data ← deref entry.2; Ret (mkMessage entry.1 data).

Fixpoint toMessages (entries : list (string * option string)) : outcome (list message) :=
  match entries with
  | [] => Ret []
  | x :: rest => m ← toMessage x; ms ← toMessages rest; Ret (m :: ms)
  end.

Section redis.
Context {R : Type} {RS : RedisStreams R}.

(** The streams read, each with what is sent to every subscriber of it. *)
Definition readStreams (subscribersByStream : list (string * list subscriber)) (r : R)
    : outcome (R * list (string * list message)) :=
  let streamsWithOffsets := gatherStreamsWithOffsets subscribersByStream in
  if decide (streamsWithOffsets = []) then Ret (r, [])
  else
    match redis_XRead streamsWithOffsets r with
    | (r', Err _) => Ret (r', [])
    | (r', Ok streams) =>
        batches ← foldr (λ x acc, ms ← toMessages x.2; l ← acc; Ret ((x.1, ms) :: l)) (Ret []) streams;
        Ret (r', batches)
    end.

Definition NewSubscriber (topicName : string) (r : R) : R * result subscriber :=
  let stream := streamName topicName in
  match redis_Get (offsetName stream) r with
  | (r', Err err) => (r', Err err)
  | (r', Ok None) => (r', Ok (mkSubscriber stream minOffset []))
  | (r', Ok (Some offset)) => (r', Ok (mkSubscriber stream offset []))
  end.

(** [Publish] of the publisher of a topic. *)
Definition Publish (topicName : string) (data : option string) (r : R) : R * option goerror :=
  redis_XAdd (streamName topicName) (default "" data) r.

(** ** Acknowledgements *)

Record ack := mkAck { ack_stream : string; ack_offset : string }.

Definition higherOf (highestOffset : string) (a : ack) : string :=
  if decide (highestOffset = emptyOffset ∨ offsetLessThan highestOffset (ack_offset a) = true)
  then ack_offset a else highestOffset.

Definition highestOffset (acks : list ack) : string := foldl higherOf emptyOffset acks.

(** One turn of [processAcks] on the acks gathered, by stream; every waiting
    ack gets the error of the pipeline. *)
Definition processAcks (acksByStream : list (string * list ack)) (r : R) : R * option goerror :=
  redis_EvalShaAll
    (omap (λ x, let h := highestOffset x.2 in
                if decide (h = emptyOffset) then None
                else Some (offsetName x.1, ackScript h)) acksByStream) r.

(** ** Trimming *)

Definition idPlusOne (id : string) : string :=
  match str_split "-" id with
  | [ms; seq] => (ms +:+ "-" +:+ itoa (wrap_i64 ((atoi seq).1 + 1)))%string
  | _ => id
  end.

(** [offsets[i]] for each stream: an index out of range panics.  After a failed
    MGET the slice is nil. *)
Fixpoint trimCommands (streams : list string) (offsets : list (option string))
    : outcome (list (string * string)) :=
  match streams, offsets with
  | [], _ => Ret []
  | _ :: _, [] => Panic
  | s :: ss, o :: os =>
      rest ← trimCommands ss os;
      Ret (match o with Some x => (s, idPlusOne x) :: rest | None => rest end)
  end.

Definition TrimStreams (maxLen : Z) (r : R) : outcome (R * option goerror) :=
  match redis_Keys "topic:*" r with
  | (r1, Err err) => Ret (r1, Some (Untyped ("error while scanning topics: " +:+ error_text err)%string))
  | (r1, Ok []) => Ret (r1, None)
  | (r1, Ok streams) =>
      let '(r2, res) := redis_MGet (offsetName <$> streams) r1 in
      let offsets := match res with Ok l => l | Err _ => [] end in
      cmds ← trimCommands streams offsets;
      let '(r3, _) := if decide (cmds = []) then (r2, None) else redis_XTrimMinIDAll cmds r2 in
      let '(r4, _) := redis_XTrimAll ((λ s, (s, maxLen)) <$> streams) r3 in
      Ret (r4, None)
  end.

(** [turns] turns of a loop that never ends; an error is logged. *)
Fixpoint PeriodicallyTrimStreams (turns : nat) (maxLen : Z) (r : R) : outcome R :=
  match turns with
  | O => Ret r
  | S turns' => '(r1, _) ← TrimStreams maxLen r; PeriodicallyTrimStreams turns' maxLen r1
  end.

End redis.
End redisbroker.

Import redisbroker.

Section trim.
Context {R : Type} {RS : RedisStreams R}.

(** A failed MGET stops the process.  [TrimStreams] logs the error as
    ignored and then indexes the missing result: with at least one stream it
    panics. *)
Theorem TrimStreams_panics_on_MGet_error maxLen (r r1 r2 : R) s streams err :
  redis_Keys "topic:*" r = (r1, Ok (s :: streams)) →
  redis_MGet (offsetName <$> s :: streams) r1 = (r2, Err err) →
  TrimStreams maxLen r = Panic.
Proof. intros H1 H2. unfold TrimStreams. rewrite H1. cbn [fmap list_fmap] in H2 |- *. by rewrite H2. Qed.
End trim.
