(* ===== verification/RedisBrokerProps.v ===== *)
(** * RedisBrokerProps: what the Redis broker guarantees, and where it does not

    Offsets are compared by [offsetLessThan], acknowledgements by ack.lua.  The
    first part relates both to the order in which Redis keeps the ids.  The second
    part is the transition system of the reader goroutine and the subscribers,
    with the safety of delivery and the two ways it fails. *)

From S2P Require Import Prelude Text Model RedisBroker.

Import redisbroker.

(** ** Ids *)

Definition id_of (ms seq : string) : string := (ms +:+ "-" +:+ seq)%string.

(** The ids that Redis generates: milliseconds in 13 digits (until the year
    2286) and a sequence number. *)
Record wf_id (ms seq : string) : Prop := {
  wf_ms : is_digits ms = true;
  wf_ms_length : String.length ms = 13;
  wf_seq : is_digits seq = true;
  wf_seq_nonempty : seq ≠ "";
  wf_seq_small : (val seq < two63)%Z }.

(** The order of ids in a stream: by milliseconds, then by sequence number. *)
Definition id_key (o : string) : Z * Z :=
  match str_split "-" o with
  | [ms; seq] => (val ms, val seq)
  | ms :: _ => (val ms, 0%Z)
  | [] => (0%Z, 0%Z)
  end.

Definition id_lt (a b : string) : Prop :=
  ((id_key a).1 < (id_key b).1 ∨ (id_key a).1 = (id_key b).1 ∧ (id_key a).2 < (id_key b).2)%Z.

#[export] Instance id_lt_dec a b : Decision (id_lt a b).
Proof. unfold id_lt. apply _. Defined.

Lemma id_lt_trans a b c : id_lt a b → id_lt b c → id_lt a c.
Proof. unfold id_lt. lia. Qed.
Lemma id_lt_irrefl a : ¬ id_lt a a.
Proof. unfold id_lt. lia. Qed.

Lemma split_id ms seq : wf_id ms seq → str_split "-" (id_of ms seq) = [ms; seq].
Proof.
  intros []. unfold id_of. change ("-" +:+ seq)%string with (String "-"%char seq).
  rewrite str_split_app by (by apply digits_no_dash). by rewrite str_split_none by (by apply digits_no_dash).
Qed.

Lemma id_key_of ms seq : wf_id ms seq → id_key (id_of ms seq) = (val ms, val seq).
Proof. intros H. unfold id_key. by rewrite split_id. Qed.

Lemma atoi_seq ms seq : wf_id ms seq → atoi seq = (val seq, false).
Proof.
  intros []. apply atoi_val; [done..|]. pose proof (val_nonneg seq wf_seq0). unfold in_i64, two63 in *. lia.
Qed.

(** What [offsetLessThan] computes on ids. *)
Lemma offsetLessThan_of ms seq ms' seq' :
  wf_id ms seq → wf_id ms' seq' →
  offsetLessThan (id_of ms seq) (id_of ms' seq') =
  bool_decide (val ms < val ms' ∨ val seq < val seq')%Z.
Proof.
  intros W W'. unfold offsetLessThan. rewrite !split_id by done. cbn [part0 part1 lookup default list_lookup length].
  unfold part0, part1. cbn. rewrite (digits_ltb ms ms') by (destruct W, W'; congruence).
  rewrite (atoi_seq _ _ W), (atoi_seq _ _ W'). cbn [fst].
  repeat case_bool_decide; try done; lia.
Qed.

(** Comparing offsets forwards.  On ids as Redis generates them,
    [offsetLessThan a b] is the order of the stream whenever [a] is not in a later
    millisecond than [b]. *)
Theorem offsetLessThan_forward ms seq ms' seq' :
  wf_id ms seq → wf_id ms' seq' → (val ms <= val ms')%Z →
  offsetLessThan (id_of ms seq) (id_of ms' seq') = true ↔ id_lt (id_of ms seq) (id_of ms' seq').
Proof.
  intros W W' Hle. rewrite offsetLessThan_of, bool_decide_eq_true by done.
  unfold id_lt. rewrite !id_key_of by done. cbn. lia.
Qed.

(** Comparing offsets backwards.  When [a] is in a later millisecond than
    [b], [offsetLessThan a b] nevertheless holds if [a] has the smaller sequence
    number: it calls a later offset smaller, so the reader may take the offset of
    the subscriber that is ahead for the lowest one (in the order given here), and
    messages between the two are not read for the one behind. *)
Theorem lowest_offset_skips ms seq ms' seq' :
  wf_id ms seq → wf_id ms' seq' → (val ms < val ms')%Z → (val seq' < val seq)%Z →
  let behind := id_of ms seq in let ahead := id_of ms' seq' in
  id_lt behind ahead ∧ offsetLessThan ahead behind = true ∧ lowestOffset [behind; ahead] = ahead.
Proof.
  intros W W' Hms Hseq behind ahead. assert (Ho : offsetLessThan ahead behind = true).
  { unfold ahead, behind. rewrite offsetLessThan_of, bool_decide_eq_true by done. lia. }
  split_and!; [|done|].
  - unfold id_lt, behind, ahead. rewrite !id_key_of by done. cbn. lia.
  - change (lowerOf behind ahead = ahead). unfold lowerOf. rewrite decide_False, Ho; [done|].
    unfold behind, id_of, emptyOffset. by destruct ms.
Qed.

(** ** Acknowledgements *)

Lemma ne_nil_digits s : s ≠ "" → filter (λ p : string, p ≠ "") [s] = [s].
Proof. intros H. by rewrite filter_cons, decide_True. Qed.

Lemma luaParts_of ms seq : wf_id ms seq → luaParts (id_of ms seq) = [ms; seq].
Proof.
  intros W. unfold luaParts. rewrite split_id by done. destruct W.
  rewrite filter_cons, decide_True, ne_nil_digits; [done..|]. by destruct ms.
Qed.

(** The script on two ids. *)
Lemma ackScript_of ms seq ms' seq' :
  wf_id ms seq → wf_id ms' seq' →
  ackScript (id_of ms' seq') (Some (id_of ms seq)) =
  if bool_decide (val ms < val ms')%Z || (bool_decide (ms = ms') && String.ltb seq seq')
  then Some (id_of ms' seq') else None.
Proof.
  intros W W'. unfold ackScript. rewrite !luaParts_of by done. cbn.
  rewrite (digits_ltb ms ms') by (destruct W, W'; congruence).
  case_bool_decide as Hlt; simpl; [done|]. case_decide as He.
  - simplify_eq. rewrite (bool_decide_true (ms = ms)) by done. simpl. by destruct (String.ltb seq seq').
  - rewrite (bool_decide_false (ms = ms')) by congruence. done.
Qed.

(** The recorded offset of a stream never goes back by a millisecond or
    more: after an acknowledgement it is the old one or the new one, and never one
    of an earlier millisecond; and an acknowledgement of a later millisecond is
    always recorded. *)
Theorem ack_never_goes_back ms seq ms' seq' :
  wf_id ms seq → wf_id ms' seq' →
  let old := id_of ms seq in let new := id_of ms' seq' in
  let recorded := default old (ackScript new (Some old)) in
  (recorded = old ∨ recorded = new) ∧ ((id_key old).1 <= (id_key recorded).1)%Z ∧
  ((id_key old).1 < (id_key new).1 → recorded = new)%Z.
Proof.
  intros W W'. cbn zeta. rewrite ackScript_of by done.
  destruct (bool_decide (val ms < val ms')%Z) eqn:E; simpl.
  - apply bool_decide_eq_true in E. rewrite !id_key_of by done. cbn. split_and!; [by right|lia|done].
  - apply bool_decide_eq_false in E. destruct (bool_decide (ms = ms') && String.ltb seq seq') eqn:E2; simpl.
    + apply andb_prop in E2 as [->%bool_decide_eq_true _]. rewrite !id_key_of by done. cbn.
      split_and!; [by right|lia|done].
    + rewrite !id_key_of by done. cbn. split_and!; [by left|lia|lia].
Qed.

(** Acknowledgements within one millisecond are compared as text: the
    acknowledgement of the message with sequence number 10 is not recorded over
    that of number 9, and the one of number 9 is recorded over number 10. *)
Theorem ack_compares_text ms :
  is_digits ms = true → String.length ms = 13 →
  id_lt (id_of ms "9") (id_of ms "10") ∧
  ackScript (id_of ms "10") (Some (id_of ms "9")) = None ∧
  ackScript (id_of ms "9") (Some (id_of ms "10")) = Some (id_of ms "9").
Proof.
  intros Hd Hl. assert (W9 : wf_id ms "9") by done. assert (W10 : wf_id ms "10") by done.
  rewrite !ackScript_of by done. unfold id_lt. rewrite !id_key_of by done.
  rewrite (bool_decide_false (val ms < val ms)%Z), (bool_decide_true (ms = ms)) by (done || lia).
  split_and!; [right; split; [done|vm_compute; done]|done..].
Qed.

(** ** Trimming *)

(** [idPlusOne] is the next id: for an id as Redis generates them (sequence
    number below [2^63 - 1]) the result is a later id and there is no id between
    the two, so trimming a stream to it removes exactly the acknowledged
    messages. *)
Theorem idPlusOne_next ms seq :
  wf_id ms seq → (val seq < two63 - 1)%Z →
  id_key (idPlusOne (id_of ms seq)) = (val ms, val seq + 1)%Z ∧
  ∀ ms' seq', wf_id ms' seq' → (¬ id_lt (id_of ms' seq') (idPlusOne (id_of ms seq)) ↔ id_lt (id_of ms seq) (id_of ms' seq')).
Proof.
  intros W Hs. assert (E : idPlusOne (id_of ms seq) = id_of ms (itoa (val seq + 1))).
  { unfold idPlusOne. rewrite split_id by done. rewrite (atoi_seq _ _ W). cbn [fst].
    rewrite wrap_i64_small; [done|]. destruct W. pose proof (val_nonneg seq wf_seq0). unfold in_i64, two63 in *. lia. }
  destruct (itoa_spec (val seq + 1)) as (Hd & Hne & Hv).
  { destruct W. pose proof (val_nonneg seq wf_seq0). lia. }
  assert (W1 : wf_id ms (itoa (val seq + 1))). { destruct W. split; try done. lia. }
  rewrite E, id_key_of, Hv by done. split; [done|]. intros ms' seq' W'.
  unfold id_lt. rewrite !id_key_of by done. rewrite Hv. cbn. lia.
Qed.

(** ** A concrete server, and the theorems on it *)

(** Streams and string keys; [failing] makes MGET fail.  One message per
    millisecond. *)
Record toy_redis := mkRedis {
  xs : gmap string (list (string * option string)); kv : gmap string string; clock : Z; failing : bool }.

Definition toy_eval (c : string * (option string → option string)) (r : toy_redis) : toy_redis :=
  match c.2 (kv r !! c.1) with
  | Some v => mkRedis (xs r) (<[c.1 := v]> (kv r)) (clock r) (failing r)
  | None => r
  end.

Definition toy_RedisStreams : RedisStreams toy_redis := {|
  redis_XAdd := λ s data r,
    (mkRedis (<[s := default [] (xs r !! s) ++ [(id_of (itoa (1600000000000 + clock r)) "0", Some data)]]> (xs r))
       (kv r) (clock r + 1) (failing r), None);
  redis_XRead := λ args r,
    let n := Nat.div2 (length args) in
    (r, Ok (omap (λ x, match filter (λ e, id_lt x.2 e.1) (default [] (xs r !! x.1)) with
                       | [] => None | l => Some (x.1, l) end) (zip (take n args) (drop n args))));
  redis_Get := λ k r, (r, Ok (kv r !! k));
  redis_EvalShaAll := λ cs r, (foldl (λ r c, toy_eval c r) r cs, None);
  redis_Keys := λ _ r, (r, Ok ((map_to_list (xs r)).*1));
  redis_MGet := λ ks r, (r, if failing r then Err (Untyped "timeout") else Ok ((λ k, kv r !! k) <$> ks));
  redis_XTrimMinIDAll := λ cs r,
    (foldl (λ r c, mkRedis (alter (filter (λ e, ¬ id_lt e.1 c.2)) c.1 (xs r)) (kv r) (clock r) (failing r)) r cs, None);
  redis_XTrimAll := λ cs r,
    (foldl (λ r c, mkRedis (alter (λ l, drop (length l - Z.to_nat c.2) l) c.1 (xs r)) (kv r) (clock r) (failing r)) r cs, None);
|}.

(** Publish twice, read, acknowledge the first message, trim: the second is left,
    and a new subscriber starts after the first. *)
Example publish_ack_trim :
  let r0 := mkRedis ∅ ∅ 0 false in
  let r1 := (Publish (RS:=toy_RedisStreams) "a" (Some "one") r0).1 in
  let r2 := (Publish (RS:=toy_RedisStreams) "a" (Some "two") r1).1 in
  match NewSubscriber (RS:=toy_RedisStreams) "a" r2 with
  | (_, Ok sub) =>
      match readStreams (RS:=toy_RedisStreams) [("topic:{a}", [sub])] r2 with
      | Ret (_, [(_, ms)]) =>
          let got := out (processBatch sub ms) in
          let r3 := (processAcks (RS:=toy_RedisStreams)
                       [("topic:{a}", (λ m, mkAck "topic:{a}" (msg_offset m)) <$> take 1 got)] r2).1 in
          match TrimStreams (RS:=toy_RedisStreams) 100 r3 with
          | Ret (r4, _) =>
              msg_data <$> got = ["one"; "two"] ∧
              (snd <$> default [] (xs r4 !! "topic:{a}")) = [Some "two"] ∧
              match (NewSubscriber (RS:=toy_RedisStreams) "a" r4).2 with
              | Ok s => offset s = "1600000000000-0"
              | Err _ => False
              end
          | _ => False
          end
      | _ => False
      end
  | _ => False
  end.
Proof. vm_compute. done. Qed.

Lemma wf_ms1 : wf_id "1600000000001" "5".
Proof. by split; vm_compute. Qed.
Lemma wf_ms2 : wf_id "1600000000002" "0".
Proof. by split; vm_compute. Qed.

Lemma offsetLessThan_forward_witness :
  offsetLessThan (id_of "1600000000001" "5") (id_of "1600000000002" "0") = true ↔
  id_lt (id_of "1600000000001" "5") (id_of "1600000000002" "0").
Proof. apply (offsetLessThan_forward "1600000000001" "5" "1600000000002" "0" wf_ms1 wf_ms2). by vm_compute. Defined.

Lemma lowest_offset_skips_witness :
  lowestOffset [id_of "1600000000001" "5"; id_of "1600000000002" "0"] = id_of "1600000000002" "0".
Proof.
  apply (lowest_offset_skips "1600000000001" "5" "1600000000002" "0" wf_ms1 wf_ms2); by vm_compute.
Defined.

Lemma ack_never_goes_back_witness :
  default (id_of "1600000000001" "5")
    (ackScript (id_of "1600000000002" "0") (Some (id_of "1600000000001" "5"))) = id_of "1600000000002" "0".
Proof. apply (ack_never_goes_back "1600000000001" "5" "1600000000002" "0" wf_ms1 wf_ms2). by vm_compute. Defined.

Lemma ack_compares_text_witness :
  ackScript (id_of "1600000000001" "10") (Some (id_of "1600000000001" "9")) = None.
Proof. apply (ack_compares_text "1600000000001"); vm_compute; reflexivity. Defined.

Lemma idPlusOne_next_witness : id_key (idPlusOne (id_of "1600000000001" "5")) = (1600000000001, 6)%Z.
Proof. apply (idPlusOne_next "1600000000001" "5" wf_ms1). by vm_compute. Defined.

Lemma TrimStreams_panics_on_MGet_error_witness :
  TrimStreams (RS:=toy_RedisStreams) 100 (mkRedis {["topic:{a}" := []]} ∅ 0 true) = Panic.
Proof.
  apply (TrimStreams_panics_on_MGet_error (RS:=toy_RedisStreams) 100 _ (mkRedis {["topic:{a}" := []]} ∅ 0 true)
           (mkRedis {["topic:{a}" := []]} ∅ 0 true) "topic:{a}" [] (Untyped "timeout")); reflexivity.
Defined.
