(* ===== verification/RedisAck.v ===== *)
(** * RedisAck: an acknowledgement on Redis stands for all earlier messages

    The broker of broker.go acknowledges one message: "Acker returns a function that
    can be used to acknowledge receipt of this message".  The Redis broker keeps a
    single offset per stream, so acknowledging a message settles every earlier one of
    its stream too, whether or not anybody acknowledged it: subscribers begin after the
    offset, and trimming removes what is before it.  The service acknowledges out of
    order whenever several goroutines forward messages of one topic, or a client
    acknowledges in another order than it was given its messages. *)

From S2P Require Import Prelude Text Model RedisBroker RedisBrokerProps.

Import redisbroker.

(** ** What Redis promises *)

(** The entries of a stream, and the value of a key.  Commands that succeed do what
    Redis documents: XREAD gives entries after the id, EVALSHA runs the script, XTRIM
    MINID evicts the entries below the id, XTRIM MAXLEN evicts entries. *)
Class RedisStreamsLaws (R : Type) `{!RedisStreams R} : Type := {
  entries : R → string → list (string * option string);
  key_value : R → string → option string;
  Get_law : ∀ k r r' v, redis_Get k r = (r', Ok v) →
    v = key_value r k ∧ entries r' = entries r ∧ key_value r' = key_value r;
  XRead_law : ∀ s o r r' l, redis_XRead [s; o] r = (r', Ok l) →
    ∀ es e, (s, es) ∈ l → e ∈ es → e ∈ entries r s ∧ id_lt o e.1;
  EvalSha_law : ∀ k f r r', redis_EvalShaAll [(k, f)] r = (r', None) →
    entries r' = entries r ∧
    key_value r' k = match f (key_value r k) with Some v => Some v | None => key_value r k end;
  Keys_law : ∀ r r' l, redis_Keys "topic:*" r = (r', Ok l) →
    entries r' = entries r ∧ key_value r' = key_value r ∧
    ∀ t, entries r (streamName t) ≠ [] → streamName t ∈ l;
  MGet_law : ∀ ks r r' l, redis_MGet ks r = (r', Ok l) → l = key_value r <$> ks ∧ entries r' = entries r;
  XTrimMinID_law : ∀ cs r r', redis_XTrimMinIDAll cs r = (r', None) →
    (∀ s e, e ∈ entries r' s → e ∈ entries r s) ∧
    ∀ s m e, (s, m) ∈ cs → e ∈ entries r' s → ¬ id_lt e.1 m;
  XTrim_law : ∀ cs r r' err, redis_XTrimAll cs r = (r', err) → ∀ s e, e ∈ entries r' s → e ∈ entries r s;
}.

Section ack.
Context {R : Type} {RS : RedisStreams R} {RL : RedisStreamsLaws R}.
Implicit Types r : R.

(** The trim commands of a stream whose offset is recorded. *)
Lemma trimCommands_elem streams offsets cmds i s o :
  trimCommands streams offsets = Ret cmds → streams !! i = Some s → offsets !! i = Some (Some o) →
  (s, idPlusOne o) ∈ cmds.
Proof.
  revert offsets cmds i. induction streams as [|s0 ss IH]; intros offsets cmds i H Hs Ho; [done|].
  destruct offsets as [|o0 os]; [done|]. simpl in H. apply bind_Ret_inv in H as (rest & Hr & [= <-]).
  destruct i as [|i]; simpl in *.
  - simplify_eq. by left.
  - destruct o0; [right|]; by eapply IH.
Qed.

(** Redis answers every command of a trim. *)
Definition answers r : Prop :=
  (∃ r' l, redis_Keys "topic:*" r = (r', Ok l)) ∧ (∀ ks r', ∃ r'' l, redis_MGet ks r' = (r'', Ok l)) ∧
  ∀ cs r', (redis_XTrimMinIDAll cs r').2 = None.

(** Trimming removes every message up to the recorded offset. *)
Lemma trim_removes t maxLen ms seq ms' seq' d r r' err :
  wf_id ms seq → (val seq < two63 - 1)%Z → wf_id ms' seq' →
  key_value r (offsetName (streamName t)) = Some (id_of ms seq) → ¬ id_lt (id_of ms seq) (id_of ms' seq') →
  answers r → TrimStreams maxLen r = Ret (r', err) → (id_of ms' seq', d) ∉ entries r' (streamName t).
Proof.
  intros W Hs W' Hk Hle ((r1 & l & Hkeys) & Hmget & Htrim) H Hin. unfold TrimStreams in H. rewrite Hkeys in H.
  destruct (Keys_law _ _ _ Hkeys) as (He1 & Hk1 & Hall).
  destruct l as [|s0 ss].
  { injection H as <- <-. rewrite He1 in Hin. apply (not_elem_of_nil (streamName t)), Hall. intros E. rewrite E in Hin.
    by apply not_elem_of_nil in Hin. }
  destruct (Hmget (offsetName <$> s0 :: ss) r1) as (r2 & vs & Hm). rewrite Hm in H.
  destruct (MGet_law _ _ _ _ Hm) as [-> He2]. apply bind_Ret_inv in H as (cmds & Hc & H).
  destruct (if decide (cmds = []) then (r2, None) else redis_XTrimMinIDAll cmds r2) as [r3 e3] eqn:E3.
  destruct (redis_XTrimAll _ r3) as [r4 e4] eqn:E4. injection H as <- <-.
  pose proof (XTrim_law _ _ _ _ E4 _ _ Hin) as Hin3.
  assert (Hin2 : (id_of ms' seq', d) ∈ entries r2 (streamName t)).
  { destruct (decide (cmds = [])); [by injection E3 as <- <-|]. pose proof (Htrim cmds r2) as Hn. rewrite E3 in Hn. simpl in Hn. subst e3.
    by apply (proj1 (XTrimMinID_law _ _ _ E3)). }
  assert (Hmem : streamName t ∈ s0 :: ss).
  { apply Hall. intros E. rewrite He2, He1, E in Hin2. by apply not_elem_of_nil in Hin2. }
  apply list_elem_of_lookup in Hmem as [i Hi].
  assert (Hcmd : (streamName t, idPlusOne (id_of ms seq)) ∈ cmds).
  { eapply trimCommands_elem; [exact Hc|exact Hi|]. rewrite !list_lookup_fmap, Hi. simpl. by rewrite Hk1, Hk. }
  rewrite decide_False in E3 by (intros ->; by apply not_elem_of_nil in Hcmd).
  pose proof (Htrim cmds r2) as Hn. rewrite E3 in Hn. simpl in Hn. subst e3.
  apply (proj2 (XTrimMinID_law _ _ _ E3) _ _ _ Hcmd) in Hin3.
  by apply Hle, (proj2 (idPlusOne_next ms seq W Hs) ms' seq' W').
Qed.

(** Every message of a batch is an entry that was read. *)
Lemma batches_from (streams : list (string * list (string * option string))) bs s l :
  foldr (λ x acc, ms ← toMessages x.2; l ← acc; Ret ((x.1, ms) :: l)) (Ret []) streams = Ret bs → (s, l) ∈ bs →
  ∃ es, (s, es) ∈ streams ∧ toMessages es = Ret l.
Proof.
  revert bs. induction streams as [|[s1 es1] streams IH]; intros bs Hb Hl; simpl in Hb.
  - injection Hb as <-. by apply not_elem_of_nil in Hl.
  - apply bind_Ret_inv in Hb as (ms1 & Hm1 & Hb). apply bind_Ret_inv in Hb as (rest & Hr & [= <-]).
    apply elem_of_cons in Hl as [[= -> ->]|Hl]; [exists es1; split; [by left|done]|].
    destruct (IH rest Hr Hl) as (es & ? & ?). exists es. split; [by right|done].
Qed.

Lemma message_from (es : list (string * option string)) l m : toMessages es = Ret l → m ∈ l → ∃ e, e ∈ es ∧ e.1 = msg_offset m.
Proof.
  revert l. induction es as [|e es IH]; intros l Hto Hm; simpl in Hto.
  - injection Hto as <-. by apply not_elem_of_nil in Hm.
  - apply bind_Ret_inv in Hto as (m1 & Hm1 & Hto). apply bind_Ret_inv in Hto as (rest & Hr & [= <-]).
    apply elem_of_cons in Hm as [->|Hm].
    + exists e. split; [by left|]. unfold toMessage in Hm1. by apply bind_Ret_inv in Hm1 as (x & _ & [= <-]).
    + destruct (IH rest Hr Hm) as (e' & ? & ?). exists e'. split; [by right|done].
Qed.

(** One acknowledgement settles every earlier message.  Let a stream hold a message
    that nobody has acknowledged, and let a later message of the stream (of a later
    millisecond than the offset recorded, if any) be acknowledged with success.  Then
    every subscriber made afterwards begins after the earlier message and is not given
    it when its stream is read, and trimming, if Redis answers, removes it. *)
Theorem redis_ack_covers_earlier t maxLen ms seq ms' seq' r r1 :
  wf_id ms seq → (val seq < two63 - 1)%Z → wf_id ms' seq' →
  let s := streamName t in let later := id_of ms seq in let earlier := id_of ms' seq' in
  id_lt earlier later →
  (key_value r (offsetName s) = None ∨
   ∃ ms0 seq0, wf_id ms0 seq0 ∧ key_value r (offsetName s) = Some (id_of ms0 seq0) ∧ (val ms0 < val ms)%Z) →
  processAcks [(s, [mkAck s later])] r = (r1, None) →
  (∀ r2 sub, NewSubscriber t r1 = (r2, Ok sub) →
     offset sub = later ∧
     ∀ r3 batches, readStreams [(s, [sub])] r2 = Ret (r3, batches) →
       ∀ l m, (s, l) ∈ batches → m ∈ l → msg_offset m ≠ earlier) ∧
  (answers r1 → ∀ r2 err d, TrimStreams maxLen r1 = Ret (r2, err) → (earlier, d) ∉ entries r2 s).
Proof.
  intros W Hs W' s later earlier Hlt Hold H.
  assert (Hne : later ≠ emptyOffset) by (unfold later, id_of, emptyOffset; by destruct ms).
  assert (Hh : highestOffset [mkAck s later] = later)
    by reflexivity.
  unfold processAcks in H. simpl in H. rewrite Hh, decide_False in H by done.
  apply EvalSha_law in H as [He Hk]. simpl in Hk.
  assert (Hk1 : key_value r1 (offsetName s) = Some later).
  { rewrite Hk. destruct Hold as [->|(ms0 & seq0 & W0 & -> & Hms)]; [done|]. unfold later. rewrite ackScript_of by done.
    by rewrite bool_decide_true. }
  split.
  - intros r2 sub Hsub. unfold NewSubscriber in Hsub. fold s in Hsub.
    destruct (redis_Get (offsetName s) r1) as [r2' [v|e]] eqn:Eg; [|done].
    destruct (Get_law _ _ _ _ Eg) as (-> & _ & _). rewrite Hk1 in Hsub. injection Hsub as <- <-. split; [done|].
    intros r3 batches Hr l m Hl Hm. unfold readStreams in Hr. simpl in Hr.
    unfold gatherStreamsWithOffsets, lowestOffset, lowerOf in Hr. simpl in Hr.
    destruct (redis_XRead [s; later] r2') as [r4 [streams|e]] eqn:Er.
    2:{ injection Hr as <- <-. by apply not_elem_of_nil in Hl. }
    pose proof (XRead_law _ _ _ _ _ Er) as Hx. apply bind_Ret_inv in Hr as (bs & Hb & [= <- <-]).
    destruct (batches_from _ _ _ _ Hb Hl) as (es & Hin & Hto). destruct (message_from _ _ _ Hto Hm) as (e & Hes & He1).
    destruct (Hx es e Hin Hes) as [_ Hlt2]. intros E. rewrite He1, E in Hlt2.
    eapply id_lt_irrefl, id_lt_trans; [exact Hlt|exact Hlt2].
  - intros Ha r2 err d Ht. refine (trim_removes t maxLen ms seq ms' seq' d r1 r2 err W Hs W' Hk1 _ Ha Ht).
    intros Hlt2. eapply id_lt_irrefl, id_lt_trans; [exact Hlt|exact Hlt2].
Qed.
End ack.

(** ** The concrete server of RedisBrokerProps.v *)

Section toy.
#[local] Existing Instance toy_RedisStreams.

Definition toy_entries (r : toy_redis) (s : string) : list (string * option string) := default [] (xs r !! s).

Lemma toy_evict (f : string * string → list (string * option string) → list (string * option string)) cs r :
  (∀ c l e, e ∈ f c l → e ∈ l) →
  let r' := foldl (λ r c, mkRedis (alter (f c) c.1 (xs r)) (kv r) (clock r) (failing r)) r cs in
  (∀ s e, e ∈ toy_entries r' s → e ∈ toy_entries r s) ∧
  ∀ c e, c ∈ cs → e ∈ toy_entries r' c.1 → ∃ l, e ∈ f c l.
Proof.
  intros Hf. cbn zeta. revert r. induction cs as [|c cs IH]; intros r; simpl; [split; [done|by intros ? ? ?%not_elem_of_nil]|].
  set (r1 := mkRedis _ _ _ _). destruct (IH r1) as [IH1 IH2].
  assert (H1 : ∀ s e, e ∈ toy_entries r1 s → e ∈ toy_entries r s ∧ (s = c.1 → ∃ l, e ∈ f c l)).
  { intros s e. unfold r1, toy_entries. simpl. rewrite lookup_alter. case_decide as E.
    - subst s. destruct (xs r !! c.1) as [l|]; simpl; [|by intros ?%not_elem_of_nil]. intros He. split; [by eapply Hf|]. by exists l.
    - intros He. split; [done|congruence]. }
  split.
  - intros s e He%IH1. by apply H1.
  - intros c' e [->|Hc]%elem_of_cons He; [|by apply IH2]. apply IH1, H1 in He as [_ He]. by apply He.
Qed.

#[export] Instance toy_laws : RedisStreamsLaws toy_redis.
Proof.
  refine {| entries := toy_entries; key_value := λ r k, kv r !! k |}.
  - by intros k r r' v [= <- <-].
  - intros s o r r' l [= <- <-] es e Hl He. simpl in Hl. unfold toy_entries.
    destruct (filter _ (default [] (xs r !! s))) as [|x l'] eqn:E; [by apply not_elem_of_nil in Hl|].
    apply list_elem_of_singleton in Hl. injection Hl as ->. rewrite <- E in He. apply list_elem_of_filter in He as [??]. done.
  - intros k f r r' [= <-]. simpl. unfold toy_eval. simpl. destruct (f (kv r !! k)) as [v|] eqn:E; [|done]. simpl.
    split; [done|]. apply lookup_insert_eq.
  - intros r r' l [= <- <-]. split_and!; [done..|]. intros t Ht. unfold toy_entries in Ht.
    destruct (xs r !! streamName t) as [es|] eqn:E; [|done]. apply list_elem_of_fmap. exists (streamName t, es). split; [done|].
    by apply elem_of_map_to_list.
  - intros ks r r' l. simpl. destruct (failing r); [done|]. by intros [= <- <-].
  - intros cs r r' [= <-].
    destruct (toy_evict (λ c, filter (λ e, ¬ id_lt e.1 c.2)) cs r) as [H1 H2]; [by intros c l e [_ ?]%list_elem_of_filter|].
    split; [exact H1|]. intros s m e Hc He. destruct (H2 (s, m) e Hc He) as [l Hl]. by apply list_elem_of_filter in Hl as [? _].
  - intros cs r r' err [= <- <-] s e. revert r. induction cs as [|c cs IH]; intros r; [done|]. simpl. intros He%IH.
    revert He. unfold toy_entries. simpl. rewrite lookup_alter. case_decide as E; [|done]. subst s.
    destruct (xs r !! c.1) as [l|]; [|done]. simpl. intros He. rewrite <- (take_drop (length l - Z.to_nat c.2) l). apply elem_of_app. by right.
Qed.

(** Two messages are stored and the second is acknowledged: the first is gone after a
    trim, and a new subscriber is given nothing. *)
Example second_ack_loses_first :
  let r0 := mkRedis ∅ ∅ 0 false in
  let r1 := (Publish "a" (Some "one") r0).1 in
  let r2 := (Publish "a" (Some "two") r1).1 in
  let r3 := (processAcks [("topic:{a}", [mkAck "topic:{a}" "1600000000001-0"])] r2).1 in
  toy_entries r2 "topic:{a}" = [("1600000000000-0", Some "one"); ("1600000000001-0", Some "two")] ∧
  match TrimStreams 100 r3, NewSubscriber "a" r3 with
  | Ret (r4, _), (_, Ok sub) =>
      toy_entries r4 "topic:{a}" = [] ∧
      match readStreams [("topic:{a}", [sub])] r3 with Ret (_, batches) => batches = [] | _ => False end
  | _, _ => False
  end.
Proof. vm_compute. done. Qed.
End toy.
