(* ===== verification/RedisDelivery.v ===== *)
(** * RedisDelivery: the reader and the subscribers of the Redis broker

    The goroutine of [processSubscribers] and those of [subscriber.process], with
    the clients of the subscribers and the publishers, as a transition system over
    the functions of redisbroker.  The reader holds the read lock on the
    subscribers while it hands out a batch, so subscribing and the clean-up of a
    subscriber wait until it is done; it does not hold it while it waits for
    XREAD.  Streams are not trimmed here. *)

From Stdlib Require Import Sorting.Sorted.
From S2P Require Import Prelude Text Model RedisBroker RedisBrokerProps.

Import redisbroker.

(** Where a subscriber's goroutine is: at the [select], inside a batch, telling
    the reader that the batch is done, returned. *)
Inductive pc := Selecting | InBatch (rest : list message) | Notifying | Finished.

(** [taken]: how many of [out] the client has received; [gone]: it no longer
    receives; [from]: the offset the subscriber started at. *)
Record conn := mkConn {
  core : subscriber; taken : nat; at_pc : pc; closed : bool; gone : bool; from : string }.

Definition set_pc (p : pc) (c : conn) : conn := mkConn (core c) (taken c) p (closed c) (gone c) (from c).
Definition set_core (x : subscriber) (c : conn) : conn := mkConn x (taken c) (at_pc c) (closed c) (gone c) (from c).

Definition buffered (c : conn) : nat := length (out (core c)) - taken c.
Definition bufferSize : nat := 10.

(** Where the reader is: before gathering, waiting for XREAD with the offsets it
    gathered, sending the batches, waiting for a subscriber. *)
Inductive reader :=
| Gathering
| Reading (offs : gmap string string)
| Sending (q : list (nat * list message))
| Waiting (i : nat) (q : list (nat * list message)).

(** [raced]: somebody subscribed to a stream while the reader waited for it. *)
Record world := mkWorld {
  logs : gmap string (list message); subs : gmap nat conn; rd : reader; raced : bool }.

Definition log (w : world) (s : string) : list message := default [] (logs w !! s).

(** The entries XREAD returns for an offset. *)
Definition after (o : string) (l : list message) : list message :=
  filter (λ m, id_lt o (msg_offset m)) l.

Definition set_sub (i : nat) (c : conn) (w : world) : world :=
  mkWorld (logs w) (<[i := c]> (subs w)) (rd w) (raced w).
Definition set_rd (r : reader) (w : world) : world := mkWorld (logs w) (subs w) r (raced w).

Definition on_stream (s : string) (x : nat * conn) : Prop := stream (core x.2) = s.
#[export] Instance on_stream_dec s x : Decision (on_stream s x).
Proof. unfold on_stream. apply _. Defined.
Definition subs_of (s : string) (w : world) : list (nat * conn) := filter (on_stream s) (map_to_list (subs w)).

(** [offs] is a possible result of gathering: for each stream with subscribers the
    lowest offset, the subscribers being visited in any order. *)
Definition gathered (w : world) (offs : gmap string string) : Prop :=
  (∀ s, is_Some (offs !! s) ↔ subs_of s w ≠ []) ∧
  ∀ s o, offs !! s = Some o →
    ∃ l, l ≡ₚ subs_of s w ∧ o = lowestOffset ((λ x, offset (core x.2)) <$> l).

(** Each subscriber of a stream that was read gets what was read. *)
Definition dispatch (w : world) (res : list (string * list message)) : list (nat * list message) :=
  res ≫= λ x, (λ y : nat * conn, (y.1, x.2)) <$> subs_of x.1 w.

Section steps.
(** The ids that occur. *)
Context (good : string → Prop).

Inductive step : world → world → Prop :=
| step_publish w s m :
    good (msg_offset m) → id_lt minOffset (msg_offset m) →
    Forall (λ x, id_lt (msg_offset x) (msg_offset m)) (log w s) →
    step w (mkWorld (<[s := log w s ++ [m]]> (logs w)) (subs w) (rd w) (raced w))
| step_subscribe w i s o :
    subs w !! i = None → (rd w = Gathering ∨ ∃ offs, rd w = Reading offs) →
    (o = minOffset ∨ o ∈ msg_offset <$> log w s) →
    step w (mkWorld (logs w)
             (<[i := mkConn (mkSubscriber s o []) 0 Selecting false false o]> (subs w)) (rd w)
             (match rd w with
              | Reading offs => raced w || bool_decide (is_Some (offs !! s))
              | _ => raced w
              end))
| step_gather w offs :
    rd w = Gathering → gathered w offs → step w (set_rd (Reading offs) w)
| step_read w offs res q :
    rd w = Reading offs →
    Forall (λ x, ∃ o n, offs !! x.1 = Some o ∧ x.2 = take n (after o (log w x.1))) res →
    q ≡ₚ dispatch w res →
    step w (set_rd (Sending q) w)
| step_read_fails w offs : rd w = Reading offs → step w (set_rd Gathering w)
| step_send_closed w i ms q c :
    rd w = Sending ((i, ms) :: q) → subs w !! i = Some c → closed c = true →
    step w (set_rd (Sending q) w)
| step_send w i ms q c :
    rd w = Sending ((i, ms) :: q) → subs w !! i = Some c → at_pc c = Selecting →
    step w (set_rd (Waiting i q) (set_sub i (set_pc (InBatch ms) c) w))
| step_sent_all w : rd w = Sending [] → step w (set_rd Gathering w)
| step_push w i c m rest :
    subs w !! i = Some c → at_pc c = InBatch (m :: rest) →
    offsetLessThan (offset (core c)) (msg_offset m) = true → buffered c < bufferSize →
    step w (set_sub i (set_pc (InBatch rest) (set_core (processMsg (core c) m) c)) w)
| step_skip w i c m rest :
    subs w !! i = Some c → at_pc c = InBatch (m :: rest) →
    offsetLessThan (offset (core c)) (msg_offset m) = false →
    step w (set_sub i (set_pc (InBatch rest) (set_core (processMsg (core c) m) c)) w)
| step_batch_done w i c :
    subs w !! i = Some c → at_pc c = InBatch [] → step w (set_sub i (set_pc Notifying c) w)
| step_notify w i c q :
    subs w !! i = Some c → at_pc c = Notifying → rd w = Waiting i q →
    step w (set_rd (Sending q) (set_sub i (set_pc (if closed c then Finished else Selecting) c) w))
| step_receive w i c :
    subs w !! i = Some c → gone c = false → taken c < length (out (core c)) →
    step w (set_sub i (mkConn (core c) (S (taken c)) (at_pc c) (closed c) (gone c) (from c)) w)
| step_leave w i c :
    subs w !! i = Some c →
    step w (set_sub i (mkConn (core c) (taken c) (at_pc c) true true (from c)) w)
| step_exit w i c :
    subs w !! i = Some c → at_pc c = Selecting → closed c = true →
    step w (set_sub i (set_pc Finished c) w)
| step_remove w i c :
    subs w !! i = Some c → at_pc c = Finished → (rd w = Gathering ∨ ∃ offs, rd w = Reading offs) →
    step w (mkWorld (logs w) (delete i (subs w)) (rd w) (raced w)).

Definition init : world := mkWorld ∅ ∅ Gathering false.
End steps.

(** ** Delivery without gaps *)

(** Ids on which [offsetLessThan] is the order of the stream. *)
Record good_ids (good : string → Prop) : Prop := {
  good_order : ∀ a b, good a → good b → offsetLessThan a b = bool_decide (id_lt a b);
  good_min : good minOffset;
  good_nonempty : ∀ a, good a → a ≠ emptyOffset }.

Definition id_le (a b : string) : Prop := ¬ id_lt b a.

Lemma id_le_trans a b c : id_le a b → id_le b c → id_le a c.
Proof. unfold id_le, id_lt. lia. Qed.
Lemma id_lt_le_trans a b c : id_lt a b → id_le b c → id_lt a c.
Proof. unfold id_le, id_lt. lia. Qed.
Lemma id_le_lt_trans a b c : id_le a b → id_lt b c → id_lt a c.
Proof. unfold id_le, id_lt. lia. Qed.
Lemma id_lt_le a b : id_lt a b → id_le a b.
Proof. unfold id_le, id_lt. lia. Qed.

Section delivery.
Context (good : string → Prop) (G : good_ids good).

Lemma lowest_from acc l :
  good acc → Forall good l →
  let r := foldl lowerOf acc l in good r ∧ id_le r acc ∧ Forall (id_le r) l.
Proof.
  revert acc; induction l as [|x l IH]; intros acc Ha Hl; simpl; [split_and!; [done|apply id_lt_irrefl|constructor]|].
  apply Forall_cons in Hl as [Hx Hl].
  assert (Hlow : good (lowerOf acc x) ∧ id_le (lowerOf acc x) acc ∧ id_le (lowerOf acc x) x).
  { unfold lowerOf. rewrite decide_False by (by apply (good_nonempty good G)).
    rewrite (good_order good G) by done. case_bool_decide as Hlt.
    - split_and!; [done|by apply id_lt_le|apply id_lt_irrefl].
    - split_and!; [done|apply id_lt_irrefl|done]. }
  destruct Hlow as (Hg & H1 & H2). destruct (IH _ Hg Hl) as (Hr & Hle & Hall).
  split_and!; [done|by eapply id_le_trans|]. constructor; [by eapply id_le_trans|done].
Qed.

Lemma lowestOffset_le l : l ≠ [] → Forall good l → good (lowestOffset l) ∧ Forall (id_le (lowestOffset l)) l.
Proof.
  destruct l as [|x l]; [done|]. intros _ Hl. pose proof Hl as [Hx Hl']%Forall_cons.
  unfold lowestOffset; simpl. assert (E : lowerOf emptyOffset x = x) by (unfold lowerOf; by rewrite decide_True).
  rewrite E. destruct (lowest_from x l Hx Hl') as (Hg & Hle & Hall). split; [done|by constructor].
Qed.

(** *** Sorted logs *)

Definition ascending (l : list message) : Prop := StronglySorted (λ a b, id_lt (msg_offset a) (msg_offset b)) l.

Lemma after_all o l : Forall (λ m, id_lt o (msg_offset m)) l → after o l = l.
Proof. intros H. unfold after. induction H as [|m l Hm _ IH]; [done|]. by rewrite filter_cons, decide_True, IH. Qed.

Lemma after_none o l : Forall (λ m, id_le (msg_offset m) o) l → after o l = [].
Proof. intros H. unfold after. induction H as [|m l Hm _ IH]; [done|]. by rewrite filter_cons, decide_False. Qed.

(** A log splits at every offset. *)
Lemma ascending_split o l :
  ascending l → ∃ l0, l = l0 ++ after o l ∧ Forall (λ m, id_le (msg_offset m) o) l0.
Proof.
  induction 1 as [|m l Hs IH Hm]; [by exists []|]. unfold after. rewrite filter_cons.
  destruct (decide (id_lt o (msg_offset m))) as [Hlt|Hge].
  - exists []. split; [|done]. simpl. f_equal. symmetry. apply after_all.
    eapply Forall_impl; [exact Hm|]. intros x Hx. by eapply id_lt_trans.
  - destruct IH as (l0 & E & Hl0). exists (m :: l0). split; [simpl; by f_equal|by constructor].
Qed.

Lemma ascending_snoc l m :
  ascending l → Forall (λ x, id_lt (msg_offset x) (msg_offset m)) l → ascending (l ++ [m]).
Proof.
  induction 1 as [|x l Hs IH Hx]; intros Hm; simpl; [by repeat constructor|].
  apply Forall_cons in Hm as [Hxm Hm]. constructor; [by apply IH|]. apply Forall_app. split; [done|]. by apply Forall_singleton.
Qed.

(** *** The invariant *)

(** An offset a subscriber may be at: the start, or an id of the log. *)
Definition valid_offset (l : list message) (o : string) : Prop :=
  o = minOffset ∨ o ∈ msg_offset <$> l.

(** [ms] is a piece of the log that begins no later than right after [o]. *)
Definition aligned (l : list message) (o : string) (ms : list message) : Prop :=
  ∃ l0 l1, l = l0 ++ ms ++ l1 ∧ Forall (λ m, id_le (msg_offset m) o) l0.

Record sub_ok (l : list message) (c : conn) : Prop := {
  ok_offset : valid_offset l (offset (core c));
  ok_from : valid_offset l (from c);
  ok_out : out (core c) ++ after (offset (core c)) l = after (from c) l;
  ok_batch : ∀ ms, at_pc c = InBatch ms → aligned l (offset (core c)) ms }.

Definition log_ok (l : list message) : Prop :=
  ascending l ∧ Forall (λ m, good (msg_offset m) ∧ id_lt minOffset (msg_offset m)) l.

Definition queue_ok (w : world) (q : list (nat * list message)) : Prop :=
  ∀ i ms c, (i, ms) ∈ q → subs w !! i = Some c →
    aligned (log w (stream (core c))) (offset (core c)) ms.

Definition reader_ok (w : world) : Prop :=
  match rd w with
  | Gathering => True
  | Reading offs => ∀ i c o, subs w !! i = Some c → offs !! stream (core c) = Some o →
                    id_le o (offset (core c))
  | Sending q | Waiting _ q => queue_ok w q
  end.

Record inv (w : world) : Prop := {
  inv_logs : ∀ s, log_ok (log w s);
  inv_subs : ∀ i c, subs w !! i = Some c → sub_ok (log w (stream (core c))) c;
  inv_reader : reader_ok w }.

Lemma valid_good l o : log_ok l → valid_offset l o → good o.
Proof.
  intros [_ Hl] [->|Hin]; [apply (good_min good G)|].
  apply list_elem_of_fmap in Hin as (m & -> & Hm). rewrite Forall_forall in Hl. by apply Hl.
Qed.

Lemma aligned_le l o o' ms : aligned l o ms → id_le o o' → aligned l o' ms.
Proof.
  intros (l0 & l1 & E & H) Hle. exists l0, l1. split; [done|]. eapply Forall_impl; [exact H|].
  intros m Hm. exact (id_le_trans _ _ _ Hm Hle).
Qed.

Lemma aligned_snoc l o ms m : aligned l o ms → aligned (l ++ [m]) o ms.
Proof. intros (l0 & l1 & -> & H). exists l0, (l1 ++ [m]). by rewrite <- !app_assoc. Qed.

Lemma aligned_after l o o' n : ascending l → id_le o' o → aligned l o (take n (after o' l)).
Proof.
  intros Ha Hle. destruct (ascending_split o' l Ha) as (l0 & E & H).
  exists l0, (drop n (after o' l)). rewrite take_drop. split; [done|].
  eapply Forall_impl; [exact H|]. intros m Hm. exact (id_le_trans _ _ _ Hm Hle).
Qed.

(** Handling the next message of a batch. *)
Lemma processMsg_ok l c m rest :
  log_ok l → sub_ok l c → at_pc c = InBatch (m :: rest) →
  sub_ok l (set_pc (InBatch rest) (set_core (processMsg (core c) m) c)) ∧
  id_le (offset (core c)) (offset (processMsg (core c) m)).
Proof.
  intros Hl [Ho Hf Hout Hb] Hpc. destruct (Hb _ Hpc) as (l0 & l1 & E & H0).
  assert (Hm : m ∈ l) by (rewrite E; set_solver).
  pose proof (valid_good _ _ Hl Ho) as Hgo. destruct Hl as [Ha Hgl]. rewrite Forall_forall in Hgl.
  unfold processMsg. rewrite (good_order good G) by (done || by apply Hgl).
  case_bool_decide as Hlt.
  - assert (Hrest : Forall (λ x, id_lt (msg_offset m) (msg_offset x)) (rest ++ l1)).
    { rewrite E in Ha. clear -Ha. unfold ascending in Ha. induction l0 as [|y l0 IH]; simpl in Ha.
      - by apply StronglySorted_inv in Ha as [_ ?].
      - apply StronglySorted_inv in Ha as [Ha _]. by apply IH. }
    assert (Haft : after (offset (core c)) l = m :: rest ++ l1).
    { rewrite E. unfold after. rewrite filter_app. fold (after (offset (core c)) l0).
      rewrite after_none by done. simpl. rewrite filter_cons, decide_True by done. f_equal.
      apply after_all. eapply Forall_impl; [exact Hrest|]. intros x Hx. by eapply id_lt_trans. }
    assert (Haft' : after (msg_offset m) l = rest ++ l1).
    { rewrite E. unfold after. rewrite filter_app. fold (after (msg_offset m) l0).
      rewrite after_none; [|eapply Forall_impl; [exact H0|]; intros x Hx; exact (id_le_trans _ _ _ Hx (id_lt_le _ _ Hlt))].
      simpl. rewrite filter_cons, decide_False by apply id_lt_irrefl. by apply after_all. }
    split; [|by apply id_lt_le]. split; simpl.
    + right. by apply list_elem_of_fmap_2.
    + done.
    + by rewrite Haft', <- app_assoc, <- Hout, Haft.
    + intros ms [= <-]. exists (l0 ++ [m]), l1. rewrite <- app_assoc. split; [done|].
      apply Forall_app. split; [|apply Forall_singleton, id_lt_irrefl].
      eapply Forall_impl; [exact H0|]. intros x Hx. exact (id_le_trans _ _ _ Hx (id_lt_le _ _ Hlt)).
  - split; [|apply id_lt_irrefl]. split; simpl; try done.
    intros ms [= <-]. exists (l0 ++ [m]), l1. rewrite <- app_assoc. split; [done|].
    apply Forall_app. split; [done|]. by apply Forall_singleton.
Qed.

(** *** Preservation *)

Lemma inv_set_sub w i c c' :
  inv w → subs w !! i = Some c → stream (core c') = stream (core c) →
  sub_ok (log w (stream (core c))) c' → id_le (offset (core c)) (offset (core c')) →
  inv (set_sub i c' w).
Proof.
  intros [Hl Hs Hr] Hi Hst Hok Hle. split; [done| |].
  - intros j d Hj. simpl in Hj. apply lookup_insert_Some in Hj as [[<- <-]|[_ Hj]]; [|by apply Hs in Hj].
    rewrite Hst. exact Hok.
  - unfold reader_ok in *. simpl. destruct (rd w) as [|offs|q|k q]; [done| | |].
    1: intros j d o Hj Ho; simpl in Hj; apply lookup_insert_Some in Hj as [[<- <-]|[_ Hj]];
      [rewrite Hst in Ho; exact (id_le_trans _ _ _ (Hr _ _ _ Hi Ho) Hle)|by eapply Hr].
    all: intros j ms d Hin Hj; simpl in Hj; apply lookup_insert_Some in Hj as [[<- <-]|[_ Hj]];
      [rewrite Hst; exact (aligned_le _ _ _ _ (Hr _ _ _ Hin Hi) Hle)|by eapply Hr].
Qed.

(** A change of a subscriber that leaves its offset and its batch alone. *)
Lemma sub_ok_same l c c' :
  sub_ok l c → core c' = core c → from c' = from c →
  (∀ ms, at_pc c' = InBatch ms → aligned l (offset (core c)) ms) → sub_ok l c'.
Proof. intros [? ? ? ?] Hc Hf Hb. split; rewrite ?Hc, ?Hf; done. Qed.

Lemma inv_same w i c c' :
  inv w → subs w !! i = Some c → core c' = core c → from c' = from c →
  (∀ ms, at_pc c' = InBatch ms → aligned (log w (stream (core c))) (offset (core c)) ms) →
  inv (set_sub i c' w).
Proof.
  intros Hi Hc He Hf Hb. apply (inv_set_sub w i c); [done..|by rewrite He| |rewrite He; apply id_lt_irrefl].
  eapply sub_ok_same; eauto. by eapply inv_subs.
Qed.

Lemma inv_set_rd w r : inv w → reader_ok (set_rd r w) → inv (set_rd r w).
Proof. by intros [? ? ?]. Qed.

Lemma after_snoc o l m :
  valid_offset l o → id_lt minOffset (msg_offset m) →
  Forall (λ x, id_lt (msg_offset x) (msg_offset m)) l → after o (l ++ [m]) = after o l ++ [m].
Proof.
  intros Ho Hm Hl. unfold after. rewrite filter_app, filter_cons, filter_nil, decide_True; [done|].
  destruct Ho as [->|Hin]; [done|]. apply list_elem_of_fmap in Hin as (x & -> & Hx).
  rewrite Forall_forall in Hl. by apply Hl.
Qed.

Lemma valid_snoc l o m : valid_offset l o → valid_offset (l ++ [m]) o.
Proof. intros [->|H]; [by left|right]. rewrite fmap_app. set_solver. Qed.

Lemma sub_ok_snoc l c m :
  id_lt minOffset (msg_offset m) → Forall (λ x, id_lt (msg_offset x) (msg_offset m)) l →
  sub_ok l c → sub_ok (l ++ [m]) c.
Proof.
  intros Hm Hl [Ho Hf Hout Hb]. split; [by apply valid_snoc..| |].
  - rewrite !after_snoc by done. by rewrite app_assoc, Hout.
  - intros ms Hms. by apply aligned_snoc, Hb.
Qed.

Lemma log_insert w s l subs r b s' :
  log (mkWorld (<[s := l]> (logs w)) subs r b) s' = if decide (s' = s) then l else log w s'.
Proof. unfold log; simpl. rewrite lookup_insert. by repeat case_decide; subst. Qed.

Lemma delivery_inv_publish w s m :
  inv w → good (msg_offset m) → id_lt minOffset (msg_offset m) →
  Forall (λ x, id_lt (msg_offset x) (msg_offset m)) (log w s) →
  inv (mkWorld (<[s := log w s ++ [m]]> (logs w)) (subs w) (rd w) (raced w)).
Proof.
  intros [Hl Hs Hr] Hg Hm Hall.
  assert (Hal : ∀ c ms, aligned (log w (stream (core c))) (offset (core c)) ms →
    aligned (if decide (stream (core c) = s) then log w s ++ [m] else log w (stream (core c))) (offset (core c)) ms).
  { intros c ms H. case_decide as E; [|done]. rewrite <- E. by apply aligned_snoc. }
  split.
  - intros s'. rewrite log_insert. case_decide; [|done]. destruct (Hl s) as [Ha Hf].
    split; [by apply ascending_snoc|]. apply Forall_app. split; [done|]. by apply Forall_singleton.
  - intros i c Hi. simpl in Hi. rewrite log_insert. case_decide as E; [|by apply Hs in Hi].
    rewrite <- E in *. apply sub_ok_snoc; [done..|by apply Hs in Hi].
  - unfold reader_ok in *. simpl. destruct (rd w) as [|offs|q|k q]; [done|done| |]; unfold queue_ok in *;
      intros i ms c Hin Hi; rewrite log_insert; apply Hal; by eapply Hr.
Qed.

Lemma elem_of_subs_of s w i c : (i, c) ∈ subs_of s w ↔ subs w !! i = Some c ∧ stream (core c) = s.
Proof. unfold subs_of. rewrite list_elem_of_filter, elem_of_map_to_list. unfold on_stream. simpl. tauto. Qed.

Lemma inv_gather w offs : inv w → gathered w offs → inv (set_rd (Reading offs) w).
Proof.
  intros Hi [_ Hg]. apply inv_set_rd; [done|]. intros i c o Hc Ho. simpl in *.
  destruct (Hg _ _ Ho) as (l & Hl & ->).
  assert (Hin : (i, c) ∈ l) by (rewrite Hl; by apply elem_of_subs_of).
  assert (Hgood : Forall good ((λ x : nat * conn, offset (core x.2)) <$> l)).
  { apply Forall_fmap, Forall_forall. intros [j d] Hj. rewrite Hl in Hj. apply elem_of_subs_of in Hj as [Hj _].
    simpl. destruct Hi as [Hlg Hs _]. eapply valid_good; [apply Hlg|]. by apply ok_offset, (Hs j). }
  assert (Hne : (λ x : nat * conn, offset (core x.2)) <$> l ≠ []).
  { intros E. apply fmap_nil_inv in E. subst l. by apply not_elem_of_nil in Hin. }
  destruct (lowestOffset_le _ Hne Hgood) as [_ Hle]. rewrite Forall_forall in Hle.
  apply Hle, list_elem_of_fmap. by exists (i, c).
Qed.

Lemma inv_read w offs res q :
  inv w → rd w = Reading offs →
  Forall (λ x, ∃ o n, offs !! x.1 = Some o ∧ x.2 = take n (after o (log w x.1))) res →
  q ≡ₚ dispatch w res → inv (set_rd (Sending q) w).
Proof.
  intros Hi Hrd Hres Hq. apply inv_set_rd; [done|]. intros i ms c Hin Hc. cbn in Hc. rewrite Hq in Hin.
  unfold dispatch in Hin. apply list_elem_of_bind in Hin as ([s ms'] & Hin & Hx).
  apply list_elem_of_fmap in Hin as ([j d] & [= -> ->] & Hd). simpl in Hd. apply elem_of_subs_of in Hd as [Hd Hs].
  simplify_eq. rewrite Forall_forall in Hres. destruct (Hres _ Hx) as (o & n & Ho & Hms). simpl in Ho, Hms. rewrite Hms.
  destruct Hi as [Hl _ Hr]. unfold reader_ok in Hr. rewrite Hrd in Hr.
  apply aligned_after; [apply Hl|by eapply Hr].
Qed.

Lemma inv_subscribe w i s o :
  inv w → (rd w = Gathering ∨ ∃ offs, rd w = Reading offs ∧ offs !! s = None) →
  valid_offset (log w s) o →
  inv (mkWorld (logs w) (<[i := mkConn (mkSubscriber s o []) 0 Selecting false false o]> (subs w)) (rd w) (raced w)).
Proof.
  intros [Hl Hs Hr] Hrd Ho. split; [done| |].
  - intros j c Hj. simpl in Hj. apply lookup_insert_Some in Hj as [[<- <-]|[_ Hj]]; [|by apply Hs in Hj].
    split; simpl; done.
  - unfold reader_ok in *. simpl. destruct Hrd as [->|(offs & E & Hn)]; [done|]. rewrite E in *.
    intros j c o' Hj Ho'. simpl in Hj. apply lookup_insert_Some in Hj as [[<- <-]|[_ Hj]]; [|by eapply Hr].
    simpl in Ho'. congruence.
Qed.

Lemma step_raced w w' : step good w w' → raced w' = false → raced w = false.
Proof. intros Hs. destruct Hs; simpl; try done. destruct (rd w); [done| |done..]. by intros [? _]%orb_false_elim. Qed.

(** The steps of the reader that hand on a queue. *)
Lemma inv_pop w i ms q : inv w → rd w = Sending ((i, ms) :: q) → inv (set_rd (Sending q) w).
Proof.
  intros Hi Hrd. apply inv_set_rd; [done|]. destruct Hi as [_ _ Hr]. unfold reader_ok in Hr. rewrite Hrd in Hr.
  intros j ms' c Hin. apply Hr. set_solver.
Qed.

Lemma delivery_step_inv w w' : step good w w' → inv w → raced w' = false → inv w'.
Proof.
  intros Hs Hi Hra. destruct Hs as [w s m Hg Hm Hall|w i s o Hn Hrd Ho|w offs Hrd Hg|w offs res q Hrd Hres Hq|
    w offs Hrd|w i ms q c Hrd Hc Hcl|w i ms q c Hrd Hc Hpc|w Hrd|w i c m rest Hc Hpc Hlt Hbuf|w i c m rest Hc Hpc Hlt|
    w i c Hc Hpc|w i c q Hc Hpc Hrd|w i c Hc Hgo Ht|w i c Hc|w i c Hc Hpc Hcl|w i c Hc Hpc Hrd].
  - by apply delivery_inv_publish.
  - assert (Hno : rd w = Gathering ∨ ∃ offs, rd w = Reading offs ∧ offs !! s = None).
    { destruct Hrd as [?|(offs & E)]; [by left|right]. exists offs. split; [done|]. simpl in Hra. rewrite E in Hra.
      apply orb_false_elim in Hra as [_ Hx%bool_decide_eq_false]. by apply eq_None_not_Some. }
    destruct (inv_subscribe w i s o Hi Hno Ho) as [? ? ?]. by split.
  - by apply inv_gather.
  - by eapply inv_read.
  - by apply inv_set_rd.
  - by eapply inv_pop.
  - assert (Hal : aligned (log w (stream (core c))) (offset (core c)) ms).
    { destruct Hi as [_ _ Hr]. unfold reader_ok in Hr. rewrite Hrd in Hr. eapply Hr; [left|done]. }
    assert (Hi' : inv (set_sub i (set_pc (InBatch ms) c) (set_rd (Sending q) w))).
    { apply (inv_same _ i c); [by eapply inv_pop|done..|]. by intros ms' [= <-]. }
    destruct Hi' as [? ? Hr]. by split.
  - by apply inv_set_rd.
  - destruct (processMsg_ok (log w (stream (core c))) c m rest) as [Hok Hle]; [by apply inv_logs|exact (inv_subs w Hi i c Hc)|done|].
    apply (inv_set_sub w i c); [done..| |done|done]. simpl. unfold processMsg. by rewrite Hlt.
  - destruct (processMsg_ok (log w (stream (core c))) c m rest) as [Hok Hle]; [by apply inv_logs|exact (inv_subs w Hi i c Hc)|done|].
    apply (inv_set_sub w i c); [done..| |done|done]. simpl. unfold processMsg. by rewrite Hlt.
  - apply (inv_same w i c); [done..|]. by intros ms [=].
  - assert (Hi' : inv (set_sub i (set_pc (if closed c then Finished else Selecting) c) w)).
    { apply (inv_same _ i c); [done..|]. intros ms. simpl. by destruct (closed c). }
    destruct Hi' as [? ? Hr]. split; [done..|]. unfold reader_ok in *. simpl in Hr. rewrite Hrd in Hr. done.
  - apply (inv_same w i c); [done..|]. intros ms Hms. simpl in Hms. exact (ok_batch _ _ (inv_subs w Hi i c Hc) ms Hms).
  - apply (inv_same w i c); [done..|]. intros ms Hms. simpl in Hms. exact (ok_batch _ _ (inv_subs w Hi i c Hc) ms Hms).
  - apply (inv_same w i c); [done..|]. by intros ms [=].
  - destruct Hi as [Hl Hsu Hr]. split; [done| |].
    + intros j d Hj. simpl in Hj. apply lookup_delete_Some in Hj as [_ Hj]. by apply Hsu in Hj.
    + unfold reader_ok in *. simpl. destruct Hrd as [->|(offs & E)]; [done|]. rewrite E in *.
      intros j d o Hj. simpl in Hj. apply lookup_delete_Some in Hj as [_ Hj]. by eapply Hr.
Qed.

Lemma delivery_inv w : rtc (step good) init w → raced w = false → inv w.
Proof.
  intros Hr. refine (rtc_ind_r (λ w, raced w = false → inv w) init _ _ w Hr).
  - intros _. split; [|done|done]. intros s. split; [constructor|]. unfold log. simpl. by rewrite lookup_empty.
  - intros w1 w2 _ Hs IH Hra. eapply delivery_step_inv; [done| |done]. apply IH. by eapply step_raced.
Qed.

(** C17: delivery in order and without gaps.  For ids on which [offsetLessThan]
    is the order of the stream, in every interleaving of publishers, the reader,
    any number of subscribers and their clients, in which nobody subscribes to a
    stream while the reader is waiting for that stream: what a subscriber has been
    given is a prefix of the messages after the offset it started at, in order,
    each once. *)
Theorem delivery_without_gaps w i c :
  rtc (step good) init w → raced w = false → subs w !! i = Some c →
  out (core c) `prefix_of` after (from c) (log w (stream (core c))).
Proof.
  intros Hr Hra Hc. apply delivery_inv in Hr as Hi; [|done].
  eexists. symmetry. apply (ok_out _ _ (inv_subs w Hi i c Hc)).
Qed.
End delivery.

(** ** Ids with one message per millisecond are compared correctly *)

Definition plain_id (o : string) : Prop :=
  o = minOffset ∨ ∃ ms, o = id_of ms "0" ∧ is_digits ms = true ∧ String.length ms = 13 ∧ (0 < val ms)%Z.

Lemma min_before ms :
  is_digits ms = true → String.length ms = 13 → String.ltb "0" ms = true ∧ String.ltb ms "0" = false.
Proof.
  destruct ms as [|c [|c' ms]]; try done. simpl. intros [Hc _]%andb_prop _.
  destruct c as [[] [] [] [] [] [] [] []]; try discriminate Hc; split; reflexivity.
Qed.

Lemma plain_ids_good : good_ids plain_id.
Proof.
  split.
  - intros a b [->|(ms & -> & Hd & Hl & Hv)] [->|(ms' & -> & Hd' & Hl' & Hv')].
    + done.
    + destruct (min_before ms' Hd' Hl') as [H1 H2]. unfold offsetLessThan. rewrite split_id by done.
      change (str_split "-" minOffset) with ["0"]. change (part0 ["0"]) with "0".
      change (part0 [ms'; "0"]) with ms'. rewrite H1.
      symmetry. apply bool_decide_eq_true. unfold id_lt. rewrite id_key_of by done. left. exact Hv'.
    + destruct (min_before ms Hd Hl) as [H1 H2]. unfold offsetLessThan. rewrite split_id by done.
      change (str_split "-" minOffset) with ["0"]. change (part0 ["0"]) with "0".
      change (part0 [ms; "0"]) with ms. rewrite H2. rewrite decide_True by (right; done).
      symmetry. apply bool_decide_eq_false. unfold id_lt. rewrite id_key_of by done.
      change (id_key minOffset) with (0, 0)%Z. cbn [fst snd]. lia.
    + rewrite offsetLessThan_of by done. apply bool_decide_ext. unfold id_lt. rewrite !id_key_of by done.
      cbn [fst snd]. lia.
  - by left.
  - intros a [->|(ms & -> & _)]; [done|]. unfold id_of, emptyOffset. by destruct ms.
Qed.

(** ** A subscriber that is left with a full buffer stops the reader *)

Section jam.
Context (good : string → Prop).

(** A subscriber that is inside a batch, or has just done one, is the one the reader
    waits for; no buffer is overfull. *)
Record orderly (w : world) : Prop := {
  or_busy : ∀ j c, subs w !! j = Some c → at_pc c = Selecting ∨ at_pc c = Finished ∨ ∃ q, rd w = Waiting j q;
  or_room : ∀ j c, subs w !! j = Some c → buffered c <= bufferSize }.

Lemma orderly_set w j c c' :
  orderly w → subs w !! j = Some c → (at_pc c' = Selecting ∨ at_pc c' = Finished ∨ ∃ q, rd w = Waiting j q) →
  buffered c' <= bufferSize → orderly (set_sub j c' w).
Proof.
  intros [Hb Hr] Hj Hp Hn. split; intros k d; simpl; rewrite lookup_insert; case_decide as E.
  - intros [= <-]. by subst k.
  - apply Hb.
  - by intros [= <-].
  - apply Hr.
Qed.

Lemma orderly_rd w r :
  orderly w → (∀ j q, rd w ≠ Waiting j q) → orderly (set_rd r w).
Proof.
  intros [Hb Hr] Hw. split; [|exact Hr]. intros j c Hj. destruct (Hb j c Hj) as [?|[?|[q Hq]]]; [by left|by right; left|].
  by apply Hw in Hq.
Qed.

Lemma processMsg_out x m :
  out (processMsg x m) = if offsetLessThan (offset x) (msg_offset m) then out x ++ [m] else out x.
Proof. unfold processMsg. by destruct (offsetLessThan _ _). Qed.

Lemma step_orderly w w' : step good w w' → orderly w → orderly w'.
Proof.
  intros Hs Hi. destruct Hs as [w s m Hg Hm Hall|w j s o Hn Hrd Ho|w offs Hrd Hg|w offs res q Hrd Hres Hq|
    w offs Hrd|w j ms q c Hrd Hc Hcl|w j ms q c Hrd Hc Hpc|w Hrd|w j c m rest Hc Hpc Hlt Hbuf|w j c m rest Hc Hpc Hlt|
    w j c Hc Hpc|w j c q Hc Hpc Hrd|w j c Hc Hgo Ht|w j c Hc|w j c Hc Hpc Hcl|w j c Hc Hpc Hrd].
  - by destruct Hi.
  - destruct Hi as [Hb Hr]. split; intros k d; simpl; rewrite lookup_insert; case_decide as E.
    + intros [= <-]. by left.
    + apply Hb.
    + intros [= <-]. unfold buffered, bufferSize. simpl. lia.
    + apply Hr.
  - apply orderly_rd; [done|congruence].
  - apply orderly_rd; [done|congruence].
  - apply orderly_rd; [done|congruence].
  - apply orderly_rd; [done|congruence].
  - assert (Hother : orderly (set_rd (Waiting j q) w)) by (apply orderly_rd; [done|congruence]).
    destruct Hother as [Hb Hr]. split; intros k d; simpl; rewrite lookup_insert; case_decide as E.
    + intros _. right. right. subst k. by exists q.
    + apply Hb.
    + intros [= <-]. exact (or_room _ Hi _ _ Hc).
    + apply Hr.
  - apply orderly_rd; [done|congruence].
  - eapply orderly_set; [done..| |].
    + right. right. destruct (or_busy _ Hi _ _ Hc) as [?|[?|?]]; [congruence..|done].
    + unfold buffered in *. simpl. rewrite processMsg_out, Hlt, length_app. simpl. lia.
  - eapply orderly_set; [done..| |].
    + right. right. destruct (or_busy _ Hi _ _ Hc) as [?|[?|?]]; [congruence..|done].
    + unfold buffered. simpl. rewrite processMsg_out, Hlt. by apply (or_room _ Hi _ _ Hc).
  - eapply orderly_set; [done..| |by apply (or_room _ Hi _ _ Hc)].
    right. right. destruct (or_busy _ Hi _ _ Hc) as [?|[?|?]]; [congruence..|done].
  - split; intros k d; simpl; rewrite lookup_insert; case_decide as E.
    + intros [= <-]. simpl. destruct (closed c); auto.
    + intros Hk. destruct (or_busy _ Hi _ _ Hk) as [?|[?|[q' Hq']]]; [auto..|]. congruence.
    + intros [= <-]. apply (or_room _ Hi _ _ Hc).
    + apply (or_room _ Hi).
  - eapply orderly_set; [done..|by apply (or_busy _ Hi _ _ Hc)|].
    pose proof (or_room _ Hi _ _ Hc). unfold buffered in *. simpl. lia.
  - eapply orderly_set; [done..|by apply (or_busy _ Hi _ _ Hc)|by apply (or_room _ Hi _ _ Hc)].
  - eapply orderly_set; [done..|by right; left|by apply (or_room _ Hi _ _ Hc)].
  - split; intros k d; simpl; rewrite lookup_delete; case_decide; try done; [apply (or_busy _ Hi)|apply (or_room _ Hi)].
Qed.

Lemma reached_orderly w : rtc (step good) init w → orderly w.
Proof.
  assert (H0 : orderly init) by (split; intros j c; simpl; by rewrite lookup_empty).
  intros Hr. induction Hr as [|w1 w2 w3 Hs Hr IH]; [done|]. by apply IH, (step_orderly w1).
Qed.

(** The messages that are still to be received when the batch is done, if the client
    receives none. *)
Definition undelivered (c : conn) (rest : list message) : nat :=
  length (out (foldl processMsg (core c) rest)) - taken c.

(** The reader waits for subscriber [i], inside a batch that does not fit into its
    buffer, which its client no longer empties; every other subscriber is between
    batches and has been given what it had been given in [w0]. *)
Record jammed (w0 : world) (i : nat) (w : world) : Prop := {
  jam_orderly : orderly w;
  jam_reader : ∃ q, rd w = Waiting i q;
  jam_sub : ∃ c rest, subs w !! i = Some c ∧ at_pc c = InBatch rest ∧ bufferSize < undelivered c rest ∧ gone c = true;
  jam_others : ∀ j c', subs w !! j = Some c' → j ≠ i → ∃ c, subs w0 !! j = Some c ∧ out (core c') = out (core c) }.

(** A step of another subscriber. *)
Lemma jammed_other w0 i w j c c' :
  jammed w0 i w → orderly (set_sub j c' w) → subs w !! j = Some c → j ≠ i → core c' = core c →
  jammed w0 i (set_sub j c' w).
Proof.
  intros [_ Hr (ci & rest & Hi & Hc) Ho] Hord Hj Hne Ec. split; [done..| |].
  - exists ci, rest. simpl. by rewrite lookup_insert_ne.
  - intros k d Hk Hki. simpl in Hk. apply lookup_insert_Some in Hk as [[<- <-]|[_ Hk]]; [|by apply Ho].
    destruct (Ho _ _ Hj Hne) as (c0 & H0 & E). exists c0. by rewrite Ec.
Qed.

(** A step of the stuck one. *)
Lemma jammed_self w0 i w c' rest :
  jammed w0 i w → orderly (set_sub i c' w) → at_pc c' = InBatch rest → bufferSize < undelivered c' rest → gone c' = true →
  jammed w0 i (set_sub i c' w).
Proof.
  intros [_ Hr _ Ho] Hord Hp Hu Hg. split; [done..| |].
  - exists c', rest. simpl. by rewrite lookup_insert_eq.
  - intros k d Hk Hki. simpl in Hk. rewrite lookup_insert_ne in Hk by done. by apply Ho.
Qed.

Lemma reader_jammed_step w0 i w w' : step good w w' → jammed w0 i w → jammed w0 i w'.
Proof.
  intros Hs Hj. pose proof (step_orderly _ _ Hs (jam_orderly _ _ _ Hj)) as Hord.
  destruct Hj as [Hi0 [q0 Hrd0] (ci & rest0 & Hci & Hpc0 & Hu0 & Hg0) Ho0] eqn:EJ. clear EJ.
  assert (Hbusy : ∀ j c, subs w !! j = Some c → j ≠ i → at_pc c = Selecting ∨ at_pc c = Finished).
  { intros j c Hc Hne. destruct (or_busy _ Hi0 _ _ Hc) as [?|[?|[q Hq]]]; [auto..|]. congruence. }
  destruct Hs as [w s m Hg Hm Hall|w j s o Hn Hrd Ho|w offs Hrd Hg|w offs res q Hrd Hres Hq|
    w offs Hrd|w j ms q c Hrd Hc Hcl|w j ms q c Hrd Hc Hpc|w Hrd|w j c m rest Hc Hpc Hlt Hbuf|w j c m rest Hc Hpc Hlt|
    w j c Hc Hpc|w j c q Hc Hpc Hrd|w j c Hc Hgo Ht|w j c Hc|w j c Hc Hpc Hcl|w j c Hc Hpc Hrd]; try congruence.
  - by destruct Hj.
  - destruct Hrd as [?|[? ?]]; congruence.
  - destruct (decide (j = i)) as [->|Hne]; [|destruct (Hbusy _ _ Hc Hne); congruence].
    assert (c = ci) as -> by congruence. assert (rest0 = m :: rest) as -> by congruence.
    by apply (jammed_self _ _ _ _ rest).
  - destruct (decide (j = i)) as [->|Hne]; [|destruct (Hbusy _ _ Hc Hne); congruence].
    assert (c = ci) as -> by congruence. assert (rest0 = m :: rest) as -> by congruence.
    by apply (jammed_self _ _ _ _ rest).
  - destruct (decide (j = i)) as [->|Hne]; [|destruct (Hbusy _ _ Hc Hne); congruence].
    exfalso. assert (c = ci) as -> by congruence. assert (rest0 = []) as -> by congruence.
    pose proof (or_room _ Hi0 _ _ Hci). unfold undelivered, buffered in *. simpl in Hu0. lia.
  - destruct (decide (j = i)) as [->|Hne]; [congruence|]. by apply (jammed_other _ _ _ j c).
  - destruct (decide (j = i)) as [->|Hne]; [|by apply (jammed_other _ _ _ j c)].
    assert (c = ci) as -> by congruence. by apply (jammed_self _ _ _ _ rest0).
  - destruct (decide (j = i)) as [->|Hne]; [congruence|]. by apply (jammed_other _ _ _ j c).
  - destruct Hrd as [?|[? ?]]; congruence.
Qed.

Lemma jammed_forever w0 i w w' : rtc (step good) w w' → jammed w0 i w → jammed w0 i w'.
Proof. induction 1; eauto using reader_jammed_step. Qed.

(** A batch that fits is done, and the reader goes on. *)
Lemma batch_finishes w i c rest q :
  subs w !! i = Some c → at_pc c = InBatch rest → rd w = Waiting i q → undelivered c rest <= bufferSize →
  ∃ w', rtc (step good) w w' ∧ rd w' = Sending q.
Proof.
  revert w c. induction rest as [|m rest IH]; intros w c Hc Hp Hq Hu.
  - exists (set_rd (Sending q) (set_sub i (set_pc (if closed c then Finished else Selecting) (set_pc Notifying c))
      (set_sub i (set_pc Notifying c) w))). split; [|done].
    eapply rtc_l; [by eapply step_batch_done|]. apply rtc_once.
    apply (step_notify good (set_sub i (set_pc Notifying c) w) i (set_pc Notifying c) q); [apply lookup_insert_eq|done..].
  - set (c' := set_pc (InBatch rest) (set_core (processMsg (core c) m) c)).
    destruct (IH (set_sub i c' w) c') as (w' & Hr & Hw'); [apply lookup_insert_eq|done..|]. exists w'. split; [|done].
    eapply rtc_l; [|exact Hr]. destruct (offsetLessThan (offset (core c)) (msg_offset m)) eqn:Hlt.
    + apply step_push; [done..|]. unfold undelivered, buffered in *. simpl in Hu.
      assert (Hm : ∀ l x, length (out x) <= length (out (foldl processMsg x l))).
      { intros l. induction l as [|y l IHl]; intros x; [done|]. simpl. etransitivity; [|apply IHl].
        rewrite processMsg_out. case_match; [rewrite length_app|]; lia. }
      specialize (Hm rest (processMsg (core c) m)). rewrite processMsg_out, Hlt, length_app in Hm. simpl in Hm. unfold bufferSize in *. lia.
    + by apply step_skip.
Qed.

(** C24: one client that leaves stops the broker.  Take any reachable state of reader,
    subscribers, clients and publishers in which a client has disconnected while its
    subscriber is inside a batch.  If more than ten messages are undelivered, counting
    those that the rest of the batch adds, then whatever happens, the reader waits for
    this subscriber for ever: it is never removed, no other subscriber is given another
    message, and nobody can subscribe.  If there are at most ten, the batch can be done
    and the reader goes on. *)
Theorem gone_subscriber_jams_broker w i c rest :
  rtc (step good) init w → subs w !! i = Some c → at_pc c = InBatch rest → gone c = true →
  (10 < undelivered c rest → ∀ w', rtc (step good) w w' →
     (∃ q, rd w' = Waiting i q) ∧ is_Some (subs w' !! i) ∧
     (∀ j c', subs w' !! j = Some c' → j ≠ i → ∃ c0, subs w !! j = Some c0 ∧ out (core c') = out (core c0)) ∧
     (∀ j, subs w !! j = None → subs w' !! j = None)) ∧
  (undelivered c rest <= 10 → ∃ w' q, rtc (step good) w w' ∧ rd w' = Sending q).
Proof.
  intros Hr Hc Hp Hg. pose proof (reached_orderly w Hr) as Ho.
  assert (Hq : ∃ q, rd w = Waiting i q) by (destruct (or_busy _ Ho _ _ Hc) as [?|[?|?]]; [congruence..|done]).
  split.
  - intros Hu w' Hw. destruct (jammed_forever w i w w' Hw) as [_ Hr' (c' & rest' & Hc' & _) Hoth].
    { split; [done..| |]; [by exists c, rest|]. intros j c' Hj _. by exists c'. }
    split; [done|]. split; [by exists c'|]. split; [done|]. intros j Hj. destruct (subs w' !! j) as [d|] eqn:Ed; [|done].
    destruct (decide (j = i)) as [->|Hne]; [congruence|]. destruct (Hoth _ _ Ed Hne) as (c0 & ? & _). congruence.
  - intros Hu. destruct Hq as [q Hq]. destruct (batch_finishes w i c rest q) as (w' & Hw' & E); [done..|]. by exists w', q.
Qed.
End jam.

(** ** Concrete runs *)

(** The [k]-th message, one per millisecond. *)
Definition nth_msg (k : Z) : message := mkMessage (id_of (itoa (1600000000000 + k)) "0") "sealed".

Lemma plain_nth k :
  let o := msg_offset (nth_msg k) in
  is_digits (itoa (1600000000000 + k)) = true → String.length (itoa (1600000000000 + k)) = 13 →
  (0 < val (itoa (1600000000000 + k)))%Z → plain_id o ∧ id_lt minOffset o.
Proof.
  intros o Hd Hl Hv. split; [right; by eexists|]. unfold o, id_lt, nth_msg. cbn [msg_offset]. rewrite id_key_of by done.
  left. exact Hv.
Qed.

Definition published_world (s : string) (l : list message) : world := mkWorld {[s := l]} ∅ Gathering false.

Lemma publish_all s l :
  l ≠ [] → ascending l → Forall (λ m, plain_id (msg_offset m) ∧ id_lt minOffset (msg_offset m)) l →
  rtc (step plain_id) init (published_world s l).
Proof.
  induction l as [|m l IH] using rev_ind; [done|]. intros _ Ha Hf. apply Forall_app in Hf as [Hf Hm].
  apply Forall_cons in Hm as [[Hp Hlt] _].
  assert (Hall : ascending l ∧ Forall (λ x, id_lt (msg_offset x) (msg_offset m)) l).
  { clear -Ha. unfold ascending in *. induction l as [|x l IH]; simpl in Ha; [by repeat constructor|].
    apply StronglySorted_inv in Ha as [Ha Hx]. destruct (IH Ha). apply Forall_app in Hx as [Hx Hm].
    apply Forall_cons in Hm as [Hm _]. split; by constructor. }
  destruct Hall as [Hal Hall]. destruct (decide (l = [])) as [->|Hne].
  - apply rtc_once. apply (step_publish plain_id init s m); [done..|]. unfold log; simpl. by rewrite lookup_empty.
  - eapply rtc_r; [by apply IH|]. pose proof (step_publish plain_id (published_world s l) s m Hp Hlt) as Hs.
    unfold log, published_world in Hs; simpl in Hs. rewrite lookup_singleton_eq, insert_singleton_eq in Hs. by apply Hs.
Qed.

(** A check for ascending logs. *)
Fixpoint ascending_from (o : string) (l : list message) : bool :=
  match l with
  | [] => true
  | m :: l' => bool_decide (id_lt o (msg_offset m)) && ascending_from (msg_offset m) l'
  end.

Lemma ascending_from_ok o l :
  ascending_from o l = true → ascending l ∧ Forall (λ m, id_lt o (msg_offset m)) l.
Proof.
  revert o; induction l as [|m l IH]; intros o; simpl; [by repeat constructor|].
  intros [Hm%bool_decide_eq_true H]%andb_prop. destruct (IH _ H) as [Ha Hf].
  split; [by constructor|]. constructor; [done|]. eapply Forall_impl; [exact Hf|].
  intros x Hx. by eapply id_lt_trans.
Qed.

Definition run_msgs : list message := nth_msg <$> [1; 2; 3; 4; 5; 6; 7; 8; 9; 10; 11]%Z.

Lemma run_msgs_published : rtc (step plain_id) init (published_world "s" run_msgs).
Proof.
  apply publish_all; [done| |].
  - apply (ascending_from_ok minOffset). vm_compute. reflexivity.
  - unfold run_msgs. apply Forall_fmap. repeat (constructor; [apply plain_nth; vm_compute; reflexivity|]). constructor.
Qed.

(** Subscriber 0 reads "s", subscriber 1 reads "t". *)
Definition sub_s : conn := mkConn (mkSubscriber "s" "0" []) 0 Selecting false false "0".
Definition sub_t : conn := mkConn (mkSubscriber "t" "0" []) 0 Selecting false false "0".
Definition run1 : world := mkWorld {["s" := run_msgs]} (<[1 := sub_t]> (<[0 := sub_s]> ∅)) Gathering false.
Definition run2 : world := set_rd (Reading {["s" := "0"; "t" := "0"]}) run1.
Definition run3 : world := set_rd (Sending [(0, run_msgs)]) run2.

Lemma run1_subs s : subs_of s run1 = filter (on_stream s) [(1, sub_t); (0, sub_s)].
Proof. unfold subs_of. f_equal. Qed.

Lemma run3_reached : rtc (step plain_id) init run3.
Proof.
  etransitivity; [exact run_msgs_published|].
  eapply rtc_l; [apply (step_subscribe plain_id _ 0 "s" "0"); [done|by left|by left]|].
  eapply rtc_l; [apply (step_subscribe plain_id _ 1 "t" "0"); [done|by left|by left]|].
  change (rtc (step plain_id) run1 run3).
  eapply rtc_l; [apply (step_gather plain_id run1 {["s" := "0"; "t" := "0"]}); [done|]|].
  { assert (Hcases : ∀ s, (s = "s" ∧ subs_of s run1 = [(0, sub_s)]) ∨ (s = "t" ∧ subs_of s run1 = [(1, sub_t)]) ∨
      (s ≠ "s" ∧ s ≠ "t" ∧ subs_of s run1 = [])).
    { intros s. rewrite run1_subs, !filter_cons, filter_nil. unfold on_stream; simpl.
      destruct (decide ("s" = s)) as [<-|H1]; [by left|]. destruct (decide ("t" = s)) as [<-|H2]; [by right; left|].
      right; right. auto. }
    split.
    - intros s. destruct (Hcases s) as [[-> ->]|[[-> ->]|(H1 & H2 & ->)]]; [split; [done|intros _; eexists; reflexivity]..|].
      rewrite lookup_insert_ne, lookup_singleton_ne by done. split; [by intros []|done].
    - intros s o Ho. destruct (Hcases s) as [[-> Hs]|[[-> Hs]|(H1 & H2 & _)]].
      + exists [(0, sub_s)]. rewrite Hs. split; [done|]. by vm_compute in Ho; simplify_eq.
      + exists [(1, sub_t)]. rewrite Hs. split; [done|]. by vm_compute in Ho; simplify_eq.
      + by rewrite lookup_insert_ne, lookup_singleton_ne in Ho. }
  apply rtc_once. apply (step_read plain_id run2 {["s" := "0"; "t" := "0"]} [("s", run_msgs)]); [done| |].
  - constructor; [|done]. exists "0", 11. split; [done|]. vm_compute. reflexivity.
  - unfold dispatch. cbn [mbind list_bind]. rewrite app_nil_r.
    change (subs_of ("s", run_msgs).1 run2) with (subs_of "s" run1). rewrite run1_subs. done.
Qed.

(** The subscriber takes the batch, fills its buffer, and its client leaves. *)
Definition push_first (i : nat) (w : world) : world :=
  match subs w !! i with
  | Some c =>
      match at_pc c with
      | InBatch (m :: rest) => set_sub i (set_pc (InBatch rest) (set_core (processMsg (core c) m) c)) w
      | _ => w
      end
  | None => w
  end.

Definition can_push (i : nat) (w : world) : bool :=
  match subs w !! i with
  | Some c =>
      match at_pc c with
      | InBatch (m :: rest) =>
          offsetLessThan (offset (core c)) (msg_offset m) && bool_decide (buffered c < bufferSize)
      | _ => false
      end
  | None => false
  end.

Lemma push_first_step i w : can_push i w = true → step plain_id w (push_first i w).
Proof.
  unfold can_push, push_first. destruct (subs w !! i) as [c|] eqn:Hc; [|done].
  destruct (at_pc c) as [|[|m rest]| |] eqn:Hpc; try done.
  intros [Hlt Hb%bool_decide_eq_true]%andb_prop. by eapply step_push.
Qed.

Fixpoint push_n (n i : nat) (w : world) : world :=
  match n with O => w | S n' => push_n n' i (push_first i w) end.
Fixpoint can_push_n (n i : nat) (w : world) : bool :=
  match n with O => true | S n' => can_push i w && can_push_n n' i (push_first i w) end.

Lemma push_n_run n i w : can_push_n n i w = true → rtc (step plain_id) w (push_n n i w).
Proof.
  revert w; induction n as [|n IH]; intros w; simpl; [by constructor|].
  intros [H1 H2]%andb_prop. eapply rtc_l; [by apply push_first_step|by apply IH].
Qed.

Definition run4 : world := set_rd (Waiting 0 []) (set_sub 0 (set_pc (InBatch run_msgs) sub_s) run3).
Definition run5 : world := push_n 10 0 run4.
Definition stuck_sub : conn :=
  mkConn (mkSubscriber "s" (msg_offset (nth_msg 10)) (take 10 run_msgs)) 0 (InBatch [nth_msg 11]) true true "0".
Definition run6 : world := set_sub 0 stuck_sub run5.

Lemma run6_reached : rtc (step plain_id) init run6.
Proof.
  transitivity run3; [exact run3_reached|].
  apply (rtc_l _ run3 run4). { exact (step_send plain_id run3 0 run_msgs [] sub_s eq_refl eq_refl eq_refl). }
  assert (H10 : can_push_n 10 0 run4 = true) by (vm_compute; reflexivity).
  transitivity run5; [exact (push_n_run 10 0 run4 H10)|].
  assert (E : subs run5 !! 0 = Some (mkConn (core stuck_sub) 0 (InBatch [nth_msg 11]) false false "0"))
    by (vm_compute; reflexivity).
  apply rtc_once. exact (step_leave plain_id run5 0 _ E).
Qed.

(** Ten messages are in the buffer and one is left: the reader waits for ever. *)
Lemma gone_subscriber_jams_broker_witness :
  10 < undelivered stuck_sub [nth_msg 11] ∧
  ∀ w', rtc (step plain_id) run6 w' → (∃ q, rd w' = Waiting 0 q) ∧ is_Some (subs w' !! 0) ∧
    (∀ j c', subs w' !! j = Some c' → j ≠ 0 → ∃ c0, subs run6 !! j = Some c0 ∧ out (core c') = out (core c0)) ∧
    (∀ j, subs run6 !! j = None → subs w' !! j = None).
Proof.
  assert (Hu : 10 < undelivered stuck_sub [nth_msg 11]) by (vm_compute; lia).
  assert (Hc : subs run6 !! 0 = Some stuck_sub) by (vm_compute; reflexivity).
  split; [exact Hu|]. exact (proj1 (gone_subscriber_jams_broker plain_id run6 0 stuck_sub [nth_msg 11] run6_reached Hc eq_refl eq_refl) Hu).
Defined.

Lemma delivery_without_gaps_witness :
  take 10 run_msgs `prefix_of` after "0" (log run6 "s").
Proof.
  apply (delivery_without_gaps plain_id plain_ids_good run6 0 stuck_sub run6_reached); vm_compute; reflexivity.
Defined.

(** ** Subscribing while the reader waits loses messages *)

Lemma gathered_single w s i c :
  subs w = {[i := c]} → stream (core c) = s → gathered w {[s := lowestOffset [offset (core c)]]}.
Proof.
  intros Hw Hs. assert (E : ∀ s', subs_of s' w = if decide (s' = s) then [(i, c)] else []).
  { intros s'. unfold subs_of. rewrite Hw, map_to_list_singleton, filter_cons, filter_nil.
    destruct (decide (on_stream s' (i, c))) as [H|H]; unfold on_stream in H; simpl in H;
      destruct (decide (s' = s)); congruence. }
  split.
  - intros s'. rewrite E. case_decide as Hd; [subst s'; rewrite lookup_singleton_eq; split; [done|by eexists]|].
    rewrite lookup_singleton_ne by done. split; [by intros []|done].
  - intros s' o Ho. apply lookup_singleton_Some in Ho as [<- <-]. exists [(i, c)]. rewrite E, decide_True by done. done.
Qed.

Definition m1 : message := nth_msg 1.
Definition m2 : message := nth_msg 2.
Definition o1 : string := msg_offset m1.
Definition o2 : string := msg_offset m2.
Definition at_o1 (p : pc) : conn := mkConn (mkSubscriber "s" o1 [m1]) 0 p false false "0".
Definition late (p : pc) : conn := mkConn (mkSubscriber "s" "0" []) 0 p false false "0".

(** Subscriber 0 has been given the first message. *)
Definition race1 : world := mkWorld {["s" := [m1]]} {[0 := at_o1 Selecting]} Gathering false.
(** While the reader waits for what comes after it, subscriber 1 begins at the
    start of the stream, and a second message arrives. *)
Definition race2 : world :=
  mkWorld {["s" := [m1; m2]]} (<[1 := late Selecting]> {[0 := at_o1 Selecting]}) (Reading {["s" := o1]}) true.
Definition race3 : world := set_rd (Sending [(1, [m2]); (0, [m2])]) race2.
Definition race4 : world := set_rd (Waiting 1 [(0, [m2])]) (set_sub 1 (late (InBatch [m2])) race3).
Definition race5 : world := push_first 1 race4.

Lemma race1_reached : rtc (step plain_id) init race1.
Proof.
  assert (Hpub : rtc (step plain_id) init (published_world "s" [m1])).
  { apply publish_all; [done|by repeat constructor|]. constructor; [apply plain_nth; vm_compute; reflexivity|done]. }
  etransitivity; [exact Hpub|].
  set (sub p := late p). set (wd r p := mkWorld {["s" := [m1]]} {[0 := sub p]} r false).
  apply (rtc_l _ _ (wd Gathering Selecting)).
  { apply (step_subscribe plain_id (published_world "s" [m1]) 0 "s" "0"); [done|by left|by left]. }
  apply (rtc_l _ _ (wd (Reading {["s" := "0"]}) Selecting)).
  { apply (step_gather plain_id (wd Gathering Selecting) {["s" := "0"]}); [done|].
    apply (gathered_single _ "s" 0 (sub Selecting)); reflexivity. }
  apply (rtc_l _ _ (wd (Sending [(0, [m1])]) Selecting)).
  { apply (step_read plain_id (wd (Reading {["s" := "0"]}) Selecting) {["s" := "0"]} [("s", [m1])]); [done| |done].
    constructor; [|done]. exists "0", 1. split; [done|]. vm_compute. reflexivity. }
  apply (rtc_l _ _ (wd (Waiting 0 []) (InBatch [m1]))).
  { exact (step_send plain_id (wd (Sending [(0, [m1])]) Selecting) 0 [m1] [] (sub Selecting) eq_refl eq_refl eq_refl). }
  apply (rtc_l _ _ (mkWorld {["s" := [m1]]} {[0 := at_o1 (InBatch [])]} (Waiting 0 []) false)).
  { apply (push_first_step 0 (wd (Waiting 0 []) (InBatch [m1]))). vm_compute. reflexivity. }
  apply (rtc_l _ _ (mkWorld {["s" := [m1]]} {[0 := at_o1 Notifying]} (Waiting 0 []) false)).
  { exact (step_batch_done plain_id (mkWorld {["s" := [m1]]} {[0 := at_o1 (InBatch [])]} (Waiting 0 []) false) 0
      (at_o1 (InBatch [])) eq_refl eq_refl). }
  apply (rtc_l _ _ (mkWorld {["s" := [m1]]} {[0 := at_o1 Selecting]} (Sending []) false)).
  { exact (step_notify plain_id (mkWorld {["s" := [m1]]} {[0 := at_o1 Notifying]} (Waiting 0 []) false) 0
      (at_o1 Notifying) [] eq_refl eq_refl eq_refl). }
  apply rtc_once.
  exact (step_sent_all plain_id (mkWorld {["s" := [m1]]} {[0 := at_o1 Selecting]} (Sending []) false) eq_refl).
Qed.

Lemma race5_reached : rtc (step plain_id) init race5.
Proof.
  transitivity race1; [exact race1_reached|].
  apply (rtc_l _ _ (set_rd (Reading {["s" := o1]}) race1)).
  { apply (step_gather plain_id race1 {["s" := o1]}); [done|].
    apply (gathered_single _ "s" 0 (at_o1 Selecting)); reflexivity. }
  apply (rtc_l _ _ (mkWorld {["s" := [m1]]} (<[1 := late Selecting]> {[0 := at_o1 Selecting]}) (Reading {["s" := o1]}) true)).
  { exact (step_subscribe plain_id (set_rd (Reading {["s" := o1]}) race1) 1 "s" "0" eq_refl
             (or_intror (ex_intro _ {["s" := o1]} eq_refl)) (or_introl eq_refl)). }
  apply (rtc_l _ _ race2).
  { assert (Hp : plain_id o2 ∧ id_lt minOffset o2) by (apply plain_nth; vm_compute; reflexivity).
    assert (Hl : Forall (λ x, id_lt (msg_offset x) o2) [m1]).
    { constructor; [by apply (bool_decide_unpack _); vm_compute|done]. }
    exact (step_publish plain_id (mkWorld {["s" := [m1]]} (<[1 := late Selecting]> {[0 := at_o1 Selecting]})
      (Reading {["s" := o1]}) true) "s" m2 (proj1 Hp) (proj2 Hp) Hl). }
  apply (rtc_l _ _ race3).
  { apply (step_read plain_id race2 {["s" := o1]} [("s", [m2])]); [done| |done].
    constructor; [|done]. exists o1, 1. split; [done|]. vm_compute. reflexivity. }
  apply (rtc_l _ _ race4).
  { exact (step_send plain_id race3 1 [m2] [(0, [m2])] (late Selecting) eq_refl eq_refl eq_refl). }
  apply rtc_once, push_first_step. vm_compute. reflexivity.
Qed.

(** C25: subscribing at the wrong moment skips messages.  There is a reachable
    state, with one message per millisecond, in which a subscriber that began at
    the start of its stream while the reader was waiting for later messages of it
    has moved past a stored message it was never given. *)
Theorem late_subscriber_skips :
  ∃ w i c m, rtc (step plain_id) init w ∧ subs w !! i = Some c ∧
    m ∈ log w (stream (core c)) ∧ id_lt (from c) (msg_offset m) ∧
    m ∉ out (core c) ∧ id_lt (msg_offset m) (offset (core c)).
Proof.
  exists race5, 1, (mkConn (mkSubscriber "s" o2 [m2]) 0 (InBatch []) false false "0"), m1.
  split; [exact race5_reached|]. split; [vm_compute; reflexivity|]. split_and!.
  - vm_compute. left.
  - by apply (bool_decide_unpack _); vm_compute.
  - simpl. intros Hin. apply list_elem_of_singleton in Hin. by vm_compute in Hin.
  - by apply (bool_decide_unpack _); vm_compute.
Qed.
