(* ===== verification/Attachments.v ===== *)
(** * Attachments: upload authorizations

    The interface [attachments.Manager] (attachments/attachments.go) and the
    manager of the test suite (testsupport/noopattachments.go), which
    authorizes every other request. *)

From S2P Require Import Prelude Model.

Class Attachments (A : Type) : Type := {
  attachments_AuthorizeUpload : A → A * result UploadAuthorization;
  attachments_MaxAttachmentSize : A → Z;
}.

Module testsupport.

Definition maxAttachmentSize : Z := 5000000.

(** [now] is the clock the manager reads. *)
Record noopAttachmentsManager := mkNoop { count : Z; now : Z }.

Definition NewNoopAttachmentsManager (now : Z) : noopAttachmentsManager := mkNoop 0 now.

Definition AuthorizeUpload (m : noopAttachmentsManager)
    : noopAttachmentsManager * result UploadAuthorization :=
  let m' := mkNoop (wrap_i64 (count m + 1)) (now m) in
  if decide (Z.rem (count m') 2 = 1)%Z
  then (m', Ok (mkUploadAuthorization "uploadURL" {["a" := "a"]}
                  (util.UnixMillis (now m + 86400000000000)) maxAttachmentSize "downloadURL"))
  else (m', Err (Untyped "random failure")).

Definition MaxAttachmentSize (m : noopAttachmentsManager) : Z := maxAttachmentSize.

#[export] Instance noop_Attachments : Attachments noopAttachmentsManager := {|
  attachments_AuthorizeUpload := AuthorizeUpload;
  attachments_MaxAttachmentSize := MaxAttachmentSize;
|}.

End testsupport.
