(* ===== verification/S3Attachments.v ===== *)
(** * S3Attachments: upload authorizations for S3
      (attachments/s3attachments/s3attachments.go)

    The S3 client, the random ids and the clock are parameters, the class [S3] over
    a state [W].  The conditions of a policy are set by calls whose errors the code
    ignores: a call that fails leaves its condition out. *)

From S2P Require Import Prelude Text Calendar Model Attachments.

(** A [time.Time]: nanoseconds since 1970 and the offset of its zone in seconds. *)
Record Time := mkTime { time_nanos : Z; time_offset : Z }.

Inductive condition :=
| SetKey (key : string)
| SetBucket (bucket : string)
| SetExpires (nanos : Z)
| SetContentLengthRange (min max : Z).

(** [minio_accepts]: the call that sets the condition returns no error. *)
Class S3 (W : Type) : Type := {
  minio_accepts : condition → bool;
  minio_New : string → string → string → W → W * option goerror;
  uuid_NewRandom : W → W * result string;
  time_Now : W → W * Time;
  minio_SetBucketPolicy : string → string → W → W * option goerror;
  minio_PresignedPostPolicy : list condition → W → W * result (string * gmap string string);
}.

(** It has a character that is seen. *)
Definition visible (s : string) : bool :=
  existsb (λ c, let n := Ascii.nat_of_ascii c in (33 <=? n) && (n <=? 126)) (String.list_ascii_of_string s).

(** What the setters of a PostPolicy are documented to check. *)
Class S3Laws (W : Type) {S3I : S3 W} : Prop := {
  accepts_key k : visible k = true → minio_accepts (SetKey k) = true;
  accepts_bucket b : visible b = true → minio_accepts (SetBucket b) = true;
  accepts_expires t : (0 < t)%Z → minio_accepts (SetExpires t) = true;
  accepts_range a b : (0 <= a <= b)%Z → minio_accepts (SetContentLengthRange a b) = true }.

Module s3attachments.

Definition minute : Z := 60000000000.

(** [Format("20060102")] in the zone of the time. *)
Definition local_day (t : Time) : Z := ((time_nanos t + time_offset t * 1000000000) / 86400000000000)%Z.
Definition format_day (t : Time) : string := format_20060102 (civil (local_day t)).

Definition nl : string := String "010" "".
Definition tab : string := String "009" "".
Definition quoted (s : string) : string := String "034" (s +:+ String "034" "").

(** [fmt.Sprintf(bucketPolicyTemplate, bucket, policyID, bucket)] *)
Definition bucketPolicy (bucket policyID : string) : string :=
  (nl +:+ "{" +:+ nl +:+
   tab +:+ quoted "Id" +:+ ": " +:+ quoted ("PolicyAllowPublicDownloadFrom..." +:+ bucket +:+ "-" +:+ policyID) +:+ "," +:+ nl +:+
   tab +:+ quoted "Version" +:+ ": " +:+ quoted "2012-10-17" +:+ "," +:+ nl +:+
   tab +:+ quoted "Statement" +:+ ": [" +:+ nl +:+
   tab +:+ tab +:+ "{" +:+ nl +:+
   tab +:+ tab +:+ quoted "Sid" +:+ ": " +:+ quoted "ThisAutoGeneratedPolicyAllowsPublicDownloadingOfObjectsFromThisBucket" +:+ "," +:+ nl +:+
   tab +:+ tab +:+ quoted "Action" +:+ ": [" +:+ nl +:+
   tab +:+ tab +:+ tab +:+ quoted "s3:GetObject" +:+ nl +:+
   tab +:+ tab +:+ "]," +:+ nl +:+
   tab +:+ tab +:+ quoted "Effect" +:+ ": " +:+ quoted "Allow" +:+ "," +:+ nl +:+
   tab +:+ tab +:+ quoted "Resource" +:+ ": " +:+ quoted ("arn:aws:s3:::" +:+ bucket +:+ "/*") +:+ "," +:+ nl +:+
   tab +:+ tab +:+ quoted "Principal" +:+ ": " +:+ quoted "*" +:+ nl +:+
   tab +:+ tab +:+ "}" +:+ nl +:+
   tab +:+ "]" +:+ nl +:+
   "}" +:+ nl)%string.

(** The client is the parameter [W]. *)
Record manager := mkManager {
  serviceURL : string;
  bucket : string;
  presignExpiration : Z;
  maxContentLength : Z }.

Section s3attachments.
Context {W : Type} {S3I : S3 W}.

Definition wrapErr (what : string) (err : goerror) : goerror :=
  Untyped (what +:+ ": " +:+ error_text err)%string.

(** [region] is not used. *)
Definition NewManager (accessKeyID secretAccessKey endpoint region bkt : string) (expiration maxLength : Z) (w : W)
    : W * result manager :=
  match minio_New endpoint accessKeyID secretAccessKey w with
  | (w1, Some err) => (w1, Err (wrapErr "unable to build S3 client" err))
  | (w1, None) =>
      match uuid_NewRandom w1 with
      | (w2, Err err) => (w2, Err (wrapErr "unable to generate random policy id" err))
      | (w2, Ok policyID) =>
          match minio_SetBucketPolicy bkt (bucketPolicy bkt policyID) w2 with
          | (w3, Some err) => (w3, Err (wrapErr "unable to set bucket policy to allow public downloads" err))
          | (w3, None) => (w3, Ok (mkManager ("https://" +:+ endpoint) bkt expiration maxLength))
          end
      end
  end.

(** The conditions that a list of calls has set. *)
Definition policy_of (calls : list condition) : list condition := filter (λ c, minio_accepts c = true) calls.

Definition folderForToday (w : W) : W * string := let '(w', t) := time_Now w in (w', format_day t).

Definition AuthorizeUpload (m : manager) (w : W) : W * result UploadAuthorization :=
  match uuid_NewRandom w with
  | (w1, Err err) => (w1, Err (wrapErr "unable to generate random file id" err))
  | (w1, Ok id) =>
      let '(w2, folder) := folderForToday w1 in
      let key := (folder +:+ "/" +:+ id)%string in
      let '(w3, now) := time_Now w2 in
      let expiration := (time_nanos now + presignExpiration m)%Z in
      let calls := [SetKey key; SetBucket (bucket m); SetExpires (expiration + 1 * minute);
                    SetContentLengthRange 1 (maxContentLength m)] in
      match minio_PresignedPostPolicy (policy_of calls) w3 with
      | (w4, Err err) => (w4, Err (wrapErr "unable to generate presigned POST request" err))
      | (w4, Ok (u, formData)) =>
          (w4, Ok (mkUploadAuthorization u formData (util.UnixMillis (expiration + -1 * minute))
                     (maxContentLength m) (serviceURL m +:+ "/" +:+ bucket m +:+ "/" +:+ key)))
      end
  end.

Definition MaxAttachmentSize (m : manager) : Z := maxContentLength m.

Definition s3_Attachments : Attachments (manager * W) := {|
  attachments_AuthorizeUpload := λ mw, let '(w, r) := AuthorizeUpload mw.1 mw.2 in ((mw.1, w), r);
  attachments_MaxAttachmentSize := λ mw, MaxAttachmentSize mw.1;
|}.

End s3attachments.
End s3attachments.

Import s3attachments.

(** ** What a policy demands *)

Fixpoint policy_key (p : list condition) : option string :=
  match p with SetKey k :: _ => Some k | _ :: p' => policy_key p' | [] => None end.
Fixpoint policy_bucket (p : list condition) : option string :=
  match p with SetBucket b :: _ => Some b | _ :: p' => policy_bucket p' | [] => None end.
Fixpoint policy_expires (p : list condition) : option Z :=
  match p with SetExpires t :: _ => Some t | _ :: p' => policy_expires p' | [] => None end.
Fixpoint policy_length (p : list condition) : option (Z * Z) :=
  match p with SetContentLengthRange a b :: _ => Some (a, b) | _ :: p' => policy_length p' | [] => None end.

Section facts.
Context {W : Type} {S3I : S3 W} {S3L : S3Laws W}.
Implicit Types (m : manager) (w : W).

(** The time is in a year of four digits. *)
Definition four_digit_year (t : Time) : Prop := (0 <= (civil (local_day t)).1.1 < 10000)%Z.

Lemma format_day_spec t :
  four_digit_year t → parse_20060102 (format_day t) = civil (local_day t) ∧ String.length (format_day t) = 8.
Proof.
  unfold four_digit_year, format_day. pose proof (civil_valid (local_day t)) as Hv.
  destruct (civil (local_day t)) as [[y mo] d]. cbn [fst] in *. destruct Hv as [Hm [Hd0 Hd]]. intros Hy.
  apply format_parse; [lia..|]. unfold days_in_month in Hd. repeat case_decide; try destruct (leap y); lia.
Qed.

(** Attachments are filed by day: the name of the folder for a time, read back
    as a date and counted by the leap years and lengths of months of the Gregorian
    calendar, is the day of that time in the local zone; so two times have the same
    folder exactly if they are on the same local day. *)
Theorem folders_name_days t t' :
  four_digit_year t → four_digit_year t' →
  day_number (parse_20060102 (format_day t)) = local_day t ∧
  (format_day t = format_day t' ↔ local_day t = local_day t').
Proof.
  intros H H'. destruct (format_day_spec t H) as [E _]. destruct (format_day_spec t' H') as [E' _].
  rewrite E. split; [apply civil_spec|]. split; [|intros Hd; unfold format_day; by rewrite Hd].
  intros Ef. rewrite <- (proj2 (civil_spec (local_day t))), <- (proj2 (civil_spec (local_day t'))). congruence.
Qed.

(** The two instants of the authorization. *)
Definition expires_before (auth : UploadAuthorization) (nanos : Z) : Prop :=
  let ms := UploadAuthorization_AuthorizationExpiresAt auth in
  (ms * 1000000 <= nanos - 2 * minute < (ms + 1) * 1000000)%Z.

Lemma policy_of_all (l : list condition) : (∀ c, c ∈ l → minio_accepts c = true) → policy_of l = l.
Proof.
  unfold policy_of. induction l as [|c l IH]; intros H; [done|].
  rewrite filter_cons_True by (apply H; set_solver). f_equal. apply IH. set_solver.
Qed.

Lemma visible_app a b : visible (a +:+ b) = visible a || visible b.
Proof.
  assert (E : String.list_ascii_of_string (a +:+ b) = String.list_ascii_of_string a ++ String.list_ascii_of_string b).
  { induction a as [|c a IH]; [done|]. simpl. by f_equal. }
  unfold visible. by rewrite E, existsb_app.
Qed.

(** C40: an upload authorization is consistent.  The conditions set for the policy
    that is presigned for the upload name the manager's bucket, limit the size to what
    the client is told, and have a key in a folder named for the local day; the form
    of the signature is the one the client is given; the download URL leads to that
    key in that bucket; and the client is told an expiration two minutes (to the
    millisecond) before that of the policy.  The errors of setting conditions are
    ignored; with a bucket that has a name, a limit of at least one byte and an
    expiration after 1970 there are none, and the policy that is presigned has
    exactly these conditions. *)
Theorem upload_authorization_consistent m w w' auth :
  AuthorizeUpload m w = (w', Ok auth) →
  ∃ w1 policy form key exp t id,
    minio_PresignedPostPolicy (policy_of policy) w1 = (w', Ok (UploadAuthorization_UploadURL auth, form)) ∧
    UploadAuthorization_UploadFormData auth = form ∧
    policy_key policy = Some key ∧ policy_bucket policy = Some (bucket m) ∧
    policy_length policy = Some (1%Z, UploadAuthorization_MaxUploadSize auth) ∧
    policy_expires policy = Some exp ∧
    (visible (bucket m) = true → (1 <= maxContentLength m)%Z → (0 < exp)%Z → policy_of policy = policy) ∧
    UploadAuthorization_DownloadURL auth = (serviceURL m +:+ "/" +:+ bucket m +:+ "/" +:+ key)%string ∧
    (uuid_NewRandom w).2 = Ok id ∧ (∃ w0, (time_Now w0).2 = t) ∧
    (four_digit_year t → ∃ folder, key = (folder +:+ "/" +:+ id)%string ∧ parse_20060102 folder = civil (local_day t)) ∧
    ((0 <= exp - 2 * minute < two63)%Z → expires_before auth exp).
Proof.
  unfold AuthorizeUpload, folderForToday. destruct (uuid_NewRandom w) as [w1 [id|err]]; [|done].
  destruct (time_Now w1) as [w2 t] eqn:Et. destruct (time_Now w2) as [w3 now].
  destruct (minio_PresignedPostPolicy _ w3) as [w4 [[u form]|err]] eqn:Ep; [|done]. intros [= <- <-].
  eexists w3, _, form, _, _, t, id. split_and!; try exact Ep; try done; [|..].
  - intros Hb Hm He. apply policy_of_all. intros c. rewrite !elem_of_cons, elem_of_nil. intros [->|[->|[->|[->|[]]]]].
    + apply accepts_key. rewrite !visible_app. by rewrite orb_true_r.
    + by apply accepts_bucket.
    + by apply accepts_expires.
    + apply accepts_range. lia.
  - exists w1. by rewrite Et.
  - intros Hy. eexists. split; [done|]. by apply format_day_spec.
  - intros Hr. unfold expires_before, util.UnixMillis, util.nanosPerMilli. cbn [UploadAuthorization_AuthorizationExpiresAt].
    replace (time_nanos now + presignExpiration m + -1 * minute)%Z
      with (time_nanos now + presignExpiration m + 1 * minute - 2 * minute)%Z by lia.
    set (x := (time_nanos now + presignExpiration m + 1 * minute - 2 * minute)%Z) in *.
    rewrite wrap_i64_small by (unfold in_i64; lia). rewrite Z.quot_div_nonneg by lia. Z.div_mod_to_equations. lia.
Qed.

(** Where an authorized upload is found. *)
Lemma AuthorizeUpload_url m w w' auth :
  AuthorizeUpload m w = (w', Ok auth) →
  ∃ id t w0, (uuid_NewRandom w).2 = Ok id ∧ (time_Now w0).2 = t ∧
    UploadAuthorization_DownloadURL auth =
      (serviceURL m +:+ "/" +:+ bucket m +:+ "/" +:+ format_day t +:+ "/" +:+ id)%string.
Proof.
  unfold AuthorizeUpload, folderForToday. destruct (uuid_NewRandom w) as [w1 [id|err]]; [|done].
  destruct (time_Now w1) as [w2 t] eqn:Et. destruct (time_Now w2) as [w3 now].
  destruct (minio_PresignedPostPolicy _ w3) as [w4 [[u form]|err]]; [|done]. intros [= <- <-].
  exists id, t, w1. by rewrite Et.
Qed.

(** Two uploads never share a place: as long as the random ids differ, so do the
    download URLs, on the same day or on different ones. *)
Theorem download_urls_distinct m w1 w1' auth1 id1 w2 w2' auth2 id2 :
  (∀ w, four_digit_year (time_Now w).2) →
  AuthorizeUpload m w1 = (w1', Ok auth1) → (uuid_NewRandom w1).2 = Ok id1 →
  AuthorizeUpload m w2 = (w2', Ok auth2) → (uuid_NewRandom w2).2 = Ok id2 → id1 ≠ id2 →
  UploadAuthorization_DownloadURL auth1 ≠ UploadAuthorization_DownloadURL auth2.
Proof.
  intros Hy (i1 & t1 & v1 & I1 & T1 & ->)%AuthorizeUpload_url E1 (i2 & t2 & v2 & I2 & T2 & ->)%AuthorizeUpload_url E2 Hne E.
  do 4 apply str_app_inj_l in E. rewrite E1 in I1. rewrite E2 in I2. injection I1 as ->. injection I2 as ->.
  destruct (format_day_spec t1) as [_ L1]; [rewrite <- T1; apply Hy|].
  destruct (format_day_spec t2) as [_ L2]; [rewrite <- T2; apply Hy|].
  apply (f_equal (str_drop 8)) in E. rewrite !str_drop_app_length in E by done.
  by apply str_app_inj_l in E.
Qed.
End facts.

(** ** An S3 whose ids count up *)

Definition demo_time : Time := mkTime 1617148800000000000 0.

Definition counting_S3 : S3 Z := {|
  minio_accepts := λ c, match c with
                        | SetKey k | SetBucket k => visible k
                        | SetExpires t => bool_decide (0 < t)%Z
                        | SetContentLengthRange a b => bool_decide (0 <= a <= b)%Z
                        end;
  minio_New := λ _ _ _ w, (w, None);
  uuid_NewRandom := λ w, ((w + 1)%Z, Ok (itoa w));
  time_Now := λ w, (w, demo_time);
  minio_SetBucketPolicy := λ _ _ w, (w, None);
  minio_PresignedPostPolicy := λ p w, (w, Ok ("https://s3/upload", ∅));
|}.

Lemma counting_S3_laws : @S3Laws Z counting_S3.
Proof. split; simpl; intros; by try apply bool_decide_eq_true. Qed.

Definition demo_manager : manager := mkManager "https://s3" "files" 86400000000000 100000000.

Lemma upload_authorization_consistent_witness :
  ∃ auth policy, AuthorizeUpload (S3I:=counting_S3) demo_manager 0%Z = (1%Z, Ok auth) ∧
    policy_bucket policy = Some "files" ∧ policy_length policy = Some (1%Z, 100000000%Z) ∧
    UploadAuthorization_DownloadURL auth = "https://s3/files/20210331/0".
Proof.
  destruct (upload_authorization_consistent (S3I:=counting_S3) (S3L:=counting_S3_laws) demo_manager 0%Z 1%Z _ eq_refl)
    as (w1 & policy & form & key & exp & t & id & _ & _ & _ & Hb & Hl & _).
  eexists _, policy. split; [reflexivity|]. split; [exact Hb|]. split; [exact Hl|reflexivity].
Defined.

Lemma demo_year : ∀ w, four_digit_year (@time_Now Z counting_S3 w).2.
Proof. intros w. unfold four_digit_year. vm_compute. by split. Qed.

Lemma folders_name_days_witness : day_number (parse_20060102 (format_day demo_time)) = local_day demo_time.
Proof. exact (proj1 (folders_name_days demo_time demo_time (demo_year 0) (demo_year 0))). Defined.

Lemma download_urls_distinct_witness :
  match AuthorizeUpload (S3I:=counting_S3) demo_manager 0%Z, AuthorizeUpload (S3I:=counting_S3) demo_manager 1%Z with
  | (_, Ok auth1), (_, Ok auth2) => UploadAuthorization_DownloadURL auth1 ≠ UploadAuthorization_DownloadURL auth2
  | _, _ => False
  end.
Proof.
  exact (download_urls_distinct (S3I:=counting_S3) demo_manager 0%Z _ _ _ 1%Z _ _ _ demo_year eq_refl eq_refl eq_refl eq_refl
           ltac:(done)).
Defined.
