(* ===== verification/Forwarder.v ===== *)
(** * Forwarder: sending messages to other tasses

    forwarder/forwarder.go, with the dial functions of
    forwarder/memforwarder/memforwarder.go and
    forwarder/webforwarder/webforwarder.go.  A callback ([finished]) is
    represented by the data its closure captures, of a type [K]; [Forward]
    returns what it does outside its own state as an [action]. *)

From S2P Require Import Prelude Model.

Module forwarder.
Section forwarder.
Context {N Conn K : Type}.
(** [Dial]; the network [N] is whatever dialling may change. *)
Context (dial : string → N → N * result Conn).

Record Forwarder := mkForwarder {
  conns : gmap string Conn;
  callbacks : gmap Z K;
  mb : MessageBuilder }.

Definition New : Forwarder := mkForwarder ∅ ∅ (mkMessageBuilder 0).

(** A call of [finished], or a send on a connection; [dialled] says that the
    connection is new, so that a goroutine running [readFrom] was started. *)
Inductive action :=
| Finished (finished : K) (err : goerror)
| Sending (conn : Conn) (dialled : bool) (fullMsg : Message).

(** After the connection is there: number the message and file the callback.  A
    missing message is sent as an empty one, which is what its wire form is
    read back as; forwardMessage never gets here with one. *)
Definition sendOn (conn : Conn) (dialled : bool) (msg : ForwardedMessage) (finished : K)
    (f : Forwarder) : Forwarder * action :=
  let '(b, fullMsg) := Build (mb f)
    (Message_OutboundMessage (default (mkOutboundMessage None None) (GetMessage (Some msg)))) in
  (mkForwarder (conns f) (<[Message_Sequence fullMsg := finished]> (callbacks f)) b,
   Sending conn dialled fullMsg).

Definition dialError (tassisHost : string) (err : goerror) : goerror :=
  Untyped ("unable to connect to " +:+ tassisHost +:+ ": " +:+ error_text err)%string.

Definition Forward (msg : ForwardedMessage) (tassisHost : string) (finished : K)
    (n : N) (f : Forwarder) : N * Forwarder * action :=
  match conns f !! tassisHost with
  | Some conn => let '(f', a) := sendOn conn false msg finished f in (n, f', a)
  | None =>
      match dial tassisHost n with
      | (n', Err err) => (n', f, Finished finished (dialError tassisHost err))
      | (n', Ok conn) =>
          let '(f', a) := sendOn conn true msg finished
            (mkForwarder (<[tassisHost := conn]> (conns f)) (callbacks f) (mb f)) in
          (n', f', a)
      end
  end.

(** The callback to call, if any, with the error. *)
Definition triggerCallbackFor (msg : Message) (err : option goerror) (f : Forwarder)
    : Forwarder * option (K * option goerror) :=
  let seq := Message_Sequence msg in
  match callbacks f !! seq with
  | Some finished =>
      (mkForwarder (conns f) (delete seq (callbacks f)) (mb f), Some (finished, err))
  | None => (f, None)
  end.

(** One turn of [readFrom]. *)
Definition readFrom (msg : Message) (f : Forwarder) : Forwarder * option (K * option goerror) :=
  match Message_Payload msg with
  | Some Message_Ack => triggerCallbackFor msg None f
  | Some (Message_Error e) => triggerCallbackFor msg (Some (Fresh e)) f
  | _ => (f, None)
  end.

End forwarder.
#[global] Arguments Forwarder : clear implicits.
#[global] Arguments action : clear implicits.
End forwarder.

(** ** The two ways to dial *)

Module memforwarder.
(** [services] are the services of this process, by host; [Connect] is their
    method. *)
Definition dial {Svc N Conn : Type} (Connect : Svc → N → N * result Conn) (services : gmap string Svc)
    (host : string) (n : N) : N * result Conn :=
  match services !! host with
  | None => (n, Err (Untyped ("unknown host: " +:+ host)%string))
  | Some srvc =>
      match Connect srvc n with
      | (n', Err err) => (n', Err (forwarder.dialError host err))
      | (n', Ok conn) => (n', Ok conn)
      end
  end.
End memforwarder.

Module webforwarder.
(** [Connect] is [webclient.Connect]. *)
Definition dial {N Conn : Type} (Connect : string → Z → N → N * result Conn) (bufferDepth : Z)
    (host : string) (n : N) : N * result Conn :=
  Connect ("ws://" +:+ host +:+ "/api")%string bufferDepth n.
End webforwarder.

Import forwarder.

(** ** Callbacks: every one is called exactly once or still waits *)

Section forwarder_props.
Context {N Conn K : Type} (dial : string → N → N * result Conn).
#[local] Abbreviation Forwarder := (forwarder.Forwarder Conn K).

(** The forwarder with the network, the callbacks called so far with their
    errors, the callbacks handed to [Forward], and the number of messages sent. *)
Record world := mkWorld {
  fwd : Forwarder; net : N; called : list (K * option goerror); given : list K; sent : nat }.

Definition act_called (a : action Conn K) : list (K * option goerror) :=
  match a with Finished k e => [(k, Some e)] | Sending _ _ _ => [] end.
Definition act_sent (a : action Conn K) : nat := match a with Finished _ _ => 0 | Sending _ _ _ => 1 end.

(** Calls of [Forward], replies read from any connection, and arbitrary changes
    of the network. *)
Inductive step : world → world → Prop :=
| step_forward msg host k w n f a :
    Forward dial msg host k (net w) (fwd w) = (n, f, a) →
    step w (mkWorld f n (called w ++ act_called a) (given w ++ [k]) (sent w + act_sent a))
| step_read msg w f c :
    readFrom msg (fwd w) = (f, c) →
    step w (mkWorld f (net w) (called w ++ option_list c) (given w) (sent w))
| step_net n w : step w (mkWorld (fwd w) n (called w) (given w) (sent w)).

Definition init (n : N) : world := mkWorld New n [] [] 0.

(** What is filed is numbered by the messages sent so far. *)
Record inv (w : world) : Prop := {
  inv_seq : seq (mb (fwd w)) = wrap_u32 (Z.of_nat (sent w));
  inv_keys : ∀ q k, callbacks (fwd w) !! q = Some k → (1 <= q <= Z.of_nat (sent w))%Z;
  inv_all : (called w).*1 ++ (map_to_list (callbacks (fwd w))).*2 ≡ₚ given w }.

Lemma init_inv n : inv (init n).
Proof. by split. Qed.

Lemma sendOn_inv conn d msg k f f' a w :
  sendOn conn d msg k f = (f', a) → inv w → callbacks f = callbacks (fwd w) → mb f = mb (fwd w) →
  (Z.of_nat (S (sent w)) < two32)%Z →
  seq (mb f') = wrap_u32 (Z.of_nat (sent w + act_sent a)) ∧ act_called a = [] ∧ conns f' = conns f ∧
  (∀ q k', callbacks f' !! q = Some k' → (1 <= q <= Z.of_nat (sent w + act_sent a))%Z) ∧
  (map_to_list (callbacks f')).*2 ≡ₚ k :: (map_to_list (callbacks f)).*2.
Proof.
  intros [= <- <-] [Hs Hk Ha] Hc Hm Hlt. simpl. rewrite Hm, Hc. unfold next_seq. rewrite Hs.
  assert (Hq : wrap_u32 (wrap_u32 (Z.of_nat (sent w)) + 1) = Z.of_nat (S (sent w))).
  { rewrite wrap_u32_add, wrap_u32_small; unfold two32 in *; lia. }
  rewrite Hq. split_and!; [|done|done| |].
  - rewrite wrap_u32_small; unfold two32 in *; lia.
  - intros q k' [[<- <-]|[_ Hl]]%lookup_insert_Some; [lia|]. apply Hk in Hl. lia.
  - rewrite map_to_list_insert; [done|].
    destruct (callbacks (fwd w) !! _) as [k'|] eqn:E; [|done]. apply Hk in E. lia.
Qed.

Lemma step_sent w w' : step w w' → sent w <= sent w'.
Proof. intros []; simpl; lia. Qed.

Lemma sendOn_sent conn d msg k (f f' : Forwarder) a :
  sendOn conn d msg k f = (f', a) → act_sent a = 1 ∧ conns f' = conns f.
Proof. by intros [= <- <-]. Qed.

(** The two ways a call of [Forward] ends. *)
Lemma Forward_cases msg host k n f n' f' a :
  Forward dial msg host k n f = (n', f', a) →
  (f' = f ∧ act_sent a = 0 ∧ ∃ e, act_called a = [(k, Some e)]) ∨
  (∃ conn d f0, sendOn conn d msg k f0 = (f', a) ∧ callbacks f0 = callbacks f ∧ mb f0 = mb f ∧
     conns f ⊆ conns f0 ∧ act_sent a = 1).
Proof.
  unfold Forward. intros H. destruct (conns f !! host) as [conn|] eqn:Ec.
  - right. destruct (sendOn conn false msg k f) as [f1 a1] eqn:E. simplify_eq.
    exists conn, false, f. apply sendOn_sent in E as ?. naive_solver.
  - destruct (dial host n) as [n1 [conn|e]]; [|left; simplify_eq/=; eauto].
    right. destruct (sendOn conn true msg k _) as [f1 a1] eqn:E. simplify_eq.
    eexists conn, true, _. split_and!; [exact E|done|done|by apply insert_subseteq|by apply sendOn_sent in E as [? _]].
Qed.

Lemma readFrom_cases msg (f f' : Forwarder) c :
  readFrom msg f = (f', c) →
  (f' = f ∧ c = None) ∨
  ∃ k e, callbacks f !! Message_Sequence msg = Some k ∧ c = Some (k, e) ∧
         f' = mkForwarder (conns f) (delete (Message_Sequence msg) (callbacks f)) (mb f).
Proof.
  unfold readFrom, triggerCallbackFor. intros H.
  destruct (Message_Payload msg) as [[]|]; simplify_eq; auto;
    destruct (callbacks f !! Message_Sequence msg) eqn:E; simplify_eq; eauto 10.
Qed.

Lemma forwarder_step_inv w w' : step w w' → inv w → (Z.of_nat (sent w') < two32)%Z → inv w'.
Proof.
  intros Hs Hi Hlt. destruct Hs as [msg host k w n f a HF|msg w f c HR|n w]; simpl in *.
  - apply Forward_cases in HF as [(-> & Hs & e & Hc)|(conn & d & f0 & HS & Hcb & Hm & _ & H1)].
    + destruct Hi as [Hq Hk Ha]. rewrite Hs, Hc, Nat.add_0_r. split; simpl; [done|done|].
      rewrite fmap_app, <- Ha, <- !app_assoc. f_equiv. apply Permutation_app_comm.
    + rewrite H1 in *. destruct (sendOn_inv _ _ _ _ _ _ _ _ HS Hi Hcb Hm) as (Hq & Hc & _ & Hk & Hp);
        [lia|]. rewrite H1 in *. split; simpl; [done|done|]. rewrite Hc, app_nil_r, Hp, Hcb, <- (inv_all w Hi).
      rewrite <- Permutation_middle. apply Permutation_cons_append.
  - apply readFrom_cases in HR as [[-> ->]|(k & e & Hk & -> & ->)].
    + destruct Hi. split; simpl; by rewrite ?app_nil_r.
    + destruct Hi as [Hq Hks Ha]. split; simpl; [done| |].
      * intros q k' [_ Hl]%lookup_delete_Some. eauto.
      * rewrite <- Ha, <- (map_to_list_delete _ _ _ Hk), fmap_app, <- app_assoc. done.
  - by destruct Hi.
Qed.

(** C19: forwarding reports back exactly once.  In every run of fewer than [2^32]
    sends, whatever the network does and whatever replies arrive on whichever
    connection, the callbacks that were called together with those still waiting
    for a reply are exactly the callbacks given to [Forward], each once: none is
    lost and none is called twice. *)
Theorem callbacks_called_once n w :
  rtc step (init n) w → (Z.of_nat (sent w) < two32)%Z →
  (called w).*1 ++ (map_to_list (callbacks (fwd w))).*2 ≡ₚ given w.
Proof.
  intros Hr Hlt. apply inv_all. revert Hlt.
  refine (rtc_ind_r (λ w, (Z.of_nat (sent w) < two32)%Z → inv w) (init n) _ _ w Hr);
    [intros _; apply init_inv|].
  intros w1 w2 _ Hs IH Hlt. apply (forwarder_step_inv w1 w2 Hs); [|done]. apply IH.
  apply step_sent in Hs. lia.
Qed.

(** A connection, once dialled, is used for its host for ever: no reply,
    failure or network change makes the forwarder drop or redial it, so a message
    for that host is always sent on it, and nothing is called back until that
    connection answers. *)
Theorem connection_never_replaced w w' host conn msg k :
  rtc step w w' → conns (fwd w) !! host = Some conn →
  ∃ fullMsg f, Forward dial msg host k (net w') (fwd w') = (net w', f, Sending conn false fullMsg).
Proof.
  intros Hr Hc. assert (H : conns (fwd w') !! host = Some conn).
  { refine (rtc_ind_r (λ w', conns (fwd w') !! host = Some conn) w _ _ w' Hr); [done|].
    intros w1 w2 _ Hs IH. destruct Hs as [msg' host' k' w1 n f a HF|msg' w1 f c HR|n w1]; simpl; [| |done].
    - apply Forward_cases in HF as [(-> & _)|(c & d & f0 & HS & _ & _ & Hsub & _)]; [done|].
      apply sendOn_sent in HS as [_ ->]. by eapply lookup_weaken.
    - apply readFrom_cases in HR as [[-> ->]|(? & ? & _ & _ & ->)]; done. }
  unfold Forward. rewrite H. simpl. eauto.
Qed.
End forwarder_props.

(** ** A concrete run: one host answers, the other cannot be reached *)

Definition demo_dial (host : string) (n : unit) : unit * result string :=
  if decide (host = "up") then (n, Ok "conn") else (n, Err (Untyped "refused")).
Definition demo_msg : ForwardedMessage := mkForwardedMessage None 0 0.
Definition demo_ack : Message := mkMessage 1 (Some Message_Ack).

Definition do_forward (host : string) (k : nat) (w : world) : world :=
  let '(n, f, a) := Forward demo_dial demo_msg host k (net w) (fwd w) in
  mkWorld f n (called w ++ act_called a) (given w ++ [k]) (sent w + act_sent a).
Definition do_read (msg : Message) (w : world) : world (N:=unit) (Conn:=string) (K:=nat) :=
  let '(f, c) := readFrom msg (fwd w) in
  mkWorld f (net w) (called w ++ option_list c) (given w) (sent w).

Definition demo1 : world := do_forward "up" 7 (init tt).
Definition demo2 : world := do_forward "down" 8 demo1.
Definition demo3 : world := do_read demo_ack demo2.

Lemma do_forward_step host k w : step demo_dial w (do_forward host k w).
Proof. unfold do_forward. destruct (Forward _ _ _ _ _ _) as [[n f] a] eqn:E. by eapply step_forward. Qed.
Lemma do_read_step msg w : step demo_dial w (do_read msg w).
Proof. unfold do_read. destruct (readFrom _ _) as [f c] eqn:E. by eapply step_read. Qed.

Example demo_calls : called demo3 = [(8, Some (dialError "down" (Untyped "refused"))); (7, None)].
Proof. reflexivity. Qed.

Lemma demo_run : rtc (step demo_dial) demo1 demo3.
Proof. eapply rtc_l; [apply do_forward_step|]. eapply rtc_l; [apply do_read_step|]. apply rtc_refl. Qed.

Lemma callbacks_called_once_witness :
  (called demo3).*1 ++ (map_to_list (callbacks (fwd demo3))).*2 ≡ₚ given demo3.
Proof.
  apply (callbacks_called_once demo_dial tt demo3); [|done].
  eapply rtc_l; [apply do_forward_step|exact demo_run].
Defined.

Lemma connection_never_replaced_witness :
  ∃ fullMsg f, Forward demo_dial demo_msg "up" 9 tt (fwd demo3) = (tt, f, Sending "conn" false fullMsg).
Proof.
  apply (connection_never_replaced demo_dial demo1 demo3 "up" "conn" demo_msg 9);
    [exact demo_run|reflexivity].
Defined.
