(* ===== verification/Service.v ===== *)
(** * Service: client connections (service/serviceimpl/serviceimpl.go)

    The service is generic in its database, broker, presence repository,
    attachments manager and publisher cache, as the code is: each is a class.
    A handler is a function on the state [st] of the connection it serves
    ([cn]) and of what it shares with the rest of the process ([en]).  Messages
    sent to the client are appended to [in_]; the channel's capacity (10) is
    not modelled, that is, the client is assumed to keep reading.  Logging and
    tracing are left out. *)

From S2P Require Import Prelude Model Externals DB Broker Presence Attachments.

Module serviceimpl.

Section serviceimpl.
Context {ID : Identity} {PR : Proto}.
Context {D B P A C : Type} {DBI : DB D} {BI : Broker B} {PI : Presence P}
        {AI : Attachments A} {LI : LRU C Publisher}.

(** ** Options; durations are nanoseconds *)

Record Opts := mkOpts {
  Opts_PublicAddr : string;
  Opts_ChatNumberDomain : string;
  Opts_PresenceRepo : option P;
  Opts_PublisherCacheSize : Z;
  Opts_CheckPreKeysInterval : Z;
  Opts_LowPreKeysLimit : Z;
  Opts_NumPreKeysToRequest : Z;
  Opts_ForwardingParallelism : Z;
  Opts_ForwardingTimeout : Z;
  Opts_MinForwardingRetryInterval : Z;
  Opts_UserTransferInterval : Z }.

(** [newPresence] is [mempresence.NewRepository()]. *)
Definition ApplyDefaults (newPresence : P) (o : Opts) : Opts :=
  let low := if decide (Opts_LowPreKeysLimit o = 0)%Z then 10%Z else Opts_LowPreKeysLimit o in
  let timeout := if decide (Opts_ForwardingTimeout o = 0)%Z then 3600000000000%Z
                 else Opts_ForwardingTimeout o in
  mkOpts (Opts_PublicAddr o) (Opts_ChatNumberDomain o)
    (Some (default newPresence (Opts_PresenceRepo o)))
    (if decide (Opts_PublisherCacheSize o <= 0)%Z then 1%Z else Opts_PublisherCacheSize o)
    (if decide (Opts_CheckPreKeysInterval o = 0)%Z then 300000000000%Z else Opts_CheckPreKeysInterval o)
    low
    (if decide (Opts_NumPreKeysToRequest o <= 0)%Z then wrap_i64 (low * 2) else Opts_NumPreKeysToRequest o)
    (if decide (Opts_ForwardingParallelism o <= 0)%Z then 1%Z else Opts_ForwardingParallelism o)
    timeout
    (if decide (Opts_MinForwardingRetryInterval o <= 0)%Z then Z.quot timeout 60
     else Opts_MinForwardingRetryInterval o)
    (Opts_UserTransferInterval o).

(** ** State *)

(** The fields of [Service] that never change after [New]. *)
Record Service := mkService {
  publicAddr : string;
  chatNumberDomain : string;
  checkPreKeysInterval : Z;
  lowPreKeysLimit : Z;
  numPreKeysToRequest : Z;
  forwardingParallelism : Z;
  forwardingTimeout : Z;
  minForwardingRetryInterval : Z;
  userTransferInterval : Z }.

(** Its collaborators and the publisher cache. *)
Record env := mkEnv {
  db : D; broker : B; presenceRepo : P; attachmentsManager : A; publisherCache : C }.

(** [subscriptions] are the goroutines of [startHandlingInbound] and
    [preKeyChecks] those of [warnPreKeysLowIfNecessary]. *)
Record clientConnection := mkConn {
  authNonce : string;
  identityKey : option string;
  deviceId : option string;
  mb : MessageBuilder;
  unackedMessages : gmap Z Acker;
  in_ : list Message;
  closed : bool;
  subscriptions : list Subscriber;
  preKeyChecks : nat }.

Record st := mkSt { en : env; cn : clientConnection }.

(** *** Field updates *)

Definition set_db x e := mkEnv x (broker e) (presenceRepo e) (attachmentsManager e) (publisherCache e).
Definition set_broker x e := mkEnv (db e) x (presenceRepo e) (attachmentsManager e) (publisherCache e).
Definition set_presence x e := mkEnv (db e) (broker e) x (attachmentsManager e) (publisherCache e).
Definition set_attachments x e := mkEnv (db e) (broker e) (presenceRepo e) x (publisherCache e).
Definition set_cache x e := mkEnv (db e) (broker e) (presenceRepo e) (attachmentsManager e) x.
Definition with_en (f : env → env) (s : st) : st := mkSt (f (en s)) (cn s).
Definition with_cn (f : clientConnection → clientConnection) (s : st) : st := mkSt (en s) (f (cn s)).

(** ** Connecting *)

(** [authNonce] is 32 random bytes. *)
Definition Connect (authNonce : string) (e : env) : st :=
  mkSt e (mkConn authNonce None None (mkMessageBuilder 0) ∅ [] false [] 0).

(** [make(chan *model.Message, 10)]: the room on the channel [in].  The handlers below
    are the ones of a connection whose channel has room; Channels.v and Web.v have
    the bound. *)
Definition inCapacity : nat := 10.

(** nil reads as the empty key. *)
Definition getIdentityKey (c : clientConnection) : string := default "" (identityKey c).
Definition getDeviceId (c : clientConnection) : string := default "" (deviceId c).

Definition isAuthenticated (c : clientConnection) : bool :=
  negb (bool_decide (String.length (getIdentityKey c) = 0)).

Definition send (msg : Message) (s : st) : st :=
  with_cn (λ c, mkConn (authNonce c) (identityKey c) (deviceId c) (mb c) (unackedMessages c)
                  (in_ c ++ [msg]) (closed c) (subscriptions c) (preKeyChecks c)) s.

Definition Close (s : st) : st :=
  with_cn (λ c, mkConn (authNonce c) (identityKey c) (deviceId c) (mb c) (unackedMessages c)
                  (in_ c) true (subscriptions c) (preKeyChecks c)) s.

Definition set_mb (b : MessageBuilder) (s : st) : st :=
  with_cn (λ c, mkConn (authNonce c) (identityKey c) (deviceId c) b (unackedMessages c)
                  (in_ c) (closed c) (subscriptions c) (preKeyChecks c)) s.

Definition set_unacked (u : gmap Z Acker) (s : st) : st :=
  with_cn (λ c, mkConn (authNonce c) (identityKey c) (deviceId c) (mb c) u
                  (in_ c) (closed c) (subscriptions c) (preKeyChecks c)) s.

Definition set_identity (k dev : string) (s : st) : st :=
  with_cn (λ c, mkConn (authNonce c) (Some k) (Some dev) (mb c) (unackedMessages c)
                  (in_ c) (closed c) (subscriptions c) (preKeyChecks c)) s.

Definition add_subscription (sub : Subscriber) (s : st) : st :=
  with_cn (λ c, mkConn (authNonce c) (identityKey c) (deviceId c) (mb c) (unackedMessages c)
                  (in_ c) (closed c) (subscriptions c ++ [sub]) (preKeyChecks c)) s.

Definition add_check (s : st) : st :=
  with_cn (λ c, mkConn (authNonce c) (identityKey c) (deviceId c) (mb c) (unackedMessages c)
                  (in_ c) (closed c) (subscriptions c) (S (preKeyChecks c))) s.

Definition ack (msg : Message) (s : st) : st := send (NewAck msg) s.

(** Method [error] of the connection. *)
Definition error (msg : Message) (err : goerror) (s : st) : st :=
  send (NewError msg (TypedError err)) s.

(** [conn.send(conn.mb.Build(payload))] *)
Definition build_and_send (payload : isMessage_Payload) (s : st) : st :=
  let '(b, msg) := Build (mb (cn s)) payload in send msg (set_mb b s).

(** The two messages of [sendInitMessages]. *)
Definition sendAuthChallenge (s : st) : st :=
  build_and_send (Message_AuthChallenge (mkAuthChallenge (authNonce (cn s)))) s.
Definition sendConfiguration (s : st) : st :=
  build_and_send (Message_Configuration (mkConfiguration
    (attachments_MaxAttachmentSize (attachmentsManager (en s))))) s.
Definition sendInitMessages (s : st) : st := sendConfiguration (sendAuthChallenge s).

(** ** Topics and publishers *)

Definition topicFor (identityKey deviceId : string) : string :=
  (PublicKey_String identityKey +:+ ":" +:+ base32_Encode deviceId)%string.

Definition topicForAddr (addr : option Address) : outcome string :=
  a ← deref addr; Ret (topicFor (Address_IdentityKey a) (Address_DeviceId a)).

Definition forwardingTopic : string := "forwarding".
Definition forwardingRetryTopic : string := "forwardingretry".

(** Evicted publishers are closed by the cache's callback. *)
Definition publisherFor (topic : string) (e : env) : env * result Publisher :=
  match lru_Get topic (publisherCache e) with
  | (c, Some p) => (set_cache c e, Ok p)
  | (c, None) =>
      match broker_NewPublisher topic (broker e) with
      | (b, Err err) => (set_broker b (set_cache c e), Err err)
      | (b, Ok p) =>
          let '(c', evicted) := lru_Add topic p c in
          (set_broker (foldl (λ b x, broker_ClosePublisher x b) b evicted) (set_cache c' e), Ok p)
      end
  end.

(** ** Logging in *)

Definition startHandlingInbound (s : st) : st * option goerror :=
  match broker_NewSubscriber (topicFor (getIdentityKey (cn s)) (getDeviceId (cn s))) (broker (en s)) with
  | (b, Err err) =>
      (with_en (set_broker b) s, Some (Fresh (WithError ErrUnableToOpenSubscriber err)))
  | (b, Ok sub) => (add_subscription sub (with_en (set_broker b) s), None)
  end.

(** The goroutine of the [k]-th subscription ends: [defer subscriber.Close()]. *)
Definition endInbound (k : nat) (sub : Subscriber) (s : st) : st :=
  with_cn (λ c, mkConn (authNonce c) (identityKey c) (deviceId c) (mb c) (unackedMessages c)
                  (in_ c) (closed c) (delete k (subscriptions c)) (preKeyChecks c))
    (with_en (λ e, set_broker (broker_CloseSubscriber sub (broker e)) e) s).

(** One turn of the loop of [getNumber]: the number and short number to try,
    with [iter] 5s in front of each half, and whether this is the last try. *)
Definition candidate (preferredNumber : string) (iter : nat) : outcome (string * string * bool) :=
  tail ← slice_from 12 preferredNumber;
  short ← slice_to 12 preferredNumber;
  let newShortNumber := str_prefix_n iter "5" short in
  let newNumberTail := str_prefix_n iter "5" tail in
  let newNumber := (newShortNumber +:+ newNumberTail)%string in
  if decide (String.length preferredNumber <= String.length newShortNumber)
  then Ret (preferredNumber, preferredNumber, true)
  else Ret (newNumber, newShortNumber, false).

Fixpoint getNumberLoop (fuel iter : nat) (identityKey preferredNumber : string) (d : D)
    : outcome (D * result (string * string)) :=
  match fuel with
  | O => Block
  | S fuel' =>
      '(newNumber, newShortNumber, lastChance) ← candidate preferredNumber iter;
      '(d', res) ← db_RegisterChatNumber identityKey newNumber newShortNumber d;
      match res with
      | Ok p => Ret (d', Ok p)
      | Err err =>
          if error_Is err ErrNumberTaken && negb lastChance
          then getNumberLoop fuel' (S iter) identityKey preferredNumber d'
          else Ret (d', Err err)
      end
  end.

(** The loop ends once the short number is as long as the number. *)
Definition getNumberFuel (preferredNumber : string) : nat := S (String.length preferredNumber).

Definition getNumber (s : st) : outcome (st * result (string * string)) :=
  let identityKey := getIdentityKey (cn s) in
  let preferredNumber := PublicKey_Number identityKey in
  '(d, res) ← getNumberLoop (getNumberFuel preferredNumber) 0 identityKey preferredNumber (db (en s));
  Ret (with_en (set_db d) s, res).

Definition chatNumberMessage (srvc : Service) (msg : Message) (number shortNumber : string) : Message :=
  mkMessage (Message_Sequence msg)
    (Some (Message_ChatNumber (mkChatNumber number shortNumber (chatNumberDomain srvc)))).

(** After the identity is stored: number, subscription, pre key checks, reply.
    An error from [getNumber] is reported and the connection closed, and the
    function goes on with an empty number. *)
Definition finishLogin (srvc : Service) (msg : Message) (s : st) : outcome st :=
  '(s1, res) ← getNumber s;
  let '(s2, number, shortNumber) :=
    match res with
    | Ok (n, sn) => (s1, n, sn)
    | Err err => (Close (error msg err s1), "", "")
    end in
  match startHandlingInbound s2 with
  | (s3, Some err) => Ret (error msg err s3)
  | (s3, None) =>
      let s4 := if decide (0 < checkPreKeysInterval srvc)%Z then add_check s3 else s3 in
      Ret (send (chatNumberMessage srvc msg number shortNumber) s4)
  end.

Definition handleAuthResponse (srvc : Service) (msg : Message) (s : st) : outcome st :=
  authResponse ← deref (GetAuthResponse msg);
  match Unmarshal_Login (AuthResponse_Login authResponse) with
  | Err err => Ret (Close (error msg err s))
  | Ok login =>
      (* verify nonce *)
      if decide (authNonce (cn s) = Login_Nonce login) then
        (* verify signature *)
        address ← deref (Login_Address login);
        if PublicKey_Verify (Address_IdentityKey address) (AuthResponse_Login authResponse)
             (AuthResponse_Signature authResponse)
        then finishLogin srvc msg (set_identity (Address_IdentityKey address) (Address_DeviceId address) s)
        else Ret (Close (error msg (Sentinel ErrUnauthorized) s))
      else Ret (Close (error msg (Sentinel ErrUnauthorized) s))
  end.

(** One turn of [warnPreKeysLowIfNecessary]. *)
Definition warnPreKeysLowIfNecessary (srvc : Service) (s : st) : outcome st :=
  '(d, res) ← db_PreKeysRemaining (getIdentityKey (cn s)) (getDeviceId (cn s)) (db (en s));
  let s1 := with_en (set_db d) s in
  match res with
  | Ok numPreKeys =>
      if decide (numPreKeys < lowPreKeysLimit srvc)%Z
      then Ret (build_and_send (Message_PreKeysLow (mkPreKeysLow (wrap_u32 (numPreKeysToRequest srvc)))) s1)
      else Ret s1
  | Err _ => Ret s1
  end.

(** ** Messages for the client *)

Definition handleInboundMessage (data : option string) (acker : Acker) (s : st) : st :=
  let '(b, msg) := Build (mb (cn s)) (Message_InboundMessage (mkInboundMessage data)) in
  let s1 := set_unacked (<[Message_Sequence msg := acker]> (unackedMessages (cn s))) (set_mb b s) in
  send msg s1.

(** ** Requests of the client *)

Definition handleACK (msg : Message) (s : st) : outcome st :=
  let sequence := Message_Sequence msg in
  match unackedMessages (cn s) !! sequence with
  | None => Ret s
  | Some acker =>
      '(b, err) ← broker_Ack acker (broker (en s));
      let s1 := with_en (set_broker b) s in
      match err with
      | Some _ => Ret s1
      | None => Ret (set_unacked (delete sequence (unackedMessages (cn s1))) s1)
      end
  end.

Definition handleRegister (srvc : Service) (msg : Message) (s : st) : outcome st :=
  let identityKey := getIdentityKey (cn s) in
  let deviceId := getDeviceId (cn s) in
  let '(p, err) := presence_Announce (Some (mkAddress identityKey deviceId)) (publicAddr srvc)
                     (presenceRepo (en s)) in
  let s1 := with_en (set_presence p) s in
  match err with
  | Some e => Ret (error msg e s1)
  | None =>
      register ← deref (GetRegister msg);
      '(d, err) ← db_Register identityKey deviceId register (db (en s1));
      let s2 := with_en (set_db d) s1 in
      match err with
      | Some e => Ret (error msg e s2)
      | None => Ret (ack msg s2)
      end
  end.

Definition handleUnregister (msg : Message) (s : st) : outcome st :=
  '(d, err) ← db_Unregister (getIdentityKey (cn s)) (getDeviceId (cn s)) (db (en s));
  let s1 := with_en (set_db d) s in
  match err with
  | Some e => Ret (error msg e s1)
  | None => Ret (ack msg s1)
  end.

Definition handleRequestPreKeys (msg : Message) (s : st) : outcome st :=
  request ← deref (GetRequestPreKeys msg);
  '(d, res) ← db_RequestPreKeys request (db (en s));
  let s1 := with_en (set_db d) s in
  match res with
  | Err e => Ret (error msg e s1)
  | Ok preKeys => Ret (send (mkMessage (Message_Sequence msg) (Some (Message_PreKeys (mkPreKeys preKeys)))) s1)
  end.

(** The loop of [handleRequestUploadAuthorizations], [n] turns. *)
Fixpoint authorizeUploads (n : nat) (a : A) (auths : list UploadAuthorization) (finalErr : option goerror)
    : A * list UploadAuthorization * option goerror :=
  match n with
  | O => (a, auths, finalErr)
  | S n' =>
      match attachments_AuthorizeUpload a with
      | (a', Ok auth) => authorizeUploads n' a' (auths ++ [auth]) finalErr
      | (a', Err err) => authorizeUploads n' a' auths (Some err)
      end
  end.

Definition handleRequestUploadAuthorizations (msg : Message) (s : st) : outcome st :=
  request ← deref (GetRequestUploadAuthorizations msg);
  let '(a, auths, finalErr) :=
    authorizeUploads (Z.to_nat (RequestUploadAuthorizations_NumRequested request))
      (attachmentsManager (en s)) [] None in
  let s1 := with_en (set_attachments a) s in
  match auths with
  | [] => match finalErr with Some e => Ret (error msg e s1) | None => Ret s1 end
  | _ => Ret (send (mkMessage (Message_Sequence msg)
                     (Some (Message_UploadAuthorizations (mkUploadAuthorizations auths)))) s1)
  end.

Definition handleFindChatNumberByShortNumber (srvc : Service) (msg : Message) (s : st) : outcome st :=
  request ← deref (GetFindChatNumberByShortNumber msg);
  let shortNumber := FindChatNumberByShortNumber_ShortNumber request in
  '(d, res) ← db_FindChatNumberByShortNumber shortNumber (db (en s));
  let s1 := with_en (set_db d) s in
  match res with
  | Err e => Ret (error msg e s1)
  | Ok number => Ret (send (chatNumberMessage srvc msg number shortNumber) s1)
  end.

Definition handleFindChatNumberByIdentityKey (srvc : Service) (msg : Message) (s : st) : outcome st :=
  request ← deref (GetFindChatNumberByIdentityKey msg);
  '(d, res) ← db_FindChatNumberByIdentityKey (FindChatNumberByIdentityKey_IdentityKey request) (db (en s));
  let s1 := with_en (set_db d) s in
  match res with
  | Err e => Ret (error msg e s1)
  | Ok (number, shortNumber) => Ret (send (chatNumberMessage srvc msg number shortNumber) s1)
  end.

(** The end of [sendOutboundMessage]: publish and acknowledge. *)
Definition publishOutbound (msg : Message) (topic : string) (data : option string) (s : st) : outcome st :=
  match publisherFor topic (en s) with
  | (e, Err err) => Ret (error msg err (with_en (λ _, e) s))
  | (e, Ok publisher) =>
      '(b, err) ← broker_Publish publisher data (broker e);
      let s1 := with_en (λ _, set_broker b e) s in
      match err with
      | Some er => Ret (error msg er s1)
      | None => Ret (ack msg s1)
      end
  end.

Definition sendOutboundMessage (srvc : Service) (msg : Message) (s : st) : outcome st :=
  outboundMessage ← deref (GetOutboundMessage msg);
  let '(p, res) := presence_Find (OutboundMessage_To outboundMessage) (presenceRepo (en s)) in
  let s1 := with_en (set_presence p) s in
  match res with
  | Err e => Ret (error msg e s1)
  | Ok host =>
      let tassisHost := to_lower host in
      topic ← topicForAddr (OutboundMessage_To outboundMessage);
      let data := GetUnidentifiedSenderMessage (Some outboundMessage) in
      if decide (publicAddr srvc = tassisHost)
      then publishOutbound msg topic data s1
      else
        (* this is a federated message, write it to a forwarding topic *)
        match Marshal_ForwardedMessage (mkForwardedMessage (Some outboundMessage) 0 0) with
        | Err e => Ret (error msg e s1)
        | Ok bytes => publishOutbound msg forwardingTopic (Some bytes) s1
        end
  end.

(** [conn.in <- conn.mb.NewError(msg, model.TypedError(err))] *)
Definition refuse (msg : Message) (err : Error) (s : st) : outcome st :=
  Ret (error msg (Sentinel err) s).

Definition doHandleOutboundMessage (srvc : Service) (msg : Message) (s : st) : outcome st :=
  let authenticated := isAuthenticated (cn s) in
  match Message_Payload msg with
  | Some Message_Ack => handleACK msg s
  | Some (Message_AuthResponse _) =>
      if authenticated then refuse msg ErrNonAnonymous s else handleAuthResponse srvc msg s
  | Some (Message_Register _) =>
      if negb authenticated then refuse msg ErrUnauthorized s else handleRegister srvc msg s
  | Some Message_Unregister =>
      if negb authenticated then refuse msg ErrUnauthorized s else handleUnregister msg s
  | Some (Message_RequestPreKeys _) =>
      if authenticated then refuse msg ErrNonAnonymous s else handleRequestPreKeys msg s
  | Some (Message_RequestUploadAuthorizations _) =>
      if authenticated then refuse msg ErrNonAnonymous s else handleRequestUploadAuthorizations msg s
  | Some (Message_FindChatNumberByShortNumber _) =>
      if authenticated then refuse msg ErrNonAnonymous s else handleFindChatNumberByShortNumber srvc msg s
  | Some (Message_FindChatNumberByIdentityKey _) =>
      if authenticated then refuse msg ErrNonAnonymous s else handleFindChatNumberByIdentityKey srvc msg s
  | Some (Message_OutboundMessage _) =>
      if authenticated then refuse msg ErrNonAnonymous s else sendOutboundMessage srvc msg s
  | _ => Ret s
  end.

(** [Drain] takes what is pending on [in] and counts it; [Receive] takes one. *)
Definition Drain (s : st) : st * nat :=
  (with_cn (λ c, mkConn (authNonce c) (identityKey c) (deviceId c) (mb c) (unackedMessages c)
                   [] (closed c) (subscriptions c) (preKeyChecks c)) s, length (in_ (cn s))).

Definition Receive (s : st) : outcome (st * Message) :=
  match in_ (cn s) with
  | [] => Block
  | msg :: rest =>
      Ret (with_cn (λ c, mkConn (authNonce c) (identityKey c) (deviceId c) (mb c) (unackedMessages c)
                           rest (closed c) (subscriptions c) (preKeyChecks c)) s, msg)
  end.

End serviceimpl.
End serviceimpl.
