(* ===== verification/ServiceProps.v ===== *)
(** * ServiceProps: what the connection handlers guarantee

    Access control, the request/reply discipline, effects on the registry,
    routing of outbound messages, chat number selection, and the inputs on
    which handlers panic.  Theorems are proved against the interfaces
    ([DBLaws], [BrokerLaws], [LRULaws]) and hold for every implementation. *)

From S2P Require Import Prelude Model Externals DB Broker Presence Attachments Service.

Import serviceimpl.

(** Unfolds a handler along every branch that returns. *)
Ltac run_handler :=
  repeat (inv_ret; repeat (case_match; try discriminate; simplify_eq/=); try discriminate; inv_ret).

Section service_props.
Context {ID : Identity} {PR : Proto}.
Context {D B P A C : Type} {DBI : DB D} {BI : Broker B} {PI : Presence P}
        {AI : Attachments A} {LI : LRU C Publisher}.
#[local] Abbreviation st := (@st D B P A C BI).
#[local] Abbreviation env := (@env D B P A C).
Implicit Types (s : st) (msg : Message) (srvc : Service).

(** ** Shape of the handlers' effects *)

(** What a handler may do to the identity of the connection: nothing. *)
Definition same_identity s s' : Prop :=
  authNonce (cn s') = authNonce (cn s) ∧ identityKey (cn s') = identityKey (cn s) ∧
  deviceId (cn s') = deviceId (cn s).

(** The request handlers other than login and ACK leave the connection's
    identity, builder, unacknowledged messages and subscriptions alone. *)
Definition keeps_conn s s' : Prop :=
  same_identity s s' ∧ mb (cn s') = mb (cn s) ∧ unackedMessages (cn s') = unackedMessages (cn s) ∧
  subscriptions (cn s') = subscriptions (cn s).

(** The messages a handler appended. *)
Definition replies s s' (l : list Message) : Prop := in_ (cn s') = in_ (cn s) ++ l.

(** Exactly one reply, carrying the sequence number of the request. *)
Definition one_reply msg s s' : Prop :=
  ∃ r, replies s s' [r] ∧ Message_Sequence r = Message_Sequence msg.

Ltac solve_reply := unfold one_reply, replies; simpl; eexists; (split; [reflexivity|reflexivity]).

Lemma handleACK_quiet msg s s' : handleACK msg s = Ret s' → same_identity s s' ∧ replies s s' [].
Proof.
  unfold handleACK, same_identity, replies. intros H. run_handler; simpl; by rewrite app_nil_r.
Qed.

(** The handlers of requests that are answered by one message: each keeps the
    identity and sends one reply. *)
Definition answers msg s s' : Prop := same_identity s s' ∧ one_reply msg s s'.

Ltac solve_answers :=
  split; [by unfold same_identity|]; solve_reply.

Lemma handleRegister_answers srvc msg s s' : handleRegister srvc msg s = Ret s' → answers msg s s'.
Proof. unfold handleRegister. intros H. run_handler; solve_answers. Qed.

Lemma handleUnregister_answers msg s s' : handleUnregister msg s = Ret s' → answers msg s s'.
Proof. unfold handleUnregister. intros H. run_handler; solve_answers. Qed.

Lemma handleRequestPreKeys_answers msg s s' : handleRequestPreKeys msg s = Ret s' → answers msg s s'.
Proof. unfold handleRequestPreKeys. intros H. run_handler; solve_answers. Qed.

Lemma handleFindByShort_answers srvc msg s s' :
  handleFindChatNumberByShortNumber srvc msg s = Ret s' → answers msg s s'.
Proof. unfold handleFindChatNumberByShortNumber. intros H. run_handler; solve_answers. Qed.

Lemma handleFindByKey_answers srvc msg s s' :
  handleFindChatNumberByIdentityKey srvc msg s = Ret s' → answers msg s s'.
Proof. unfold handleFindChatNumberByIdentityKey. intros H. run_handler; solve_answers. Qed.

Lemma publishOutbound_answers msg t x s s' : publishOutbound msg t x s = Ret s' → answers msg s s'.
Proof. unfold publishOutbound. intros H. run_handler; solve_answers. Qed.

Lemma answers_with_en f msg s s' : answers msg (with_en f s) s' → answers msg s s'.
Proof. done. Qed.

Lemma sendOutboundMessage_answers srvc msg s s' :
  sendOutboundMessage srvc msg s = Ret s' → answers msg s s'.
Proof.
  unfold sendOutboundMessage. intros H. apply bind_Ret_inv in H as (o & _ & H).
  destruct (presence_Find _ _) as [p [host|e]]; [|run_handler; solve_answers].
  apply bind_Ret_inv in H as (t & _ & H). case_decide.
  - by apply publishOutbound_answers in H.
  - destruct (Marshal_ForwardedMessage _); [by apply publishOutbound_answers in H|].
    run_handler; solve_answers.
Qed.

(** Upload authorizations: asking for at least one leaves something to say. *)
Lemma authorizeUploads_nonempty n a auths err a' auths' err' :
  authorizeUploads (AI:=AI) n a auths err = (a', auths', err') →
  n ≠ 0 ∨ auths ≠ [] ∨ err ≠ None → auths' ≠ [] ∨ err' ≠ None.
Proof.
  revert a auths err; induction n as [|n IH]; intros a auths err; simpl.
  { intros [= <- <- <-] [|[|]]; auto. }
  intros H _. destruct (attachments_AuthorizeUpload a) as [a1 [u|e]]; eapply IH in H; eauto.
  right; left. by destruct auths.
Qed.

Lemma handleUpload_answers msg s s' :
  (∃ r, GetRequestUploadAuthorizations msg = Some r ∧ (0 < RequestUploadAuthorizations_NumRequested r)%Z) →
  handleRequestUploadAuthorizations msg s = Ret s' → answers msg s s'.
Proof.
  intros (r & Hr & Hn). unfold handleRequestUploadAuthorizations. rewrite Hr; cbn.
  destruct (authorizeUploads _ _ _ _) as [[a auths] err] eqn:E.
  apply authorizeUploads_nonempty in E; [|left; lia].
  intros H. destruct auths; [destruct err|]; run_handler; try solve_answers. by destruct E.
Qed.

Lemma handleUpload_identity msg s s' :
  handleRequestUploadAuthorizations msg s = Ret s' → same_identity s s'.
Proof. unfold handleRequestUploadAuthorizations. intros H. run_handler; by unfold same_identity. Qed.

(** ** Requests are answered exactly once *)

(** The requests that the protocol answers with an Ack, a typed reply or an
    Error: everything but Ack and AuthResponse; an upload request has to ask
    for something. *)
Definition answered_request msg : Prop :=
  match Message_Payload msg with
  | Some (Message_Register _) | Some Message_Unregister | Some (Message_RequestPreKeys _)
  | Some (Message_FindChatNumberByShortNumber _) | Some (Message_FindChatNumberByIdentityKey _)
  | Some (Message_OutboundMessage _) => True
  | Some (Message_RequestUploadAuthorizations r) => (0 < RequestUploadAuthorizations_NumRequested r)%Z
  | _ => False
  end.

(** Whatever the collaborators return and whether or not the connection is allowed to
    make the request: if the handler returns, it has answered. *)
Lemma request_replied srvc msg s s' :
  answered_request msg → doHandleOutboundMessage srvc msg s = Ret s' → one_reply msg s s'.
Proof.
  unfold answered_request, doHandleOutboundMessage, refuse. intros Hr H.
  destruct (Message_Payload msg) as [[]|] eqn:E; try done;
    destruct (isAuthenticated (cn s)); cbn in H; try (injection H as <-; solve_reply).
  - by apply handleRegister_answers in H as [_ ?].
  - by apply handleUnregister_answers in H as [_ ?].
  - by apply handleRequestPreKeys_answers in H as [_ ?].
  - apply handleUpload_answers in H as [_ ?]; [done|].
    exists r. split; [|done]. unfold GetRequestUploadAuthorizations. by rewrite E.
  - by apply sendOutboundMessage_answers in H as [_ ?].
  - by apply handleFindByShort_answers in H as [_ ?].
  - by apply handleFindByKey_answers in H as [_ ?].
Qed.

(** An upload request for zero or fewer authorizations is not answered at
    all. *)
Theorem empty_upload_request_unanswered srvc msg s r :
  isAuthenticated (cn s) = false →
  Message_Payload msg = Some (Message_RequestUploadAuthorizations r) →
  (RequestUploadAuthorizations_NumRequested r <= 0)%Z →
  ∃ s', doHandleOutboundMessage srvc msg s = Ret s' ∧ replies s s' [].
Proof.
  intros Ha Hp Hn. unfold doHandleOutboundMessage. rewrite Hp, Ha.
  unfold handleRequestUploadAuthorizations, GetRequestUploadAuthorizations. rewrite Hp; cbn.
  replace (Z.to_nat _) with 0 by lia. simpl. eexists. split; [done|].
  unfold replies; simpl. by rewrite app_nil_r.
Qed.

(** ** Access control *)

(** Operations for authenticated connections, and for anonymous ones. *)
Definition needs_auth msg : Prop :=
  match Message_Payload msg with
  | Some (Message_Register _) | Some Message_Unregister => True
  | _ => False
  end.

Definition needs_anonymous msg : Prop :=
  match Message_Payload msg with
  | Some (Message_AuthResponse _) | Some (Message_RequestPreKeys _)
  | Some (Message_RequestUploadAuthorizations _) | Some (Message_FindChatNumberByShortNumber _)
  | Some (Message_FindChatNumberByIdentityKey _) | Some (Message_OutboundMessage _) => True
  | _ => False
  end.

(** The client is sent [r], and nothing else of the connection or of what it shares
    changes. *)
Definition only_sent (r : Message) s s' : Prop :=
  s' = mkSt (en s) (mkConn (authNonce (cn s)) (identityKey (cn s)) (deviceId (cn s)) (mb (cn s))
         (unackedMessages (cn s)) (in_ (cn s) ++ [r]) (closed (cn s)) (subscriptions (cn s)) (preKeyChecks (cn s))).

Lemma refused_only_sent srvc msg s :
  needs_auth msg ∧ isAuthenticated (cn s) = false ∨ needs_anonymous msg ∧ isAuthenticated (cn s) = true →
  ∃ s', doHandleOutboundMessage srvc msg s = Ret s' ∧
    only_sent (mkMessage (Message_Sequence msg) (Some (Message_Error
      (if isAuthenticated (cn s) then ErrNonAnonymous else ErrUnauthorized)))) s s'.
Proof.
  intros H. unfold doHandleOutboundMessage, needs_auth, needs_anonymous, only_sent in *. destruct s as [e c].
  destruct (Message_Payload msg) as [[]|]; destruct H as [[? Ha]|[? Ha]]; try done;
    rewrite Ha; (eexists; split; [reflexivity|reflexivity]).
Qed.

(** C11: access control.  A request on the wrong kind of connection has no effect but
    one Error reply, with the sequence number of the request: "unauthorized" for key
    management on an anonymous connection and
    "attempted_anonymous_op_on_authenticated_connection" for anonymous operations (a
    second login included) on an authenticated one.  The database, the broker, the
    presence repository, the attachments manager, the publisher cache and every other
    field of the connection (whether it is closed, its identity, its subscriptions, its
    unacknowledged messages, its builder, its pre key checks) are as before. *)
Theorem wrong_connection_refused srvc msg s :
  (needs_auth msg ∧ isAuthenticated (cn s) = false ∨
   needs_anonymous msg ∧ isAuthenticated (cn s) = true) →
  ∃ s', doHandleOutboundMessage srvc msg s = Ret s' ∧
    only_sent (mkMessage (Message_Sequence msg) (Some (Message_Error
      (if isAuthenticated (cn s) then ErrNonAnonymous else ErrUnauthorized)))) s s'.
Proof. apply refused_only_sent. Qed.

(** ** Logging in *)

(** [msg] proves to a connection with this nonce that its sender holds the key
    of the address [a]: the signature covers the serialized login, which
    contains the nonce and the address. *)
Definition verified_login (nonce : string) msg (a : Address) : Prop :=
  ∃ ar login, Message_Payload msg = Some (Message_AuthResponse ar) ∧
    Unmarshal_Login (AuthResponse_Login ar) = Ok login ∧
    Login_Nonce login = nonce ∧ Login_Address login = Some a ∧
    PublicKey_Verify (Address_IdentityKey a) (AuthResponse_Login ar) (AuthResponse_Signature ar) = true.

(** A login attempt changes nothing but the reply, or it is verified and goes on
    with the address stored. *)
Lemma handleAuthResponse_cases srvc msg s s' :
  handleAuthResponse srvc msg s = Ret s' →
  keeps_conn s s' ∧ en s' = en s ∧ one_reply msg s s' ∧ closed (cn s') = true ∨
  ∃ a, verified_login (authNonce (cn s)) msg a ∧
       finishLogin srvc msg (set_identity (Address_IdentityKey a) (Address_DeviceId a) s) = Ret s'.
Proof.
  unfold handleAuthResponse. intros H. apply bind_Ret_inv in H as (ar & Har & H).
  apply deref_Ret_inv in Har. unfold GetAuthResponse in Har.
  destruct (Message_Payload msg) as [[]|] eqn:Ep; simplify_eq.
  destruct (Unmarshal_Login _) as [login|e] eqn:El;
    [|simplify_eq; left; split_and!; [done..| |done]; solve_reply].
  case_decide as Hn; [|simplify_eq; left; split_and!; [done..| |done]; solve_reply].
  apply bind_Ret_inv in H as (a & Ha & H). apply deref_Ret_inv in Ha.
  destruct (PublicKey_Verify _ _ _) eqn:Ev;
    [|simplify_eq; left; split_and!; [done..| |done]; solve_reply].
  right. exists a. split; [|done]. unfold verified_login. eauto 10.
Qed.

(** ** Choosing a chat number *)

(** Numbers are read with the 5s left out. *)
Fixpoint strip5 (s : string) : string :=
  match s with
  | EmptyString => EmptyString
  | String c s' => if decide (c = "5"%char) then strip5 s' else String c (strip5 s')
  end.

Lemma strip5_app (x t : string) : strip5 (x +:+ t) = (strip5 x +:+ strip5 t)%string.
Proof.
  induction x as [|c x IH]; [done|]. rewrite str_app_cons; simpl. rewrite IH. by case_decide.
Qed.

Lemma strip5_prefix n x : strip5 (str_prefix_n n "5" x) = strip5 x.
Proof. induction n as [|n IH]; simpl; [done|]. by rewrite strip5_app, IH. Qed.

Lemma candidate_spec p iter :
  12 <= String.length p →
  ∃ n sn lastChance, candidate p iter = Ret (n, sn, lastChance) ∧ strip5 n = strip5 p ∧
    if lastChance : bool then n = p else iter + 12 < String.length p.
Proof.
  intros Hl. unfold candidate, slice_from, slice_to. rewrite !decide_True by done.
  cbn [mbind outcome_bind]. destruct (decide _) as [Hd|Hd]; do 3 eexists; (split; [reflexivity|]); [done|].
  rewrite str_length_prefix_n, str_length_take in Hd by done. split; [|simpl in Hd; lia].
  by rewrite strip5_app, !strip5_prefix, <- strip5_app, str_take_drop.
Qed.

Section with_db.
Context {DBL : DBLaws D}.

(** *** Every request is answered *)

(** The requests the protocol answers: everything a client sends but Ack and
    AuthResponse. *)
Definition is_request msg : Prop :=
  match Message_Payload msg with
  | Some (Message_Register _) | Some Message_Unregister | Some (Message_RequestPreKeys _)
  | Some (Message_FindChatNumberByShortNumber _) | Some (Message_FindChatNumberByIdentityKey _)
  | Some (Message_OutboundMessage _) | Some (Message_RequestUploadAuthorizations _) => True
  | _ => False
  end.

(** One reply, but none to a request for no upload authorization. *)
Definition replies_due msg s : nat :=
  match Message_Payload msg with
  | Some (Message_RequestUploadAuthorizations r) =>
      if isAuthenticated (cn s) then 1
      else if decide (0 < RequestUploadAuthorizations_NumRequested r)%Z then 1 else 0
  | _ => 1
  end.

Definition lacks_recipient msg : Prop :=
  ∃ o, Message_Payload msg = Some (Message_OutboundMessage o) ∧ OutboundMessage_To o = None.

Lemma one_reply_due msg s s' :
  one_reply msg s s' → ∃ l, replies s s' l ∧ length l = 1 ∧ Forall (λ r, Message_Sequence r = Message_Sequence msg) l.
Proof. intros (r & Hr & Hs). exists [r]. by repeat constructor. Qed.

(** The requests other than outbound messages are handled to the end. *)
Lemma request_returns srvc msg s :
  is_request msg → db_wf (db (en s)) → (∀ o, Message_Payload msg ≠ Some (Message_OutboundMessage o)) →
  ∃ s', doHandleOutboundMessage srvc msg s = Ret s'.
Proof.
  intros Hm W Ho. unfold is_request, doHandleOutboundMessage, refuse in *.
  destruct (Message_Payload msg) as [[]|] eqn:Em; try done;
    destruct (isAuthenticated (cn s)); cbn [negb]; try (by eexists); try (by destruct (Ho o)).
  - unfold handleRegister, GetRegister. rewrite Em. destruct (presence_Announce _ _ _) as [p [e|]]; [by eexists|].
    cbn [deref mbind outcome_bind]. edestruct Register_law as (d' & e & -> & _); [exact W|]. destruct e; by eexists.
  - unfold handleUnregister. edestruct Unregister_law as (d' & e & -> & _); [exact W|]. destruct e; by eexists.
  - unfold handleRequestPreKeys, GetRequestPreKeys. rewrite Em. cbn [deref mbind outcome_bind].
    edestruct RequestPreKeys_law as (d' & res & -> & _); [exact W|]. destruct res; by eexists.
  - unfold handleRequestUploadAuthorizations, GetRequestUploadAuthorizations. rewrite Em. cbn [deref mbind outcome_bind].
    destruct (authorizeUploads _ _ _ _) as [[a auths] err]. destruct auths; [destruct err|]; by eexists.
  - unfold handleFindChatNumberByShortNumber, GetFindChatNumberByShortNumber. rewrite Em. cbn [deref mbind outcome_bind].
    edestruct FindChatNumberByShortNumber_law as (res & ->); [exact W|]. destruct res; by eexists.
  - unfold handleFindChatNumberByIdentityKey, GetFindChatNumberByIdentityKey. rewrite Em. cbn [deref mbind outcome_bind].
    edestruct FindChatNumberByIdentityKey_law as (res & -> & _); [exact W|]. destruct res as [[]|]; by eexists.
Qed.

(** An outbound message: the handler is stopped only by a missing recipient or by the
    broker. *)
Lemma outbound_returns srvc msg o s :
  Message_Payload msg = Some (Message_OutboundMessage o) →
  match sendOutboundMessage srvc msg s with
  | Ret _ => True
  | Panic => lacks_recipient msg ∨ ∃ p x b, broker_Publish p x b = Panic
  | Block => ∃ p x b, broker_Publish p x b = Block
  end.
Proof.
  intros Em. unfold sendOutboundMessage, GetOutboundMessage. rewrite Em. cbn [deref mbind outcome_bind].
  assert (Hp : ∀ t x s1, match publishOutbound msg t x s1 with
    | Ret _ => True
    | Panic => lacks_recipient msg ∨ ∃ p x b, broker_Publish p x b = Panic
    | Block => ∃ p x b, broker_Publish p x b = Block
    end).
  { intros t x s1. unfold publishOutbound. destruct (publisherFor t (en s1)) as [e [p|er]]; [|done].
    destruct (broker_Publish p x (broker e)) as [[b [er|]]| |] eqn:E; [done..|right|]; by exists p, x, (broker e). }
  destruct (presence_Find _ _) as [pr [host|e]]; [|done]. unfold topicForAddr.
  destruct (OutboundMessage_To o) as [a|] eqn:Ea; cbn [deref mbind outcome_bind]; [|left; by exists o].
  case_decide; [apply Hp|]. destruct (Marshal_ForwardedMessage _); [apply Hp|done].
Qed.


(** What choosing a number for the identity [k], whose preferred number is [p],
    may do to the registry. *)
Definition number_chosen (k p : string) (v v' : DBSpec.state) (res : result (string * string)) : Prop :=
  match res with
  | Ok (n, sn) =>
      DBSpec.numbers v' !! PublicKey_String k = Some (n, sn) ∧
      (v' = v ∨ DBSpec.numbers v !! PublicKey_String k = None ∧ ¬ DBSpec.taken n v ∧
                strip5 n = strip5 p ∧ v' = DBSpec.assign_number (PublicKey_String k) n sn v)
  | Err e => v' = v ∧ (error_Is e ErrNumberTaken = true → DBSpec.taken p v)
  end.

Lemma getNumberLoop_spec fuel iter k p d :
  db_wf d → 12 <= String.length p → String.length p <= fuel + iter + 11 → fuel ≠ 0 →
  ∃ d' res, getNumberLoop fuel iter k p d = Ret (d', res) ∧ db_wf d' ∧
    number_chosen k p (reg_view d) (reg_view d') res.
Proof.
  intros W Hp. revert iter d W. induction fuel as [|fuel IH]; intros iter d W Hf H0; [done|].
  destruct (candidate_spec p iter Hp) as (n & sn & lc & Hc & Hs & Hl). cbn [getNumberLoop].
  rewrite Hc; cbn. destruct (RegisterChatNumber_law k n sn d W) as (d' & res & Hr & W' & Hv).
  rewrite Hr; cbn. destruct res as [[n' sn']|e].
  - exists d', (Ok (n', sn')). split; [done|]. split; [done|]. unfold number_chosen.
    destruct (DBSpec.numbers (reg_view d) !! PublicKey_String k) as [q|] eqn:Hq.
    + destruct Hv as [<- ->]. eauto.
    + destruct Hv as ([= -> ->] & Hnt & ->). cbn [DBSpec.numbers DBSpec.assign_number].
      rewrite lookup_insert_eq. eauto 7.
  - destruct Hv as [Hv He]. destruct (error_Is e ErrNumberTaken && negb lc) eqn:Hcont.
    + apply andb_prop in Hcont as [_ Hlc]. destruct lc; [done|].
      rewrite <- Hv. apply IH; [done|lia..].
    + exists d', (Err e). split; [done|]. split; [done|]. split; [done|]. intros Ht.
      rewrite Ht in Hcont. destruct lc; [|done]. subst n. auto.
Qed.

(** C20: choosing a chat number terminates and is correct for every database
    that keeps its contract.  [getNumber] always returns (the loop over
    candidates ends); on success the identity owns the returned number and
    short number in the registry, and either it owned them before and nothing
    changed, or the number was free and differs from the identity's preferred
    number at most in added 5s; on an error nothing changed, and if the error is
    "number taken" the preferred number itself belongs to some identity. *)
Theorem getNumber_correct s :
  db_wf (db (en s)) → 12 <= String.length (PublicKey_Number (getIdentityKey (cn s))) →
  ∃ d res, getNumber s = Ret (with_en (set_db d) s, res) ∧ db_wf d ∧
    number_chosen (getIdentityKey (cn s)) (PublicKey_Number (getIdentityKey (cn s)))
      (reg_view (db (en s))) (reg_view d) res.
Proof.
  intros W Hp. unfold getNumber.
  destruct (getNumberLoop_spec (getNumberFuel (PublicKey_Number (getIdentityKey (cn s)))) 0
              (getIdentityKey (cn s)) _ _ W Hp) as (d & res & -> & W' & Hn);
    [unfold getNumberFuel; lia..|].
  exists d, res. done.
Qed.

(** ** What a request may do to the registry *)

Lemma getNumber_spec s s' res :
  db_wf (db (en s)) → getNumber s = Ret (s', res) →
  ∃ d, s' = with_en (set_db d) s ∧ db_wf d ∧
    number_chosen (getIdentityKey (cn s)) (PublicKey_Number (getIdentityKey (cn s)))
      (reg_view (db (en s))) (reg_view d) res.
Proof.
  intros W H. unfold getNumber in H. apply bind_Ret_inv in H as ([d r] & Hl & [= <- <-]).
  assert (Hp : 12 <= String.length (PublicKey_Number (getIdentityKey (cn s)))).
  { cbn [getNumberLoop getNumberFuel] in Hl. apply bind_Ret_inv in Hl as (x & Hc & _).
    unfold candidate, slice_from in Hc. by destruct (decide _). }
  destruct (getNumberLoop_spec (getNumberFuel (PublicKey_Number (getIdentityKey (cn s)))) 0
              (getIdentityKey (cn s)) _ _ W Hp) as (d' & res' & E & W' & Hn);
    [unfold getNumberFuel; lia..|].
  rewrite E in Hl. simplify_eq. by exists d.
Qed.

Lemma finishLogin_registry srvc msg s s' :
  db_wf (db (en s)) → finishLogin srvc msg s = Ret s' →
  same_identity s s' ∧ db_wf (db (en s')) ∧
  ∃ res, number_chosen (getIdentityKey (cn s)) (PublicKey_Number (getIdentityKey (cn s)))
           (reg_view (db (en s))) (reg_view (db (en s'))) res.
Proof.
  intros W H. unfold finishLogin in H. apply bind_Ret_inv in H as ([s1 res] & Hg & H).
  apply getNumber_spec in Hg as (d & -> & Wd & Hc); [|done].
  pose proof (ex_intro _ res Hc) as Hx; clear Hc. unfold startHandlingInbound in H.
  destruct res as [[n sn]|e]; run_handler; (split; [done|split; done]).
Qed.

(** The registrations that handling [msg] on [s] may touch, and how: an
    authenticated connection its own device's, by Register and Unregister; an
    anonymous one takes one-time keys, by RequestPreKeys. *)
Definition may_touch msg s (k d : string) (r r' : option Register) : Prop :=
  isAuthenticated (cn s) = true ∧ needs_auth msg ∧
    k = PublicKey_String (getIdentityKey (cn s)) ∧ d = getDeviceId (cn s) ∨
  isAuthenticated (cn s) = false ∧ (∃ rq, Message_Payload msg = Some (Message_RequestPreKeys rq) ∧
    k = PublicKey_String (RequestPreKeys_IdentityKey rq) ∧ d ∉ RequestPreKeys_KnownDeviceIds rq) ∧
    r' = DBSpec.consume <$> r.

(** The numbers it may assign: one to the identity that logs in, if it has
    none. *)
Definition may_number msg s (k : string) (p : option (string * string)) : Prop :=
  p = None ∧ isAuthenticated (cn s) = false ∧
  ∃ a, verified_login (authNonce (cn s)) msg a ∧ k = PublicKey_String (Address_IdentityKey a).

Definition registry_frame msg s (v v' : DBSpec.state) : Prop :=
  (∀ k d, DBSpec.devices v' !! (k, d) = DBSpec.devices v !! (k, d) ∨
          may_touch msg s k d (DBSpec.devices v !! (k, d)) (DBSpec.devices v' !! (k, d))) ∧
  (∀ k, DBSpec.numbers v' !! k = DBSpec.numbers v !! k ∨ may_number msg s k (DBSpec.numbers v !! k)).

Lemma registry_frame_refl msg s v : registry_frame msg s v v.
Proof. split; auto. Qed.

Lemma number_chosen_frame msg s a v v' res :
  isAuthenticated (cn s) = false → verified_login (authNonce (cn s)) msg a →
  number_chosen (Address_IdentityKey a) (PublicKey_Number (Address_IdentityKey a)) v v' res →
  registry_frame msg s v v'.
Proof.
  intros Ha Hv Hc. destruct res as [[n sn]|e]; [|destruct Hc as [-> _]; apply registry_frame_refl].
  destruct Hc as [_ [->|(Hn & _ & _ & ->)]]; [apply registry_frame_refl|]. split; [by left|].
  intros k. unfold DBSpec.assign_number. cbn [DBSpec.numbers].
  destruct (decide (k = PublicKey_String (Address_IdentityKey a))) as [->|Hk].
  - right. unfold may_number. eauto.
  - left. by rewrite lookup_insert_ne.
Qed.

Lemma register_frame msg s v v' :
  isAuthenticated (cn s) = true → needs_auth msg →
  (v' = v ∨ ∃ r, v' = DBSpec.register (PublicKey_String (getIdentityKey (cn s))) (getDeviceId (cn s)) r v) →
  registry_frame msg s v v'.
Proof.
  intros Ha Hn [->|[r ->]]; [apply registry_frame_refl|]. split; [|by left]. intros k d.
  destruct (decide ((PublicKey_String (getIdentityKey (cn s)), getDeviceId (cn s)) = (k, d))) as [E|E].
  - right. left. by simplify_eq.
  - left. by apply register_other.
Qed.

Lemma unregister_frame msg s v v' :
  isAuthenticated (cn s) = true → needs_auth msg →
  (v' = v ∨ v' = DBSpec.unregister (PublicKey_String (getIdentityKey (cn s))) (getDeviceId (cn s)) v) →
  registry_frame msg s v v'.
Proof.
  intros Ha Hn [-> | ->]; [apply registry_frame_refl|]. split; [|by left]. intros k d.
  destruct (decide ((PublicKey_String (getIdentityKey (cn s)), getDeviceId (cn s)) = (k, d))) as [E|E].
  - right. left. by simplify_eq.
  - left. by apply unregister_other.
Qed.

Lemma request_frame msg s v v' :
  isAuthenticated (cn s) = false →
  (v' = v ∨ ∃ rq, GetRequestPreKeys msg = Some rq ∧
     v' = DBSpec.request (PublicKey_String (RequestPreKeys_IdentityKey rq))
            (RequestPreKeys_KnownDeviceIds rq) v) →
  registry_frame msg s v v'.
Proof.
  intros Ha [->|(rq & Hq & ->)]; [apply registry_frame_refl|]. split; [|by left]. intros k d.
  rewrite request_lookup. destruct (decide _) as [[Hk Hd]|Hn].
  - right. right. unfold GetRequestPreKeys in Hq.
    destruct (Message_Payload msg) as [[]|] eqn:Ep; simplify_eq. eauto 10.
  - left. by destruct (DBSpec.devices v !! (k, d)).
Qed.

(** Each handler's effect on the database. *)
Lemma handleRegister_db srvc msg s s' :
  db_wf (db (en s)) → handleRegister srvc msg s = Ret s' →
  db_wf (db (en s')) ∧ (reg_view (db (en s')) = reg_view (db (en s)) ∨ ∃ r,
    reg_view (db (en s')) = DBSpec.register (PublicKey_String (getIdentityKey (cn s)))
                              (getDeviceId (cn s)) r (reg_view (db (en s)))).
Proof.
  intros W H. unfold handleRegister in H. destruct (presence_Announce _ _ _) as [p [e|]];
    [simplify_eq; auto|]. apply bind_Ret_inv in H as (r & _ & H).
  destruct (Register_law (getIdentityKey (cn s)) (getDeviceId (cn s)) r (db (en s)) W)
    as (d & e & Hr & Wd & Hv). cbn [en with_en set_presence db] in H. rewrite Hr in H; cbn in H.
  destruct e; simplify_eq; cbn [en with_en set_presence set_db db error ack send with_cn]; eauto.
Qed.

Lemma handleUnregister_db msg s s' :
  db_wf (db (en s)) → handleUnregister msg s = Ret s' →
  db_wf (db (en s')) ∧ (reg_view (db (en s')) = reg_view (db (en s)) ∨
    reg_view (db (en s')) = DBSpec.unregister (PublicKey_String (getIdentityKey (cn s)))
                              (getDeviceId (cn s)) (reg_view (db (en s)))).
Proof.
  intros W H. unfold handleUnregister in H.
  destruct (Unregister_law (getIdentityKey (cn s)) (getDeviceId (cn s)) (db (en s)) W)
    as (d & e & Hr & Wd & Hv). rewrite Hr in H; cbn in H.
  destruct e; simplify_eq; cbn [en with_en set_db db error ack send with_cn]; auto.
Qed.

Lemma handleRequestPreKeys_db msg s s' :
  db_wf (db (en s)) → handleRequestPreKeys msg s = Ret s' →
  db_wf (db (en s')) ∧ (reg_view (db (en s')) = reg_view (db (en s)) ∨ ∃ rq,
    GetRequestPreKeys msg = Some rq ∧
    reg_view (db (en s')) = DBSpec.request (PublicKey_String (RequestPreKeys_IdentityKey rq))
                              (RequestPreKeys_KnownDeviceIds rq) (reg_view (db (en s)))).
Proof.
  intros W H. unfold handleRequestPreKeys in H. apply bind_Ret_inv in H as (rq & Hq & H).
  apply deref_Ret_inv in Hq. destruct (RequestPreKeys_law rq (db (en s)) W) as (d & res & Hr & Wd & Hv).
  rewrite Hr in H; cbn in H.
  destruct res; simplify_eq; cbn [en with_en set_db db error ack send with_cn]; eauto.
Qed.

(** The remaining handlers leave the database as it is. *)
Lemma handleFindByShort_db srvc msg s s' :
  db_wf (db (en s)) → handleFindChatNumberByShortNumber srvc msg s = Ret s' → db (en s') = db (en s).
Proof.
  intros W H. unfold handleFindChatNumberByShortNumber in H. apply bind_Ret_inv in H as (rq & _ & H).
  destruct (FindChatNumberByShortNumber_law (FindChatNumberByShortNumber_ShortNumber rq) _ W)
    as (res & Hr). rewrite Hr in H; cbn in H. by destruct res; simplify_eq.
Qed.

Lemma handleFindByKey_db srvc msg s s' :
  db_wf (db (en s)) → handleFindChatNumberByIdentityKey srvc msg s = Ret s' → db (en s') = db (en s).
Proof.
  intros W H. unfold handleFindChatNumberByIdentityKey in H. apply bind_Ret_inv in H as (rq & _ & H).
  destruct (FindChatNumberByIdentityKey_law (FindChatNumberByIdentityKey_IdentityKey rq) _ W)
    as (res & Hr & _). rewrite Hr in H; cbn in H. by destruct res as [[]|]; simplify_eq.
Qed.

Lemma handleUpload_db msg s s' :
  handleRequestUploadAuthorizations msg s = Ret s' → db (en s') = db (en s).
Proof. unfold handleRequestUploadAuthorizations. intros H. by run_handler. Qed.

Lemma handleACK_db msg s s' : handleACK msg s = Ret s' → db (en s') = db (en s).
Proof. unfold handleACK. intros H. by run_handler. Qed.

Lemma publisherFor_db t (e e' : env) res : publisherFor t e = (e', res) → db e' = db e.
Proof. unfold publisherFor. intros H. by repeat case_match; simplify_eq. Qed.

Lemma publishOutbound_db msg t x s s' : publishOutbound msg t x s = Ret s' → db (en s') = db (en s).
Proof.
  unfold publishOutbound. destruct (publisherFor t (en s)) as [e [p|er]] eqn:E; intros H;
    apply publisherFor_db in E; by run_handler.
Qed.

Lemma sendOutboundMessage_db srvc msg s s' :
  sendOutboundMessage srvc msg s = Ret s' → db (en s') = db (en s).
Proof.
  unfold sendOutboundMessage. intros H. apply bind_Ret_inv in H as (o & _ & H).
  destruct (presence_Find _ _) as [p [host|e]]; [|by simplify_eq].
  apply bind_Ret_inv in H as (t & _ & H). case_decide; [by apply publishOutbound_db in H|].
  destruct (Marshal_ForwardedMessage _); [by apply publishOutbound_db in H|by simplify_eq].
Qed.

(** C7: who may change the registry.  For every database that keeps its
    contract, whatever message a connection handles: the registration of a
    device changes only when the connection is authenticated as that very
    device and the message is Register or Unregister, except that an anonymous
    RequestPreKeys takes the newest one-time key of the requested devices; a
    chat number is assigned only to an identity without one, by a login that
    carries a valid signature of that identity over this connection's nonce;
    and the database's invariant is kept. *)
Theorem registry_access srvc msg s s' :
  db_wf (db (en s)) → doHandleOutboundMessage srvc msg s = Ret s' →
  db_wf (db (en s')) ∧ registry_frame msg s (reg_view (db (en s))) (reg_view (db (en s'))).
Proof.
  intros W H. unfold doHandleOutboundMessage, refuse in H.
  assert (Hsame : db (en s') = db (en s) →
    db_wf (db (en s')) ∧ registry_frame msg s (reg_view (db (en s))) (reg_view (db (en s')))).
  { intros ->. auto using registry_frame_refl. }
  destruct (Message_Payload msg) as [[]|] eqn:Ep; try (apply Hsame; by simplify_eq);
    destruct (isAuthenticated (cn s)) eqn:Ha; cbn in H; try (apply Hsame; by simplify_eq).
  - by apply Hsame, (handleACK_db msg).
  - by apply Hsame, (handleACK_db msg).
  - apply handleAuthResponse_cases in H as [(_ & -> & _)|(ad & Hv & H)]; [auto using registry_frame_refl|].
    apply finishLogin_registry in H as (_ & Wd & res & Hc); [|done]. eauto using number_chosen_frame.
  - apply handleRegister_db in H as (Wd & H); [|done]. split; [done|].
    apply register_frame; [done| |done]. unfold needs_auth. by rewrite Ep.
  - apply handleUnregister_db in H as (Wd & H); [|done]. split; [done|].
    apply unregister_frame; [done| |done]. unfold needs_auth. by rewrite Ep.
  - apply handleRequestPreKeys_db in H as (Wd & H); [|done]. eauto using request_frame.
  - by apply Hsame, (handleUpload_db msg).
  - by apply Hsame, (sendOutboundMessage_db srvc msg).
  - by apply Hsame, (handleFindByShort_db srvc msg).
  - by apply Hsame, (handleFindByKey_db srvc msg).
Qed.

End with_db.

(** ** Routing of outbound messages *)

Section with_broker.
Context {BL : BrokerLaws B} {LL : LRULaws C Publisher}.

(** The cache files every publisher under its own topic. *)
Definition cache_ok (c : C) : Prop := ∀ t p, lru_view c !! t = Some p → pub_topic p = t.

(** The part of the environment that routing relies on. *)
Definition routing_ok (e : env) : Prop := broker_wf (broker e) ∧ cache_ok (publisherCache e).

Lemma publisherFor_spec t (e e' : env) res :
  routing_ok e → publisherFor t e = (e', res) →
  routing_ok e' ∧ quiet (broker e) (broker e') ∧ (∀ p, res = Ok p → pub_topic p = t).
Proof.
  intros [W Hc]. unfold publisherFor. destruct (lru_Get_law t (publisherCache e)) as (c & -> & Hv).
  assert (Hcc : cache_ok c). { intros t' p'. rewrite Hv. apply Hc. }
  destruct (lru_view (publisherCache e) !! t) as [p|] eqn:Et.
  { intros [= <- <-]. split_and!; [done..|]. intros p' [= <-]. by apply Hc. }
  destruct (broker_NewPublisher t (broker e)) as [b [p|er]] eqn:Eb;
    apply NewPublisher_law in Eb as (Hq & Hp); [|done| |done]; pose proof (quiet_wf _ _ Hq W) as Wb.
  - destruct (lru_Add t p c) as [c' out] eqn:Ea. apply lru_Add_law in Ea as [_ Hsub].
    pose proof (close_all_quiet out b Wb) as Hq'. intros [= <- <-].
    split_and!; [split; [by apply (quiet_wf b)|]| |by intros p' [= <-]; apply Hp].
    + intros t' p' Hl. simpl in Hl. eapply lookup_weaken in Hl; [|exact Hsub].
      destruct (decide (t' = t)) as [->|Ht]; [rewrite lookup_insert_eq in Hl; simplify_eq; by apply Hp|].
      rewrite lookup_insert_ne in Hl by done. by apply Hcc.
    + by transitivity b.
  - intros [= <- <-]. split_and!; [done..|]. by intros p [=].
Qed.

(** The outcome of publishing [x] on [topic] in answer to [msg]: acknowledged
    with exactly that message added, or an error with nothing added. *)
Definition published_or_error msg topic (x : option string) s s' : Prop :=
  (replies s s' [NewAck msg] ∧ ∀ t, backlog (broker (en s')) t ≡ₚ
     if decide (t = topic) then x :: backlog (broker (en s)) t else backlog (broker (en s)) t) ∨
  (∃ err, replies s s' [NewError msg err]) ∧
     (∀ t, backlog (broker (en s')) t ≡ₚ backlog (broker (en s)) t).

Lemma publishOutbound_spec msg topic x s s' :
  routing_ok (en s) → publishOutbound msg topic x s = Ret s' →
  cache_ok (publisherCache (en s')) ∧ published_or_error msg topic x s s'.
Proof.
  intros Hok H. unfold publishOutbound in H.
  destruct (publisherFor topic (en s)) as [e [p|er]] eqn:E;
    destruct (publisherFor_spec _ _ _ _ Hok E) as ([W Hc] & [[Hs _] _] & Hp).
  - apply bind_Ret_inv in H as ([b err] & Hpub & H). destruct (Publish_law _ _ _ _ _ W Hpub) as (Hb & _ & _).
    destruct err as [er|]; simplify_eq; (split; [done|]); [right; split; [by eexists|]|left; split; [done|]];
      intros t; cbn [en with_en set_broker broker error ack send with_cn]; rewrite Hb, Hs; [done|].
    by rewrite (Hp p eq_refl).
  - simplify_eq. split; [done|]. right. split; [by eexists|]. intros t. simpl. by rewrite Hs.
Qed.

(** Where a message for device [a], found at [host], goes and what is stored
    there: the device's topic and the message's content when the host is this
    one, otherwise the forwarding topic and the whole message, serialized. *)
Definition routed_to srvc (o : OutboundMessage) (a : Address) (host topic : string)
    (x : option string) : Prop :=
  if decide (publicAddr srvc = to_lower host)
  then topic = topicFor (Address_IdentityKey a) (Address_DeviceId a) ∧
       x = OutboundMessage_UnidentifiedSenderMessage o
  else topic = forwardingTopic ∧
       ∃ bytes, x = Some bytes ∧ Marshal_ForwardedMessage (mkForwardedMessage (Some o) 0 0) = Ok bytes.

(** C12: routing.  For every broker and cache that keep their contracts, an
    anonymous connection's message for a device whose host is known is either
    acknowledged, and then exactly one message was stored, on the device's topic
    when the host is this one (compared without case) and on the forwarding topic
    otherwise, or it is answered with an error and nothing was stored anywhere;
    the cache keeps filing publishers under their own topics. *)
Theorem outbound_routed srvc msg s s' o a p host :
  routing_ok (en s) → isAuthenticated (cn s) = false →
  Message_Payload msg = Some (Message_OutboundMessage o) → OutboundMessage_To o = Some a →
  presence_Find (Some a) (presenceRepo (en s)) = (p, Ok host) →
  doHandleOutboundMessage srvc msg s = Ret s' →
  cache_ok (publisherCache (en s')) ∧
  ((∃ err, replies s s' [NewError msg err]) ∧ (∀ t, backlog (broker (en s')) t ≡ₚ backlog (broker (en s)) t) ∨
   ∃ topic x, routed_to srvc o a host topic x ∧ published_or_error msg topic x s s').
Proof.
  intros Hok Ha Hm Hto Hf H. unfold doHandleOutboundMessage in H. rewrite Hm, Ha in H.
  unfold sendOutboundMessage, GetOutboundMessage in H. rewrite Hm in H; cbn [mbind outcome_bind deref] in H.
  rewrite Hto, Hf in H. cbn [mbind outcome_bind deref topicForAddr] in H.
  unfold routed_to. destruct (decide (publicAddr srvc = to_lower host)) as [Hh|Hh].
  - apply publishOutbound_spec in H as [? Hp]; [|done]. split; [done|]. right. eauto.
  - destruct (Marshal_ForwardedMessage _) as [bytes|e] eqn:Em.
    + apply publishOutbound_spec in H as [? Hp]; [|done]. split; [done|]. right. eauto 10.
    + simplify_eq. destruct Hok as [_ ?]. split; [done|]. left. split; [by eexists|done].
Qed.

End with_broker.
(** ** The replies to a login *)

(** What a verified login for [a] does, by the outcomes of choosing a number and
    of opening the subscription.  After a failure to choose a number the login
    still goes on. *)
Definition login_effect srvc msg (a : Address) s s'
    (number : result (string * string)) (sub : result Subscriber) : Prop :=
  identityKey (cn s') = Some (Address_IdentityKey a) ∧
  deviceId (cn s') = Some (Address_DeviceId a) ∧
  subscriptions (cn s') = subscriptions (cn s) ++ match sub with Ok x => [x] | Err _ => [] end ∧
  closed (cn s') = match number with Ok _ => closed (cn s) | Err _ => true end ∧
  replies s s'
    (match number with Ok _ => [] | Err e => [NewError msg (TypedError e)] end ++
     match sub with
     | Ok _ => [chatNumberMessage srvc msg (match number with Ok p => p.1 | Err _ => "" end)
                  (match number with Ok p => p.2 | Err _ => "" end)]
     | Err e => [NewError msg (WithError ErrUnableToOpenSubscriber e)]
     end).

(** C26: login, branch by branch.  A verified login on an anonymous connection
    stores the address, subscribes to the topic of exactly that address and is
    answered with the number that was chosen; if the subscription cannot be
    opened it is answered with an error; and if choosing the number fails it is
    answered twice, with the error and with an empty chat number, and the
    connection is subscribed all the same, though marked closed. *)
Theorem login_outcome srvc msg s a s1 number b sub :
  isAuthenticated (cn s) = false → verified_login (authNonce (cn s)) msg a →
  getNumber (set_identity (Address_IdentityKey a) (Address_DeviceId a) s) = Ret (s1, number) →
  broker_NewSubscriber (topicFor (Address_IdentityKey a) (Address_DeviceId a)) (broker (en s)) = (b, sub) →
  ∃ s', doHandleOutboundMessage srvc msg s = Ret s' ∧ login_effect srvc msg a s s' number sub ∧
        broker (en s') = b.
Proof.
  intros Ha (ar & login & Hp & Hu & Hn & Had & Hv) Hg Hs.
  unfold doHandleOutboundMessage. rewrite Hp, Ha. unfold handleAuthResponse, GetAuthResponse.
  rewrite Hp. cbn [mbind outcome_bind deref]. rewrite Hu, decide_True by done. rewrite Had.
  cbn [mbind outcome_bind deref]. rewrite Hv. unfold finishLogin. rewrite Hg. cbn [mbind outcome_bind].
  unfold getNumber in Hg. apply bind_Ret_inv in Hg as ([d r] & _ & [= <- <-]).
  unfold startHandlingInbound, login_effect, replies, getIdentityKey, getDeviceId.
  destruct r as [[n sn]|e]; simpl; rewrite Hs; destruct sub as [sb|er]; try case_decide; simpl;
    (eexists; split; [reflexivity|]); split_and!; simpl; rewrite ?app_nil_r, <- ?app_assoc; done.
Qed.

(** ** Messages that stop the process *)

(** No goroutine recovers from a panic, so one in a handler ends the process. *)
Definition stops_process srvc msg s : Prop := doHandleOutboundMessage srvc msg s = Panic.

(** An OutboundMessage without a recipient, on an anonymous connection whose
    presence repository answers for the missing address (the static one answers
    for every address), panics: the handler dereferences the nil address. *)
Theorem missing_recipient_panics srvc msg s o p host :
  isAuthenticated (cn s) = false → Message_Payload msg = Some (Message_OutboundMessage o) →
  OutboundMessage_To o = None → presence_Find None (presenceRepo (en s)) = (p, Ok host) →
  stops_process srvc msg s.
Proof.
  intros Ha Hp Ho Hf. unfold stops_process, doHandleOutboundMessage, sendOutboundMessage, GetOutboundMessage.
  rewrite Hp, Ha. cbn [mbind outcome_bind deref]. rewrite Ho, Hf. done.
Qed.

(** A login that carries the connection's nonce and no address panics before
    any signature is checked. *)
Theorem login_without_address_panics srvc msg s ar login :
  isAuthenticated (cn s) = false → Message_Payload msg = Some (Message_AuthResponse ar) →
  Unmarshal_Login (AuthResponse_Login ar) = Ok login → Login_Nonce login = authNonce (cn s) →
  Login_Address login = None → stops_process srvc msg s.
Proof.
  intros Ha Hp Hu Hn Hl. unfold stops_process, doHandleOutboundMessage, handleAuthResponse, GetAuthResponse.
  rewrite Hp, Ha. cbn [mbind outcome_bind deref]. rewrite Hu, decide_True by done. by rewrite Hl.
Qed.
End service_props.
