(* ===== verification/Connection.v ===== *)
(** * Connection: the life of a client connection

    The goroutines of one connection (handleOutbound, sendInitMessages, the
    inbound loop of startHandlingInbound, warnPreKeysLowIfNecessary), the client
    and the rest of the process as a labelled transition system.  A transition
    is one turn of one goroutine's loop; a Go [select] may still pick a message
    after the connection was closed, so closing does not disable anything, until the
    goroutine of a subscription ends and closes its subscriber.
    [EvOthers] stands for what other connections do to the shared environment:
    it is arbitrary. *)

From S2P Require Import Prelude Model Externals DB Broker Presence Attachments Service ServiceProps.

Import serviceimpl.

Section connection.
Context {ID : Identity} {PR : Proto}.
Context {D B P A C : Type} {DBI : DB D} {BI : Broker B} {PI : Presence P}
        {AI : Attachments A} {LI : LRU C Publisher}.
#[local] Abbreviation st := (@st D B P A C BI).
#[local] Abbreviation env := (@env D B P A C).
Implicit Types (s : st) (msg : Message) (srvc : Service).

Inductive event :=
| EvChallenge
| EvConfiguration
| EvOut (msg : Message)
| EvIn (data : option string) (acker : Acker)
| EvCheck
| EvClose
| EvReceive (msg : Message)
| EvOthers
| EvEndInbound.

(** [sent_init] counts the messages of [sendInitMessages] sent so far. *)
Record conn := mkC { cs : st; sent_init : nat }.

Inductive step srvc : event → conn → conn → Prop :=
| step_challenge s : step srvc EvChallenge (mkC s 0) (mkC (sendAuthChallenge s) 1)
| step_configuration s : step srvc EvConfiguration (mkC s 1) (mkC (sendConfiguration s) 2)
| step_out msg s s' n :
    doHandleOutboundMessage srvc msg s = Ret s' →
    step srvc (EvOut msg) (mkC s n) (mkC s' n)
| step_in sub data acker b s n :
    sub ∈ subscriptions (cn s) → broker_Receive sub (broker (en s)) = (b, Some (data, acker)) →
    step srvc (EvIn data acker) (mkC s n)
      (mkC (handleInboundMessage data acker (with_en (set_broker b) s)) n)
| step_check s s' n :
    preKeyChecks (cn s) ≠ 0 → warnPreKeysLowIfNecessary srvc s = Ret s' →
    step srvc EvCheck (mkC s n) (mkC s' n)
| step_close s n : step srvc EvClose (mkC s n) (mkC (Close s) n)
| step_receive msg s s' n :
    Receive s = Ret (s', msg) → step srvc (EvReceive msg) (mkC s n) (mkC s' n)
| step_others s e n : step srvc EvOthers (mkC s n) (mkC (mkSt e (cn s)) n)
| step_end_inbound k sub s n :
    closed (cn s) = true → subscriptions (cn s) !! k = Some sub →
    step srvc EvEndInbound (mkC s n) (mkC (endInbound k sub s) n).

(** Runs, with the events in order. *)
Inductive run srvc : conn → list event → conn → Prop :=
| run_nil c : run srvc c [] c
| run_snoc c tr c' ev c'' :
    run srvc c tr c' → step srvc ev c' c'' → run srvc c (tr ++ [ev]) c''.

Definition start (nonce : string) (e : env) : conn := mkC (Connect nonce e) 0.

(** ** What the events do to the connection's own state *)

(** How handling a message may change the identity. *)
Definition identity_change msg s s' : Prop :=
  authNonce (cn s') = authNonce (cn s) ∧
  (same_identity s s' ∨ isAuthenticated (cn s) = false ∧ ∃ a,
     verified_login (authNonce (cn s)) msg a ∧
     identityKey (cn s') = Some (Address_IdentityKey a) ∧ deviceId (cn s') = Some (Address_DeviceId a)).

Lemma finishLogin_identity srvc msg s s' :
  finishLogin srvc msg s = Ret s' →
  same_identity s s' ∧ mb (cn s') = mb (cn s) ∧ unackedMessages (cn s') = unackedMessages (cn s).
Proof.
  unfold finishLogin, getNumber, startHandlingInbound. intros H.
  apply bind_Ret_inv in H as ([s1 res] & Hg & H). apply bind_Ret_inv in Hg as ([d r] & _ & [= <- <-]).
  destruct r as [[n sn]|e]; run_handler; done.
Qed.

Lemma publishOutbound_keeps msg t x s s' : publishOutbound msg t x s = Ret s' → keeps_conn s s'.
Proof. unfold publishOutbound. intros H. run_handler; done. Qed.

Lemma sendOutboundMessage_keeps srvc msg s s' : sendOutboundMessage srvc msg s = Ret s' → keeps_conn s s'.
Proof.
  unfold sendOutboundMessage. intros H. apply bind_Ret_inv in H as (o & _ & H).
  destruct (presence_Find _ _) as [p [host|e]]; [|run_handler; done].
  apply bind_Ret_inv in H as (t & _ & H). case_decide; [by apply publishOutbound_keeps in H|].
  destruct (Marshal_ForwardedMessage _); [by apply publishOutbound_keeps in H|by run_handler].
Qed.

(** Outbound messages never use the builder; only an Ack touches the
    unacknowledged messages, and only under its own sequence number. *)
Definition bookkeeping msg s s' : Prop :=
  mb (cn s') = mb (cn s) ∧
  (unackedMessages (cn s') = unackedMessages (cn s) ∨
   Message_Payload msg = Some Message_Ack ∧
   unackedMessages (cn s') = delete (Message_Sequence msg) (unackedMessages (cn s))).

Lemma keeps_conn_change msg s s' : keeps_conn s s' → identity_change msg s s' ∧ bookkeeping msg s s'.
Proof.
  intros (Hi & Hm & Hu & _). split; [|split; auto]. destruct Hi as [Hn Hi]. split; [done|]. left. by split.
Qed.

Lemma handleACK_change msg s s' :
  Message_Payload msg = Some Message_Ack → handleACK msg s = Ret s' →
  identity_change msg s s' ∧ bookkeeping msg s s'.
Proof.
  intros Ep H. unfold handleACK in H.
  destruct (unackedMessages (cn s) !! Message_Sequence msg) as [ak|] eqn:Eu;
    [|apply keeps_conn_change; by simplify_eq].
  apply bind_Ret_inv in H as ([b [e|]] & _ & H); simplify_eq; [by apply keeps_conn_change|].
  split; [split; [done|by left]|]. split; [done|]. right. auto.
Qed.

Lemma out_change srvc msg s s' :
  doHandleOutboundMessage srvc msg s = Ret s' → identity_change msg s s' ∧ bookkeeping msg s s'.
Proof.
  intros H. unfold doHandleOutboundMessage, refuse in H.
  destruct (Message_Payload msg) as [[]|] eqn:Ep; try (apply keeps_conn_change; by simplify_eq);
    try (destruct (isAuthenticated (cn s)) eqn:Ha; cbn in H; try (apply keeps_conn_change; by simplify_eq)).
  - by apply handleACK_change.
  - by apply handleACK_change.
  - apply handleAuthResponse_cases in H as [(Hk & _)|(ad & Hv & H)]; [by apply keeps_conn_change|].
    apply finishLogin_identity in H as ((Hn & Hk & Hd) & Hm & Hu). simpl in *.
    split; [split; [done|]|split; [done|by left]]. right. split; [done|]. by exists ad.
  - apply keeps_conn_change. unfold handleRegister in H. by run_handler.
  - apply keeps_conn_change. unfold handleUnregister in H. by run_handler.
  - apply keeps_conn_change. unfold handleRequestPreKeys in H. by run_handler.
  - apply keeps_conn_change. unfold handleRequestUploadAuthorizations in H. by run_handler.
  - eapply keeps_conn_change, sendOutboundMessage_keeps, H.
  - apply keeps_conn_change. unfold handleFindChatNumberByShortNumber in H. by run_handler.
  - apply keeps_conn_change. unfold handleFindChatNumberByIdentityKey in H. by run_handler.
Qed.

(** The events other than client messages keep the identity. *)
Lemma step_identity srvc ev c c' :
  step srvc ev c c' →
  authNonce (cn (cs c')) = authNonce (cn (cs c)) ∧
  (same_identity (cs c) (cs c') ∨ ∃ msg, ev = EvOut msg ∧ identity_change msg (cs c) (cs c')).
Proof.
  intros H. destruct H as [s|s|msg s s' n H|sub data acker b s n Hs Hb|s s' n Hk H|s n|msg s s' n H|s e n|k sub s n Hc Hk];
    try (split; [done|by left]); simpl.
  - apply out_change in H as [Hi _]. split; [apply Hi|eauto].
  - unfold warnPreKeysLowIfNecessary in H. run_handler; (split; [done|by left]).
  - unfold Receive in H. destruct (in_ (cn s)); simplify_eq. split; [done|by left].
Qed.

Lemma same_identity_auth s s' : same_identity s s' → isAuthenticated (cn s') = isAuthenticated (cn s).
Proof. intros (_ & Hk & _). unfold isAuthenticated, getIdentityKey. by rewrite Hk. Qed.

(** ** Authentication *)

(** The login that gave a connection its identity. *)
Definition logged_in nonce (tr : list event) s : Prop :=
  ∃ msg a, EvOut msg ∈ tr ∧ verified_login nonce msg a ∧
    getIdentityKey (cn s) = Address_IdentityKey a ∧ getDeviceId (cn s) = Address_DeviceId a.

(** C1: authentication.  In every run of a connection, whatever the clients and
    the other connections do, the connection counts as authenticated only after
    it has handled a login message whose signature, made with the identity key
    the connection now carries, covers a login with this connection's own nonce
    and with the identity key and device id the connection now carries. *)
Theorem authenticated_by_signature srvc nonce e tr c :
  run srvc (start nonce e) tr c → isAuthenticated (cn (cs c)) = true → logged_in nonce tr (cs c).
Proof.
  intros Hr. cut (authNonce (cn (cs c)) = nonce ∧
    (isAuthenticated (cn (cs c)) = true → logged_in nonce tr (cs c))); [by intros [_ ?]|].
  remember (start nonce e) as c0 eqn:E. induction Hr as [c|c tr c1 ev c2 Hr IH Hs]; subst; [done|].
  destruct (IH eq_refl) as [Hn Hl]. apply step_identity in Hs as [Hn' Hs]. split; [congruence|].
  intros Ha. destruct Hs as [Hsame|(msg & -> & _ & [Hsame|(_ & a & Hv & Hk & Hd)])].
  1,2: pose proof (same_identity_auth _ _ Hsame); destruct Hl as (msg' & a & Hin & Hv & Hk & Hd); [congruence|];
    destruct Hsame as (_ & Ek & Ed); exists msg', a; unfold getIdentityKey, getDeviceId in *;
    rewrite Ek, Ed; split_and!; [set_solver|done..].
  exists msg, a. unfold getIdentityKey, getDeviceId. rewrite Hk, Hd. rewrite Hn in Hv.
  split_and!; [set_solver|done..].
Qed.

(** C10: the identity of an authenticated connection never changes: no further
    event, a second login included, replaces its identity key or device id. *)
Theorem identity_immutable srvc c tr c' :
  isAuthenticated (cn (cs c)) = true → run srvc c tr c' → same_identity (cs c) (cs c').
Proof.
  intros Ha Hr. induction Hr as [c|c tr c1 ev c2 Hr IH Hs]; [done|]. specialize (IH Ha).
  apply step_identity in Hs as [_ Hs]. pose proof (same_identity_auth _ _ IH) as Ha1.
  assert (Hsame : same_identity (cs c1) (cs c2)).
  { destruct Hs as [?|(msg & -> & _ & [?|(Hf & _)])]; [done..|congruence]. }
  destruct IH as (? & ? & ?), Hsame as (? & ? & ?). unfold same_identity. split_and!; congruence.
Qed.

(** ** Acknowledgements *)

(** Events that may take a sequence number from the connection's builder. *)
Definition builds (ev : event) : bool :=
  match ev with EvChallenge | EvConfiguration | EvIn _ _ | EvCheck => true | _ => false end.

Definition n_builds (tr : list event) : nat := length (filter builds tr).

Definition acks (q : Z) (ev : event) : Prop :=
  match ev with EvOut msg => Message_Payload msg = Some Message_Ack ∧ Message_Sequence msg = q | _ => False end.

Definition counter s : Z := Model.model.seq (mb (cn s)).

(** The builder moves by at most one per building event, and an entry of the
    unacknowledged messages goes away only by its Ack or by a new message with
    the same number. *)
Lemma step_books srvc ev c c' q ak :
  step srvc ev c c' → unackedMessages (cn (cs c)) !! q = Some ak → ¬ acks q ev →
  (counter (cs c') = counter (cs c) ∨ builds ev = true ∧ counter (cs c') = wrap_u32 (counter (cs c) + 1)) ∧
  (unackedMessages (cn (cs c')) !! q = Some ak ∨ builds ev = true ∧ q = wrap_u32 (counter (cs c) + 1)).
Proof.
  unfold counter. intros H Hq Hna.
  destruct H as [s|s|msg s s' n H|sub data acker b s n Hs Hb|s s' n Hk H|s n|msg s s' n H|s e n|k sub s n Hc Hk];
    cbn [cs] in *; try (split; [by auto|by left]).
  - apply out_change in H as [_ [-> [->|[Hp ->]]]]; [by auto|]. split; [by left|]. left.
    rewrite lookup_delete_ne; [done|]. intros <-. by apply Hna.
  - split; [by right|]. cbn [cn with_en handleInboundMessage Build send set_unacked with_cn unackedMessages set_mb mb].
    destruct (decide (next_seq (mb (cn s)) = q)) as [<-|Hne]; [by right|].
    left. by rewrite lookup_insert_ne.
  - unfold warnPreKeysLowIfNecessary in H. run_handler; auto.
  - unfold Receive in H. destruct (in_ (cn s)); simplify_eq. auto.
Qed.

Lemma run_books srvc c tr c' q ak :
  run srvc c tr c' → (0 <= q < two32)%Z → counter (cs c) = q →
  unackedMessages (cn (cs c)) !! q = Some ak → Forall (λ ev, ¬ acks q ev) tr →
  (Z.of_nat (n_builds tr) < two32 - 1)%Z →
  unackedMessages (cn (cs c')) !! q = Some ak ∧
  ∃ k, (0 <= k <= Z.of_nat (n_builds tr))%Z ∧ counter (cs c') = wrap_u32 (q + k).
Proof.
  intros Hr Hq Hc Hu. induction Hr as [c|c tr c1 ev c2 Hr IH Hs]; intros Hf Hn.
  { split; [done|]. exists 0%Z. rewrite Z.add_0_r, wrap_u32_small by done. split; [lia|done]. }
  apply Forall_app in Hf as [Hf Hev]. apply Forall_cons_1 in Hev as [Hev _].
  unfold n_builds in *. rewrite filter_app, length_app in *.
  destruct IH as (Hl & k & Hk & Hck); [done..|lia|].
  destruct (step_books _ _ _ _ _ _ Hs Hl Hev) as [Hcnt Hent].
  assert (Hb : builds ev = true → length (filter builds [ev]) = 1).
  { intros Hb. rewrite filter_cons, filter_nil, decide_True; [done|]. by rewrite Hb. }
  assert (Hadd : wrap_u32 (counter (cs c1) + 1) = wrap_u32 (q + (k + 1))).
  { rewrite Hck, wrap_u32_add. f_equal. lia. }
  split.
  - destruct Hent as [?|[Hbe E]]; [done|]. exfalso. rewrite Hadd in E. specialize (Hb Hbe).
    rewrite <- (wrap_u32_small q) in E at 1 by done. apply wrap_u32_inj in E; unfold two32 in *; lia.
  - destruct Hcnt as [E|[Hbe E]]; [exists k; split; [lia|congruence]|].
    specialize (Hb Hbe). exists (k + 1)%Z. split; [lia|congruence].
Qed.

(** C13: acknowledgement of deliveries.  When the broker delivers [data] with its
    [acker], the client is sent an InboundMessage with that data under a sequence
    number [q]; and whatever happens next (fewer than [2^32 - 1] further messages
    built by the server, no earlier Ack for [q]), an Ack with sequence number [q]
    calls exactly that acker, and forgets the message if and only if the acker
    succeeds.  So a message is acknowledged to the broker only by its own Ack,
    and an unacknowledged one is never mistaken for another. *)
Theorem ack_calls_acker srvc data acker c c1 tr c2 msg :
  let q := next_seq (mb (cn (cs c))) in
  step srvc (EvIn data acker) c c1 → run srvc c1 tr c2 →
  Forall (λ ev, ¬ acks q ev) tr → (Z.of_nat (n_builds tr) < two32 - 1)%Z →
  Message_Payload msg = Some Message_Ack → Message_Sequence msg = q →
  replies (cs c) (cs c1) [mkMessage q (Some (Message_InboundMessage (mkInboundMessage data)))] ∧
  doHandleOutboundMessage srvc msg (cs c2) =
    ('(b, err) ← broker_Ack acker (broker (en (cs c2)));
     let s := with_en (set_broker b) (cs c2) in
     Ret (match err with
          | Some _ => s
          | None => set_unacked (delete q (unackedMessages (cn s))) s
          end)).
Proof.
  intros q Hin Hr Hf Hn Hp Hs.
  assert (H1 : replies (cs c) (cs c1) [mkMessage q (Some (Message_InboundMessage (mkInboundMessage data)))] ∧
    counter (cs c1) = q ∧ unackedMessages (cn (cs c1)) !! q = Some acker).
  { inversion Hin; subst; cbn [cs] in *. split_and!; [done..|]. simpl. apply lookup_insert_eq. }
  destruct H1 as (Hrep & Hc & Hu). split; [done|].
  destruct (run_books _ _ _ _ _ _ Hr (wrap_u32_range _) Hc Hu Hf Hn) as [Hl _].
  change (unackedMessages (cn (cs c2)) !! q = Some acker) in Hl.
  unfold doHandleOutboundMessage, handleACK. rewrite Hp, Hs, Hl.
  destruct (broker_Ack _ _) as [[b [err|]]| |]; done.
Qed.
End connection.
