(* ===== verification/Protocol.v ===== *)
(** * Protocol: what a client may receive

    The exchange of messages that model/Messages.proto describes: every request is
    answered by a message of a certain kind with the request's sequence number, and
    the server says a few things of its own accord.  For every run of a connection,
    whatever a client is sent is one of these. *)

From S2P Require Import Prelude Model Externals DB Broker Presence Attachments Service ServiceProps Connection.
Import serviceimpl.

(** The kind of reply to a request: its type, or an Error. *)
Definition reply_kind (request reply : isMessage_Payload) : bool :=
  match request, reply with
  | (Message_AuthResponse _ | Message_Register _ | Message_Unregister | Message_RequestPreKeys _
     | Message_RequestUploadAuthorizations _ | Message_OutboundMessage _ | Message_FindChatNumberByShortNumber _
     | Message_FindChatNumberByIdentityKey _), Message_Error _ => true
  | (Message_Register _ | Message_Unregister | Message_OutboundMessage _), Message_Ack => true
  | (Message_AuthResponse _ | Message_FindChatNumberByShortNumber _ | Message_FindChatNumberByIdentityKey _),
    Message_ChatNumber _ => true
  | Message_RequestPreKeys _, Message_PreKeys _ => true
  | Message_RequestUploadAuthorizations _, Message_UploadAuthorizations _ => true
  | _, _ => false
  end.

Definition is_uint32 (z : Z) : Prop := (0 <= z < two32)%Z.

Section protocol.
Context {ID : Identity} {PR : Proto}.
Context {D B P A C : Type} {DBI : DB D} {BI : Broker B} {PI : Presence P}
        {AI : Attachments A} {LI : LRU C Publisher}.
#[local] Abbreviation st := (@st D B P A C BI).
#[local] Abbreviation event := (@event B BI).
Implicit Types (s : st) (msg m : Message) (srvc : Service) (ev : event).

(** The replies to [msg]. *)
Definition reply_to msg m : Prop :=
  Message_Sequence m = Message_Sequence msg ∧
  ∃ request reply, Message_Payload msg = Some request ∧ Message_Payload m = Some reply ∧
    reply_kind request reply = true.

(** What an event makes a connection send. *)
Definition sent_by (nonce : string) ev m : Prop :=
  match ev with
  | EvOut msg => reply_to msg m
  | EvChallenge => is_uint32 (Message_Sequence m) ∧ Message_Payload m = Some (Message_AuthChallenge (mkAuthChallenge nonce))
  | EvConfiguration => is_uint32 (Message_Sequence m) ∧ ∃ c, Message_Payload m = Some (Message_Configuration c)
  | EvIn data _ => is_uint32 (Message_Sequence m) ∧ Message_Payload m = Some (Message_InboundMessage (mkInboundMessage data))
  | EvCheck => is_uint32 (Message_Sequence m) ∧
      ∃ n, Message_Payload m = Some (Message_PreKeysLow (mkPreKeysLow n)) ∧ is_uint32 n
  | _ => False
  end.

(** The messages a handler adds are replies. *)
Definition replying msg s s' : Prop := ∃ l, replies s s' l ∧ Forall (reply_to msg) l.

Lemma replying_none msg s s' : in_ (cn s') = in_ (cn s) → replying msg s s'.
Proof. intros E. exists []. split; [|constructor]. unfold replies. by rewrite app_nil_r. Qed.

(** Ends a branch of a handler for the request [request]. *)
Ltac solve_replying request :=
  (eexists; split; [reflexivity|]; repeat constructor; exists request; eexists; by split_and!) ||
  (by apply replying_none).

Lemma error_replying msg request err s s' f :
  Message_Payload msg = Some request → reply_kind request (Message_Error ErrUnknown) = true →
  s' = error msg err (with_en f s) → replying msg s s'.
Proof. intros Hp Hk ->. eexists. split; [reflexivity|]. repeat constructor. exists request. eexists. by split_and!. Qed.

Lemma publishOutbound_replying msg o t x s s' :
  Message_Payload msg = Some (Message_OutboundMessage o) → publishOutbound msg t x s = Ret s' → replying msg s s'.
Proof. intros Hp H. unfold publishOutbound in H. run_handler; solve_replying (Message_OutboundMessage o). Qed.

Lemma sendOutboundMessage_replying srvc msg o s s' :
  Message_Payload msg = Some (Message_OutboundMessage o) → sendOutboundMessage srvc msg s = Ret s' → replying msg s s'.
Proof.
  intros Hp H. unfold sendOutboundMessage, GetOutboundMessage in H. rewrite Hp in H. cbn [mbind outcome_bind deref] in H.
  destruct (presence_Find _ _) as [p [host|e]]; [|by injection H as <-; eapply error_replying].
  apply bind_Ret_inv in H as (t & _ & H). case_decide; [by eapply publishOutbound_replying in H|].
  destruct (Marshal_ForwardedMessage _); [by eapply publishOutbound_replying in H|].
  by injection H as <-; eapply error_replying.
Qed.

Lemma finishLogin_replying srvc msg r s s' :
  Message_Payload msg = Some (Message_AuthResponse r) → finishLogin srvc msg s = Ret s' → replying msg s s'.
Proof.
  intros Hp H. unfold finishLogin in H. apply bind_Ret_inv in H as ([s1 res] & Hg & H).
  unfold getNumber in Hg. apply bind_Ret_inv in Hg as ([d q] & _ & [= <- <-]). unfold startHandlingInbound in H.
  assert (Hk : ∀ q p, p = Message_AuthResponse r → ∀ reply, reply_kind p reply = true → q = Message_Sequence msg →
    reply_to msg (mkMessage q (Some reply))).
  { intros ? ? -> reply Hk ->. split; [done|]. by exists (Message_AuthResponse r), reply. }
  destruct q as [[n sn]|er]; destruct (broker_NewSubscriber _ _) as [b [sub|err]]; injection H as <-;
    try case_decide; (eexists; split; [unfold replies; simpl; rewrite <- ?app_assoc; reflexivity|]);
    repeat constructor; by eapply Hk.
Qed.

Lemma handleAuthResponse_replying srvc msg r s s' :
  Message_Payload msg = Some (Message_AuthResponse r) → handleAuthResponse srvc msg s = Ret s' → replying msg s s'.
Proof.
  intros Hp H. unfold handleAuthResponse, GetAuthResponse in H. rewrite Hp in H. cbn [mbind outcome_bind deref] in H.
  destruct (Unmarshal_Login _) as [login|e]; [|by injection H as <-; solve_replying (Message_AuthResponse r)].
  case_decide; [|by injection H as <-; solve_replying (Message_AuthResponse r)].
  apply bind_Ret_inv in H as (a & _ & H).
  destruct (PublicKey_Verify _ _ _); [|by injection H as <-; solve_replying (Message_AuthResponse r)].
  by apply (finishLogin_replying _ _ r) in H.
Qed.

(** Whatever the client sends, it is sent replies to that message. *)
Lemma handler_replying srvc msg s s' : doHandleOutboundMessage srvc msg s = Ret s' → replying msg s s'.
Proof.
  intros H. unfold doHandleOutboundMessage, refuse in H.
  destruct (Message_Payload msg) as [p|] eqn:Ep; [|injection H as <-; by apply replying_none].
  destruct p as [| | | | | | | | | | | | | | | |]; try (injection H as <-; by apply replying_none);
    try (destruct (isAuthenticated (cn s)); cbn [negb] in H).
  all: try (injection H as <-; eexists; split; [reflexivity|]; repeat constructor; eexists _, _; by split_and!).
  - unfold handleACK in H. run_handler; by apply replying_none.
  - unfold handleACK in H. run_handler; by apply replying_none.
  - by eapply handleAuthResponse_replying.
  - unfold handleRegister in H. run_handler; solve_replying (Message_Register r).
  - unfold handleUnregister in H. run_handler; solve_replying Message_Unregister.
  - unfold handleRequestPreKeys in H. run_handler; solve_replying (Message_RequestPreKeys r).
  - unfold handleRequestUploadAuthorizations in H. run_handler; solve_replying (Message_RequestUploadAuthorizations r).
  - by eapply sendOutboundMessage_replying.
  - unfold handleFindChatNumberByShortNumber in H. run_handler; solve_replying (Message_FindChatNumberByShortNumber f).
  - unfold handleFindChatNumberByIdentityKey in H. run_handler; solve_replying (Message_FindChatNumberByIdentityKey f).
Qed.
(** A step takes the first message away, or adds messages that the event sends. *)
Lemma step_sends srvc ev c c' :
  Connection.step srvc ev c c' →
  (∃ m, ev = EvReceive m ∧ in_ (cn (cs c)) = m :: in_ (cn (cs c'))) ∨
  (∀ m, ev ≠ EvReceive m) ∧
  ∃ l, in_ (cn (cs c')) = in_ (cn (cs c)) ++ l ∧ Forall (sent_by (authNonce (cn (cs c))) ev) l.
Proof.
  assert (Hsame : ∀ (l : list Message) Φ, ∃ l', l = l ++ l' ∧ Forall Φ l')
    by (intros l Φ; exists []; by rewrite app_nil_r).
  intros H. destruct H as [s|s|msg s s' n H|sub data acker b s n Hs Hb|s s' n Hk H|s n|msg s s' n H|s e n|k sub s n Hc Hk];
    cbn [cs]; try (right; split; [done|apply Hsame]); try (right; split; [done|]).
  - eexists. split; [reflexivity|]. repeat constructor; apply wrap_u32_range.
  - eexists. split; [reflexivity|]. constructor; [|done]. split; [apply wrap_u32_range|by eexists].
  - by apply handler_replying in H.
  - eexists. split; [reflexivity|]. repeat constructor; apply wrap_u32_range.
  - unfold warnPreKeysLowIfNecessary in H. run_handler; try apply Hsame.
    eexists. split; [reflexivity|]. constructor; [|done]. split; [apply wrap_u32_range|].
    eexists. split; [done|apply wrap_u32_range].
  - left. unfold Receive in H. destruct (in_ (cn s)) eqn:E; simplify_eq. by exists msg.
Qed.

(** What the client has been sent: received, or waiting. *)
Definition sent_to_client (tr : list event) (s : st) m : Prop := EvReceive m ∈ tr ∨ m ∈ in_ (cn s).

Lemma run_sends srvc nonce e tr c m :
  Connection.run srvc (start nonce e) tr c → sent_to_client tr (cs c) m →
  ∃ ev, ev ∈ tr ∧ sent_by nonce ev m.
Proof.
  intros Hr. cut (authNonce (cn (cs c)) = nonce ∧
    ∀ m, sent_to_client tr (cs c) m → ∃ ev, ev ∈ tr ∧ sent_by nonce ev m); [by intros [_ H]; apply H|].
  clear m. remember (start nonce e) as c0 eqn:E.
  induction Hr as [c|c tr c1 ev c2 Hr IH Hs]; subst.
  { split; [done|]. unfold sent_to_client. simpl. intros m [?%not_elem_of_nil|?%not_elem_of_nil]; done. }
  destruct (IH eq_refl) as [Hn Hl]. split; [apply step_identity in Hs as [? _]; congruence|].
  assert (Hold : ∀ m, sent_to_client tr (cs c1) m → ∃ ev', ev' ∈ tr ++ [ev] ∧ sent_by nonce ev' m).
  { intros m (ev' & ? & ?)%Hl. exists ev'. set_solver. }
  intros m Hm. apply step_sends in Hs as [(m0 & -> & Hin)|(Hne & l & Hin & Hf)].
  - apply Hold. unfold sent_to_client in *. rewrite Hin. destruct Hm as [Hm|Hm]; [|right; by apply list_elem_of_further].
    apply elem_of_app in Hm as [?|[= ->]%list_elem_of_singleton]; [by left|]. right. apply list_elem_of_here.
  - unfold sent_to_client in *. rewrite Hin in Hm. destruct Hm as [Hm|[?|Hm]%elem_of_app].
    + apply elem_of_app in Hm as [?|Hm%list_elem_of_singleton]; [by apply Hold; left|by destruct (Hne m)].
    + by apply Hold; right.
    + rewrite Forall_forall in Hf. exists ev. rewrite <- Hn. split; [set_solver|by apply Hf].
Qed.

(** C21: the protocol is typed.  In every run of a connection whose client sends
    sequence numbers of 32 bits, every message the client is sent has one too, and is
    either a reply to one of its own requests, with that request's sequence number and
    of the kind that Messages.proto gives for it or an Error, or one of the messages a
    server sends of its own accord: the challenge with the connection's nonce, the
    configuration, a warning that pre keys are low, or what the broker delivered. *)
Theorem client_messages_typed srvc nonce e tr c m :
  (∀ msg, EvOut msg ∈ tr → is_uint32 (Message_Sequence msg)) →
  Connection.run srvc (start nonce e) tr c → sent_to_client tr (cs c) m →
  is_uint32 (Message_Sequence m) ∧ ∃ ev, ev ∈ tr ∧ sent_by nonce ev m.
Proof.
  intros Hu Hr Hm. destruct (run_sends _ _ _ _ _ _ Hr Hm) as (ev & Hin & Hs). split; [|eauto].
  destruct ev; try (by destruct Hs). destruct Hs as [-> _]. by apply Hu.
Qed.
End protocol.
