(* ===== verification/Web.v ===== *)
(** * Web: the websocket server (web/web.go)

    ServeHTTP starts two goroutines per connection: one reads frames and hands the
    messages to the service, the other takes the service's messages and writes
    frames.  The handler returns, and closes the service's connection, when both
    have ended.  Reading and writing may fail at any time (time-outs, a closed
    connection).

    The service's side is left open: it may put any message on the channel [in] of
    the connection at any time when there is room, and it may take the message the
    reader holds out at any time, or never.  The theorems hold for every service, so
    for the one of Interleaving.v with the bounded channels of Channels.v.  The
    pings, which only keep the websocket open, are left out. *)

From S2P Require Import Prelude Model Externals Service.

Module web.

Definition forceClose : string := "forceclose".

(** What ServeHTTP answers before it serves a websocket. *)
Inductive response (X : Type) := NotFound | InternalServerError | NoUpgrade | Serve (client : X).
Arguments NotFound {X}. Arguments InternalServerError {X}. Arguments NoUpgrade {X}. Arguments Serve {X}.

(** [connect] is the result of the service's Connect, [accept] that of upgrading. *)
Definition ServeHTTP {X} (requestURI : string) (connect : result X) (accept : option goerror) : response X :=
  if negb (bool_decide (requestURI = "/api")) then NotFound
  else match connect with
       | Err _ => InternalServerError
       | Ok client => match accept with Some _ => NoUpgrade | None => Serve client end
       end.

(** The goroutines: reading a frame, handing a message to the service; waiting for
    a message or the end, writing a frame. *)
Inductive reader := Reading | Handing (m : Message) | ReaderDone.
Inductive writer := Selecting | Writing (b : string) | WriterDone.

Section web.
Context {MP : MessageProto}.

(** The reader after a frame: its state, and whether it stopped. *)
Definition onFrame (b : string) : reader * bool :=
  if decide (b = forceClose) then (ReaderDone, true)
  else match Unmarshal_Message b with
       | Err _ => (Reading, false)
       | Ok m => (Handing m, false)
       end.

(** The writer after a message. *)
Definition onMessage (m : Message) : writer :=
  match Marshal_Message m with Err _ => Selecting | Ok b => Writing b end.

Definition decode (b : string) : option Message :=
  match Unmarshal_Message b with Ok m => Some m | Err _ => None end.
Definition encode (m : Message) : option string :=
  match Marshal_Message m with Ok b => Some b | Err _ => None end.

(** The goroutines of ServeHTTP ([stopped]: stopCh is closed; [returned]: ServeHTTP
    has returned, and so closed the service's connection) and the channel [in].  The
    other fields record what happened: [frames] were read and [written] written,
    the service [accepted] messages from the reader and [sent] messages on the
    channel, and the writer has [taken] messages from there. *)
Record handler := mkHandler {
  rd : reader; wr : writer; in_ : list Message; stopped : bool; returned : bool;
  frames : list string; written : list string;
  accepted : list Message; sent : list Message; taken : list Message }.

Definition set_reader (r : reader) (stop : bool) (fs : list string) (acc : list Message) (w : handler) : handler :=
  mkHandler r (wr w) (in_ w) stop (returned w) fs (written w) acc (sent w) (taken w).

Definition set_writer (x : writer) (out : list string) (w : handler) : handler :=
  mkHandler (rd w) x (in_ w) (stopped w) (returned w) (frames w) out (accepted w) (sent w) (taken w).

Inductive wlabel := WRead (b : string) | WWrite (b : string) | WReturn | WInternal.

(** A write that fails may ([s_write_late]) or may not ([s_write_error]) have sent the
    frame. *)
Inductive step : wlabel → handler → handler → Prop :=
| s_read b w :
    rd w = Reading →
    step (WRead b) w (set_reader (onFrame b).1 (stopped w || (onFrame b).2)
                        (if decide (b = forceClose) then frames w else frames w ++ [b]) (accepted w) w)
| s_read_error w :
    rd w = Reading → step WInternal w (set_reader ReaderDone true (frames w) (accepted w) w)
| s_hand m w :
    rd w = Handing m → step WInternal w (set_reader Reading (stopped w) (frames w) (accepted w ++ [m]) w)
| s_take m l w :
    wr w = Selecting → in_ w = m :: l →
    step WInternal w (mkHandler (rd w) (onMessage m) l (stopped w) (returned w) (frames w) (written w)
                        (accepted w) (sent w) (taken w ++ [m]))
| s_write b w :
    wr w = Writing b → step (WWrite b) w (set_writer Selecting (written w ++ [b]) w)
| s_write_error b w :
    wr w = Writing b → step WInternal w (set_writer WriterDone (written w) w)
| s_write_late b w :
    wr w = Writing b → step (WWrite b) w (set_writer WriterDone (written w ++ [b]) w)
| s_stop w :
    wr w = Selecting → stopped w = true → step WInternal w (set_writer WriterDone (written w) w)
| s_return w :
    rd w = ReaderDone → wr w = WriterDone → returned w = false →
    step WReturn w (mkHandler (rd w) (wr w) (in_ w) (stopped w) true (frames w) (written w)
                      (accepted w) (sent w) (taken w))
| s_service m w :
    length (in_ w) < serviceimpl.inCapacity →
    step WInternal w (mkHandler (rd w) (wr w) (in_ w ++ [m]) (stopped w) (returned w) (frames w) (written w)
                        (accepted w) (sent w ++ [m]) (taken w)).

Definition serving : handler := mkHandler Reading Selecting [] false false [] [] [] [] [].

Definition any_step (w w' : handler) : Prop := ∃ l, step l w w'.

(** All connections of the server, and its counter. *)
Record server := mkServer { handlers : list handler; activeConnections : Z }.

Definition NewHandler : server := mkServer [] 0.

Definition ActiveConnections (s : server) : Z := activeConnections s.

Inductive serve : server → server → Prop :=
| serve_connect s :
    serve s (mkServer (handlers s ++ [serving]) (wrap_i64 (activeConnections s + 1)))
| serve_run i l w w' s :
    handlers s !! i = Some w → step l w w' → l ≠ WReturn →
    serve s (mkServer (<[i := w']> (handlers s)) (activeConnections s))
| serve_return i w w' s :
    handlers s !! i = Some w → step WReturn w w' →
    serve s (mkServer (<[i := w']> (handlers s)) (wrap_i64 (activeConnections s - 1))).

End web.
End web.

Import web.

Section web_facts.
Context {MP : MessageProto}.
Implicit Types w : handler.

(** ** Order of messages *)

(** The message the reader is handing over, and the frame the writer is writing. *)
Definition handing (r : reader) : list Message := match r with Handing m => [m] | _ => [] end.
Definition writing (x : writer) : list string := match x with Writing b => [b] | _ => [] end.

Record web_inv w : Prop := {
  wi_in : omap decode (frames w) = accepted w ++ handing (rd w);
  wi_sent : sent w = taken w ++ in_ w;
  wi_room : length (in_ w) ≤ serviceimpl.inCapacity;
  wi_out : ∃ lost, omap encode (taken w) = written w ++ writing (wr w) ++ lost ∧
             (wr w ≠ WriterDone → lost = []) ∧ length lost ≤ 1;
  wi_stopped : rd w = ReaderDone → stopped w = true }.

Lemma onFrame_in b (fs : list string) (acc : list Message) :
  omap decode fs = acc →
  omap decode (if decide (b = forceClose) then fs else fs ++ [b]) = acc ++ handing (onFrame b).1.
Proof.
  intros <-. unfold onFrame. case_decide; [by rewrite app_nil_r|]. rewrite omap_app. f_equal. simpl. unfold decode.
  by destruct (Unmarshal_Message b).
Qed.

Lemma onFrame_stopped b st : (onFrame b).1 = ReaderDone → st || (onFrame b).2 = true.
Proof. unfold onFrame. case_decide; simpl; [by rewrite orb_true_r|]. by destruct (Unmarshal_Message b). Qed.

Lemma onMessage_out m : omap encode [m] = writing (onMessage m).
Proof. simpl. unfold encode, onMessage. by destruct (Marshal_Message m). Qed.

Lemma web_step_inv l w w' : web_inv w → step l w w' → web_inv w'.
Proof.
  intros [Hi Hs Hc (lost & Ho & Hl & Hb) Hst] H.
  destruct H as [b w Hrd|w Hrd|m w Hrd|m l w Hwr Hin|b w Hwr|b w Hwr|b w Hwr|w Hwr Hsp|w Hrd Hwr Hret|m w Hr].
  - rewrite Hrd, app_nil_r in Hi. split; simpl; [by apply onFrame_in|eauto..|apply onFrame_stopped].
  - rewrite Hrd in Hi. split; simpl; eauto.
  - rewrite Hrd in Hi. split; simpl; [by rewrite app_nil_r|eauto..|done].
  - rewrite Hwr, (Hl ltac:(by rewrite Hwr)) in Ho. rewrite Hin in Hs, Hc. simpl in Ho, Hc. split; simpl; [done| |lia| |done].
    + by rewrite <- app_assoc.
    + exists []. rewrite omap_app, Ho, onMessage_out, !app_nil_r. by split_and!; [| |simpl; lia].
  - rewrite Hwr in Ho, Hl. rewrite (Hl ltac:(done)) in Ho. split; simpl; [done..| |done].
    exists []. rewrite Ho, <- !app_assoc. by split_and!; [| |simpl; lia].
  - rewrite Hwr in Ho, Hl. rewrite (Hl ltac:(done)) in Ho. split; simpl; [done..| |done].
    exists [b]. by split_and!; [| |simpl; lia].
  - rewrite Hwr in Ho, Hl. rewrite (Hl ltac:(done)) in Ho. split; simpl; [done..| |done].
    exists []. rewrite Ho, <- !app_assoc. by split_and!; [| |simpl; lia].
  - rewrite Hwr in Ho. split; simpl; [done..| |done]. exists lost. rewrite Hwr in Hl. by rewrite (Hl ltac:(done)) in *.
  - split; simpl; eauto.
  - split; simpl; [done|by rewrite Hs, app_assoc|rewrite length_app; simpl; lia|eauto|done].
Qed.

Lemma serving_inv : web_inv serving.
Proof. split; simpl; [done..|unfold serviceimpl.inCapacity; lia| |done]. exists []. by split_and!; [| |simpl; lia]. Qed.

Lemma web_reach_inv w : rtc any_step serving w → web_inv w.
Proof.
  intros H. pose proof serving_inv as Hi. induction H as [|w1 w2 w3 [l Hs] _ IH]; [done|]. eapply IH, web_step_inv; done.
Qed.

(** The writing goroutine does nothing once it has ended. *)
Lemma writer_done_stays w w' :
  wr w = WriterDone → rtc any_step w w' → wr w' = WriterDone ∧ taken w' = taken w ∧ written w' = written w.
Proof.
  intros Hw H. induction H as [|w1 w2 w3 [l H] _ IH]; [done|].
  assert (E : wr w2 = WriterDone ∧ taken w2 = taken w1 ∧ written w2 = written w1)
    by (destruct H; simpl; by try congruence).
  destruct E as (E1 & E2 & E3). rewrite <- E2, <- E3. by apply IH.
Qed.

(** C37: a websocket is an ordered pipe to and from the service.  Whatever the
    service does, and in every interleaving: the decodable frames read are exactly
    the messages the service has accepted and the one that is being handed to it, in
    order.  The messages the service has put on the channel are those the writer has
    taken, followed by those still there, of which there are at most ten.  The frames
    written, with the one being written, are the messages taken that can be
    marshalled, in order and each once; only when the writer has ended may one more
    be missing at the end, the one whose write failed.  From then on nothing more is
    taken or written, so that what is on the channel, and all that the service still
    puts there, is lost. *)
Theorem websocket_ordered w :
  rtc any_step serving w →
  omap decode (frames w) = accepted w ++ handing (rd w) ∧
  sent w = taken w ++ in_ w ∧ length (in_ w) ≤ serviceimpl.inCapacity ∧
  (∃ lost, omap encode (taken w) = written w ++ writing (wr w) ++ lost ∧
     (wr w ≠ WriterDone → lost = []) ∧ length lost ≤ 1) ∧
  (wr w = WriterDone → ∀ w', rtc any_step w w' → taken w' = taken w ∧ written w' = written w).
Proof.
  intros [Hi Hs Hc Ho _]%web_reach_inv. split_and!; [done..|].
  intros Hw w' H. apply (writer_done_stays w w' Hw H).
Qed.

(** ** The end of a connection *)

(** The handler can end unless it is handing a message over: as long as the
    reader does not wait for the service, failures of the websocket alone lead to a
    state in which the handler has returned and the connection is closed. *)
Theorem handler_can_return w :
  rtc any_step serving w → returned w = false → (∀ m, rd w ≠ Handing m) →
  ∃ w', rtc any_step w w' ∧ returned w' = true.
Proof.
  intros Hreach Hret Hrd. pose proof (wi_stopped w (web_reach_inv w Hreach)) as Hr.
  assert (H1 : ∃ w1, rtc any_step w w1 ∧ returned w1 = false ∧ rd w1 = ReaderDone ∧ stopped w1 = true).
  { destruct (rd w) eqn:E; [|by destruct (Hrd m)|exists w; by split_and!; [| | |apply Hr]].
    eexists. split; [apply rtc_once; exists WInternal; by apply s_read_error|]. done. }
  destruct H1 as (w1 & H1 & Hret1 & Hrd1 & Hs1).
  assert (H2 : ∃ w2, rtc any_step w1 w2 ∧ returned w2 = false ∧ rd w2 = ReaderDone ∧ wr w2 = WriterDone).
  { destruct (wr w1) as [|b|] eqn:E; [..|by exists w1].
    - eexists. split; [apply rtc_once; exists WInternal; by apply s_stop|]. done.
    - eexists. split; [apply rtc_once; exists WInternal; by eapply s_write_error|]. done. }
  destruct H2 as (w2 & H2 & Hret2 & Hrd2 & Hwr2). eexists. split.
  - etrans; [exact H1|]. eapply rtc_r; [exact H2|]. exists WReturn. by apply s_return.
  - done.
Qed.

(** A reader that waits for the service keeps the handler from returning: as long as
    the service takes no message, the handler has not returned, even when the
    websocket is gone and the writer has ended. *)
Theorem handing_keeps_handler m w w' :
  returned w = false → rd w = Handing m → rtc any_step w w' → accepted w' = accepted w → returned w' = false.
Proof.
  intros Hret Hrd H Hacc.
  assert (G : accepted w `prefix_of` accepted w' ∧ (accepted w' = accepted w → returned w' = false ∧ rd w' = Handing m)).
  { clear Hacc. revert w' H. apply rtc_ind_r; [done|]. intros w1 w2 _ [l H] [Hp IH].
    assert (E : (accepted w2 = accepted w1 ∧ (rd w1 = Handing m → returned w1 = false → rd w2 = Handing m ∧ returned w2 = false))
                ∨ ∃ x, accepted w2 = accepted w1 ++ [x]).
    { destruct H; simpl; try (left; split; [done|]; by intros; try congruence). right. eauto. }
    destruct E as [[E1 E2]|[x E]].
    - rewrite E1. split; [done|]. intros Ha. destruct (IH Ha). by destruct E2.
    - rewrite E. split; [by apply prefix_app_r|]. intros Ha. exfalso. apply prefix_length in Hp. rewrite <- Ha, length_app in Hp. simpl in Hp. lia. }
  by apply G.
Qed.

(** ** The number of connections *)

Definition active (hs : list handler) : nat := length (filter (λ w, returned w = false) hs).

Lemma active_insert hs i w w' :
  hs !! i = Some w → active (<[i := w']> hs) + (if returned w then 0 else 1) = active hs + (if returned w' then 0 else 1).
Proof.
  unfold active. revert i. induction hs as [|x hs IH]; intros [|i] Hi; simplify_eq/=.
  - rewrite !filter_cons. destruct (returned w), (returned w'); simpl; lia.
  - specialize (IH i Hi). rewrite !filter_cons. destruct (decide (returned x = false)); simpl; lia.
Qed.

Lemma step_returned l w w' :
  step l w w' → (l = WReturn → returned w = false ∧ returned w' = true) ∧ (l ≠ WReturn → returned w' = returned w).
Proof. by destruct 1. Qed.

Lemma active_le hs : active hs ≤ length hs.
Proof. unfold active. apply length_filter. Qed.

(** The counter of active connections is right: for every history of fewer than
    2^63 connections it is the number of handlers that have not returned. *)
Theorem ActiveConnections_counts s :
  rtc serve NewHandler s → (Z.of_nat (length (handlers s)) < two63)%Z →
  ActiveConnections s = Z.of_nat (active (handlers s)).
Proof.
  intros H. revert s H. apply (rtc_ind_r (λ s, (Z.of_nat (length (handlers s)) < two63)%Z →
    ActiveConnections s = Z.of_nat (active (handlers s)))); [done|].
  intros s s' _ H IH Hlen. unfold ActiveConnections in *. destruct H as [s|i l w w' s Hi Hs Hl|i w w' s Hi Hs]; simpl in *.
  - rewrite length_app in Hlen. simpl in Hlen. rewrite IH by lia. pose proof (active_le (handlers s)).
    unfold active in *. rewrite filter_app, length_app. simpl. rewrite wrap_i64_small; [lia|unfold in_i64, two63 in *; lia].
  - rewrite length_insert in Hlen. rewrite IH by done. pose proof (active_insert _ _ _ w' Hi) as Ha.
    destruct (step_returned _ _ _ Hs) as [_ E]. rewrite (E Hl) in Ha. lia.
  - rewrite length_insert in Hlen. rewrite IH by done. pose proof (active_insert _ _ _ w' Hi) as Ha.
    destruct (step_returned _ _ _ Hs) as [E _]. destruct (E eq_refl) as [E1 E2]. rewrite E1, E2 in Ha.
    pose proof (active_le (handlers s)). rewrite wrap_i64_small; [lia|unfold in_i64, two63 in *; lia].
Qed.
End web_facts.
