(* ===== verification/WebClient.v ===== *)
(** * WebClient: the websocket client (webclient/webclient.go)

    The client through which one tassis talks to another, or a test to a server: two
    channels with goroutines that write and read frames.  [pipe] connects it to the
    server of Web.v by two ordered streams of frames. *)

From S2P Require Import Prelude Model Externals Web.

Import web.

Module webclient.

Inductive cwriter := CTaking | CWriting (b : string) | CWriterDone.
Inductive creader := CReading | CHanding (m : Message) | CReaderDone.

(** [out] and [in_] are the channels; [in_closed]: [in_] was closed; [connClosed]:
    Close was called.  The other fields record what happened: messages sent and
    taken from [out], frames written and read, messages put on [in_] and received. *)
Record websocketClient := mkClient {
  bufferDepth : nat;
  out : list Message;
  in_ : list Message;
  in_closed : bool;
  connClosed : bool;
  cwr : cwriter;
  crd : creader;
  sent : list Message;
  taken : list Message;
  written : list string;
  frames : list string;
  received : list Message }.

Definition set_out (l : list Message) (wr : cwriter) (c : websocketClient) : websocketClient :=
  mkClient (bufferDepth c) l (in_ c) (in_closed c) (connClosed c) wr (crd c) (sent c) (taken c) (written c) (frames c) (received c).

(** Connect: [dial] is the result of opening the websocket. *)
Definition Connect (dial : option goerror) (bufferDepth : nat) : result websocketClient :=
  match dial with
  | Some err => Err err
  | None => Ok (mkClient bufferDepth [] [] false false CTaking CReading [] [] [] [] [])
  end.

(** A service that is reached at a URL; [dial] opens a websocket there. *)
Record websocketService := mkService { url : string; depth : nat }.

Definition NewService (url : string) (bufferDepth : nat) : websocketService := mkService url bufferDepth.

Definition service_Connect (dial : string → option goerror) (srvc : websocketService) : result websocketClient :=
  Connect (dial (url srvc)) (depth srvc).

(** A receive from [in_]: nil once it is closed and empty.  From a channel without a
    buffer it takes the message that [read] holds out. *)
Definition Receive (c : websocketClient) : outcome (websocketClient * option Message) :=
  match in_ c with
  | m :: l => Ret (mkClient (bufferDepth c) (out c) l (in_closed c) (connClosed c) (cwr c) (crd c)
                     (sent c) (taken c) (written c) (frames c) (received c ++ [m]), Some m)
  | [] =>
      if in_closed c then Ret (c, None)
      else match bufferDepth c, crd c with
           | O, CHanding m =>
               Ret (mkClient (bufferDepth c) (out c) [] (in_closed c) (connClosed c) (cwr c) CReading
                      (sent c) (taken c) (written c) (frames c) (received c ++ [m]), Some m)
           | _, _ => Block
           end
  end.

(** Drain: [fuel] turns of its loop; None if it is still running. *)
Fixpoint Drain (fuel : nat) (count : Z) (c : websocketClient) : option (websocketClient * Z) :=
  match fuel with
  | O => None
  | S fuel' =>
      match Receive c with
      | Ret (c', _) => Drain fuel' (wrap_i64 (count + 1)) c'
      | _ => Some (c, count)
      end
  end.

Definition Close (c : websocketClient) : websocketClient :=
  mkClient (bufferDepth c) (out c) (in_ c) (in_closed c) true (cwr c) (crd c) (sent c) (taken c) (written c) (frames c) (received c).

Section webclient.
Context {MP : MessageProto}.

(** One message of the loop of [write]. *)
Definition write (m : Message) (l : list Message) (c : websocketClient) : websocketClient :=
  let c1 wr := mkClient (bufferDepth c) l (in_ c) (in_closed c) (connClosed c) wr (crd c)
                 (sent c) (taken c ++ [m]) (written c) (frames c) (received c) in
  match Marshal_Message m with
  | Err _ => Close (c1 CWriterDone)
  | Ok b => c1 (CWriting b)
  end.

(** A send on [out] goes ahead when there is room; a channel without a buffer has
    none, and passes the message to [write] when it waits for one. *)
Definition Send (msg : Message) (c : websocketClient) : outcome websocketClient :=
  let c1 l := mkClient (bufferDepth c) l (in_ c) (in_closed c) (connClosed c) (cwr c) (crd c)
                (sent c ++ [msg]) (taken c) (written c) (frames c) (received c) in
  if bool_decide (length (out c) < bufferDepth c) then Ret (c1 (out c ++ [msg]))
  else match bufferDepth c, out c, cwr c with
       | O, [], CTaking => Ret (write msg [] (c1 []))
       | _, _, _ => Block
       end.

(** The end of [read]: both deferred calls. *)
Definition stopReading (c : websocketClient) : websocketClient :=
  Close (mkClient (bufferDepth c) (out c) (in_ c) true (connClosed c) (cwr c) CReaderDone
           (sent c) (taken c) (written c) (frames c) (received c)).

(** One frame of the loop of [read]. *)
Definition read (b : string) (c : websocketClient) : websocketClient :=
  match Unmarshal_Message b with
  | Err _ => stopReading c
  | Ok m => mkClient (bufferDepth c) (out c) (in_ c) (in_closed c) (connClosed c) (cwr c) (CHanding m)
              (sent c) (taken c) (written c) (frames c ++ [b]) (received c)
  end.

Inductive clabel := CWrite (b : string) | CRead (b : string) | CInternal.

Inductive cstep : clabel → websocketClient → websocketClient → Prop :=
| cl_send m c c' : Send m c = Ret c' → cstep CInternal c c'
| cl_receive c c' m : Receive c = Ret (c', m) → cstep CInternal c c'
| cl_close c : cstep CInternal c (Close c)
| cl_take m l c : cwr c = CTaking → out c = m :: l → cstep CInternal c (write m l c)
| cl_write b c :
    cwr c = CWriting b →
    cstep (CWrite b) c (mkClient (bufferDepth c) (out c) (in_ c) (in_closed c) (connClosed c) CTaking (crd c)
                          (sent c) (taken c) (written c ++ [b]) (frames c) (received c))
| cl_write_error b c : cwr c = CWriting b → cstep CInternal c (set_out (out c) CTaking c)
| cl_read b c : crd c = CReading → cstep (CRead b) c (read b c)
| cl_read_error c : crd c = CReading → cstep CInternal c (stopReading c)
| cl_hand m c :
    crd c = CHanding m → length (in_ c) < bufferDepth c →
    cstep CInternal c (mkClient (bufferDepth c) (out c) (in_ c ++ [m]) (in_closed c) (connClosed c) (cwr c) CReading
                         (sent c) (taken c) (written c) (frames c) (received c)).

End webclient.
End webclient.

Import webclient.

(** ** Drain *)

Lemma Drain_S fuel n c :
  Drain (S fuel) n c = match Receive c with Ret (c', _) => Drain fuel (wrap_i64 (n + 1)) c' | _ => Some (c, n) end.
Proof. done. Qed.

(** Drain on an open connection with a buffer takes everything that is waiting there,
    counts it and returns after as many turns, and one more. *)
Theorem Drain_counts c :
  bufferDepth c ≠ 0 → in_closed c = false → (Z.of_nat (length (in_ c)) < two63)%Z →
  ∃ c', Drain (S (length (in_ c))) 0 c = Some (c', Z.of_nat (length (in_ c))) ∧
    in_ c' = [] ∧ received c' = received c ++ in_ c.
Proof.
  intros Hd Hc Hl. assert (H : ∀ n c, bufferDepth c ≠ 0 → in_closed c = false → (0 <= n)%Z → (n + Z.of_nat (length (in_ c)) < two63)%Z →
    ∃ c', Drain (S (length (in_ c))) n c = Some (c', n + Z.of_nat (length (in_ c)))%Z ∧
      in_ c' = [] ∧ received c' = received c ++ in_ c).
  2: { destruct (H 0%Z c) as (c' & H1 & H2); [done|done|lia|lia|]. exists c'. by rewrite Z.add_0_l in H1. }
  clear c Hd Hc Hl. intros n c. remember (in_ c) as l eqn:E. revert n c E.
  induction l as [|m l IH]; intros n c E Hd Hc Hn Hl; rewrite Drain_S; unfold Receive at 1; rewrite <- E.
  - rewrite Hc. destruct (bufferDepth c); [done|]. exists c. rewrite <- E, app_nil_r. split_and!; [do 2 f_equal; simpl; lia|done..].
  - cbn [length] in Hl. rewrite Nat2Z.inj_succ in *.
    rewrite wrap_i64_small by (unfold in_i64, two63 in *; lia).
    destruct (IH (n + 1)%Z (mkClient (bufferDepth c) (out c) l (in_closed c) (connClosed c) (cwr c) (crd c)
      (sent c) (taken c) (written c) (frames c) (received c ++ [m]))) as (c' & H1 & H2 & H3); [done..|lia|lia|].
    exists c'. split_and!; [|done|by rewrite H3; simpl; rewrite <- app_assoc].
    cbn [length]. rewrite H1. do 2 f_equal. lia.
Qed.

(** Drain on a connection that has ended never returns: receiving from the
    closed channel always succeeds, so the loop goes on for every number of turns. *)
Theorem Drain_closed_diverges c fuel count : in_closed c = true → Drain fuel count c = None.
Proof.
  revert count c. induction fuel as [|fuel IH]; intros count c Hc; [done|]. cbn [Drain]. unfold Receive.
  destruct (in_ c) as [|m l]; [rewrite Hc|]; by apply IH.
Qed.

(** ** Order of messages *)

Section client_facts.
Context {MP : MessageProto}.

Definition cwriting (x : cwriter) : list string := match x with CWriting b => [b] | _ => [] end.
Definition chanding (x : creader) : list Message := match x with CHanding m => [m] | _ => [] end.

Record client_inv (c : websocketClient) : Prop := {
  cli_out : taken c ++ out c = sent c;
  cli_written : (written c ++ cwriting (cwr c)) `sublist_of` (omap encode (taken c));
  cli_in : omap decode (frames c) = received c ++ in_ c ++ chanding (crd c) }.

Lemma Close_inv c : client_inv c → client_inv (Close c).
Proof. intros []. by split. Qed.

Lemma stopReading_inv c : crd c = CReading → client_inv c → client_inv (stopReading c).
Proof. intros Hr [? ? Hi]. split; simpl; [done..|]. by rewrite Hr in Hi. Qed.

Lemma write_inv m l c : cwr c = CTaking → out c = m :: l → client_inv c → client_inv (write m l c).
Proof.
  intros Hw Ho [H1 H2 H3]. rewrite Hw, app_nil_r in H2. rewrite Ho in H1. unfold write.
  assert (E : omap encode (taken c ++ [m]) = omap encode (taken c) ++ omap encode [m]) by apply omap_app.
  simpl in E. unfold encode in E at 3. destruct (Marshal_Message m) as [b|err].
  - split; simpl; [by rewrite <- app_assoc| |done]. rewrite E. by apply sublist_app.
  - apply Close_inv. split; simpl; [by rewrite <- app_assoc| |done]. by rewrite app_nil_r, E, app_nil_r.
Qed.

Lemma Send_inv m c c' : Send m c = Ret c' → client_inv c → client_inv c'.
Proof.
  intros H Hi. assert (Hput : ∀ l, l = out c ++ [m] → client_inv (mkClient (bufferDepth c) l (in_ c) (in_closed c) (connClosed c)
    (cwr c) (crd c) (sent c ++ [m]) (taken c) (written c) (frames c) (received c))).
  { intros l ->. destruct Hi as [H1 ? ?]. split; simpl; [by rewrite app_assoc, H1|done..]. }
  unfold Send in H. case_bool_decide; [injection H as <-; by apply Hput|].
  destruct (bufferDepth c) eqn:Ed; [|done]. destruct (out c) eqn:Eo; [|done]. destruct (cwr c) eqn:Ew; try done. injection H as <-.
  pose proof (λ Hw Ho, write_inv m [] _ Hw Ho (Hput [m] eq_refl)) as Hw. specialize (Hw eq_refl eq_refl).
  unfold write in Hw |- *. by destruct (Marshal_Message m).
Qed.

Lemma read_inv b c : crd c = CReading → client_inv c → client_inv (read b c).
Proof.
  intros Hr Hi. unfold read. destruct (Unmarshal_Message b) as [m|err] eqn:E; [|by apply stopReading_inv].
  destruct Hi as [? ? Hi]. rewrite Hr in Hi. simpl in Hi. rewrite app_nil_r in Hi. split; simpl; [done..|].
  rewrite omap_app, Hi. simpl. unfold decode. by rewrite E, <- app_assoc.
Qed.

Lemma client_cstep_inv l c c' : client_inv c → cstep l c c' → client_inv c'.
Proof.
  intros Hi H. destruct H as [m c c' H|c c' m H|c|m l c Hw Ho|b c Hw|b c Hw|b c Hr|c Hr|m c Hr Hl].
  - by apply Send_inv in H.
  - unfold Receive in H. destruct Hi as [? ? Hi]. destruct (in_ c) as [|x l] eqn:E.
    + destruct (in_closed c); [injection H as <- <-; split; [done..|]; by rewrite E|].
      destruct (bufferDepth c); [|done]. destruct (crd c) as [|x|] eqn:Er; try done. injection H as <- <-.
      split; simpl; [done..|]. by rewrite app_nil_r, Hi.
    + injection H as <- <-. split; simpl; [done..|]. by rewrite Hi, <- app_assoc.
  - by apply Close_inv.
  - by apply write_inv.
  - destruct Hi as [? H2 ?]. rewrite Hw in H2. split; simpl; [done| |done]. by rewrite app_nil_r.
  - destruct Hi as [? H2 ?]. rewrite Hw in H2. split; simpl; [done| |done]. rewrite app_nil_r.
    etrans; [|exact H2]. apply sublist_inserts_r. done.
  - by apply read_inv.
  - by apply stopReading_inv.
  - destruct Hi as [? ? Hi]. rewrite Hr in Hi. split; simpl; [done..|]. by rewrite app_nil_r, Hi.
Qed.
End client_facts.

(** ** The client and the server together *)

Section pipe.
Context {MP : MessageProto} {ML : MessageProtoLaws}.

(** The frames on their way to the server and to the client. *)
Record pipe := mkPipe { cl : websocketClient; sv : handler; up : list string; down : list string }.

Inductive pstep : pipe → pipe → Prop :=
| p_client c p : cstep CInternal (cl p) c → pstep p (mkPipe c (sv p) (up p) (down p))
| p_client_write b c p : cstep (CWrite b) (cl p) c → pstep p (mkPipe c (sv p) (up p ++ [b]) (down p))
| p_client_read b l c p : down p = b :: l → cstep (CRead b) (cl p) c → pstep p (mkPipe c (sv p) (up p) l)
| p_server l s p : l = WInternal ∨ l = WReturn → web.step l (sv p) s → pstep p (mkPipe (cl p) s (up p) (down p))
| p_server_read b l s p : up p = b :: l → web.step (WRead b) (sv p) s → pstep p (mkPipe (cl p) s l (down p))
| p_server_write b s p : web.step (WWrite b) (sv p) s → pstep p (mkPipe (cl p) s (up p) (down p ++ [b])).

(** What each side has read came from the other. *)
Record pipe_inv (p : pipe) : Prop := {
  pi_client : client_inv (cl p);
  pi_server : web_inv (sv p);
  pi_up : ∃ l, written (cl p) = l ++ up p ∧ web.frames (sv p) `sublist_of` l;
  pi_down : ∃ l, web.written (sv p) = l ++ down p ∧ frames (cl p) `sublist_of` l }.

Lemma cstep_frames l c c' : cstep l c c' →
  written c' = written c ++ (if l is CWrite b then [b] else []) ∧
  frames c' `sublist_of` (frames c ++ (if l is CRead b then [b] else [])).
Proof.
  intros H. destruct H as [m c c' H|c c' m H|c|m l c Hw Ho|b c Hw|b c Hw|b c Hr|c Hr|m c Hr Hl];
    simpl; rewrite ?app_nil_r; try done.
  - unfold Send, write in H. repeat case_match; by simplify_eq.
  - unfold Receive in H. repeat case_match; by simplify_eq.
  - unfold write. by destruct (Marshal_Message m).
  - unfold read. destruct (Unmarshal_Message b); simpl; [done|]. split; [done|]. by apply sublist_inserts_r.
Qed.

Lemma wstep_frames l (w w' : handler) : web.step l w w' →
  web.written w' = web.written w ++ (if l is WWrite b then [b] else []) ∧
  web.frames w' `sublist_of` (web.frames w ++ (if l is WRead b then [b] else [])).
Proof.
  intros H. destruct H; simpl; rewrite ?app_nil_r; try done. split; [done|]. case_decide; [|done]. by apply sublist_inserts_r.
Qed.

Lemma sublist_snoc {X} (l l1 l2 : list X) (x : X) : l1 `sublist_of` (l ++ [x]) → l `sublist_of` l2 → l1 `sublist_of` (l2 ++ [x]).
Proof. intros H1 H2. etrans; [exact H1|]. by apply sublist_app. Qed.

Lemma pstep_inv p p' : pipe_inv p → pstep p p' → pipe_inv p'.
Proof.
  intros [Hc Hs (lu & Eu & Su) (ld & Ed & Sd)] H.
  destruct H as [c p H|b c p H|b l c p Hd H|l s p Hl H|b l s p Hu H|b s p H].
  1-3: destruct (cstep_frames _ _ _ H) as [Hw Hf]; apply (client_cstep_inv _ _ _ Hc) in H.
  4-6: destruct (wstep_frames _ _ _ H) as [Hw Hf]; apply (web_step_inv _ _ _ Hs) in H.
  - rewrite app_nil_r in Hw, Hf. split; simpl; [done..| |]; [exists lu; by rewrite Hw|exists ld]. split; [done|by etrans].
  - rewrite app_nil_r in Hf. split; simpl; [done..| |]; [exists lu; by rewrite Hw, Eu, app_assoc|exists ld]. split; [done|by etrans].
  - rewrite app_nil_r in Hw. split; simpl; [done..| |]; [exists lu; by rewrite Hw|exists (ld ++ [b])].
    rewrite Ed, Hd, <- app_assoc. split; [done|]. by eapply sublist_snoc.
  - assert (E : web.written s = web.written (sv p) ∧ web.frames s `sublist_of` web.frames (sv p)).
    { destruct Hl as [-> | ->]; simpl in Hw, Hf; by rewrite app_nil_r in Hw, Hf. }
    destruct E as [Ew Ef]. split; simpl; [done..| |]; [exists lu; split; [done|by etrans]|exists ld; by rewrite Ew].
  - rewrite app_nil_r in Hw. split; simpl; [done..| |]; [exists (lu ++ [b])|exists ld; by rewrite Hw].
    rewrite Eu, Hu, <- app_assoc. split; [done|]. by eapply sublist_snoc.
  - rewrite app_nil_r in Hf. split; simpl; [done..| |]; [exists lu; split; [done|by etrans]|exists ld; by rewrite Hw, Ed, app_assoc].
Qed.

Lemma pipe_reach depth p :
  rtc pstep (mkPipe (mkClient depth [] [] false false CTaking CReading [] [] [] [] []) serving [] []) p →
  pipe_inv p.
Proof.
  intros H. assert (Hi : pipe_inv (mkPipe (mkClient depth [] [] false false CTaking CReading [] [] [] [] [])
    serving [] [])).
  { split; simpl; [by split|apply web_reach_inv; constructor|by exists []..]. }
  induction H as [|p1 p2 p3 Hs _ IH]; [done|]. eapply IH, pstep_inv; done.
Qed.

Lemma omap_sublist {X Y} (f : X → option Y) (l1 l2 : list X) : l1 `sublist_of` l2 → (omap f l1) `sublist_of` (omap f l2).
Proof. induction 1 as [|x l1 l2 _ IH|x l1 l2 _ IH]; simpl; [done|by destruct (f x); [constructor|]|]. destruct (f x); [by constructor|done]. Qed.

Lemma decode_encode (l : list Message) : (omap decode (omap encode l)) `sublist_of` (wire_form <$> l).
Proof.
  induction l as [|m l IH]; simpl; [done|]. unfold encode at 1. destruct (Marshal_Message m) as [b|] eqn:E; [|by constructor].
  simpl. unfold decode at 1. rewrite (Message_round_trip m b E). by constructor.
Qed.

(** C38: end to end.  In every interleaving of a websocket client, the server's
    handler and the service, with frames delivered in order, what the service
    accepts is a part of what the client sent, in the same order, and what the
    client receives is a part of what the service put on the connection's channel,
    in the same order: nothing is made up, repeated or reordered (messages are
    compared in their wire form).  The service may be any. *)
Theorem websocket_end_to_end depth c p :
  Connect None depth = Ok c → rtc pstep (mkPipe c serving [] []) p →
  accepted (sv p) `sublist_of` (wire_form <$> sent (cl p)) ∧
  received (cl p) `sublist_of` (wire_form <$> web.taken (sv p)).
Proof.
  intros [= <-] H. apply pipe_reach in H as [[H1 H2 H3] [Hi _ _ (lost & Ho & _) _] (lu & Eu & Su) (ld & Ed & Sd)]. split.
  - transitivity (omap decode (web.frames (sv p))); [rewrite Hi; by apply sublist_inserts_r|].
    transitivity (omap decode (written (cl p))); [apply omap_sublist; rewrite Eu; by apply sublist_inserts_r|].
    transitivity (omap decode (omap encode (taken (cl p)))).
    { apply omap_sublist. etrans; [|exact H2]. by apply sublist_inserts_r. }
    etrans; [apply decode_encode|]. rewrite <- H1, fmap_app. by apply sublist_inserts_r.
  - transitivity (omap decode (frames (cl p))); [rewrite H3; by apply sublist_inserts_r|].
    transitivity (omap decode (web.written (sv p))); [apply omap_sublist; rewrite Ed; by apply sublist_inserts_r|].
    transitivity (omap decode (omap encode (web.taken (sv p)))); [|apply decode_encode].
    apply omap_sublist. rewrite Ho. by apply sublist_inserts_r.
Qed.
End pipe.
