(* ===== verification/Forwarding.v ===== *)
(** * Forwarding: messages for devices on other hosts
      (service/serviceimpl/forwarding.go, and New of serviceimpl.go)

    Messages for devices hosted elsewhere wait on the forwarding topic; workers
    take them from there and from the retry topic and deliver them locally, send
    them to the other host or put them on the retry topic.  Devices that moved
    have their messages transferred.  Clock readings are parameters. *)

From S2P Require Import Prelude Model Externals DB Broker Presence Attachments Forwarder Service ServiceProps.

Import serviceimpl forwarder.

Module forwarding.
Section forwarding.
Context {ID : Identity} {PR : Proto}.
Context {D B P A C : Type} {DBI : DB D} {BI : Broker B} {PI : Presence P}
        {AI : Attachments A} {LI : LRU C Publisher}.
Context {N Conn : Type} (dial : string → N → N * result Conn).
#[local] Abbreviation env := (@env D B P A C).

(** What the closures [failMessage] and [finished] capture. *)
Record callback := mkCallback { cb_msg : ForwardedMessage; cb_ack : Acker; cb_retry : Publisher }.

(** The environment, the forwarder and the network it dials on. *)
Record fstate := mkF { fe : env; ff : Forwarder Conn callback; fn : N }.

(** When the worker decides whether to wait, marks a failure and checks for
    how long the message has been failing. *)
Record clock := mkClock { now_wait : Z; now_mark : Z; now_check : Z }.

(** [ack()]; its error is ignored. *)
Definition runAck (acker : Acker) (e : env) : outcome env :=
  '(b, _) ← broker_Ack acker (broker e); Ret (set_broker b e).

Definition failMessage (srvc : Service) (c : clock) (cb : callback) (e : env) : outcome env :=
  let msg := MarkFailed (now_mark c) (cb_msg cb) in
  if decide (forwardingTimeout srvc < HasBeenFailingFor (now_check c) msg)%Z
  then (* discard message that's been failing for too long *) runAck (cb_ack cb) e
  else
    match Marshal_ForwardedMessage msg with
    | Err _ => runAck (cb_ack cb) e
    | Ok msgBytes =>
        '(b, err) ← broker_Publish (cb_retry cb) (Some msgBytes) (broker e);
        match err with
        | None => runAck (cb_ack cb) (set_broker b e)
        | Some _ => (* don't ack so that message is not lost *) Ret (set_broker b e)
        end
    end.

(** The callback given to [Forward]. *)
Definition finished (srvc : Service) (c : clock) (cb : callback) (forwardingErr : option goerror)
    (e : env) : outcome env :=
  match forwardingErr with
  | Some _ => failMessage srvc c cb e
  | None => runAck (cb_ack cb) e
  end.

(** How long a worker sleeps before it retries a message. *)
Definition retryDelay (srvc : Service) (c : clock) (msg : ForwardedMessage) : Z :=
  if decide (ForwardedMessage_LastFailed msg = 0)%Z then 0%Z
  else
    let durationSinceLastFailure := DurationSinceLastFailure (now_wait c) msg in
    if decide (durationSinceLastFailure < minForwardingRetryInterval srvc)%Z
    then wrap_i64 (minForwardingRetryInterval srvc - durationSinceLastFailure)
    else 0%Z.

(** What a call of [forwardMessage] leaves: the state, the time it slept, the
    error it returns and the message it sends to another host. *)
Record report := mkReport {
  r_state : fstate; r_slept : Z; r_err : option goerror; r_sent : option (action Conn callback) }.

(** [failMessage(); return errors.New(...)] *)
Definition failWith (srvc : Service) (c : clock) (cb : callback) (slept : Z) (err : goerror)
    (s : fstate) : outcome report :=
  e ← failMessage srvc c cb (fe s); Ret (mkReport (mkF e (ff s) (fn s)) slept (Some err) None).

Definition set_fe (e : env) (s : fstate) : fstate := mkF e (ff s) (fn s).

Definition wrapErr (what : string) (err : goerror) : goerror :=
  Untyped (what +:+ ": " +:+ error_text err)%string.

(** User came back to us, just publish locally. *)
Definition deliverLocally (srvc : Service) (c : clock) (cb : callback) (slept : Z)
    (o : OutboundMessage) (s : fstate) : outcome report :=
  topic ← topicForAddr (OutboundMessage_To o);
  match publisherFor topic (fe s) with
  | (e, Err err) => failWith srvc c cb slept (wrapErr "unable to get publisher" err) (set_fe e s)
  | (e, Ok publisher) =>
      '(b, err) ← broker_Publish publisher (GetUnidentifiedSenderMessage (Some o)) (broker e);
      let s' := set_fe (set_broker b e) s in
      match err with
      | Some er => failWith srvc c cb slept (wrapErr "unable to publish" er) s'
      | None => e' ← runAck (cb_ack cb) (fe s'); Ret (mkReport (set_fe e' s') slept None None)
      end
  end.

(** Hand the message to the forwarder; a failure to dial calls back at once. *)
Definition forwardTo (srvc : Service) (c : clock) (cb : callback) (slept : Z)
    (tassisHost : string) (s : fstate) : outcome report :=
  let '(n, f, a) := Forward dial (cb_msg cb) tassisHost cb (fn s) (ff s) in
  match a with
  | Finished k err =>
      e ← finished srvc c k (Some err) (fe s); Ret (mkReport (mkF e f n) slept None None)
  | Sending _ _ _ => Ret (mkReport (mkF (fe s) f n) slept None (Some a))
  end.

Definition forwardMessage (srvc : Service) (c : clock) (retryPublisher : Publisher)
    (data : option string) (acker : Acker) (s : fstate) : outcome report :=
  match Unmarshal_ForwardedMessage (default "" data) with
  | Err err =>
      e ← runAck acker (fe s);
      Ret (mkReport (set_fe e s) 0 (Some (wrapErr "unable to unmarshal ForwardedMessage" err)) None)
  | Ok msg =>
      let slept := retryDelay srvc c msg in
      let cb := mkCallback msg acker retryPublisher in
      o ← deref (GetMessage (Some msg));
      let '(p, res) := presence_Find (OutboundMessage_To o) (presenceRepo (fe s)) in
      let s1 := set_fe (set_presence p (fe s)) s in
      match res with
      | Err err => failWith srvc c cb slept (wrapErr "unable to find tassis host" err) s1
      | Ok tassisHost =>
          if decide (tassisHost = publicAddr srvc)
          then deliverLocally srvc c cb slept o s1
          else forwardTo srvc c cb slept tassisHost s1
      end
  end.

(** A reply on one of the forwarder's connections. *)
Definition handleReply (srvc : Service) (c : clock) (msg : Message) (s : fstate) : outcome fstate :=
  match readFrom msg (ff s) with
  | (f, None) => Ret (mkF (fe s) f (fn s))
  | (f, Some (cb, err)) => e ← finished srvc c cb err (fe s); Ret (mkF e f (fn s))
  end.

(** ** Starting *)

(** The goroutines one call of [forwardMessages] starts, by the subscriber they
    read from. *)
Definition forwardMessages (srvc : Service) (subscriber : Subscriber) : list Subscriber :=
  replicate (Z.to_nat (forwardingParallelism srvc)) subscriber.

Definition startForwarding (srvc : Service) (e : env) : env * result (list Subscriber * Publisher) :=
  match broker_NewSubscriber forwardingTopic (broker e) with
  | (b, Err err) => (set_broker b e, Err err)
  | (b, Ok subscriber) =>
      match broker_NewSubscriber forwardingRetryTopic b with
      | (b', Err err) => (set_broker b' e, Err err)
      | (b', Ok retrySubscriber) =>
          match publisherFor forwardingRetryTopic (set_broker b' e) with
          | (e', Err err) => (e', Err err)
          | (e', Ok retryPublisher) =>
              (e', Ok (mjoin (replicate (Z.to_nat (forwardingParallelism srvc))
                        (forwardMessages srvc subscriber ++ forwardMessages srvc retrySubscriber)),
                       retryPublisher))
          end
      end
  end.

(** ** Users that moved *)

(** One turn of the loop of [transferDeviceMessages]: how the function returns, or
    [None] to go on.  A [None] from the subscriber is the expiry of the waiting
    time. *)
Definition transferTurn (subscriber : Subscriber) (addr : Address) (publisher : Publisher) (e : env)
    : outcome (env * option (option goerror)) :=
  match broker_Receive subscriber (broker e) with
  | (b, None) => Ret (set_broker b e, Some None)
  | (b, Some (data, acker)) =>
      let e1 := set_broker b e in
      match Marshal_ForwardedMessage
              (mkForwardedMessage (Some (mkOutboundMessage (Some addr) data)) 0 0) with
      | Err err => Ret (e1, Some (Some (wrapErr "unable to marshal message for transfer" err)))
      | Ok bytes =>
          '(b', err) ← broker_Publish publisher (Some bytes) (broker e1);
          match err with
          | Some er => Ret (set_broker b' e1, Some (Some (wrapErr "unable to publish message for transfer" er)))
          | None => e2 ← runAck acker (set_broker b' e1); Ret (e2, None)
          end
      end
  end.

(** A device of the list: the subscriber for its messages if it moved to a
    different tassis. *)
Definition findMoved (srvc : Service) (addr : Address) (e : env) : env * option Subscriber :=
  let '(p, res) := presence_Find (Some addr) (presenceRepo e) in
  let e1 := set_presence p e in
  match res with
  | Err _ => (e1, None)
  | Ok tassisHost =>
      if decide (tassisHost = publicAddr srvc) then (e1, None)
      else
        match broker_NewSubscriber (topicFor (Address_IdentityKey addr) (Address_DeviceId addr)) (broker e1) with
        | (b, Err _) => (set_broker b e1, None)
        | (b, Ok subscriber) => (set_broker b e1, Some subscriber)
        end
  end.

(** After its messages were transferred. *)
Definition endTransfer (addr : Address) (err : option goerror) (e : env) : outcome env :=
  match err with
  | Some _ => Ret e
  | None =>
      '(d, _) ← db_Unregister (Address_IdentityKey addr) (Address_DeviceId addr) (db e);
      Ret (set_db d e)
  end.

Definition startUserTransfers (e : env) : env * result Publisher := publisherFor forwardingTopic e.

(** ** New *)

(** The goroutines a new service starts: workers with the retry publisher, and
    the publisher of the transfer loop. *)
Record started := mkStarted {
  workers : option (list Subscriber * Publisher); transfers : option Publisher }.

Definition serviceOf (o : Opts (P:=P)) : Service :=
  mkService (to_lower (Opts_PublicAddr o)) (Opts_ChatNumberDomain o) (Opts_CheckPreKeysInterval o)
    (Opts_LowPreKeysLimit o) (Opts_NumPreKeysToRequest o) (Opts_ForwardingParallelism o)
    (Opts_ForwardingTimeout o) (Opts_MinForwardingRetryInterval o) (Opts_UserTransferInterval o).

(** [hasForwarder]: whether [opts.Forwarder] is set; [newPresence] is a new
    in-memory presence repository. *)
Definition New (newPresence : P) (hasForwarder : bool) (d : D) (b : B) (a : A) (opts : Opts (P:=P))
    : result (Service * env * started) :=
  let opts := ApplyDefaults newPresence opts in
  if decide (Opts_PublicAddr opts = "") then Err (Untyped "please specify a PublicAddr for this Service")
  else
    match lru_New (Opts_PublisherCacheSize opts) with
    | Err err => Err err
    | Ok publisherCache =>
        let srvc := serviceOf opts in
        let e := mkEnv d b (default newPresence (Opts_PresenceRepo opts)) a publisherCache in
        if negb hasForwarder then Ok (srvc, e, mkStarted None None)
        else
          match startForwarding srvc e with
          | (_, Err err) => Err (wrapErr "unable to start forwarding outbound messages" err)
          | (e1, Ok w) =>
              if decide (0 < userTransferInterval srvc)%Z then
                match startUserTransfers e1 with
                | (_, Err err) => Err (wrapErr "unable to start handling user transfers" err)
                | (e2, Ok p) => Ok (srvc, e2, mkStarted (Some w) (Some p))
                end
              else Ok (srvc, e1, mkStarted (Some w) None)
          end
    end.

End forwarding.
End forwarding.

Import forwarding.

(** ** Where a forwarded message goes *)

Section fates.
Context {ID : Identity} {PR : Proto}.
Context {D B P A C : Type} {DBI : DB D} {BI : Broker B} {PI : Presence P}
        {AI : Attachments A} {LI : LRU C Publisher}.
Context {N Conn : Type} (dial : string → N → N * result Conn).
Context {BL : BrokerLaws B} {LL : LRULaws C Publisher}.
#[local] Abbreviation env := (@env D B P A C).
#[local] Abbreviation fstate := (@fstate D B P A C BI N Conn).
#[local] Abbreviation report := (@report D B P A C BI N Conn).
Implicit Types (e : env) (srvc : Service) (cb : callback) (s : fstate) (r : report).

(** A multiset of messages by topic, and the change from [b] to [b'] that adds
    [add] and takes away [rem]. *)
Definition at_topic (l : list (string * option string)) (t : string) : list (option string) :=
  (filter (λ x, x.1 = t) l).*2.

Definition accounted (b b' : B) (add rem : list (string * option string)) : Prop :=
  ∀ t, at_topic rem t ++ backlog b' t ≡ₚ at_topic add t ++ backlog b t.

Lemma at_topic_one t' x t : at_topic [(t', x)] t = if decide (t = t') then [x] else [].
Proof. unfold at_topic. rewrite filter_cons, filter_nil; simpl. by repeat case_decide; subst. Qed.

Lemma accounted_same b b' : same_store b b' → accounted b b' [] [].
Proof. intros [H _] t. simpl. by rewrite H. Qed.

Lemma accounted_trans b1 b2 b3 add rem :
  accounted b1 b2 add [] → accounted b2 b3 [] rem → accounted b1 b3 add rem.
Proof. intros H1 H2 t. by rewrite (H2 t), <- (H1 t). Qed.

Lemma accounted_after b1 b2 b3 add rem :
  accounted b1 b2 [] [] → accounted b2 b3 add rem → accounted b1 b3 add rem.
Proof. intros H1 H2 t. rewrite (H2 t). f_equiv. apply (H1 t). Qed.

Lemma publish_accounted p x b b' :
  broker_wf b → broker_Publish p x b = Ret (b', None) → accounted b b' [(pub_topic p, x)] [].
Proof.
  intros W H t. destruct (Publish_law _ _ _ _ _ W H) as (Hb & _ & _). rewrite at_topic_one. simpl.
  rewrite Hb. by case_decide.
Qed.

(** Added [add]; taken away the acker's own message or, if the acknowledgement
    failed, nothing. *)
Definition acked (b b' : B) (acker : Acker) (data : option string) (add : list (string * option string)) : Prop :=
  accounted b b' add [(ack_topic acker, data)] ∨ accounted b b' add [].

(** If the acker's message is still there, it is [data]. *)
Definition names (b : B) (acker : Acker) (data : option string) : Prop :=
  ∀ y, ack_target b acker = Some y → y = data.

Lemma issued_names b acker data : issued b acker data → names b acker data.
Proof. intros Hi y. by apply issued_target. Qed.

Lemma ack_acked b b' acker data err :
  names b acker data → broker_Ack acker b = Ret (b', err) → steady b b' ∧ acked b b' acker data [].
Proof.
  intros Ht H. destruct (Ack_law _ _ _ _ H) as [Hs Hb]. split; [done|].
  destruct err; [right; intros t; simpl; by rewrite (Hb t)|].
  destruct (ack_target b acker) as [y|] eqn:E; [apply Ht in E as ->; left|right];
    intros t; rewrite ?at_topic_one; simpl; rewrite (Hb t); simpl; by case_decide.
Qed.

Lemma runAck_acked acker data e e' :
  names (broker e) acker data → runAck acker e = Ret e' →
  acked (broker e) (broker e') acker data [] ∧ presenceRepo e' = presenceRepo e ∧ db e' = db e.
Proof.
  intros Ht H. unfold runAck in H. apply bind_Ret_inv in H as ([b err] & Ha & [= <-]).
  split; [|done]. by destruct (ack_acked _ _ _ _ _ Ht Ha).
Qed.

(** What becomes of a message whose forwarding failed. *)
Inductive failed srvc (c : clock) cb (data : option string) (b b' : B) : Prop :=
| failed_kept :
    (* the retry topic did not take it: it stays where it is *)
    accounted b b' [] [] → failed srvc c cb data b b'
| failed_requeued bytes :
    Marshal_ForwardedMessage (MarkFailed (now_mark c) (cb_msg cb)) = Ok bytes →
    acked b b' (cb_ack cb) data [(pub_topic (cb_retry cb), Some bytes)] → failed srvc c cb data b b'
| failed_expired :
    (forwardingTimeout srvc < HasBeenFailingFor (now_check c) (MarkFailed (now_mark c) (cb_msg cb)))%Z →
    acked b b' (cb_ack cb) data [] → failed srvc c cb data b b'
| failed_unmarshalled err :
    Marshal_ForwardedMessage (MarkFailed (now_mark c) (cb_msg cb)) = Err err →
    acked b b' (cb_ack cb) data [] → failed srvc c cb data b b'.

Lemma acked_after b1 b2 b3 acker data add :
  accounted b1 b2 [] [] → acked b2 b3 acker data add → acked b1 b3 acker data add.
Proof. intros H [?|?]; [left|right]; by eapply accounted_after. Qed.

Lemma acked_trans b1 b2 b3 acker data add :
  accounted b1 b2 add [] → acked b2 b3 acker data [] → acked b1 b3 acker data add.
Proof. intros H [?|?]; [left|right]; by eapply accounted_trans. Qed.

Lemma failed_after srvc c cb data b1 b2 b3 :
  accounted b1 b2 [] [] → failed srvc c cb data b2 b3 → failed srvc c cb data b1 b3.
Proof.
  intros H [Hk|bytes Hm Ha|Ht Ha|err Hm Ha].
  - apply failed_kept. by eapply accounted_after.
  - eapply failed_requeued; [done|]. by eapply acked_after.
  - eapply failed_expired; [done|]. by eapply acked_after.
  - eapply failed_unmarshalled; [done|]. by eapply acked_after.
Qed.

Lemma failMessage_failed srvc c cb data e e' :
  broker_wf (broker e) → issued (broker e) (cb_ack cb) data →
  failMessage srvc c cb e = Ret e' → failed srvc c cb data (broker e) (broker e').
Proof.
  intros W Hi H. pose proof (issued_names _ _ _ Hi) as Ht. unfold failMessage in H. destruct (decide _) as [Hlt|_].
  { apply (runAck_acked _ data) in H as [? _]; [|done]. by eapply failed_expired. }
  destruct (Marshal_ForwardedMessage _) as [bytes|err] eqn:Em.
  - apply bind_Ret_inv in H as ([b [er|]] & Hp & H); destruct (Publish_law _ _ _ _ _ W Hp) as (Hb & Hat & _).
    + simplify_eq. apply failed_kept. intros t. apply (Hb t).
    + apply (runAck_acked _ data) in H as [Ha _]; [|intros y Hy; apply Ht; by rewrite <- (Hat _ _ Hi)].
      eapply failed_requeued; [done|]. eapply acked_trans; [by apply publish_accounted|done].
  - apply (runAck_acked _ data) in H as [? _]; [|done]. by eapply failed_unmarshalled.
Qed.

(** What one call of [forwardMessage] does with a message for device [a]. *)
Inductive fate srvc (c : clock) cb (o : OutboundMessage) (a : Address) (data : option string)
    (b b' : B) (f' : Forwarder Conn callback) (sent : option (action Conn callback)) : Prop :=
| fate_delivered :
    sent = None →
    acked b b' (cb_ack cb) data
      [(topicFor (Address_IdentityKey a) (Address_DeviceId a), OutboundMessage_UnidentifiedSenderMessage o)] →
    fate srvc c cb o a data b b' f' sent
| fate_in_flight conn dialled q :
    sent = Some (Sending conn dialled (mkMessage q (Some (Message_OutboundMessage o)))) →
    callbacks f' !! q = Some cb → accounted b b' [] [] →
    fate srvc c cb o a data b b' f' sent
| fate_failed :
    sent = None → failed srvc c cb data b b' → fate srvc c cb o a data b b' f' sent.

Lemma deliverLocally_fate srvc c cb slept o a data s r :
  routing_ok (fe s) → issued (broker (fe s)) (cb_ack cb) data →
  OutboundMessage_To o = Some a → deliverLocally srvc c cb slept o s = Ret r →
  fate srvc c cb o a data (broker (fe s)) (broker (fe (r_state r))) (ff (r_state r)) (r_sent r).
Proof.
  intros Hok Ht Ha H. unfold deliverLocally, failWith in H. rewrite Ha in H. cbn [topicForAddr mbind outcome_bind deref] in H.
  destruct (publisherFor _ (fe s)) as [e [p|er]] eqn:E;
    destruct (publisherFor_spec _ _ _ _ Hok E) as ([W Hc] & [Hs Hst] & Hp); pose proof (accounted_same _ _ Hs) as Hacc;
    apply (steady_issued _ _ Hst) in Ht.
  - apply bind_Ret_inv in H as ([b [err|]] & Hpub & H); destruct (Publish_law _ _ _ _ _ W Hpub) as (Hb & Hk & Hw).
    + apply bind_Ret_inv in H as (e2 & Hf & [= <-]). apply fate_failed; [done|].
      eapply failed_after; [exact Hacc|]. eapply failed_after; [|eapply failMessage_failed, Hf];
        [intros t; apply (Hb t)|by apply (steady_room _ _ Hw)|by apply (steady_issued _ _ Hw)].
    + apply bind_Ret_inv in H as (e2 & Hf & [= <-]). apply fate_delivered; [done|].
      apply (runAck_acked _ data) in Hf as [Hf _];
        [|intros y Hy; apply (issued_names _ _ _ Ht); by rewrite <- (Hk _ _ Ht)].
      eapply acked_after; [exact Hacc|]. eapply acked_trans; [|exact Hf].
      apply publish_accounted in Hpub; [|done]. by rewrite (Hp p eq_refl) in Hpub.
  - apply bind_Ret_inv in H as (e2 & Hf & [= <-]). apply fate_failed; [done|].
    eapply failed_after; [exact Hacc|]. by eapply failMessage_failed.
Qed.

Lemma forwardTo_fate srvc c cb slept o a data host s r :
  broker_wf (broker (fe s)) → issued (broker (fe s)) (cb_ack cb) data →
  ForwardedMessage_Message (cb_msg cb) = Some o → forwardTo dial srvc c cb slept host s = Ret r →
  fate srvc c cb o a data (broker (fe s)) (broker (fe (r_state r))) (ff (r_state r)) (r_sent r).
Proof.
  intros W Ht Ho H. unfold forwardTo in H.
  destruct (Forward dial (cb_msg cb) host cb (fn s) (ff s)) as [[n f] act] eqn:E.
  assert (Hsend : ∀ (conn : Conn) d f0 f1 a1, sendOn conn d (cb_msg cb) cb f0 = (f1, a1) → ∃ q,
    a1 = Sending conn d (mkMessage q (Some (Message_OutboundMessage o))) ∧ callbacks f1 !! q = Some cb).
  { intros conn d f0 f1 a1 [= <- <-]. eexists. unfold GetMessage. rewrite Ho. split; [done|]. simpl.
    apply lookup_insert_eq. }
  unfold Forward in E. destruct (conns (ff s) !! host) as [conn|].
  - destruct (sendOn conn false _ _ _) as [f1 a1] eqn:Es. destruct (Hsend _ _ _ _ _ Es) as (q & -> & Hq).
    simplify_eq. eapply fate_in_flight; [done..|by apply accounted_same].
  - destruct (dial host (fn s)) as [n1 [conn|er]].
    + destruct (sendOn conn true _ _ _) as [f1 a1] eqn:Es. destruct (Hsend _ _ _ _ _ Es) as (q & -> & Hq).
      simplify_eq. eapply fate_in_flight; [done..|by apply accounted_same].
    + simplify_eq. apply bind_Ret_inv in H as (e2 & Hf & [= <-]). apply fate_failed; [done|].
      by eapply failMessage_failed.
Qed.

Lemma forwardMessage_fate srvc c retryPublisher data acker s r m o a :
  routing_ok (fe s) → issued (broker (fe s)) acker data →
  Unmarshal_ForwardedMessage (default "" data) = Ok m →
  ForwardedMessage_Message m = Some o → OutboundMessage_To o = Some a →
  forwardMessage dial srvc c retryPublisher data acker s = Ret r →
  fate srvc c (mkCallback m acker retryPublisher) o a data
    (broker (fe s)) (broker (fe (r_state r))) (ff (r_state r)) (r_sent r).
Proof.
  intros Hok Ht Hu Ho Ha H. unfold forwardMessage in H. rewrite Hu in H. cbn [GetMessage] in H.
  rewrite Ho in H. cbn [mbind outcome_bind deref] in H. destruct (presence_Find _ _) as [p [host|er]].
  - destruct (decide (host = publicAddr srvc)).
    + by apply (deliverLocally_fate _ _ _ _ _ a data) in H.
    + apply (forwardTo_fate _ _ _ _ o a data) in H; [done|apply Hok|done|done].
  - apply bind_Ret_inv in H as (e2 & Hf & [= <-]). apply fate_failed; [done|].
    apply (failMessage_failed _ _ _ data) in Hf; [done|apply Hok|done].
Qed.

(** C18: no forwarded message is lost.  For every broker, cache and codec that
    keep their contracts, when a worker handles a well-formed message that it was
    given with its acker from the forwarding or the retry topic, exactly one of these happens, with nothing else
    added to or removed from any topic: the content is published on the topic of
    its recipient, after which the message is acknowledged; the message is sent to
    the other host with a callback filed under its sequence number, and stays in
    the broker; or its forwarding failed, and it is put on the retry topic with its
    failure times before it is acknowledged, or stays unacknowledged when that
    publication fails, and is dropped only if it has been failing for longer than
    the forwarding timeout or cannot be serialized. *)
Theorem forwarding_keeps_message srvc c retryPublisher data acker s r m o a :
  routing_ok (fe s) → issued (broker (fe s)) acker data →
  Unmarshal_ForwardedMessage (default "" data) = Ok m →
  ForwardedMessage_Message m = Some o → OutboundMessage_To o = Some a →
  forwardMessage dial srvc c retryPublisher data acker s = Ret r →
  fate srvc c (mkCallback m acker retryPublisher) o a data
    (broker (fe s)) (broker (fe (r_state r))) (ff (r_state r)) (r_sent r).
Proof. apply forwardMessage_fate. Qed.

(** Replies from the other host.  A reply to a message in flight removes its
    callback; a positive one acknowledges exactly that message to the broker, a
    negative one handles it as failed (retried, kept, or expired), and other
    messages and replies change nothing in the broker. *)
Theorem reply_settles_message srvc c msg s s' :
  broker_wf (broker (fe s)) →
  handleReply srvc c msg s = Ret s' →
  fe s' = fe s ∧ ff s' = ff s ∨
  ∃ cb, callbacks (ff s) !! Message_Sequence msg = Some cb ∧
    callbacks (ff s') = delete (Message_Sequence msg) (callbacks (ff s)) ∧
    ∀ data, issued (broker (fe s)) (cb_ack cb) data →
      match Message_Payload msg with
      | Some Message_Ack => acked (broker (fe s)) (broker (fe s')) (cb_ack cb) data []
      | _ => failed srvc c cb data (broker (fe s)) (broker (fe s'))
      end.
Proof.
  intros W H. unfold handleReply, readFrom, triggerCallbackFor in H.
  destruct (Message_Payload msg) as [[]|] eqn:Ep; try (left; by simplify_eq/=);
    destruct (callbacks (ff s) !! Message_Sequence msg) as [cb|] eqn:Ec; try (left; by simplify_eq/=);
    right; exists cb; apply bind_Ret_inv in H as (e' & Hf & [= <-]); (split; [done|split; [done|]]); intros data Ht.
  - exact (proj1 (runAck_acked _ _ _ _ (issued_names _ _ _ Ht) Hf)).
  - by eapply failMessage_failed.
Qed.

(** How many workers run.  Starting forwarding with a parallelism of [n]
    starts [n * n] goroutines on the forwarding topic and as many on the retry
    topic, not [n]. *)
Theorem forwarding_workers_squared srvc e e' ws p :
  (0 <= forwardingParallelism srvc)%Z → startForwarding srvc e = (e', Ok (ws, p)) →
  Z.of_nat (length ws) = (2 * forwardingParallelism srvc * forwardingParallelism srvc)%Z.
Proof.
  intros H0 H. unfold startForwarding in H. repeat case_match; simplify_eq. unfold forwardMessages.
  rewrite length_join, fmap_replicate, length_app, !length_replicate, sum_list_replicate. nia.
Qed.
End fates.

(** ** A new service *)

Section new.
Context {ID : Identity} {PR : Proto}.
Context {D B P A C : Type} {DBI : DB D} {BI : Broker B} {PI : Presence P}
        {AI : Attachments A} {LI : LRU C Publisher}.
Context {BL : BrokerLaws B} {LL : LRULaws C Publisher}.
#[local] Abbreviation env := (@env D B P A C).

(** Subscribers of the topics of messages to forward. *)
Definition forwarding_subs (b : B) (ws : list Subscriber) : Prop :=
  ∀ s, s ∈ ws → sub_topic b s = Some forwardingTopic ∨ sub_topic b s = Some forwardingRetryTopic.

Lemma steady_forwarding_subs b b' ws : steady b b' → forwarding_subs b ws → forwarding_subs b' ws.
Proof. intros H Hw s [?|?]%Hw; [left|right]; by apply (steady_sub _ _ H). Qed.

Lemma startForwarding_ok srvc (e e' : env) ws p :
  routing_ok e → startForwarding srvc e = (e', Ok (ws, p)) →
  routing_ok e' ∧ quiet (broker e) (broker e') ∧ db e' = db e ∧ pub_topic p = forwardingRetryTopic ∧
  forwarding_subs (broker e') ws.
Proof.
  intros [W Hc] H. unfold startForwarding in H.
  destruct (broker_NewSubscriber forwardingTopic _) as [b1 [s1|]] eqn:E1; [|done].
  destruct (broker_NewSubscriber forwardingRetryTopic _) as [b2 [s2|]] eqn:E2; [|done].
  apply NewSubscriber_law in E1 as (Hs1 & Ht1); [|done]. pose proof (quiet_wf _ _ Hs1 W) as W1.
  apply NewSubscriber_law in E2 as (Hs2 & Ht2); [|done]. pose proof (quiet_wf _ _ Hs2 W1) as W2.
  destruct (publisherFor forwardingRetryTopic _) as [e3 [q|]] eqn:E3; simplify_eq.
  pose proof (publisherFor_db _ _ _ _ E3) as Hd. apply publisherFor_spec in E3 as (Hok & Hs3 & Hp); [|done].
  split_and!; [apply Hok..| |done|by apply Hp|].
  - transitivity b1; [exact Hs1|]. transitivity b2; [exact Hs2|]. exact Hs3.
  - intros s (l & Hs & Hl)%list_elem_of_join. apply elem_of_replicate in Hl as [-> _].
    apply elem_of_app in Hs as [[-> _]%elem_of_replicate|[-> _]%elem_of_replicate].
    + left. apply (steady_sub _ _ (proj2 Hs3)), (steady_sub _ _ (proj2 Hs2)). by apply Ht1.
    + right. apply (steady_sub _ _ (proj2 Hs3)). by apply Ht2.
Qed.

(** What [New] establishes.  A service that [New] returns has a non-empty
    lower-case public address and at least one forwarding worker per loop, leaves
    the stored messages and the database as they were, files publishers under
    their own topics, and runs forwarding workers exactly when it has a forwarder
    and user transfers exactly when it also has a positive transfer interval; the
    workers read the forwarding and the retry topic and retry on the latter, and the
    transfers publish on the former. *)
Theorem New_establishes newPresence hasForwarder d (b : B) a opts srvc (e : env) sta :
  broker_wf b → New newPresence hasForwarder d b a opts = Ok (srvc, e, sta) →
  routing_ok e ∧ quiet b (broker e) ∧ db e = d ∧
  publicAddr srvc = to_lower (Opts_PublicAddr opts) ∧ publicAddr srvc ≠ "" ∧
  (1 <= forwardingParallelism srvc)%Z ∧
  match workers sta with
  | Some (ws, p) => hasForwarder = true ∧ pub_topic p = forwardingRetryTopic ∧ forwarding_subs (broker e) ws
  | None => hasForwarder = false
  end ∧
  match transfers sta with
  | Some p => hasForwarder = true ∧ (0 < Opts_UserTransferInterval opts)%Z ∧ pub_topic p = forwardingTopic
  | None => hasForwarder = false ∨ (Opts_UserTransferInterval opts <= 0)%Z
  end.
Proof.
  intros W H. unfold New in H. cbn [ApplyDefaults Opts_PublicAddr Opts_PublisherCacheSize Opts_PresenceRepo] in H.
  destruct (decide (Opts_PublicAddr opts = "")) as [|Hne]; [done|].
  destruct (lru_New _) as [c|] eqn:Ec; [|done]. apply lru_New_law in Ec.
  assert (Hsrvc : ∀ o, o = ApplyDefaults newPresence opts →
    publicAddr (serviceOf o) = to_lower (Opts_PublicAddr opts) ∧ publicAddr (serviceOf o) ≠ "" ∧
    (1 <= forwardingParallelism (serviceOf o))%Z ∧
    userTransferInterval (serviceOf o) = Opts_UserTransferInterval opts).
  { intros o ->. simpl. split_and!; [done|by destruct (Opts_PublicAddr opts)| |done].
    destruct (decide (Opts_ForwardingParallelism opts <= 0)%Z); lia. }
  destruct (Hsrvc _ eq_refl) as (Ha & Hn & Hp & Hi). clear Hsrvc.
  revert H Ha Hn Hp Hi. generalize (serviceOf (ApplyDefaults newPresence opts)) as sv. intros sv H Ha Hn Hp Hi.
  assert (Hok : routing_ok (mkEnv d b (default newPresence (Some (default newPresence (Opts_PresenceRepo opts)))) a c)).
  { split; [done|]. intros t p. simpl. by rewrite Ec, lookup_empty. }
  destruct hasForwarder; simpl in H; [|simplify_eq; split_and!; [done|reflexivity|done..|by left]].
  destruct (startForwarding _ _) as [e1 [[ws p]|]] eqn:Es; [|done].
  apply startForwarding_ok in Es as (Hok1 & Hs1 & Hd1 & Hp1 & Hw1); [|done]. simpl in Hs1.
  rewrite Hi in H. destruct (decide _) as [Hpos|Hpos].
  - destruct (startUserTransfers e1) as [e2 [p2|]] eqn:Et; simplify_eq. unfold startUserTransfers in Et.
    pose proof (publisherFor_db _ _ _ _ Et) as Hd2. apply publisherFor_spec in Et as (Hok2 & Hs2 & Hp2); [|done].
    pose proof (Hp2 p2 eq_refl). cbn [workers transfers]. split_and!; try done; [by transitivity (broker e1)|by rewrite Hd2|].
    exact (steady_forwarding_subs _ _ _ (proj2 Hs2) Hw1).
  - simplify_eq. split_and!; try done. right. lia.
Qed.
End new.
