(* ===== verification/Tassis.v ===== *)
(** * Tassis: a running server

    Everything that runs in one process, over the shared environment: the
    connections of the clients (the system of Connection.v for each), the workers
    that forward messages and the replies they get, and the goroutine that transfers
    the messages of devices that moved (service/serviceimpl/forwarding.go).  A step is
    one turn of one goroutine; a worker holds a message between taking it from the
    broker and handling it (it may sleep in between), and the transfer goroutine
    gives way between two messages and before it unregisters a device.  Other hosts
    may change the network and the presence repository at any time, and the goroutine of
    a subscriber may run without having anything to deliver.

    A step also records what becomes of messages, by the topic of the device they
    are for: accepted from a sender, delivered to a client, acknowledged by it,
    relayed to another host, or given up. *)

From S2P Require Import Prelude Model Externals DB Broker Presence Attachments Forwarder Service ServiceProps Connection Forwarding.

Import serviceimpl forwarder forwarding.

Module tassis.
Section tassis.
Context {ID : Identity} {PR : Proto}.
Context {D B P A C : Type} {DBI : DB D} {BI : Broker B} {PI : Presence P}
        {AI : Attachments A} {LI : LRU C Publisher} {BV : BrokerView B}.
Context {N Conn : Type} (dial : string → N → N * result Conn).
Context (srvc : Service) (sta : started (BI:=BI)).
#[local] Abbreviation env := (@env D B P A C).
#[local] Abbreviation st := (@st D B P A C BI).

(** The transfer goroutine: going through the list of devices, in the loop of
    [transferDeviceMessages], after that loop has ended without an error. *)
Inductive mover :=
| Visiting
| Moving (subscriber : Subscriber) (addr : Address)
| Leaving (addr : Address).

(** [clients] has for each connection its state and the number of messages that
    [sendInitMessages] has sent; [inHand] is what workers have taken and not yet
    handled; [round] is the rest of the list of devices. *)
Record tassis := mkTassis {
  shared : env;
  clients : gmap nat (clientConnection (BI:=BI) * nat);
  inHand : list (option string * Acker);
  fwd : Forwarder Conn (callback (BI:=BI));
  net : N;
  round : list Address;
  transfer : mover }.

Definition boot (e : env) (n : N) : tassis := mkTassis e ∅ [] forwarder.New n [] Visiting.

Definition with_shared (e : env) (w : tassis) : tassis :=
  mkTassis e (clients w) (inHand w) (fwd w) (net w) (round w) (transfer w).
Definition with_client (i : nat) (c : conn (BI:=BI)) (w : tassis) : tassis :=
  mkTassis (en (cs c)) (<[i := (cn (cs c), sent_init c)]> (clients w)) (inHand w) (fwd w) (net w) (round w) (transfer w).
Definition with_hand (l : list (option string * Acker)) (w : tassis) : tassis :=
  mkTassis (shared w) (clients w) l (fwd w) (net w) (round w) (transfer w).
Definition with_forwarder (s : fstate (BI:=BI)) (w : tassis) : tassis :=
  mkTassis (fe s) (clients w) (inHand w) (ff s) (fn s) (round w) (transfer w).
Definition with_transfer (e : env) (l : list Address) (m : mover) (w : tassis) : tassis :=
  mkTassis e (clients w) (inHand w) (fwd w) (net w) l m.

(** The state as the handlers of a connection, and the workers, see it. *)
Definition conn_of (w : tassis) (c : clientConnection (BI:=BI)) (n : nat) : conn := mkC (mkSt (shared w) c) n.
Definition fstate_of (w : tassis) : fstate := mkF (shared w) (fwd w) (net w).

(** ** What becomes of messages *)

Inductive entry :=
| Accepted (t : string) (x : option string)
| Delivered (i : nat) (t : string) (x : option string)
| Acked (i : nat) (t : string) (x : option string)
| Relayed (t : string) (x : option string)
| Expired (t : string) (x : option string).

Definition topic_of (a : Address) : string := topicFor (Address_IdentityKey a) (Address_DeviceId a).

(** What a stored message to be forwarded carries: the topic of its recipient and
    its content. *)
Definition carried (m : ForwardedMessage) : option (string * option string) :=
  o ← ForwardedMessage_Message m; a ← OutboundMessage_To o;
  Some (topic_of a, OutboundMessage_UnidentifiedSenderMessage o).

Definition parcel (y : option string) : option (string * option string) :=
  match Unmarshal_ForwardedMessage (default "" y) with Ok m => carried m | Err _ => None end.

Definition forwarding_name (t : string) : Prop := t = forwardingTopic ∨ t = forwardingRetryTopic.

#[export] Instance forwarding_name_dec t : Decision (forwarding_name t).
Proof. unfold forwarding_name. apply _. Defined.

(** What [y], stored on the topic [t], is. *)
Definition meant (t : string) (y : option string) : option (string * option string) :=
  if decide (forwarding_name t) then parcel y else Some (t, y).

(** How many copies of the message [x] for the device of topic [t] the broker
    stores: on the device's topic and on those of messages to be forwarded. *)
Definition copies (l : list (string * option string)) (t : string) (x : option string) : nat :=
  length (filter (λ y, meant y.1 y.2 = Some (t, x)) l).

Definition held (b : B) (t : string) (x : option string) : nat :=
  copies (((t,.) <$> backlog b t) ++ ((forwardingTopic,.) <$> backlog b forwardingTopic) ++
          ((forwardingRetryTopic,.) <$> backlog b forwardingRetryTopic)) t x.

(** *** The record of a client's event *)

Definition is_ack (msg : Message) : bool :=
  match Message_Payload msg with Some Message_Ack => true | _ => false end.

(** The handler answered with an Ack. *)
Definition acknowledged (s s' : st) : bool :=
  existsb is_ack (drop (length (in_ (cn s))) (in_ (cn s'))).

Definition client_log (i : nat) (ev : event (BI:=BI)) (s s' : st) : list entry :=
  match ev with
  | EvIn data acker => [Delivered i (ack_topic acker) data]
  | EvOut msg =>
      match Message_Payload msg with
      | Some (Message_OutboundMessage o) =>
          match OutboundMessage_To o with
          | Some a => if acknowledged s s'
                      then [Accepted (topic_of a) (OutboundMessage_UnidentifiedSenderMessage o)] else []
          | None => []
          end
      | Some Message_Ack =>
          match unackedMessages (cn s) !! Message_Sequence msg,
                unackedMessages (cn s') !! Message_Sequence msg with
          | Some acker, None => Acked i (ack_topic acker) <$> option_list (ack_target (broker (en s)) acker)
          | _, _ => []
          end
      | _ => []
      end
  | _ => []
  end.

(** *** The record of a forwarding worker *)

(** A message whose forwarding fails now is given up: it has been failing for too
    long, or cannot be serialized. *)
Definition given_up (c : clock) (m : ForwardedMessage) : bool :=
  let m' := MarkFailed (now_mark c) m in
  bool_decide (forwardingTimeout srvc < HasBeenFailingFor (now_check c) m')%Z ||
  match Marshal_ForwardedMessage m' with Err _ => true | Ok _ => false end.

(** The step left fewer copies of the message. *)
Definition fewer (b b' : B) (t : string) (x : option string) : bool := bool_decide (held b' t x < held b t x).

Definition gone_log (c : clock) (m : ForwardedMessage) (b b' : B) : list entry :=
  match carried m with
  | Some (t, x) => if given_up c m && fewer b b' t x then [Expired t x] else []
  | None => []
  end.

Definition forward_log (c : clock) (data : option string) (b b' : B) : list entry :=
  match Unmarshal_ForwardedMessage (default "" data) with Ok m => gone_log c m b b' | Err _ => [] end.

Definition reply_log (c : clock) (msg : Message) (f : Forwarder Conn (callback (BI:=BI))) (b b' : B) : list entry :=
  match readFrom msg f with
  | (_, Some (cb, Some _)) => gone_log c (cb_msg cb) b b'
  | (_, Some (cb, None)) =>
      match carried (cb_msg cb) with
      | Some (t, x) => if fewer b b' t x then [Relayed t x] else []
      | None => []
      end
  | (_, None) => []
  end.

(** ** Steps *)

Inductive label :=
| LConnect (i : nat) (nonce : string)
| LClient (i : nat) (ev : event (BI:=BI))
| LIdle
| LTake (data : option string)
| LForward (data : option string)
| LReply (msg : Message)
| LOthers
| LTransfer.

Inductive step : label → list entry → tassis → tassis → Prop :=
| s_connect i nonce w :
    clients w !! i = None →
    step (LConnect i nonce) [] w (with_client i (start nonce (shared w)) w)
| s_client i c n ev c' w :
    clients w !! i = Some (c, n) → ev ≠ EvOthers →
    Connection.step srvc ev (conn_of w c n) c' →
    step (LClient i ev) (client_log i ev (mkSt (shared w) c) (cs c')) w (with_client i c' w)
| s_idle sub b w :
    broker_Receive sub (broker (shared w)) = (b, None) →
    step LIdle [] w (with_shared (set_broker b (shared w)) w)
| s_take ws p sub data acker b w :
    workers sta = Some (ws, p) → sub ∈ ws →
    broker_Receive sub (broker (shared w)) = (b, Some (data, acker)) →
    step (LTake data) [] w
      (with_hand (inHand w ++ [(data, acker)]) (with_shared (set_broker b (shared w)) w))
| s_forward ws p k data acker c r w :
    workers sta = Some (ws, p) → inHand w !! k = Some (data, acker) →
    forwardMessage dial srvc c p data acker (fstate_of w) = Ret r →
    step (LForward data) (forward_log c data (broker (shared w)) (broker (fe (r_state r)))) w
      (with_forwarder (r_state r) (with_hand (delete k (inHand w)) w))
| s_reply c msg s w :
    handleReply srvc c msg (fstate_of w) = Ret s →
    step (LReply msg) (reply_log c msg (fwd w) (broker (shared w)) (broker (fe s))) w (with_forwarder s w)
| s_others n p w :
    step LOthers [] w (with_forwarder (mkF (set_presence p (shared w)) (fwd w) n) w)
| s_round p d addrs w :
    transfers sta = Some p → transfer w = Visiting → round w = [] →
    db_AllRegisteredDevices (db (shared w)) = Ret (d, Ok addrs) →
    step LTransfer [] w (with_transfer (set_db d (shared w)) addrs Visiting w)
| s_visit addr rest e res w :
    transfer w = Visiting → round w = addr :: rest → findMoved srvc addr (shared w) = (e, res) →
    step LTransfer [] w
      (with_transfer e rest (match res with Some sub => Moving sub addr | None => Visiting end) w)
| s_move p sub addr e w :
    transfers sta = Some p → transfer w = Moving sub addr →
    transferTurn sub addr p (shared w) = Ret (e, None) →
    step LTransfer [] w (with_transfer e (round w) (Moving sub addr) w)
| s_moved p sub addr e err w :
    transfers sta = Some p → transfer w = Moving sub addr →
    transferTurn sub addr p (shared w) = Ret (e, Some err) →
    step LTransfer [] w
      (with_transfer (set_broker (broker_CloseSubscriber sub (broker e)) e) (round w)
         (match err with Some _ => Visiting | None => Leaving addr end) w)
| s_leave addr e w :
    transfer w = Leaving addr → endTransfer addr None (shared w) = Ret e →
    step LTransfer [] w (with_transfer e (round w) Visiting w).

Abbreviation trace := (list (label * list entry)).

Definition log (tr : trace) : list entry := mjoin tr.*2.

Inductive run : tassis → trace → tassis → Prop :=
| run_nil w : run w [] w
| run_snoc w tr w' l es w'' : run w tr w' → step l es w' w'' → run w (tr ++ [(l, es)]) w''.

End tassis.
End tassis.
