(* ===== verification/TassisExec.v ===== *)
(** * TassisExec: running a server step by step

    The steps of Tassis.v as a function of the goroutine that is to move: [exec]
    does what the step does and [exec_sound] says that it is one.  Conversations can
    be evaluated with it. *)

From S2P Require Import Prelude Model Externals DB Broker Presence Attachments Forwarder Service ServiceProps Connection Forwarding Tassis.

Import serviceimpl forwarder forwarding tassis.

Section exec.
Context {ID : Identity} {PR : Proto}.
Context {D B P A C : Type} {DBI : DB D} {BI : Broker B} {PI : Presence P}
        {AI : Attachments A} {LI : LRU C Publisher} {BV : BrokerView B}.
Context {N Conn : Type} (dial : string → N → N * result Conn).
Context (srvc : Service) (sta : started (BI:=BI)).
#[local] Abbreviation tassis := (@tassis D B P A C BI N Conn).
#[local] Abbreviation st := (@st D B P A C BI).
#[local] Abbreviation result3 := (label (BI:=BI) * list entry * tassis)%type.
Implicit Types w : tassis.

(** Who moves: a connection is opened; one of its goroutines sends the next initial
    message, handles a message of the client, takes a message from its [k]-th
    subscription, or checks the pre keys; the client reads a message, the connection
    is closed, or the goroutine of a subscription ends; a subscriber has nothing to deliver; worker [k] takes a message; the [j]-th message in hand is
    handled; a reply is read; other hosts; the transfer goroutine. *)
Inductive move :=
| MConnect (i : nat) (nonce : string)
| MInit (i : nat)
| MOut (i : nat) (msg : Message)
| MIn (i k : nat)
| MCheck (i : nat)
| MReceive (i : nat)
| MClose (i : nat)
| MEndInbound (i k : nat)
| MIdle (sub : Subscriber)
| MTake (k : nat)
| MForward (j : nat) (c : clock)
| MReply (c : clock) (msg : Message)
| MOthers (n : N) (p : P)
| MTransfer.

Definition ret {T} (m : outcome T) : option T := match m with Ret a => Some a | _ => None end.

(** An event of a connection that leaves it in [c']. *)
Definition event_to (i : nat) (ev : event (BI:=BI)) w (c : clientConnection) (c' : conn) : result3 :=
  (LClient i ev, client_log i ev (mkSt (shared w) c) (cs c'), with_client i c' w).

Definition exec_client (i : nat) (f : st → nat → option (event (BI:=BI) * conn)) w : option result3 :=
  '(c, n) ← clients w !! i; '(ev, c') ← f (mkSt (shared w) c) n; Some (event_to i ev w c c').

Definition exec_init (s : st) (n : nat) : option (event (BI:=BI) * conn) :=
  match n with
  | 0 => Some (EvChallenge, mkC (sendAuthChallenge s) 1)
  | 1 => Some (EvConfiguration, mkC (sendConfiguration s) 2)
  | _ => None
  end.

Definition exec_in (k : nat) (s : st) (n : nat) : option (event (BI:=BI) * conn) :=
  sub ← subscriptions (cn s) !! k;
  match broker_Receive sub (broker (en s)) with
  | (b, Some (data, acker)) =>
      Some (EvIn data acker, mkC (handleInboundMessage data acker (with_en (set_broker b) s)) n)
  | _ => None
  end.

Definition exec_end (k : nat) (s : st) (n : nat) : option (event (BI:=BI) * conn) :=
  if closed (cn s) then sub ← subscriptions (cn s) !! k; Some (EvEndInbound, mkC (endInbound k sub s) n) else None.

Definition exec_check (s : st) (n : nat) : option (event (BI:=BI) * conn) :=
  if decide (preKeyChecks (cn s) = 0) then None
  else s' ← ret (warnPreKeysLowIfNecessary srvc s); Some (EvCheck, mkC s' n).

Definition exec_transfer w : option result3 :=
  let to e l m := Some (LTransfer, [], with_transfer e l m w) in
  match transfer w with
  | Visiting =>
      match round w with
      | [] =>
          _ ← transfers sta;
          match db_AllRegisteredDevices (db (shared w)) with
          | Ret (d, Ok addrs) => to (set_db d (shared w)) addrs Visiting
          | _ => None
          end
      | addr :: rest =>
          let '(e, res) := findMoved srvc addr (shared w) in
          to e rest (match res with Some sub => Moving sub addr | None => Visiting end)
      end
  | Moving sub addr =>
      p ← transfers sta;
      '(e, r) ← ret (transferTurn sub addr p (shared w));
      match r with
      | None => to e (round w) (Moving sub addr)
      | Some err => to (set_broker (broker_CloseSubscriber sub (broker e)) e) (round w)
                      (match err with Some _ => Visiting | None => Leaving addr end)
      end
  | Leaving addr => e ← ret (endTransfer addr None (shared w)); to e (round w) Visiting
  end.

(** The report of a worker that handles the [j]-th message in hand. *)
Definition handle (j : nat) (c : clock) w : option (option string * report) :=
  '(_, p) ← workers sta; '(data, acker) ← inHand w !! j;
  r ← ret (forwardMessage dial srvc c p data acker (fstate_of w)); Some (data, r).

Definition exec (m : move) w : option result3 :=
  match m with
  | MConnect i nonce =>
      match clients w !! i with
      | None => Some (LConnect i nonce, [], with_client i (start nonce (shared w)) w)
      | Some _ => None
      end
  | MInit i => exec_client i exec_init w
  | MOut i msg => exec_client i (λ s n, s' ← ret (doHandleOutboundMessage srvc msg s); Some (EvOut msg, mkC s' n)) w
  | MIn i k => exec_client i (exec_in k) w
  | MCheck i => exec_client i exec_check w
  | MReceive i => exec_client i (λ s n, '(s', msg) ← ret (Receive s); Some (EvReceive msg, mkC s' n)) w
  | MClose i => exec_client i (λ s n, Some (EvClose, mkC (Close s) n)) w
  | MEndInbound i k => exec_client i (exec_end k) w
  | MIdle sub =>
      match broker_Receive sub (broker (shared w)) with
      | (b, None) => Some (LIdle, [], with_shared (set_broker b (shared w)) w)
      | _ => None
      end
  | MTake k =>
      '(ws, _) ← workers sta; sub ← ws !! k;
      match broker_Receive sub (broker (shared w)) with
      | (b, Some (data, acker)) =>
          Some (LTake data, [], with_hand (inHand w ++ [(data, acker)]) (with_shared (set_broker b (shared w)) w))
      | _ => None
      end
  | MForward j c =>
      '(data, r) ← handle j c w;
      Some (LForward data, forward_log srvc c data (broker (shared w)) (broker (fe (r_state r))),
            with_forwarder (r_state r) (with_hand (delete j (inHand w)) w))
  | MReply c msg =>
      s ← ret (handleReply srvc c msg (fstate_of w));
      Some (LReply msg, reply_log srvc c msg (fwd w) (broker (shared w)) (broker (fe s)), with_forwarder s w)
  | MOthers n p => Some (LOthers, [], with_forwarder (mkF (set_presence p (shared w)) (fwd w) n) w)
  | MTransfer => exec_transfer w
  end.

Fixpoint exec_all (ms : list move) w : option (list (label (BI:=BI) * list entry) * tassis) :=
  match ms with
  | [] => Some ([], w)
  | m :: rest => '(l, es, w1) ← exec m w; '(tr, w2) ← exec_all rest w1; Some ((l, es) :: tr, w2)
  end.

(** ** Soundness *)

Lemma ret_Some {T} (m : outcome T) a : ret m = Some a → m = Ret a.
Proof. destruct m; naive_solver. Qed.

Lemma exec_client_sound i f w l es w' :
  (∀ c n ev c', clients w !! i = Some (c, n) → f (mkSt (shared w) c) n = Some (ev, c') →
     ev ≠ EvOthers ∧ Connection.step srvc ev (conn_of w c n) c') →
  exec_client i f w = Some (l, es, w') → step dial srvc sta l es w w'.
Proof.
  intros Hf H. unfold exec_client in H. destruct (clients w !! i) as [[c n]|] eqn:Ei; [|done]. simpl in H.
  destruct (f _ _) as [[ev c']|] eqn:Ef; [|done]. simpl in H. injection H as <- <- <-.
  destruct (Hf _ _ _ _ eq_refl Ef). by eapply s_client.
Qed.

Lemma exec_transfer_sound w l es w' : exec_transfer w = Some (l, es, w') → step dial srvc sta l es w w'.
Proof.
  unfold exec_transfer. destruct (transfer w) as [|sub addr|addr] eqn:Et.
  - destruct (round w) as [|addr rest] eqn:Er.
    + destruct (transfers sta) as [p|] eqn:Ep; [|done]. simpl.
      destruct (db_AllRegisteredDevices _) as [[d [addrs|]]| |] eqn:Ed; try done. intros [= <- <- <-].
      by eapply s_round.
    + destruct (findMoved _ _ _) as [e res] eqn:Ef. intros [= <- <- <-]. by eapply s_visit.
  - destruct (transfers sta) as [p|] eqn:Ep; [|done]. simpl.
    destruct (transferTurn _ _ _ _) as [[e [err|]]| |] eqn:Eu; try done; intros [= <- <- <-];
      [by eapply s_moved|by eapply s_move].
  - destruct (endTransfer _ _ _) as [e| |] eqn:Ee; try done. intros [= <- <- <-]. by eapply s_leave.
Qed.

Lemma exec_sound m w l es w' : exec m w = Some (l, es, w') → step dial srvc sta l es w w'.
Proof.
  destruct m as [i nonce|i|i msg|i k|i|i|i|i k|sub|k|j c|c msg|n p|]; simpl.
  - destruct (clients w !! i) eqn:Ei; [done|]. intros [= <- <- <-]. by apply s_connect.
  - apply exec_client_sound. intros c [|[|]] ev c' _; [intros [= <- <-]..|done]; split; [done|constructor|done|constructor].
  - apply exec_client_sound. intros c n ev c' _ H. destruct (doHandleOutboundMessage _ _ _) eqn:E; try done.
    injection H as <- <-. split; [done|]. by constructor.
  - apply exec_client_sound. intros c n ev c' _ H. unfold exec_in in H.
    destruct (subscriptions _ !! k) as [sub|] eqn:Es; [|done]. simpl in H.
    destruct (broker_Receive _ _) as [b [[data acker]|]] eqn:Eb; [|done]. injection H as <- <-. split; [done|].
    eapply step_in; [|exact Eb]. by eapply list_elem_of_lookup_2.
  - apply exec_client_sound. intros c n ev c' _ H. unfold exec_check in H. case_decide; [done|].
    destruct (warnPreKeysLowIfNecessary _ _) eqn:E; try done. injection H as <- <-. split; [done|]. by apply step_check.
  - apply exec_client_sound. intros c n ev c' _ H. destruct (Receive _) as [[s msg]| |] eqn:E; try done.
    injection H as <- <-. split; [done|]. by apply step_receive.
  - apply exec_client_sound. intros c n ev c' _ [= <- <-]. split; [done|]. constructor.
  - apply exec_client_sound. intros c n ev c' _ H. unfold exec_end in H. destruct (closed _) eqn:Ec; [|done].
    destruct (subscriptions _ !! k) as [sub|] eqn:Es; [|done]. injection H as <- <-. split; [done|].
    by apply step_end_inbound.
  - destruct (broker_Receive _ _) as [b [|]] eqn:Eb; [done|]. intros [= <- <- <-]. by eapply s_idle.
  - destruct (workers sta) as [[ws p]|] eqn:Ew; [|done]. simpl. destruct (ws !! k) as [sub|] eqn:Es; [|done]. simpl.
    destruct (broker_Receive _ _) as [b [[data acker]|]] eqn:Eb; [|done]. intros [= <- <- <-].
    eapply s_take; [done| |exact Eb]. by eapply list_elem_of_lookup_2.
  - unfold handle. destruct (workers sta) as [[ws p]|] eqn:Ew; [|done]. simpl.
    destruct (inHand w !! j) as [[data acker]|] eqn:Ej; [|done]. simpl.
    destruct (forwardMessage _ _ _ _ _ _ _) as [r| |] eqn:Ef; try done. intros [= <- <- <-]. by eapply s_forward.
  - destruct (handleReply _ _ _ _) as [s| |] eqn:Eh; try done. intros [= <- <- <-]. by apply s_reply.
  - intros [= <- <- <-]. apply s_others.
  - apply exec_transfer_sound.
Qed.

Lemma run_app w0 tr1 w1 tr2 w2 :
  run dial srvc sta w0 tr1 w1 → run dial srvc sta w1 tr2 w2 → run dial srvc sta w0 (tr1 ++ tr2) w2.
Proof.
  intros H1 H2. induction H2 as [w|w tr w' l es w'' H IH Hs]; [by rewrite app_nil_r|].
  rewrite app_assoc. by eapply run_snoc; [apply IH|].
Qed.

Lemma exec_all_sound ms w tr w' : exec_all ms w = Some (tr, w') → run dial srvc sta w tr w'.
Proof.
  revert w tr. induction ms as [|m ms IH]; intros w tr; simpl; [intros [= <- <-]; apply run_nil|].
  destruct (exec m w) as [[[l es] w1]|] eqn:Em; [|done]. simpl.
  destruct (exec_all ms w1) as [[tr2 w2]|] eqn:Ea; [|done]. intros [= <- <-].
  apply (run_app w [(l, es)] w1); [|by apply IH]. apply (run_snoc _ _ _ w [] w); [apply run_nil|]. by eapply exec_sound.
Qed.
End exec.
