(* ===== verification/TassisSteps.v ===== *)
(** * TassisSteps: what each step of a running server does to the broker

    For every broker and cache that keep their contracts: a step publishes at most
    one message, and which; what it adds to and removes from what is stored; and how
    copies of a message are counted. *)

From S2P Require Import Prelude Model Externals DB Broker Presence Attachments Forwarder Service ServiceProps Connection Forwarding Tassis.

Import serviceimpl forwarder forwarding tassis.

(** ** Changes of the broker *)

Section moves.
Context {B : Type} {BI : Broker B} {BL : BrokerLaws B}.
Implicit Types (b : B) (Φ : string → option string → Prop).

(** A change that publishes at most once, and only what [Φ] allows. *)
Record moves Φ b b' : Prop := {
  moves_sub : ∀ s t, sub_topic b s = Some t → sub_topic b' s = Some t;
  moves_issued : ∀ a x, issued b a x → issued b' a x;
  moves_transit : ∀ t x, in_transit b' t x → in_transit b t x ∨ Φ t x;
  moves_room : ∀ n, broker_room (S n) b → broker_room n b' }.

Lemma steady_moves Φ b b' : steady b b' → moves Φ b b'.
Proof. intros []. split; auto. intros n ?%room_less. auto. Qed.

Lemma moves_mono Φ Ψ b b' : (∀ t x, Φ t x → Ψ t x) → moves Φ b b' → moves Ψ b b'.
Proof. intros H [? ? Ht ?]. split; auto. intros t x [?|?]%Ht; auto. Qed.

Lemma publish_moves p x b b' :
  broker_room 1 b → published_on p x b b' → moves (λ t y, t = pub_topic p ∧ y = x) b b'.
Proof. intros ? []. split; auto. Qed.

Lemma steady_moves_trans Φ b1 b2 b3 : steady b1 b2 → moves Φ b2 b3 → moves Φ b1 b3.
Proof. intros [] [? ? Ht ?]. split; auto. intros t x [?|?]%Ht; auto. Qed.

Lemma moves_steady_trans Φ b1 b2 b3 : moves Φ b1 b2 → steady b2 b3 → moves Φ b1 b3.
Proof. intros [] []. split; auto. Qed.

Lemma room_weaken_wf n b : broker_room n b → broker_wf b.
Proof. induction n as [|n IH]; [done|]. by intros ?%room_less%IH. Qed.

(** A publication that fails changes nothing that is stored. *)
Lemma publish_result p x b b' e :
  broker_room 1 b → broker_Publish p x b = Ret (b', e) →
  match e with
  | Some _ => steady b b' ∧ accounted b b' [] []
  | None => moves (λ t y, t = pub_topic p ∧ y = x) b b' ∧ accounted b b' [(pub_topic p, x)] []
  end.
Proof.
  intros R H. pose proof (room_weaken_wf _ _ R) as W. destruct (Publish_law _ _ _ _ _ W H) as (Hb & _ & Hp).
  destruct e as [er|]; split; [done|intros t; apply (Hb t)|by apply publish_moves|by apply publish_accounted].
Qed.
End moves.

(** ** Counting copies *)

Section copies.
Context {ID : Identity} {PR : Proto}.
Context {B : Type} {BI : Broker B} {BL : BrokerLaws B}.
Implicit Types (b : B) (l : list (string * option string)).

Lemma copies_app l l' t x : copies (l ++ l') t x = copies l t x + copies l' t x.
Proof. unfold copies. by rewrite filter_app, length_app. Qed.

Lemma copies_nil t x : copies [] t x = 0.
Proof. done. Qed.

Lemma copies_cons y l t x : copies (y :: l) t x = copies [y] t x + copies l t x.
Proof. apply (copies_app [y]). Qed.

#[export] Instance copies_perm : Proper ((≡ₚ) ==> (=) ==> (=) ==> (=)) copies.
Proof. intros l l' Hl t t' <- x x' <-. unfold copies. by rewrite Hl. Qed.

Lemma forwarding_names_differ : forwardingTopic ≠ forwardingRetryTopic.
Proof. done. Qed.

(** Only what is stored on the device's topic, or on the forwarding topics, counts. *)
Lemma copies_topics l t x :
  ¬ forwarding_name t →
  copies l t x = copies ((t,.) <$> at_topic l t) t x +
    (copies ((forwardingTopic,.) <$> at_topic l forwardingTopic) t x +
     copies ((forwardingRetryTopic,.) <$> at_topic l forwardingRetryTopic) t x).
Proof.
  intros Ht. pose proof forwarding_names_differ as Hd. unfold forwarding_name in Ht.
  induction l as [|[s y] l IH]; [done|]. rewrite copies_cons, IH. unfold at_topic. rewrite !filter_cons; simpl.
  destruct (decide (s = t)) as [->|Hs].
  - rewrite !decide_False by tauto. rewrite !fmap_cons, (copies_cons (t, y) (_ <$> _)). lia.
  - destruct (decide (s = forwardingTopic)) as [->|Hf].
    { rewrite decide_False by done. rewrite !fmap_cons, (copies_cons (forwardingTopic, y) (_ <$> _)). lia. }
    destruct (decide (s = forwardingRetryTopic)) as [->|Hr].
    { rewrite !fmap_cons, (copies_cons (forwardingRetryTopic, y) (_ <$> _)). lia. }
    unfold copies at 1. rewrite filter_cons, filter_nil. unfold meant. simpl. unfold forwarding_name.
    rewrite (decide_False (P := s = _ ∨ _)) by tauto. rewrite decide_False by congruence. done.
Qed.

Lemma held_accounted b b' add rem t x :
  accounted b b' add rem → ¬ forwarding_name t →
  held b' t x + copies rem t x = held b t x + copies add t x.
Proof.
  intros H Ht. rewrite (copies_topics add), (copies_topics rem) by done. unfold held. rewrite !copies_app.
  assert (Hs : ∀ s, copies ((s,.) <$> at_topic rem s) t x + copies ((s,.) <$> backlog b' s) t x =
                    copies ((s,.) <$> at_topic add s) t x + copies ((s,.) <$> backlog b s) t x).
  { intros s. rewrite <- !copies_app, <- !fmap_app. by rewrite (H s). }
  pose proof (Hs t). pose proof (Hs forwardingTopic). pose proof (Hs forwardingRetryTopic). lia.
Qed.

Lemma copies_one s y t x : copies [(s, y)] t x = if decide (meant s y = Some (t, x)) then 1 else 0.
Proof. unfold copies. rewrite filter_cons, filter_nil. simpl. by case_decide. Qed.

(** A device's topic has a colon. *)
Lemma topic_of_device a : ¬ forwarding_name (topic_of a).
Proof.
  unfold forwarding_name, topic_of, topicFor. generalize (PublicKey_String (Address_IdentityKey a)) as k.
  generalize (base32_Encode (Address_DeviceId a)) as d. intros d k H.
  assert (Hc : ":"%char ∈ str_chars (k +:+ ":" +:+ d)).
  { clear H. induction k as [|c k IH]; [set_solver|]. rewrite str_app_cons. simpl. set_solver. }
  assert (Hn : ":"%char ∉ str_chars forwardingTopic ∧ ":"%char ∉ str_chars forwardingRetryTopic)
    by (split; by apply (bool_decide_unpack _)).
  destruct H as [H|H]; rewrite H in Hc; tauto.
Qed.

Lemma meant_device a y : meant (topic_of a) y = Some (topic_of a, y).
Proof. unfold meant. rewrite decide_False; [done|]. apply topic_of_device. Qed.

Lemma meant_forwarding t y : forwarding_name t → meant t y = parcel y.
Proof. intros H. unfold meant. by rewrite decide_True. Qed.
End copies.

(** ** What a client's message does to the broker *)

Section client.
Context {ID : Identity} {PR : Proto}.
Context {D B P A C : Type} {DBI : DB D} {BI : Broker B} {PI : Presence P}
        {AI : Attachments A} {LI : LRU C Publisher}.
Context {BL : BrokerLaws B} {LL : LRULaws C Publisher}.
#[local] Abbreviation st := (@st D B P A C BI).
#[local] Abbreviation env := (@env D B P A C).
Implicit Types (s : st) (msg : Message) (srvc : Service) (e : env).

(** Nothing that is stored changed. *)
Definition calm e e' : Prop :=
  accounted (broker e) (broker e') [] [] ∧ steady (broker e) (broker e') ∧
  (cache_ok (publisherCache e) → cache_ok (publisherCache e')).

Lemma calm_same e e' : broker e' = broker e → publisherCache e' = publisherCache e → calm e e'.
Proof. unfold calm. intros -> ->. split_and!; [by apply accounted_same|done..]. Qed.

Lemma calm_quiet e e' :
  quiet (broker e) (broker e') → (cache_ok (publisherCache e) → cache_ok (publisherCache e')) → calm e e'.
Proof. intros [? ?] ?. split_and!; [by apply accounted_same|done..]. Qed.

(** Subscriptions are kept, except that a verified login may add one. *)
Definition subs_after msg s s' : Prop :=
  ∀ sub, sub ∈ subscriptions (cn s') → sub ∈ subscriptions (cn s) ∨
    ∃ a, verified_login (authNonce (cn s)) msg a ∧ sub_topic (broker (en s')) sub = Some (topic_of a).

(** What is stored for a message [o] to device [a]: its content on the device's
    topic, or all of it on the forwarding topic. *)
Definition stored_as (o : OutboundMessage) (a : Address) (t : string) (y : option string) : Prop :=
  t = topic_of a ∧ y = OutboundMessage_UnidentifiedSenderMessage o ∨
  t = forwardingTopic ∧ ∃ bytes, y = Some bytes ∧
    Marshal_ForwardedMessage (mkForwardedMessage (Some o) 0 0) = Ok bytes.

Inductive out_effect msg s s' : Prop :=
| oe_calm :
    calm (en s) (en s') → subs_after msg s s' → unackedMessages (cn s') = unackedMessages (cn s) →
    (∀ o, Message_Payload msg = Some (Message_OutboundMessage o) → acknowledged s s' = false) →
    (Message_Payload msg = Some Message_Ack → unackedMessages (cn s) !! Message_Sequence msg = None) →
    out_effect msg s s'
| oe_published o a t y :
    Message_Payload msg = Some (Message_OutboundMessage o) → OutboundMessage_To o = Some a →
    acknowledged s s' = true → stored_as o a t y →
    moves (λ t' y', t' = t ∧ y' = y) (broker (en s)) (broker (en s')) →
    accounted (broker (en s)) (broker (en s')) [(t, y)] [] →
    (cache_ok (publisherCache (en s)) → cache_ok (publisherCache (en s'))) → keeps_conn s s' →
    out_effect msg s s'
| oe_acked acker err :
    Message_Payload msg = Some Message_Ack →
    unackedMessages (cn s) !! Message_Sequence msg = Some acker →
    broker_Ack acker (broker (en s)) = Ret (broker (en s'), err) →
    publisherCache (en s') = publisherCache (en s) → subscriptions (cn s') = subscriptions (cn s) →
    unackedMessages (cn s') = match err with
                              | None => delete (Message_Sequence msg) (unackedMessages (cn s))
                              | Some _ => unackedMessages (cn s) end →
    out_effect msg s s'.

(** The handlers that do not touch the broker. *)
Definition idle s s' : Prop :=
  broker (en s') = broker (en s) ∧ publisherCache (en s') = publisherCache (en s) ∧ keeps_conn s s'.

Lemma idle_effect msg s s' :
  idle s s' → (∀ o, Message_Payload msg = Some (Message_OutboundMessage o) → acknowledged s s' = false) →
  Message_Payload msg ≠ Some Message_Ack → out_effect msg s s'.
Proof.
  intros (Hb & Hc & _ & _ & Hu & Hs) Ho Ha. apply oe_calm; [by apply calm_same| |done..].
  intros sub. rewrite Hs. by left.
Qed.

Lemma handleRegister_idle srvc msg s s' : handleRegister srvc msg s = Ret s' → idle s s'.
Proof. unfold handleRegister. intros H. by run_handler. Qed.
Lemma handleUnregister_idle msg s s' : handleUnregister msg s = Ret s' → idle s s'.
Proof. unfold handleUnregister. intros H. by run_handler. Qed.
Lemma handleRequestPreKeys_idle msg s s' : handleRequestPreKeys msg s = Ret s' → idle s s'.
Proof. unfold handleRequestPreKeys. intros H. by run_handler. Qed.
Lemma handleUpload_idle msg s s' : handleRequestUploadAuthorizations msg s = Ret s' → idle s s'.
Proof. unfold handleRequestUploadAuthorizations. intros H. by run_handler. Qed.
Lemma handleFindByShort_idle srvc msg s s' : handleFindChatNumberByShortNumber srvc msg s = Ret s' → idle s s'.
Proof. unfold handleFindChatNumberByShortNumber. intros H. by run_handler. Qed.
Lemma handleFindByKey_idle srvc msg s s' : handleFindChatNumberByIdentityKey srvc msg s = Ret s' → idle s s'.
Proof. unfold handleFindChatNumberByIdentityKey. intros H. by run_handler. Qed.

(** Logging in opens a subscription for the address that was verified. *)
Lemma finishLogin_effect srvc msg s s' a :
  broker_wf (broker (en s)) → verified_login (authNonce (cn s)) msg a →
  Message_Payload msg ≠ Some Message_Ack →
  (∀ o, Message_Payload msg ≠ Some (Message_OutboundMessage o)) →
  finishLogin srvc msg (set_identity (Address_IdentityKey a) (Address_DeviceId a) s) = Ret s' →
  out_effect msg s s'.
Proof.
  intros W Hv Ha Ho H. unfold finishLogin in H.
  apply bind_Ret_inv in H as ([s1 res] & Hg & H). unfold getNumber in Hg.
  apply bind_Ret_inv in Hg as ([d r] & _ & [= <- <-]). unfold startHandlingInbound in H.
  destruct r as [[n sn]|er];
    cbn [cn en with_en with_cn set_identity set_db broker getIdentityKey getDeviceId identityKey deviceId default
         Close error send] in H;
    destruct (broker_NewSubscriber _ _) as [b [sub|err]] eqn:E;
    apply NewSubscriber_law in E as [Hq Hsub]; try done; injection H as <-.
  all: destruct (decide (0 < checkPreKeysInterval srvc)%Z); simpl;
    (apply oe_calm; [apply calm_quiet; [exact Hq|done]| |done|by intros o ?%Ho|done]);
    intros sub'; simpl; try (intros; by left).
  all: intros [?|Hs%list_elem_of_singleton]%elem_of_app; [by left|subst sub'].
  all: right; exists a; split; [done|]; by apply Hsub.
Qed.

Lemma acknowledged_reply s s' m : replies s s' [m] → acknowledged s s' = is_ack m.
Proof. unfold replies, acknowledged. intros ->. rewrite drop_app_length. simpl. apply orb_false_r. Qed.

(** [publisherFor] stores nothing. *)
Lemma publisherFor_calm t e e' res :
  broker_wf (broker e) → cache_ok (publisherCache e) → publisherFor t e = (e', res) →
  calm e e' ∧ ∀ p, res = Ok p → pub_topic p = t.
Proof.
  intros W Hc H. destruct (publisherFor_spec t e e' res) as ([_ Hc'] & Hq & Hp); [done..|].
  split; [by apply calm_quiet|done].
Qed.

Lemma publishOutbound_effect msg o a t y s s' :
  broker_room 1 (broker (en s)) → cache_ok (publisherCache (en s)) →
  Message_Payload msg = Some (Message_OutboundMessage o) → OutboundMessage_To o = Some a → stored_as o a t y →
  publishOutbound msg t y s = Ret s' → out_effect msg s s'.
Proof.
  intros R Hc Hm Ha Hst H. pose proof (publishOutbound_keeps _ _ _ _ _ H) as Hk. unfold publishOutbound in H.
  destruct (publisherFor t (en s)) as [e res] eqn:E.
  apply publisherFor_calm in E as [(Hacc & Hs & Hc') Hp]; [|by eapply room_weaken_wf|done].
  assert (Hsubs : subs_after msg s s') by (intros sub; destruct Hk as (_ & _ & _ & ->); by left).
  assert (Hu : unackedMessages (cn s') = unackedMessages (cn s)) by apply Hk.
  destruct res as [p|er].
  2:{ injection H as <-. apply oe_calm; [done..|intros ? _; by erewrite acknowledged_reply by reflexivity|congruence]. }
  apply bind_Ret_inv in H as ([b err] & Hpub & H).
  apply publish_result in Hpub; [|by apply (steady_room _ _ Hs)]. rewrite (Hp p eq_refl) in Hpub.
  destruct err as [er|]; destruct Hpub as [Hmv Hb]; injection H as <-.
  - apply oe_calm; [|done..|intros ? _; by erewrite acknowledged_reply by reflexivity|congruence].
    split_and!; [by eapply accounted_after|by transitivity (broker e)|done].
  - eapply oe_published; [done..|by erewrite acknowledged_reply by reflexivity|done| |by eapply accounted_after|done|done].
    by eapply steady_moves_trans.
Qed.

Lemma sendOutboundMessage_effect srvc msg o s s' :
  broker_room 1 (broker (en s)) → cache_ok (publisherCache (en s)) →
  Message_Payload msg = Some (Message_OutboundMessage o) →
  sendOutboundMessage srvc msg s = Ret s' → out_effect msg s s'.
Proof.
  intros R Hc Hm H. unfold sendOutboundMessage, GetOutboundMessage in H. rewrite Hm in H.
  cbn [mbind outcome_bind deref] in H. destruct (presence_Find _ _) as [p [host|er]].
  2:{ injection H as <-. apply idle_effect; [done|intros ? _; by erewrite acknowledged_reply by reflexivity|congruence]. }
  apply bind_Ret_inv in H as (t & Ht & H). unfold topicForAddr in Ht. apply bind_Ret_inv in Ht as (a & Ha & [= <-]).
  apply deref_Ret_inv in Ha.
  assert (Hgo : ∀ t y, stored_as o a t y → publishOutbound msg t y (with_en (set_presence p) s) = Ret s' →
    out_effect msg s s').
  { intros t y Hst Hp. destruct (publishOutbound_effect msg o a t y (with_en (set_presence p) s) s');
      [done..|by apply oe_calm|by eapply oe_published|by eapply oe_acked]. }
  case_decide; [apply (Hgo _ _) in H; [done|by left]|].
  destruct (Marshal_ForwardedMessage _) as [bytes|err] eqn:Em;
    [apply (Hgo _ _) in H; [done|right; eauto]|].
  injection H as <-. apply idle_effect; [done|intros ? _; by erewrite acknowledged_reply by reflexivity|congruence].
Qed.

Lemma handleACK_effect msg s s' :
  Message_Payload msg = Some Message_Ack → handleACK msg s = Ret s' → out_effect msg s s'.
Proof.
  intros Hm H. unfold handleACK in H. destruct (unackedMessages (cn s) !! _) as [acker|] eqn:Eu.
  - apply bind_Ret_inv in H as ([b err] & Ha & H).
    apply (oe_acked _ _ _ acker err); [done..| | | |]; destruct err; by simplify_eq.
  - injection H as <-. apply oe_calm; [by apply calm_same|by intros sub; left|done|congruence|done].
Qed.

(** Everything a client's message may do to the broker. *)
Lemma doHandle_effect srvc msg s s' :
  broker_room 1 (broker (en s)) → cache_ok (publisherCache (en s)) →
  doHandleOutboundMessage srvc msg s = Ret s' → out_effect msg s s'.
Proof.
  intros R Hc H. unfold doHandleOutboundMessage, refuse in H.
  assert (Hidle : idle s s' → (∀ o, Message_Payload msg ≠ Some (Message_OutboundMessage o)) →
    Message_Payload msg ≠ Some Message_Ack → out_effect msg s s').
  { intros. apply idle_effect; [done| |done]. naive_solver. }
  destruct (Message_Payload msg) as [[]|] eqn:Ep; try (apply Hidle; by simplify_eq);
    try (destruct (isAuthenticated (cn s)) eqn:Ha; cbn in H).
  all: try (apply Hidle; by simplify_eq).
  - by apply handleACK_effect.
  - by apply handleACK_effect.
  - apply handleAuthResponse_cases in H as [(Hk & He & _)|(ad & Hv & H)];
      [apply Hidle; [unfold idle; by rewrite He|done..]|].
    eapply finishLogin_effect; [by eapply room_weaken_wf|done|by rewrite Ep..|done].
  - apply Hidle; [by eapply handleRegister_idle|done..].
  - apply Hidle; [by eapply handleUnregister_idle|done..].
  - apply Hidle; [by eapply handleRequestPreKeys_idle|done..].
  - apply Hidle; [by eapply handleUpload_idle|done..].
  - injection H as <-. apply idle_effect; [done|intros ? _; by erewrite acknowledged_reply by reflexivity|congruence].
  - by eapply sendOutboundMessage_effect.
  - apply Hidle; [by eapply handleFindByShort_idle|done..].
  - apply Hidle; [by eapply handleFindByKey_idle|done..].
Qed.
End client.

(** ** What forwarding does to the broker *)

Section forwarding_moves.
Context {ID : Identity} {PR : Proto}.
Context {D B P A C : Type} {DBI : DB D} {BI : Broker B} {PI : Presence P}
        {AI : Attachments A} {LI : LRU C Publisher}.
Context {N Conn : Type} (dial : string → N → N * result Conn).
Context {BL : BrokerLaws B} {LL : LRULaws C Publisher}.
#[local] Abbreviation env := (@env D B P A C).
#[local] Abbreviation fstate := (@fstate D B P A C BI N Conn).
#[local] Abbreviation report := (@report D B P A C BI N Conn).
Implicit Types (e : env) (srvc : Service) (cb : callback) (s : fstate) (r : report).

(** A change of the environment that publishes at most once, what [Φ] allows. *)
Definition env_moves (Φ : string → option string → Prop) e e' : Prop :=
  moves Φ (broker e) (broker e') ∧ (cache_ok (publisherCache e) → cache_ok (publisherCache e')).

(** The message put back for another try. *)
Definition requeued (c : clock) cb (t : string) (y : option string) : Prop :=
  t = pub_topic (cb_retry cb) ∧ ∃ bytes, y = Some bytes ∧
    Marshal_ForwardedMessage (MarkFailed (now_mark c) (cb_msg cb)) = Ok bytes.

(** Everything a worker may publish for a message to device [a]. *)
Definition forwards (c : clock) cb (o : OutboundMessage) (a : Address) (t : string) (y : option string) : Prop :=
  t = topic_of a ∧ y = OutboundMessage_UnidentifiedSenderMessage o ∨ requeued c cb t y.

Lemma runAck_steady acker e e' :
  runAck acker e = Ret e' → steady (broker e) (broker e') ∧ publisherCache e' = publisherCache e.
Proof.
  unfold runAck. intros H. apply bind_Ret_inv in H as ([b err] & Ha & [= <-]). split; [|done].
  by apply (Ack_law _ _ _ _ Ha).
Qed.

Lemma runAck_moves Φ acker e e' : runAck acker e = Ret e' → env_moves Φ e e'.
Proof. intros [Hs Hc]%runAck_steady. split; [by apply steady_moves|by rewrite Hc]. Qed.

Lemma env_moves_calm Φ e1 e2 e3 : calm e1 e2 → env_moves Φ e2 e3 → env_moves Φ e1 e3.
Proof. intros (_ & Hs & Hc) [Hm Hc']. split; [by eapply steady_moves_trans|auto]. Qed.

Lemma calm_moves Φ e e' : calm e e' → env_moves Φ e e'.
Proof. intros (_ & Hs & Hc). split; [by apply steady_moves|done]. Qed.

Lemma env_moves_mono Φ Ψ e e' : (∀ t y, Φ t y → Ψ t y) → env_moves Φ e e' → env_moves Ψ e e'.
Proof. intros H [Hm Hc]. split; [by eapply moves_mono|done]. Qed.

Lemma failMessage_moves srvc c cb e e' :
  broker_room 1 (broker e) → failMessage srvc c cb e = Ret e' → env_moves (requeued c cb) e e'.
Proof.
  intros R H. unfold failMessage in H. destruct (decide _) as [_|_]; [by eapply runAck_moves|].
  destruct (Marshal_ForwardedMessage _) as [bytes|err] eqn:Em; [|by eapply runAck_moves].
  apply bind_Ret_inv in H as ([b [er|]] & Hp & H); apply publish_result in Hp as [Hm Ha]; try done.
  - injection H as <-. by split; [apply steady_moves|].
  - apply runAck_steady in H as [Hs Hc]. split; [|by rewrite Hc]. eapply moves_steady_trans; [|exact Hs].
    eapply moves_mono; [|exact Hm]. intros t y [-> ->]. unfold requeued. eauto.
Qed.

Lemma failWith_moves srvc c cb slept err s r :
  broker_room 1 (broker (fe s)) → failWith srvc c cb slept err s = Ret r →
  env_moves (requeued c cb) (fe s) (fe (r_state r)) ∧ ff (r_state r) = ff s.
Proof.
  intros R H. unfold failWith in H. apply bind_Ret_inv in H as (e & Hf & [= <-]). split; [|done].
  by eapply failMessage_moves.
Qed.

Lemma deliverLocally_moves srvc c cb slept o a s r :
  broker_room 1 (broker (fe s)) → cache_ok (publisherCache (fe s)) → OutboundMessage_To o = Some a →
  deliverLocally srvc c cb slept o s = Ret r →
  env_moves (forwards c cb o a) (fe s) (fe (r_state r)) ∧ ff (r_state r) = ff s.
Proof.
  intros R Hc Ha H. unfold deliverLocally in H. rewrite Ha in H. cbn [topicForAddr mbind outcome_bind deref] in H.
  destruct (publisherFor _ (fe s)) as [e res] eqn:E.
  apply publisherFor_calm in E as [Hcalm Hp]; [|by eapply room_weaken_wf|done].
  assert (Re : broker_room 1 (broker e)) by (by apply (steady_room _ _ (proj1 (proj2 Hcalm)))).
  assert (Hr : ∀ t y, requeued c cb t y → forwards c cb o a t y) by (by right).
  destruct res as [p|er].
  - apply bind_Ret_inv in H as ([b [er|]] & Hpub & H); apply publish_result in Hpub as [Hm Hacc]; try done.
    + apply failWith_moves in H as [Hf ->]; [|by apply (steady_room _ _ Hm)]. split; [|done].
      eapply env_moves_mono; [exact Hr|]. eapply env_moves_calm; [exact Hcalm|]. eapply env_moves_calm, Hf.
      by split_and!.
    + apply bind_Ret_inv in H as (e' & Hack & [= <-]). split; [|done]. apply runAck_steady in Hack as [Hs Hcc].
      eapply env_moves_calm; [exact Hcalm|]. split; [|simpl; by rewrite Hcc].
      eapply moves_steady_trans; [|exact Hs]. eapply moves_mono; [|exact Hm]. intros t y [-> ->]. left. split; [|done]. by apply Hp.
  - apply failWith_moves in H as [Hf ->]; [|done]. split; [|done].
    eapply env_moves_mono; [exact Hr|]. by eapply env_moves_calm.
Qed.

(** The callbacks afterwards are those before, and perhaps the one given. *)
Definition files cb (f f' : Forwarder Conn callback) : Prop :=
  ∀ q cb', callbacks f' !! q = Some cb' → callbacks f !! q = Some cb' ∨ cb' = cb.

Lemma sendOn_files (conn : Conn) d m cb f f' a :
  sendOn conn d m cb f = (f', a) → files cb f f' ∧ ∃ q, a = Sending conn d q.
Proof.
  intros [= <- <-]. split; [|by eexists]. intros q cb'. simpl. rewrite lookup_insert. case_decide; [|by left].
  intros [= <-]. by right.
Qed.

Lemma Forward_files m host cb (n n' : N) f f' a :
  Forward dial m host cb n f = (n', f', a) →
  files cb f f' ∧ ((∃ conn d q, a = Sending conn d q) ∨ ∃ err, a = Finished cb err).
Proof.
  unfold Forward. destruct (conns f !! host) as [conn|].
  - destruct (sendOn _ _ _ _ _) as [f1 a1] eqn:E. intros [= <- <- <-]. apply sendOn_files in E as [? [q ->]]. eauto 10.
  - destruct (dial host n) as [n1 [conn|err]].
    + destruct (sendOn _ _ _ _ _) as [f1 a1] eqn:E. intros [= <- <- <-]. apply sendOn_files in E as [? [q ->]]. eauto 10.
    + intros [= <- <- <-]. split; [by left|eauto].
Qed.

Lemma forwardTo_moves srvc c cb slept host s r :
  broker_room 1 (broker (fe s)) → forwardTo dial srvc c cb slept host s = Ret r →
  env_moves (requeued c cb) (fe s) (fe (r_state r)) ∧ files cb (ff s) (ff (r_state r)).
Proof.
  intros R H. unfold forwardTo in H. destruct (Forward _ _ _ _ _ _) as [[n f] act] eqn:E.
  apply Forward_files in E as [Hf [(conn & d & q & ->)|[err ->]]].
  - injection H as <-. split; [|done]. by apply calm_moves, calm_same.
  - apply bind_Ret_inv in H as (e & He & [= <-]). split; [|done]. by eapply failMessage_moves.
Qed.

Lemma forwardMessage_moves srvc c p data acker s r m o a :
  broker_room 1 (broker (fe s)) → cache_ok (publisherCache (fe s)) →
  Unmarshal_ForwardedMessage (default "" data) = Ok m → ForwardedMessage_Message m = Some o →
  OutboundMessage_To o = Some a →
  forwardMessage dial srvc c p data acker s = Ret r →
  let cb := mkCallback m acker p in
  env_moves (forwards c cb o a) (fe s) (fe (r_state r)) ∧ files cb (ff s) (ff (r_state r)).
Proof.
  intros R Hc Hu Ho Ha H cb. unfold forwardMessage in H. rewrite Hu in H. cbn [GetMessage] in H.
  rewrite Ho in H. cbn [mbind outcome_bind deref] in H.
  assert (Hr : ∀ t y, requeued c cb t y → forwards c cb o a t y) by (by right).
  destruct (presence_Find _ _) as [pr [host|er]].
  - destruct (decide (host = publicAddr srvc)).
    + apply (deliverLocally_moves _ _ _ _ _ a) in H as [Hm ->]; [|done..]. split; [exact Hm|by left].
    + apply forwardTo_moves in H as [Hm Hf]; [|done]. split; [by eapply env_moves_mono, Hm|exact Hf].
  - apply failWith_moves in H as [Hm ->]; [|done]. split; [by eapply env_moves_mono, Hm|by left].
Qed.

Lemma handleReply_moves srvc c msg s s' :
  broker_room 1 (broker (fe s)) → handleReply srvc c msg s = Ret s' →
  (∀ q cb, callbacks (ff s') !! q = Some cb → callbacks (ff s) !! q = Some cb) ∧
  (fe s' = fe s ∨ ∃ q cb, callbacks (ff s) !! q = Some cb ∧ env_moves (requeued c cb) (fe s) (fe s')).
Proof.
  intros R H. unfold handleReply, readFrom, triggerCallbackFor in H.
  destruct (Message_Payload msg) as [[]|] eqn:Ep; try (simplify_eq/=; by auto);
    destruct (callbacks (ff s) !! Message_Sequence msg) as [cb|] eqn:Ec; try (simplify_eq/=; by auto);
    apply bind_Ret_inv in H as (e' & Hf & [= <-]); simpl;
    (split; [intros q cb' Hq; by eapply lookup_delete_Some in Hq as [_ ?]|]); right; exists (Message_Sequence msg), cb;
    (split; [done|]).
  - by eapply runAck_moves.
  - by eapply failMessage_moves.
Qed.

(** ** What transfers do *)

Lemma findMoved_calm srvc addr e e' res :
  broker_wf (broker e) → findMoved srvc addr e = (e', res) →
  calm e e' ∧ ∀ sub, res = Some sub → sub_topic (broker e') sub = Some (topic_of addr).
Proof.
  intros W H. unfold findMoved in H. destruct (presence_Find _ _) as [p [host|er]]; [|simplify_eq; by split; [apply calm_same|]].
  case_decide; [simplify_eq; by split; [apply calm_same|]|].
  destruct (broker_NewSubscriber _ _) as [b [sub|er]] eqn:E; apply NewSubscriber_law in E as [Hq Hs]; try done; simplify_eq.
  - split; [by apply calm_quiet|]. intros sub' [= <-]. by apply Hs.
  - split; [by apply calm_quiet|done].
Qed.

(** A turn moves one message from the device's topic to the forwarding topic, or
    stores nothing. *)
Inductive turn_effect (addr : Address) (p : Publisher) e e' : Prop :=
| te_calm : calm e e' → turn_effect addr p e e'
| te_moved data acker bytes :
    in_transit (broker e) (topic_of addr) data → ack_topic acker = topic_of addr →
    Marshal_ForwardedMessage (mkForwardedMessage (Some (mkOutboundMessage (Some addr) data)) 0 0) = Ok bytes →
    env_moves (λ t y, t = pub_topic p ∧ y = Some bytes) e e' →
    acked (broker e) (broker e') acker data [(pub_topic p, Some bytes)] →
    turn_effect addr p e e'.

Lemma transferTurn_effect sub addr p e e' res :
  broker_room 1 (broker e) → sub_topic (broker e) sub = Some (topic_of addr) →
  transferTurn sub addr p e = Ret (e', res) → turn_effect addr p e e'.
Proof.
  intros R Hs H. pose proof (room_weaken_wf _ _ R) as W. unfold transferTurn in H.
  destruct (broker_Receive sub (broker e)) as [b r] eqn:E. apply Receive_law in E as [Hq Hr]; [|done].
  assert (Hb : calm e (set_broker b e)) by (by apply calm_quiet).
  destruct r as [[data acker]|]; [|simplify_eq; by apply te_calm].
  destruct (Hr _ _ _ Hs eq_refl) as (Ht & Htr & Hi).
  destruct (Marshal_ForwardedMessage _) as [bytes|er] eqn:Em; [|simplify_eq; by apply te_calm].
  apply bind_Ret_inv in H as ([b' [er|]] & Hp & H).
  - apply publish_result in Hp as [Hst Hacc]; [|by apply (steady_room _ _ (proj2 Hq))]. simplify_eq. apply te_calm.
    split_and!; [|transitivity b; [apply Hq|done]|done]. eapply accounted_after; [|exact Hacc]. apply Hb.
  - assert (Hn : names b' acker data).
    { destruct (Publish_law _ _ _ _ _ (quiet_wf _ _ Hq W) Hp) as (_ & Hat & _). intros y Hy.
      eapply issued_names; [exact Hi|]. by rewrite <- (Hat _ _ Hi). }
    apply publish_result in Hp as [Hm Hacc]; [|by apply (steady_room _ _ (proj2 Hq))].
    apply bind_Ret_inv in H as (e2 & Hack & [= <- <-]).
    pose proof Hack as Hacked. apply (runAck_acked _ data) in Hacked as [Hacked _]; [|exact Hn]. apply runAck_steady in Hack as [Hst Hc].
    eapply te_moved; [done..| |].
    + split; [|by rewrite Hc]. eapply steady_moves_trans; [apply Hq|]. by eapply moves_steady_trans.
    + eapply acked_after; [apply Hb|]. by eapply acked_trans.
Qed.
End forwarding_moves.
