(* ===== verification/TassisInv.v ===== *)
(** * TassisInv: the invariant of a running server

    What is claimed of a run of the system of Tassis.v, the invariant behind it, and
    that every step keeps it, is justified by what came before, and balances the
    copies of messages. *)

From S2P Require Import Prelude Model Externals DB Broker Presence Attachments Forwarder Service ServiceProps Connection Forwarding Tassis TassisSteps.

Import serviceimpl forwarder forwarding tassis.

#[export] Instance entry_eq_dec : EqDecision entry.
Proof. solve_decision. Defined.

(** ** What is claimed of a run *)

Section claims.
Context {ID : Identity} {PR : Proto} {B : Type} {BI : Broker B} {BV : BrokerView B}.
#[local] Abbreviation trace := (list (label (BI:=BI) * list entry)).
Implicit Types (tr : trace) (es L : list entry) (b : B).

(** Connection [i] has proved, by a signature over its nonce, that it may act for
    the address [a]. *)
Definition proven tr (i : nat) (a : Address) : Prop :=
  ∃ nonce msg, LConnect i nonce ∈ tr.*1 ∧ LClient i (EvOut msg) ∈ tr.*1 ∧ verified_login nonce msg a.

(** An entry is in order, given what happened before it. *)
Definition justified tr (e : entry) : Prop :=
  match e with
  | Accepted _ _ => True
  | Delivered i t x => Accepted t x ∈ log tr ∧ ∃ a, topic_of a = t ∧ proven tr i a
  | Acked i t x => Delivered i t x ∈ log tr
  | Relayed t x | Expired t x => Accepted t x ∈ log tr
  end.

Definition n_accepted es (t : string) (x : option string) : nat :=
  length (filter (λ e, e = Accepted t x) es).

(** The message was acknowledged by its device, taken over by another host, or
    given up. *)
Definition settles (t : string) (x : option string) (e : entry) : bool :=
  match e with
  | Acked _ t' x' | Relayed t' x' | Expired t' x' => bool_decide (t' = t ∧ x' = x)
  | _ => false
  end.

Definition n_settled es (t : string) (x : option string) : nat := length (filter (λ e, settles t x e) es).

(** Messages come off the wire, where an empty content is read as nil. *)
Definition from_wire L : Prop := ∀ t x, Accepted t x ∈ L → x ≠ Some "".

Lemma n_accepted_app es es' t x : n_accepted (es ++ es') t x = n_accepted es t x + n_accepted es' t x.
Proof. unfold n_accepted. by rewrite filter_app, length_app. Qed.

Lemma n_settled_app es es' t x : n_settled (es ++ es') t x = n_settled es t x + n_settled es' t x.
Proof. unfold n_settled. by rewrite filter_app, length_app. Qed.

Lemma log_snoc tr l es : log (tr ++ [(l, es)]) = log tr ++ es.
Proof. unfold log. rewrite fmap_app, join_app. simpl. by rewrite app_nil_r. Qed.

Lemma proven_snoc tr x i a : proven tr i a → proven (tr ++ [x]) i a.
Proof. intros (nonce & msg & ? & ? & ?). exists nonce, msg. rewrite fmap_app. set_solver. Qed.
End claims.

(** ** The invariant *)

Section invariant.
Context {ID : Identity} {PR : Proto} {PL : ProtoLaws}.
Context {D B P A C : Type} {DBI : DB D} {BI : Broker B} {PI : Presence P}
        {AI : Attachments A} {LI : LRU C Publisher}.
Context {N Conn : Type} (dial : string → N → N * result Conn).
Context {BL : BrokerLaws B} {LL : LRULaws C Publisher}.
Context (srvc : Service) (sta : started (BI:=BI)).
#[local] Abbreviation env := (@env D B P A C).
#[local] Abbreviation st := (@st D B P A C BI).
#[local] Abbreviation tassis := (@tassis D B P A C BI N Conn).
#[local] Abbreviation trace := (list (label (BI:=BI) * list entry)).
#[local] Abbreviation clientConnection := (clientConnection (BI:=BI)).
Implicit Types (w : tassis) (tr : trace) (es L : list entry) (e : env) (b : B) (c : clientConnection).

(** The publishers of the goroutines that [New] started. *)
Definition started_ok : Prop :=
  (∀ ws p, workers sta = Some (ws, p) → pub_topic p = forwardingRetryTopic) ∧
  (∀ p, transfers sta = Some p → pub_topic p = forwardingTopic).
Context (Hsta : started_ok).

(** A stored message to be forwarded carries an accepted one. *)
Definition parcel_ok L (y : option string) : Prop :=
  ∃ m t x, Unmarshal_ForwardedMessage (default "" y) = Ok m ∧ wire_normal m ∧
    carried m = Some (t, x) ∧ Accepted t x ∈ L.

Definition authentic L (t : string) (y : option string) : Prop :=
  if decide (forwarding_name t) then parcel_ok L y else Accepted t y ∈ L.

(** A message in the hands of a forwarding worker, with its acker. *)
Definition handed L b (data : option string) (acker : Acker) : Prop :=
  issued b acker data ∧ forwarding_name (ack_topic acker) ∧ parcel_ok L data.

(** A connection: its nonce is the one it was opened with, it subscribes to topics
    of addresses it has proved, and the ackers it keeps are of messages it was
    given. *)
Record client_ok tr b (i : nat) c : Prop := {
  co_nonce : LConnect i (authNonce c) ∈ tr.*1;
  co_subs : ∀ sub, sub ∈ subscriptions c → ∃ a, sub_topic b sub = Some (topic_of a) ∧ proven tr i a;
  co_unacked : ∀ q acker, unackedMessages c !! q = Some acker →
    ∃ a x, ack_topic acker = topic_of a ∧ issued b acker x ∧ Delivered i (topic_of a) x ∈ log tr }.

Definition callback_ok L b (cb : callback (BI:=BI)) : Prop :=
  pub_topic (cb_retry cb) = forwardingRetryTopic ∧
  ∃ data, handed L b data (cb_ack cb) ∧ Unmarshal_ForwardedMessage (default "" data) = Ok (cb_msg cb).

(** [k] is the room left in the broker. *)
Record inv (k : nat) tr w : Prop := {
  i_room : broker_room k (broker (shared w));
  i_cache : cache_ok (publisherCache (shared w));
  i_transit : ∀ t y, in_transit (broker (shared w)) t y → authentic (log tr) t y;
  i_clients : ∀ i c n, clients w !! i = Some (c, n) → client_ok tr (broker (shared w)) i c;
  i_hand : ∀ data acker, (data, acker) ∈ inHand w → handed (log tr) (broker (shared w)) data acker;
  i_calls : ∀ q cb, callbacks (fwd w) !! q = Some cb → callback_ok (log tr) (broker (shared w)) cb;
  i_workers : ∀ ws p, workers sta = Some (ws, p) → forwarding_subs (broker (shared w)) ws;
  i_mover : ∀ sub addr, transfer w = Moving sub addr →
    sub_topic (broker (shared w)) sub = Some (topic_of addr) }.

(** *** Monotonicity *)

Lemma parcel_ok_mono L L' y : L ⊆ L' → parcel_ok L y → parcel_ok L' y.
Proof. intros H (m & t & x & ? & ? & ? & ?). exists m, t, x. split_and!; auto. Qed.

Lemma authentic_mono L L' t y : L ⊆ L' → authentic L t y → authentic L' t y.
Proof. intros H. unfold authentic. case_decide; [by apply parcel_ok_mono|apply H]. Qed.

Lemma handed_mono Φ L L' b b' data acker :
  L ⊆ L' → moves Φ b b' → handed L b data acker → handed L' b' data acker.
Proof. intros HL Hm (? & ? & ?). split_and!; [by apply (moves_issued _ _ _ Hm)|done|by eapply parcel_ok_mono]. Qed.

Lemma callback_ok_mono Φ L L' b b' cb : L ⊆ L' → moves Φ b b' → callback_ok L b cb → callback_ok L' b' cb.
Proof. intros HL Hm (? & data & ? & ?). split; [done|]. exists data. split; [by eapply handed_mono|done]. Qed.

Lemma log_mono tr x : log tr ⊆ log (tr ++ [x]).
Proof. destruct x as [l es]. rewrite log_snoc. set_solver. Qed.

Lemma client_ok_mono Φ tr x b b' i c : moves Φ b b' → client_ok tr b i c → client_ok (tr ++ [x]) b' i c.
Proof.
  intros Hm [Hn Hs Hu]. split.
  - rewrite fmap_app. set_solver.
  - intros sub (a & ? & ?)%Hs. exists a. split; [by apply (moves_sub _ _ _ Hm)|by apply proven_snoc].
  - intros q acker (a & y & ? & ? & ?)%Hu. exists a, y. split_and!; [done|by apply (moves_issued _ _ _ Hm)|].
    by apply log_mono.
Qed.

(** A change of the shared environment keeps the invariant if what it publishes is
    authentic. *)
Lemma inv_shared k tr w e l es Φ :
  inv (S k) tr w → env_moves Φ (shared w) e → (∀ t y, Φ t y → authentic (log tr ++ es) t y) →
  inv k (tr ++ [(l, es)]) (with_shared e w).
Proof.
  intros [] [Hm Hc] HΦ. pose proof (log_mono tr (l, es)) as HL. split; simpl.
  - by apply (moves_room _ _ _ Hm).
  - auto.
  - intros t y [?|?]%(moves_transit _ _ _ Hm); [by eapply authentic_mono; [exact HL|auto]|]. rewrite log_snoc. auto.
  - intros i c n H. eapply client_ok_mono; eauto.
  - intros data acker H. eapply handed_mono; eauto.
  - intros q cb H. eapply callback_ok_mono; eauto.
  - intros ws p H s [?|?]%(i_workers0 _ _ H); [left|right]; by apply (moves_sub _ _ _ Hm).
  - intros sub addr H. apply (moves_sub _ _ _ Hm). eauto.
Qed.

(** *** The balance of a step *)

(** Copies and settled messages make up for accepted ones. *)
Definition balanced es b b' : Prop :=
  ∀ t x, ¬ forwarding_name t → held b t x + n_accepted es t x <= held b' t x + n_settled es t x.

Lemma balanced_still b b' es :
  accounted b b' [] [] → (∀ t x, n_accepted es t x = 0) → balanced es b b'.
Proof. intros H He t x Ht. pose proof (held_accounted _ _ _ _ _ x H Ht). rewrite He. rewrite !copies_nil in *. lia. Qed.

Lemma balanced_nil b b' : accounted b b' [] [] → balanced [] b b'.
Proof. intros H. by apply balanced_still. Qed.

(** A message carried to the forwarding topics and back is the same. *)
Lemma parcel_marshalled m bytes :
  wire_normal m → Marshal_ForwardedMessage m = Ok bytes → parcel (Some bytes) = carried m.
Proof. intros Hw Hm. unfold parcel. simpl. by rewrite (ForwardedMessage_round_trip _ _ Hw Hm). Qed.

Lemma carried_MarkFailed now m : carried (MarkFailed now m) = carried m.
Proof. unfold MarkFailed. by case_match. Qed.

Lemma wire_normal_MarkFailed now m : wire_normal m → wire_normal (MarkFailed now m).
Proof. unfold wire_normal, MarkFailed. by case_match. Qed.

Lemma acked_balance b b' acker data add t0 x0 t x :
  acked b b' acker data add → meant (ack_topic acker) data = Some (t0, x0) → ¬ forwarding_name t →
  held b t x + copies add t x <= held b' t x + (if decide ((t0, x0) = (t, x)) then 1 else 0).
Proof.
  intros H Hm Ht. destruct H as [H|H]; pose proof (held_accounted _ _ _ _ _ x H Ht) as Hh.
  - rewrite (copies_one (ack_topic acker)), Hm in Hh. destruct (decide ((t0, x0) = (t, x))) as [E|E].
    + rewrite decide_True in Hh by congruence. lia.
    + rewrite decide_False in Hh by congruence. lia.
  - rewrite copies_nil in Hh. lia.
Qed.

(** A copy that is replaced by another one. *)
Lemma acked_moved b b' acker data s y t0 x0 :
  acked b b' acker data [(s, y)] → meant (ack_topic acker) data = Some (t0, x0) → meant s y = Some (t0, x0) →
  balanced [] b b'.
Proof.
  intros H Hm Hs t x Ht. pose proof (acked_balance _ _ _ _ _ _ _ t x H Hm Ht) as Hb.
  rewrite copies_one, Hs in Hb. unfold n_accepted, n_settled. rewrite !filter_nil. simpl.
  destruct (decide ((t0, x0) = (t, x))) as [E|E].
  - rewrite decide_True in Hb by congruence. lia.
  - rewrite decide_False in Hb by congruence. lia.
Qed.

Lemma balanced_more es b b' :
  (∀ t x, n_accepted es t x = 0) → balanced [] b b' → balanced es b b'.
Proof. intros He H t x Ht. specialize (H t x Ht). rewrite He. unfold n_accepted, n_settled in *. simpl in *. lia. Qed.

(** A copy that is gone, with its record. *)
Lemma acked_gone b b' acker data t0 x0 (e : entry) :
  acked b b' acker data [] → meant (ack_topic acker) data = Some (t0, x0) →
  (∀ t x, settles t x e = bool_decide (t0 = t ∧ x0 = x)) → (∀ t x, e ≠ Accepted t x) →
  balanced (if fewer b b' t0 x0 then [e] else []) b b'.
Proof.
  intros H Hm He Ha t x Ht. pose proof (acked_balance _ _ _ _ _ _ _ t x H Hm Ht) as Hb. rewrite copies_nil in Hb.
  unfold fewer. unfold n_accepted, n_settled.
  assert (Hacc : ∀ t x, filter (λ y : entry, y = Accepted t x) (if bool_decide (held b' t0 x0 < held b t0 x0) then [e] else []) = []).
  { intros t' x'. case_bool_decide; [|done]. by rewrite filter_cons, decide_False, filter_nil. }
  rewrite Hacc. simpl. destruct (decide ((t0, x0) = (t, x))) as [[= -> ->]|Hne]; [|lia].
  case_bool_decide; [|lia]. rewrite filter_cons, He, decide_True; [simpl; lia|]. by apply bool_decide_pack.
Qed.

Lemma gone_log_accepted cl m b b' t x : n_accepted (gone_log srvc cl m b b') t x = 0.
Proof. unfold gone_log. destruct (carried m) as [[? ?]|]; [|done]. by destruct (given_up _ _ _ && _). Qed.

(** A message whose forwarding failed is put back, kept, or recorded as given up. *)
Lemma failed_balance cl cb data b b' t0 x0 :
  failed srvc cl cb data b b' → carried (cb_msg cb) = Some (t0, x0) → parcel data = Some (t0, x0) →
  wire_normal (cb_msg cb) → forwarding_name (ack_topic (cb_ack cb)) →
  pub_topic (cb_retry cb) = forwardingRetryTopic →
  balanced (gone_log srvc cl (cb_msg cb) b b') b b'.
Proof.
  intros H Hc Hp Hw Hn Hr.
  assert (Hm : meant (ack_topic (cb_ack cb)) data = Some (t0, x0)) by (by rewrite meant_forwarding).
  assert (Hgone : given_up srvc cl (cb_msg cb) = true → acked b b' (cb_ack cb) data [] →
    balanced (gone_log srvc cl (cb_msg cb) b b') b b').
  { intros Hg Ha. unfold gone_log. rewrite Hc, Hg. simpl. by apply (acked_gone _ _ _ _ _ _ (Expired t0 x0) Ha Hm). }
  destruct H as [Hk|bytes Hb Ha|Ht Ha|err Hb Ha].
  - apply balanced_more; [apply gone_log_accepted|by apply balanced_nil].
  - apply balanced_more; [apply gone_log_accepted|]. eapply acked_moved; [exact Ha|done|].
    rewrite Hr, meant_forwarding by (by right).
    by rewrite (parcel_marshalled _ _ (wire_normal_MarkFailed _ _ Hw) Hb), carried_MarkFailed.
  - apply Hgone; [|done]. unfold given_up. by rewrite bool_decide_true.
  - apply Hgone; [|done]. unfold given_up. rewrite Hb. apply orb_true_r.
Qed.

(** *** Steps of clients *)

Definition good (k : nat) tr (l : label) es w w' : Prop :=
  inv k (tr ++ [(l, es)]) w' ∧ Forall (justified tr) es ∧ balanced es (broker (shared w)) (broker (shared w')).

Definition set_client (i : nat) c (n : nat) w : tassis :=
  mkTassis (shared w) (<[i := (c, n)]> (clients w)) (inHand w) (fwd w) (net w) (round w) (transfer w).

Lemma inv_client k tr w i c n :
  inv k tr w → client_ok tr (broker (shared w)) i c → inv k tr (set_client i c n w).
Proof.
  intros [] Hc. split; try done. simpl. intros j c' n'. rewrite lookup_insert. case_decide; [|eauto].
  intros; by simplify_eq.
Qed.

Lemma client_frame k tr w i c n c' n' e l es Φ :
  inv (S k) tr w → clients w !! i = Some (c, n) →
  env_moves Φ (shared w) e → (∀ t y, Φ t y → authentic (log tr ++ es) t y) →
  authNonce c' = authNonce c →
  (∀ sub, sub ∈ subscriptions c' → sub ∈ subscriptions c ∨
     ∃ a, sub_topic (broker e) sub = Some (topic_of a) ∧ proven (tr ++ [(l, es)]) i a) →
  (∀ q acker, unackedMessages c' !! q = Some acker → unackedMessages c !! q = Some acker ∨
     ∃ a x, ack_topic acker = topic_of a ∧ issued (broker e) acker x ∧ Delivered i (topic_of a) x ∈ es) →
  inv k (tr ++ [(l, es)]) (set_client i c' n' (with_shared e w)).
Proof.
  intros I Hi Hm HΦ Hn Hs Hu. apply inv_client; [by eapply inv_shared|].
  pose proof (client_ok_mono _ tr (l, es) _ _ i c (proj1 Hm) (i_clients _ _ _ I _ _ _ Hi)) as [Cn Cs Cu].
  split; simpl.
  - by rewrite Hn.
  - intros sub [?|?]%Hs; auto.
  - intros q acker [?|(a & x & ? & ? & ?)]%Hu; [by eapply Cu|]. exists a, x. rewrite log_snoc. set_solver.
Qed.

Lemma Forall_nil_justified tr : Forall (justified tr) [].
Proof. constructor. Qed.

(** Events other than messages from the client or the broker. *)
Lemma other_event ev (s s' : conn) :
  Connection.step srvc ev s s' → ev ≠ EvOthers → (∀ msg, ev ≠ EvOut msg) → (∀ data acker, ev ≠ EvIn data acker) →
  broker_wf (broker (en (cs s))) →
  calm (en (cs s)) (en (cs s')) ∧ authNonce (cn (cs s')) = authNonce (cn (cs s)) ∧
  subscriptions (cn (cs s')) ⊆ subscriptions (cn (cs s)) ∧ unackedMessages (cn (cs s')) = unackedMessages (cn (cs s)).
Proof.
  intros H Ho Hout Hin W.
  destruct H as [s|s|msg s s' n H|sub data acker b s n Hs Hb|s s' n Hk H|s n|msg s s' n H|s e n|k sub s n Hc Hk];
    simpl; try (split; [by apply calm_same|done]); try (exfalso; naive_solver).
  - unfold warnPreKeysLowIfNecessary in H. run_handler; (split; [by apply calm_same|done]).
  - unfold Receive in H. destruct (in_ (cn s)); simplify_eq. split; [by apply calm_same|done].
  - split_and!; [|done| |done].
    + apply calm_quiet; [by apply CloseSubscriber_law|done].
    + intros x. apply list_elem_of_delete_inv.
Qed.

Lemma other_event_good k tr w i c n ev (cc : conn) :
  inv (S k) tr w → clients w !! i = Some (c, n) → Connection.step srvc ev (conn_of w c n) cc →
  ev ≠ EvOthers → (∀ msg, ev ≠ EvOut msg) → (∀ data acker, ev ≠ EvIn data acker) →
  good k tr (LClient i ev) [] w (with_client i cc w).
Proof.
  intros I Hi H Ho Hout Hin. apply other_event in H as (Hc & Hn & Hs & Hu); [|done..|eapply room_weaken_wf, I]. simpl in *.
  split_and!; [|constructor|apply balanced_nil, Hc].
  eapply (client_frame _ _ _ _ c n (cn (cs cc)) _ (en (cs cc)) _ _ (λ _ _, False));
    [done..|by apply calm_moves|done|done|intros sub ?%Hs; auto|rewrite Hu; auto].
Qed.

Lemma in_good k tr w i c n sub data acker b :
  inv (S k) tr w → clients w !! i = Some (c, n) → sub ∈ subscriptions c →
  broker_Receive sub (broker (shared w)) = (b, Some (data, acker)) →
  good k tr (LClient i (EvIn data acker)) [Delivered i (ack_topic acker) data] w
    (with_client i (mkC (handleInboundMessage data acker (with_en (set_broker b) (mkSt (shared w) c))) n) w).
Proof.
  intros I Hi Hsub Hb. pose proof (room_weaken_wf _ _ (i_room _ _ _ I)) as W.
  apply Receive_law in Hb as [Hq Hr]; [|done].
  destruct (co_subs _ _ _ _ (i_clients _ _ _ I _ _ _ Hi) _ Hsub) as (a & Hst & Hp).
  destruct (Hr _ _ _ Hst eq_refl) as (Ht & Htr & Hiss).
  assert (Hc : calm (shared w) (set_broker b (shared w))) by (by apply calm_quiet).
  split_and!; [|constructor; [|constructor]|apply balanced_still; [apply Hc|done]].
  - eapply (client_frame _ _ _ _ c n _ _ (set_broker b (shared w)) _ _ (λ _ _, False));
      [done..|by apply calm_moves|done|done|auto|]. simpl.
    intros q acker'. rewrite lookup_insert. case_decide; [|by left]. intros [= <-]. right. exists a, data.
    rewrite Ht. split_and!; [done|done|]. set_solver.
  - apply (i_transit _ _ _ I) in Htr. unfold authentic in Htr.
    rewrite decide_False in Htr by apply topic_of_device. rewrite Ht. split; [done|]. eauto.
Qed.

Lemma room_one k b : broker_room (S k) b → broker_room 1 b.
Proof. induction k as [|k IH]; [done|]. by intros ?%room_less%IH. Qed.

(** What is stored for an accepted message is that message. *)
Lemma stored_as_authentic L o a t y :
  from_wire L → Accepted (topic_of a) (OutboundMessage_UnidentifiedSenderMessage o) ∈ L →
  OutboundMessage_To o = Some a → stored_as o a t y →
  authentic L t y ∧ meant t y = Some (topic_of a, OutboundMessage_UnidentifiedSenderMessage o).
Proof.
  intros Hw Hin Ha [[-> ->]|(-> & bytes & -> & Hm)].
  - split; [|apply meant_device]. unfold authentic. by rewrite decide_False by apply topic_of_device.
  - assert (Hn : wire_normal (mkForwardedMessage (Some o) 0 0)) by (by apply Hw in Hin).
    assert (Hc : carried (mkForwardedMessage (Some o) 0 0) =
                 Some (topic_of a, OutboundMessage_UnidentifiedSenderMessage o)).
    { unfold carried. simpl. by rewrite Ha. }
    split.
    + unfold authentic. rewrite decide_True by (by left). eexists _, _, _. split_and!; [|done|exact Hc|done].
      exact (ForwardedMessage_round_trip _ _ Hn Hm).
    + rewrite meant_forwarding by (by left). by rewrite (parcel_marshalled _ _ Hn Hm).
Qed.

Lemma accepted_balance b b' T X t y :
  accounted b b' [(t, y)] [] → meant t y = Some (T, X) → balanced [Accepted T X] b b'.
Proof.
  intros H Hm t' x' Ht. pose proof (held_accounted _ _ _ _ _ x' H Ht) as Hh.
  rewrite copies_nil, copies_one, Hm in Hh. unfold n_accepted. rewrite filter_cons, filter_nil.
  destruct (decide (Accepted T X = Accepted t' x')) as [[= -> ->]|Hne].
  - rewrite decide_True in Hh by done. simpl. lia.
  - rewrite decide_False in Hh by congruence. simpl. lia.
Qed.

Lemma acks_balance i b b' a (ys : list (option string)) :
  accounted b b' [] ((topic_of a,.) <$> ys) → balanced (Acked i (topic_of a) <$> ys) b b'.
Proof.
  intros H t x Ht. pose proof (held_accounted _ _ _ _ _ x H Ht) as Hh. rewrite copies_nil in Hh.
  assert (Hc : copies ((topic_of a,.) <$> ys) t x = n_settled (Acked i (topic_of a) <$> ys) t x).
  { clear. induction ys as [|y ys IH]; [done|]. rewrite !fmap_cons, copies_cons, IH, copies_one, meant_device.
    unfold n_settled. rewrite filter_cons. simpl.
    destruct (decide (Some (topic_of a, y) = Some (t, x))) as [[= -> ->]|Hne].
    - rewrite decide_True; [done|]. by apply bool_decide_pack.
    - rewrite decide_False; [done|]. intros [? ?]%bool_decide_unpack. congruence. }
  assert (Ha : n_accepted (Acked i (topic_of a) <$> ys) t x = 0).
  { clear. induction ys as [|y ys IH]; [done|]. rewrite fmap_cons. unfold n_accepted. by rewrite filter_cons, decide_False. }
  lia.
Qed.

Lemma out_good k tr w i c n msg (s' : st) :
  inv (S k) tr w → clients w !! i = Some (c, n) → doHandleOutboundMessage srvc msg (mkSt (shared w) c) = Ret s' →
  let es := client_log i (EvOut msg) (mkSt (shared w) c) s' in
  from_wire (log tr ++ es) → good k tr (LClient i (EvOut msg)) es w (with_client i (mkC s' n) w).
Proof.
  intros I Hi H es Hw. pose proof (proj1 (proj1 (out_change _ _ _ _ H))) as Hn. simpl in Hn.
  pose proof (i_clients _ _ _ I _ _ _ Hi) as Hok.
  apply doHandle_effect in H; [|eapply room_one, I|apply I].
  destruct H as [Hc Hs Hu Ho Ha|o a t y Hm Hto Hack Hst Hmv Hacc Hcc (_ & _ & Hu & Hs)|acker err Hm Hq Hack Hc Hs Hu];
    cbn [cn en] in *.
  - assert (E : es = []).
    { unfold es, client_log. destruct (Message_Payload msg) as [[]|] eqn:Ep; try done.
      - cbn [cn]. by rewrite Ha.
      - destruct (OutboundMessage_To _); [|done]. by rewrite (Ho _ eq_refl). }
    rewrite E in *. split_and!; [|constructor|apply balanced_nil, Hc].
    eapply (client_frame _ _ _ _ c n (cn s') n (en s') _ _ (λ _ _, False));
      [done..|by apply calm_moves|done|done| |rewrite Hu; auto].
    intros sub [?|(a & Hv & Ht)]%Hs; [by left|]. right. exists a. split; [done|]. exists (authNonce c), msg.
    rewrite fmap_app. pose proof (co_nonce _ _ _ _ Hok). set_solver.
  - assert (E : es = [Accepted (topic_of a) (OutboundMessage_UnidentifiedSenderMessage o)]).
    { unfold es, client_log. by rewrite Hm, Hto, Hack. }
    destruct (stored_as_authentic (log tr ++ es) o a t y) as [Hau Hme]; [done|rewrite E; set_solver|done..|].
    rewrite E in *. split_and!; [|by repeat constructor|by eapply accepted_balance].
    eapply (client_frame _ _ _ _ c n (cn s') n (en s')); [done..|by split|by intros t' y' [-> ->]|done|rewrite Hs; auto|rewrite Hu; auto].
  - destruct (co_unacked _ _ _ _ Hok _ _ Hq) as (a & x & Ht & Hiss & Hdel).
    destruct (Ack_law _ _ _ _ Hack) as [Hst Hb].
    assert (Hfr : inv k (tr ++ [(LClient i (EvOut msg), es)]) (with_client i (mkC s' n) w)).
    { eapply (client_frame _ _ _ _ c n (cn s') n (en s') _ _ (λ _ _, False));
        [done..| |done|done|rewrite Hs; auto|]. { split; [by apply steady_moves|by rewrite Hc]. }
      rewrite Hu. intros q acker'. destruct err; [by left|]. intros [_ ?]%lookup_delete_Some. by left. }
    destruct err as [er|].
    + assert (E : es = []) by (unfold es, client_log; cbn [cn]; by rewrite Hm, Hq, Hu, Hq).
      rewrite E in *. split_and!; [done|constructor|]. apply balanced_nil. intros t. simpl. by rewrite (Hb t).
    + assert (E : es = Acked i (topic_of a) <$> option_list (ack_target (broker (shared w)) acker)).
      { unfold es, client_log. cbn [cn en]. by rewrite Hm, Hq, Hu, lookup_delete_eq, Ht. }
      split_and!; [done| |].
      * rewrite E. destruct (ack_target _ acker) as [y|] eqn:Et; [|constructor]. constructor; [|constructor].
        by rewrite (issued_target _ _ _ _ Hiss Et).
      * rewrite E. apply acks_balance. intros t. simpl. rewrite (Hb t), Ht.
        destruct (ack_target _ acker); simpl; [rewrite at_topic_one|]; by case_decide.
Qed.

Lemma client_good k tr w i c n ev (cc : conn) :
  inv (S k) tr w → clients w !! i = Some (c, n) → ev ≠ EvOthers → Connection.step srvc ev (conn_of w c n) cc →
  let es := client_log i ev (mkSt (shared w) c) (cs cc) in
  from_wire (log tr ++ es) → good k tr (LClient i ev) es w (with_client i cc w).
Proof.
  intros I Hi Hev H es Hw.
  destruct ev as [| |msg|data acker| | |m| |]; try (by eapply other_event_good); try done.
  - inversion H; subst. by apply out_good.
  - inversion H; subst. by eapply in_good.
Qed.

Lemma connect_good k tr w i nonce :
  inv (S k) tr w → clients w !! i = None →
  good k tr (LConnect i nonce) [] w (with_client i (start nonce (shared w)) w).
Proof.
  intros I Hi. assert (Hc : calm (shared w) (shared w)) by (by apply calm_same).
  split_and!; [|constructor|apply balanced_nil, Hc].
  apply (inv_client _ _ (with_shared (shared w) w));
    [eapply (inv_shared _ _ _ _ _ _ (λ _ _, False)); [done|by apply calm_moves|done]|].
  split; simpl.
  - rewrite fmap_app. set_solver.
  - set_solver.
  - intros q acker. by rewrite lookup_empty.
Qed.

(** *** Steps of the workers *)

Lemma inv_hand k tr w l :
  inv k tr w → (∀ data acker, (data, acker) ∈ l → handed (log tr) (broker (shared w)) data acker) →
  inv k tr (with_hand l w).
Proof. intros [] H. by split. Qed.

Lemma inv_callbacks k tr w (f : Forwarder Conn callback) (n : N) :
  inv k tr w → (∀ q cb, callbacks f !! q = Some cb → callback_ok (log tr) (broker (shared w)) cb) →
  inv k tr (with_forwarder (mkF (shared w) f n) w).
Proof. intros [] H. by split. Qed.

Lemma take_good k tr w ws p sub data acker b :
  inv (S k) tr w → workers sta = Some (ws, p) → sub ∈ ws →
  broker_Receive sub (broker (shared w)) = (b, Some (data, acker)) →
  good k tr (LTake data) [] w (with_hand (inHand w ++ [(data, acker)]) (with_shared (set_broker b (shared w)) w)).
Proof.
  intros I Hws Hsub Hb. pose proof (room_weaken_wf _ _ (i_room _ _ _ I)) as W.
  apply Receive_law in Hb as [Hq Hr]; [|done].
  assert (Hc : calm (shared w) (set_broker b (shared w))) by (by apply calm_quiet).
  assert (Hin : inv k (tr ++ [(LTake data, [])]) (with_shared (set_broker b (shared w)) w)).
  { eapply (inv_shared _ _ _ _ _ _ (λ _ _, False)); [done|by apply calm_moves|done]. }
  split_and!; [|constructor|apply balanced_nil, Hc].
  apply inv_hand; [done|]. intros data' acker' [H|H%list_elem_of_singleton]%elem_of_app; [by apply (i_hand _ _ _ Hin)|].
  injection H as -> ->. simpl. rewrite log_snoc, app_nil_r.
  destruct (i_workers _ _ _ I _ _ Hws _ Hsub) as [Ht|Ht]; destruct (Hr _ _ _ Ht eq_refl) as (Hat & Htr & Hiss);
    apply (i_transit _ _ _ I) in Htr; unfold authentic in Htr;
    (rewrite decide_True in Htr by (unfold forwarding_name; auto)); (split_and!; [done| |done]);
    rewrite Hat; unfold forwarding_name; auto.
Qed.

(** The parts of a message in a worker's hands. *)
Lemma parcel_ok_inv L y :
  parcel_ok L y → ∃ m o a, Unmarshal_ForwardedMessage (default "" y) = Ok m ∧ wire_normal m ∧
    ForwardedMessage_Message m = Some o ∧ OutboundMessage_To o = Some a ∧
    carried m = Some (topic_of a, OutboundMessage_UnidentifiedSenderMessage o) ∧
    parcel y = Some (topic_of a, OutboundMessage_UnidentifiedSenderMessage o) ∧
    Accepted (topic_of a) (OutboundMessage_UnidentifiedSenderMessage o) ∈ L.
Proof.
  intros (m & t & x & Hu & Hw & Hc & Hin). unfold parcel. rewrite Hu. pose proof Hc as Hc'. unfold carried in Hc'.
  destruct (ForwardedMessage_Message m) as [o|] eqn:Eo; [|done]. simpl in Hc'.
  destruct (OutboundMessage_To o) as [a|] eqn:Ea; [|done]. simpl in Hc'. injection Hc' as <- <-.
  exists m, o, a. by split_and!.
Qed.

(** A message put back for another try is still that message. *)
Lemma requeued_authentic L cl cb t y :
  requeued cl cb t y → pub_topic (cb_retry cb) = forwardingRetryTopic → wire_normal (cb_msg cb) →
  (∃ T X, carried (cb_msg cb) = Some (T, X) ∧ Accepted T X ∈ L) → authentic L t y.
Proof.
  intros (-> & bytes & -> & Hm) Hr Hw (T & X & Hc & Hin). rewrite Hr. unfold authentic.
  rewrite decide_True by (by right). eexists _, T, X.
  split_and!; [exact (ForwardedMessage_round_trip _ _ (wire_normal_MarkFailed _ _ Hw) Hm)
              |by apply wire_normal_MarkFailed|by rewrite carried_MarkFailed|done].
Qed.

Lemma gone_log_justified tr cl m b b' T X :
  carried m = Some (T, X) → Accepted T X ∈ log tr → Forall (justified tr) (gone_log srvc cl m b b').
Proof.
  intros Hc Hin. unfold gone_log. rewrite Hc. destruct (given_up _ _ _ && _); [|constructor].
  by constructor; [|constructor].
Qed.

Lemma forward_good k tr w ws p j data acker cl (r : report (BI:=BI)) :
  inv (S k) tr w → workers sta = Some (ws, p) → inHand w !! j = Some (data, acker) →
  forwardMessage dial srvc cl p data acker (fstate_of w) = Ret r →
  good k tr (LForward data) (forward_log srvc cl data (broker (shared w)) (broker (fe (r_state r)))) w
    (with_forwarder (r_state r) (with_hand (delete j (inHand w)) w)).
Proof.
  intros I Hws Hj H. pose proof (proj1 Hsta _ _ Hws) as Hp.
  pose proof (i_hand _ _ _ I data acker (list_elem_of_lookup_2 _ _ _ Hj)) as Hh.
  destruct Hh as (Hiss & Hfn & Hpo). destruct (parcel_ok_inv _ _ Hpo) as (m & o & a & Hu & Hw & Ho & Ha & Hca & Hpa & Hin).
  set (cb := mkCallback (BI:=BI) m acker p).
  assert (Hrt : routing_ok (fe (fstate_of w))) by (split; [by eapply room_weaken_wf, I|apply I]).
  pose proof (forwardMessage_fate dial srvc cl p data acker _ r m o a Hrt Hiss Hu Ho Ha H) as Hf.
  destruct (forwardMessage_moves dial srvc cl p data acker (fstate_of w) r m o a (room_one _ _ (i_room _ _ _ I)) (i_cache _ _ _ I)
              Hu Ho Ha H) as [Hm Hfi]. simpl in Hm, Hfi. fold cb in Hf, Hm, Hfi.
  assert (Hlog : forward_log srvc cl data (broker (shared w)) (broker (fe (r_state r))) =
                 gone_log srvc cl (cb_msg cb) (broker (shared w)) (broker (fe (r_state r)))).
  { unfold forward_log. by rewrite Hu. }
  rewrite Hlog. set (es := gone_log _ _ _ _ _).
  assert (Hin' : inv k (tr ++ [(LForward data, es)]) (with_shared (fe (r_state r)) w)).
  { eapply inv_shared; [done|exact Hm|]. intros t y [[-> ->]|Hr].
    - unfold authentic. rewrite decide_False by apply topic_of_device. set_solver.
    - eapply requeued_authentic; [exact Hr|done..|]. eexists _, _. split; [exact Hca|set_solver]. }
  split_and!.
  - destruct r as [[fe' ff' fn'] ? ? ?]. simpl in *.
    apply (inv_callbacks _ _ (with_hand (delete j (inHand w)) (with_shared fe' w))).
    + apply inv_hand; [done|]. intros d' a' Hd. apply (i_hand _ _ _ Hin'). simpl.
      by eapply list_elem_of_delete_inv.
    + intros q cb' [Hq| ->]%Hfi; [by apply (i_calls _ _ _ Hin' q)|]. simpl. split; [done|]. exists data.
      split; [|done]. eapply handed_mono; [|apply Hm|by split_and!]. apply log_mono.
  - by eapply gone_log_justified.
  - destruct Hf as [_ Hac|conn d q _ _ Hac|_ Hfa].
    + apply balanced_more; [apply gone_log_accepted|]. eapply acked_moved; [exact Hac| |apply meant_device].
      by rewrite meant_forwarding.
    + apply balanced_more; [apply gone_log_accepted|]. by apply balanced_nil.
    + by eapply failed_balance.
Qed.

Lemma reply_good k tr w cl msg (s : fstate (BI:=BI)) :
  inv (S k) tr w → handleReply srvc cl msg (fstate_of w) = Ret s →
  good k tr (LReply msg) (reply_log srvc cl msg (fwd w) (broker (shared w)) (broker (fe s))) w (with_forwarder s w).
Proof.
  intros I H. pose proof (room_one _ _ (i_room _ _ _ I)) as R.
  destruct (handleReply_moves srvc cl msg (fstate_of w) s R H) as [Hcb Hfe]. simpl in Hcb, Hfe.
  set (es := reply_log _ _ _ _ _ _).
  assert (Hgo : ∀ Φ, env_moves Φ (shared w) (fe s) → (∀ t y, Φ t y → authentic (log tr ++ es) t y) →
    inv k (tr ++ [(LReply msg, es)]) (with_forwarder s w)).
  { intros Φ Hm HΦ. destruct s as [fe' ff' fn']. simpl in *.
    pose proof (inv_shared k tr w fe' (LReply msg) es Φ I Hm HΦ) as Hin.
    apply (inv_callbacks _ _ (with_shared fe' w)); [done|]. intros q cb Hq. by apply (i_calls _ _ _ Hin q), Hcb. }
  unfold handleReply in H. unfold reply_log in es. simpl in H.
  destruct (readFrom msg (fwd w)) as [f [[cb err]|]] eqn:Er.
  2:{ injection H as <-. split_and!; [|constructor|by apply balanced_nil, accounted_same].
      apply (Hgo (λ _ _, False)); [by apply calm_moves, calm_same|done]. }
  apply bind_Ret_inv in H as (e' & Hf & [= <-]). simpl in *.
  assert (Hq : ∃ q, callbacks (fwd w) !! q = Some cb).
  { revert Er. unfold readFrom, triggerCallbackFor. exists (Message_Sequence msg).
    destruct (Message_Payload msg) as [[]|]; simplify_eq; by destruct (callbacks (fwd w) !! _); simplify_eq. }
  destruct Hq as [q Hq]. destruct (i_calls _ _ _ I _ _ Hq) as (Hrt & data & (Hiss & Hfn & Hpo) & Hu).
  destruct (parcel_ok_inv _ _ Hpo) as (m & o & a & Hu' & Hw & Ho & Ha & Hca & Hpa & Hin).
  assert (m = cb_msg cb) as -> by congruence.
  assert (Hin' : ∀ l, ∃ T X, carried (cb_msg cb) = Some (T, X) ∧ Accepted T X ∈ log tr ++ l).
  { intros l. eexists _, _. split; [exact Hca|set_solver]. }
  destruct err as [er|]; simpl in Hf.
  - split_and!.
    + apply (Hgo (requeued cl cb)); [by eapply failMessage_moves|]. intros t y Hr. by eapply requeued_authentic.
    + by eapply gone_log_justified.
    + eapply failed_balance; [|done..]. eapply failMessage_failed; [by eapply room_weaken_wf|done|exact Hf].
  - unfold es in *. rewrite Hca in *. split_and!.
    + apply (Hgo (λ _ _, False)); [by eapply runAck_moves|done].
    + destruct (fewer _ _ _ _); [|constructor]. by constructor; [|constructor].
    + apply (runAck_acked _ data) in Hf as [Hac _]; [|by apply issued_names].
      apply (acked_gone _ _ _ _ _ _ (Relayed _ _) Hac); [by rewrite meant_forwarding|done|done].
Qed.

(** *** Steps of the transfer goroutine *)

Lemma inv_transfer k tr w (l : list Address) (m : mover) :
  inv k tr w → (∀ sub addr, m = Moving sub addr → sub_topic (broker (shared w)) sub = Some (topic_of addr)) →
  inv k tr (with_transfer (shared w) l m w).
Proof. intros [] H. by split. Qed.

Lemma calm_good k tr w e (l : list Address) (m : mover) :
  inv (S k) tr w → calm (shared w) e →
  (∀ sub addr, m = Moving sub addr → sub_topic (broker e) sub = Some (topic_of addr)) →
  good k tr LTransfer [] w (with_transfer e l m w).
Proof.
  intros I Hc Hm. split_and!; [|constructor|apply balanced_nil, Hc].
  apply (inv_transfer _ _ (with_shared e w)); [|done].
  eapply (inv_shared _ _ _ _ _ _ (λ _ _, False)); [done|by apply calm_moves|done].
Qed.

Lemma turn_calm addr p e e' e'' : turn_effect addr p e e' → calm e' e'' → turn_effect addr p e e''.
Proof.
  assert (Hacc : ∀ b1 b2 b3 add rem, accounted b1 b2 add rem → accounted b2 b3 [] [] → accounted b1 b3 add rem).
  { intros b1 b2 b3 add rem H1 H2 t. rewrite <- (H1 t). f_equiv. apply (H2 t). }
  intros H (Ha & Hs & Hc). destruct H as [(Ha' & Hs' & Hc')|data acker bytes Ht Hat Hm Hmv Hac].
  - apply te_calm. split_and!; [by eapply Hacc|by etransitivity|auto].
  - eapply te_moved; [done..| |].
    + split; [by eapply moves_steady_trans; [apply Hmv|]|]. intros. by apply Hc, Hmv.
    + destruct Hac; [left|right]; by eapply Hacc.
Qed.

Lemma turn_good k tr w p addr e (l : list Address) (m : mover) :
  inv (S k) tr w → transfers sta = Some p → turn_effect addr p (shared w) e → from_wire (log tr) →
  (∀ sub addr, m = Moving sub addr → sub_topic (broker e) sub = Some (topic_of addr)) →
  good k tr LTransfer [] w (with_transfer e l m w).
Proof.
  intros I Hp H Hw Hmv. destruct H as [Hc|data acker bytes Ht Hat Hm Hmo Hac]; [by apply calm_good|].
  pose proof (proj2 Hsta _ Hp) as Hpt.
  apply (i_transit _ _ _ I) in Ht. unfold authentic in Ht. rewrite decide_False in Ht by apply topic_of_device.
  destruct (stored_as_authentic (log tr) (mkOutboundMessage (Some addr) data) addr forwardingTopic (Some bytes))
    as [Hau Hme]; [done..|right; eauto|].
  rewrite Hpt in *. split_and!; [|constructor|].
  - apply (inv_transfer _ _ (with_shared e w)); [|done]. eapply inv_shared; [done|exact Hmo|].
    rewrite app_nil_r. by intros t y [-> ->].
  - eapply acked_moved; [exact Hac|rewrite Hat; apply meant_device|exact Hme].
Qed.

Lemma turn_sub_kept sub addr p e e' s t :
  turn_effect addr p e e' → sub_topic (broker e) s = Some t → sub = s → sub_topic (broker e') sub = Some t.
Proof.
  intros H Hs ->. destruct H as [(_ & Hst & _)|? ? ? _ _ _ [Hm _] _];
    [by apply (steady_sub _ _ Hst)|by apply (moves_sub _ _ _ Hm)].
Qed.

(** Every step keeps the invariant, is justified and balanced. *)
Lemma step_good k tr l es w w' :
  inv (S k) tr w → step dial srvc sta l es w w' → from_wire (log tr ++ es) → good k tr l es w w'.
Proof.
  intros I H Hw.
  destruct H as [i nonce w Hi|i c n ev cc w Hi Hev Hs|sub b w Hb|ws p sub data acker b w Hws Hsub Hb
    |ws p j data acker cl r w Hws Hj Hf|cl msg s w Hr|n pr w|p d addrs w Hp Ht Hrd Hd|addr rest e res w Ht Hrd Hf
    |p sub addr e w Hp Ht Hturn|p sub addr e err w Hp Ht Hturn|addr e w Ht He].
  - by apply connect_good.
  - by eapply client_good.
  - apply Receive_law in Hb as [Hq _]; [|eapply room_weaken_wf, I].
    assert (Hc : calm (shared w) (set_broker b (shared w))) by (by apply calm_quiet).
    split_and!; [|constructor|apply balanced_nil, Hc].
    eapply (inv_shared _ _ _ _ _ _ (λ _ _, False)); [done|by apply calm_moves|done].
  - by eapply take_good.
  - by eapply forward_good.
  - by apply reply_good.
  - assert (Hc : calm (shared w) (set_presence pr (shared w))) by (by apply calm_same).
    split_and!; [|constructor|apply balanced_nil, Hc].
    assert (Hin : inv k (tr ++ [(LOthers, [])]) (with_shared (set_presence pr (shared w)) w)).
    { eapply (inv_shared _ _ _ _ _ _ (λ _ _, False)); [done|by apply calm_moves|done]. }
    apply (inv_callbacks _ _ (with_shared (set_presence pr (shared w)) w)); [done|]. apply (i_calls _ _ _ Hin).
  - apply calm_good; [done|by apply calm_same|done].
  - apply findMoved_calm in Hf as [Hc Hsub]; [|eapply room_weaken_wf, I].
    apply calm_good; [done..|]. destruct res as [sub|]; [|done]. intros sub' addr' [= <- <-]. by apply Hsub.
  - apply transferTurn_effect in Hturn as Ht'; [|eapply room_one, I|by apply I].
    rewrite app_nil_r in Hw. eapply turn_good; [done..|]. intros sub' addr' [= <- <-].
    eapply turn_sub_kept; [done|by apply I|done].
  - apply transferTurn_effect in Hturn as Ht'; [|eapply room_one, I|by apply I].
    rewrite app_nil_r in Hw. eapply turn_good; [done..| |done|by destruct err].
    eapply turn_calm; [done|]. apply calm_quiet; [|done]. apply CloseSubscriber_law.
    apply (room_weaken_wf k). destruct Ht' as [(_ & Hst & _)|? ? ? _ _ _ [Hm _] _].
    + apply (steady_room _ _ Hst), room_less, I.
    + apply (moves_room _ _ _ Hm), I.
  - unfold endTransfer in He. apply bind_Ret_inv in He as ([d er] & _ & [= <-]).
    apply calm_good; [done|by apply calm_same|done].
Qed.

(** ** Runs *)

Definition all_justified tr : Prop :=
  ∀ tr1 l es tr2, tr = tr1 ++ (l, es) :: tr2 → Forall (justified tr1) es.

Lemma all_justified_snoc tr l es :
  all_justified tr → Forall (justified tr) es → all_justified (tr ++ [(l, es)]).
Proof.
  intros H He tr1 l' es' tr2 E. destruct tr2 as [|y tr2] using rev_ind.
  - apply app_inj_tail in E as [-> [= -> ->]]. done.
  - rewrite app_comm_cons, app_assoc in E. apply app_inj_tail in E as [-> _]. by eapply H.
Qed.

Lemma run_good w0 tr w k :
  run dial srvc sta w0 tr w → inv (k + length tr) [] w0 → from_wire (log tr) →
  inv k tr w ∧ all_justified tr ∧ balanced (log tr) (broker (shared w0)) (broker (shared w)).
Proof.
  intros Hr. revert k. induction Hr as [w|w tr w1 l es w2 Hr IH Hs]; intros k I Hw.
  - rewrite Nat.add_0_r in I. split_and!; [done| |by apply balanced_nil, accounted_same].
    intros [] ? ? ?; discriminate.
  - rewrite log_snoc in *. rewrite length_app in I. simpl in I. replace (k + (length tr + 1)) with (S k + length tr) in I by lia.
    destruct (IH (S k)) as (I1 & Hj & Hb); [done|by intros t x Hin; eapply Hw, elem_of_app; left|].
    destruct (step_good k tr l es w1 w2 I1 Hs Hw) as (I2 & He & Hb2).
    split_and!; [done|by apply all_justified_snoc|].
    intros t x Ht. specialize (Hb t x Ht). specialize (Hb2 t x Ht). rewrite n_accepted_app, n_settled_app. lia.
Qed.
End invariant.
