(* ===== verification/TassisProps.v ===== *)
(** * TassisProps: messages in a running server

    What holds of every run of the system of Tassis.v, for every broker, cache and
    codec that keep their contracts: that its connections are those of Connection.v,
    who is given a message, and that no accepted message is lost. *)

From S2P Require Import Prelude Model Externals DB Broker Presence Attachments Forwarder Service ServiceProps Connection Forwarding Tassis TassisSteps TassisInv.

Import serviceimpl forwarder forwarding tassis.

(** ** A server that [New] started *)

Section server.
Context {ID : Identity} {PR : Proto}.
Context {D B P A C : Type} {DBI : DB D} {BI : Broker B} {PI : Presence P}
        {AI : Attachments A} {LI : LRU C Publisher}.
Context {N Conn : Type} (dial : string → N → N * result Conn).
Context {BL : BrokerLaws B} {LL : LRULaws C Publisher}.
#[local] Abbreviation tassis := (@tassis D B P A C BI N Conn).
#[local] Abbreviation trace := (list (label (BI:=BI) * list entry)).
Implicit Types (w : tassis) (tr : trace).

(** *** The runs of one connection *)

Definition is_others (ev : event (BI:=BI)) : bool := match ev with EvOthers => true | _ => false end.

(** The events of connection [i]. *)
Definition client_events (i : nat) tr : list (event (BI:=BI)) :=
  omap (λ l, match l.1 with LClient j ev => if decide (j = i) then Some ev else None | _ => None end) tr.

Definition own_events (evs : list (event (BI:=BI))) : list event := filter (λ ev, is_others ev = false) evs.

(** [c] is reached by a run of Connection.v that has the events of [i] in [tr]. *)
Definition projects srvc (i : nat) tr (c : conn (D:=D) (P:=P) (A:=A) (C:=C) (BI:=BI)) : Prop :=
  ∃ nonce e evs, LConnect i nonce ∈ tr.*1 ∧ Connection.run srvc (start nonce e) evs c ∧
    own_events evs = client_events i tr.

Lemma projects_others srvc i tr x c e :
  projects srvc i tr c → client_events i [x] = [] → projects srvc i (tr ++ [x]) (mkC (mkSt e (cn (cs c))) (sent_init c)).
Proof.
  intros (nonce & e0 & evs & Hn & Hr & Hev) Hx. exists nonce, e0, (evs ++ [EvOthers]). split_and!.
  - rewrite fmap_app. set_solver.
  - eapply Connection.run_snoc; [exact Hr|]. destruct c as [[e1 c1] n1]. apply (step_others srvc (mkSt e1 c1)).
  - unfold own_events, client_events in *. rewrite filter_app, omap_app, Hev, Hx. simpl. by rewrite filter_cons_False.
Qed.

Lemma projects_event srvc i tr es c c' ev :
  projects srvc i tr c → Connection.step srvc ev c c' → is_others ev = false →
  projects srvc i (tr ++ [(LClient i ev, es)]) c'.
Proof.
  intros (nonce & e0 & evs & Hn & Hr & Hev) Hs Ho. exists nonce, e0, (evs ++ [ev]). split_and!.
  - rewrite fmap_app. set_solver.
  - by eapply Connection.run_snoc.
  - unfold own_events, client_events in *. rewrite filter_app, omap_app, Hev. simpl.
    rewrite decide_True by done. by rewrite filter_cons_True.
Qed.

(** A step leaves every client but one alone. *)
Lemma step_clients srvc sta l es w w' :
  step dial srvc sta l es w w' →
  clients w' = clients w ∧ (∀ i, client_events i [(l, es)] = []) ∨
  (∃ i nonce, l = LConnect i nonce ∧ clients w !! i = None ∧ shared w' = shared w ∧ clients w' = <[i := (cn (Connect nonce (shared w)), 0)]> (clients w)) ∨
  ∃ i c n ev cc, l = LClient i ev ∧ clients w !! i = Some (c, n) ∧ is_others ev = false ∧
    Connection.step srvc ev (conn_of w c n) cc ∧ shared w' = en (cs cc) ∧
    clients w' = <[i := (cn (cs cc), sent_init cc)]> (clients w).
Proof.
  destruct 1 as [i nonce w Hi|i c n ev cc w Hi Hev Hs| | | | | | | | | |]; try by left.
  - right; left. by exists i, nonce.
  - right; right. exists i, c, n, ev, cc. split_and!; try done. by destruct ev.
Qed.

(** A client that never connected has no events; one that did has a run. *)
Lemma clients_project srvc sta e n tr w i :
  run dial srvc sta (boot e n) tr w →
  match clients w !! i with
  | None => client_events i tr = []
  | Some (c, k) => projects srvc i tr (conn_of w c k)
  end.
Proof.
  intros Hr. remember (boot e n) as w0 eqn:E. revert i.
  induction Hr as [w|w tr w1 l es w2 Hr IH Hs]; intros i; subst.
  { simpl. by rewrite lookup_empty. }
  specialize (IH eq_refl i).
  assert (Hother : clients w2 !! i = clients w1 !! i → client_events i [(l, es)] = [] →
    match clients w2 !! i with
    | None => client_events i (tr ++ [(l, es)]) = []
    | Some (c, k) => projects srvc i (tr ++ [(l, es)]) (conn_of w2 c k)
    end).
  { intros -> Hev. destruct (clients w1 !! i) as [[c k]|].
    - by apply (projects_others _ _ _ _ _ (shared w2) IH).
    - unfold client_events in *. by rewrite omap_app, IH, Hev. }
  apply step_clients in Hs as [[Hc Hev]|[(j & nonce & -> & Hj & Hsh & Hc)|(j & c1 & n1 & ev & cc & -> & Hj & Ho & Hs & Hsh & Hc)]].
  - apply Hother; [by rewrite Hc|done].
  - rewrite Hc in *. destruct (decide (j = i)) as [->|Hne]; [|apply Hother; [by rewrite lookup_insert_ne|done]].
    rewrite Hj in IH. rewrite lookup_insert_eq. exists nonce, (shared w1), []. split_and!.
    + rewrite fmap_app. set_solver.
    + unfold conn_of. rewrite Hsh. apply Connection.run_nil.
    + unfold client_events in *. by rewrite omap_app, IH.
  - rewrite Hc in *. destruct (decide (j = i)) as [->|Hne].
    + rewrite Hj in IH. rewrite lookup_insert_eq. destruct cc as [[e' c'] n']. simpl in *. unfold conn_of. rewrite Hsh.
      by eapply projects_event.
    + apply Hother; [by rewrite lookup_insert_ne|]. unfold client_events. simpl. by rewrite decide_False.
Qed.

(** Every connection of a running server behaves as one of Connection.v.  In
    every run, the state of a connection is the end of a run of the single-connection
    system that starts with the connection's nonce and whose events are, in order,
    those of this connection, with what the rest of the server does in between; so
    whatever holds of every run of one connection (who it may act for, how its
    acknowledgements are counted) holds of each connection of the server. *)
Theorem server_refines_connections srvc sta e n tr w i c k :
  run dial srvc sta (boot e n) tr w → clients w !! i = Some (c, k) → projects srvc i tr (conn_of w c k).
Proof. intros Hr Hi. apply (clients_project _ _ _ _ _ _ i) in Hr. by rewrite Hi in Hr. Qed.

(** *** Messages *)

Lemma boot_inv (newPresence : P) hasForwarder (d : D) (b : B) (a : A) opts srvc (e : @env D B P A C) sta (n : N) k :
  New newPresence hasForwarder d b a opts = Ok (srvc, e, sta) →
  broker_room k b → (∀ t x, ¬ in_transit b t x) → started_ok sta ∧ inv sta k [] (boot e n : tassis).
Proof.
  intros HN R Ht. pose proof (room_weaken_wf _ _ R) as W.
  destruct (New_establishes newPresence hasForwarder d b a opts srvc e sta W HN)
    as ([_ Hc] & [_ Hq] & _ & _ & _ & _ & Hw & Htr).
  split.
  - split; [intros ws p E|intros p E]; [rewrite E in Hw; apply Hw|rewrite E in Htr; apply Htr].
  - split; simpl.
    + by apply (steady_room _ _ Hq).
    + done.
    + intros t y H%(steady_transit _ _ Hq). by apply Ht in H.
    + intros i c m. by rewrite lookup_empty.
    + set_solver.
    + intros q cb. by rewrite lookup_empty.
    + intros ws p E. rewrite E in Hw. apply Hw.
    + done.
Qed.

(** An accepted message was sent by some client. *)
Definition sent_to tr (a : Address) (x : option string) : Prop :=
  ∃ j msg o, LClient j (EvOut msg) ∈ tr.*1 ∧ Message_Payload msg = Some (Message_OutboundMessage o) ∧
    OutboundMessage_To o = Some a ∧ OutboundMessage_UnidentifiedSenderMessage o = x.

Lemma sent_to_snoc tr y a x : sent_to tr a x → sent_to (tr ++ [y]) a x.
Proof. intros (j & msg & o & ? & ? & ? & ?). exists j, msg, o. rewrite fmap_app. set_solver. Qed.

Lemma gone_log_no_accept srvc cl m (b b' : B) t x : Accepted t x ∉ gone_log srvc cl m b b'.
Proof.
  unfold gone_log. destruct (carried m) as [[? ?]|]; [|set_solver]. destruct (given_up _ _ _ && _); set_solver.
Qed.

Lemma step_accepted srvc sta l es w w' t x :
  step dial srvc sta l es w w' → Accepted t x ∈ es →
  ∃ a j msg o, l = LClient j (EvOut msg) ∧ topic_of a = t ∧
    Message_Payload msg = Some (Message_OutboundMessage o) ∧
    OutboundMessage_To o = Some a ∧ OutboundMessage_UnidentifiedSenderMessage o = x.
Proof.
  destruct 1 as [ |i c n ev cc w Hi Hev Hs| | |ws p k data acker cl r w _ _ _|cl msg s w _| | | | | |]; try set_solver.
  - unfold client_log. intros H. destruct ev as [| |msg| | | | | |]; try set_solver.
    destruct (Message_Payload msg) as [[]|] eqn:Ep; try set_solver.
    + repeat case_match; try set_solver.
    + destruct (OutboundMessage_To _) as [a|] eqn:Ea; [|set_solver]. destruct (acknowledged _ _); [|set_solver].
      apply list_elem_of_singleton in H. injection H as -> ->. eauto 10.
  - unfold forward_log. destruct (Unmarshal_ForwardedMessage _); [|set_solver]. by intros ?%gone_log_no_accept.
  - unfold reply_log. destruct (readFrom _ _) as [f [[cb [er|]]|]]; [by intros ?%gone_log_no_accept| |set_solver].
    destruct (carried _) as [[? ?]|]; [|set_solver]. destruct (fewer _ _ _ _); set_solver.
Qed.

Lemma accepted_sent srvc sta w0 tr w t x :
  run dial srvc sta w0 tr w → Accepted t x ∈ log tr → ∃ a, topic_of a = t ∧ sent_to tr a x.
Proof.
  induction 1 as [w|w tr w1 l es w2 Hr IH Hs]; [set_solver|]. rewrite log_snoc.
  intros [(a & ? & ?)%IH|Hin]%elem_of_app; [exists a; split; [done|by apply sent_to_snoc]|].
  destruct (step_accepted _ _ _ _ _ _ _ _ Hs Hin) as (a & j & msg & o & -> & Ht & Hm & Ha & Hx).
  exists a. split; [done|]. exists j, msg, o. rewrite fmap_app. set_solver.
Qed.

Lemma run_app_inv srvc sta w0 tr1 tr2 w :
  run dial srvc sta w0 (tr1 ++ tr2) w → ∃ w1, run dial srvc sta w0 tr1 w1.
Proof.
  intros Hr. remember (tr1 ++ tr2) as tr eqn:E. revert tr2 E.
  induction Hr as [w|w tr w1 l es w2 Hr IH Hs]; intros tr2 E.
  - symmetry in E. apply app_eq_nil in E as [-> ->]. eexists. apply run_nil.
  - destruct tr2 as [|y tr2] using rev_ind.
    + rewrite app_nil_r in E. subst tr1. eexists. by eapply run_snoc.
    + rewrite app_assoc in E. apply app_inj_tail in E as [-> _]. by eapply IH.
Qed.

Lemma run_snoc_inv srvc sta w0 tr l es w :
  run dial srvc sta w0 (tr ++ [(l, es)]) w → ∃ w1 w2, step dial srvc sta l es w1 w2.
Proof.
  intros Hr. inversion Hr as [|? tr' w1 l' es' ? Hr1 Hs E1 E2]; [by destruct tr|].
  apply app_inj_tail in E2 as [-> [= -> ->]]. eauto.
Qed.

(** Two addresses of one device; for keys of 32 bytes they are equal. *)
Definition same_device (a a' : Address) : Prop :=
  PublicKey_String (Address_IdentityKey a) = PublicKey_String (Address_IdentityKey a') ∧
  Address_DeviceId a = Address_DeviceId a'.

Lemma topic_of_inj {IDL : IdentityLaws} a a' : topic_of a = topic_of a' → same_device a a'.
Proof.
  unfold topic_of, topicFor. intros E.
  apply app_sep_inj in E as [Hk Hd]; [|apply clean_not; [apply PublicKey_String_clean|set_solver]..].
  split; [done|]. by apply base32_Encode_inj.
Qed.


(** The messages with content [x] accepted for the device [addr] are no more than the
    copies that are still stored and those that have come to an end. *)
Definition none_lost tr w (addr : Address) (x : option string) : Prop :=
  n_accepted (log tr) (topic_of addr) x <=
  held (broker (shared w)) (topic_of addr) x + n_settled (log tr) (topic_of addr) x.

(** C5: no accepted message is lost.  In every run of a server that [New] started on
    a broker with nothing stored (and room for one publication per step), whatever
    clients, forwarding workers, other hosts and user transfers do: for every device
    and content, the messages that were acknowledged to their senders are no more
    than the copies still stored (on the device's topic, or on the topics of messages
    to be forwarded) together with those that were acknowledged by the device,
    acknowledged by another host, or given up after the forwarding timeout.  And each
    of these ends is justified: a device acknowledges only what was delivered to it,
    a message is delivered, relayed or given up only after it was accepted. *)
Theorem accepted_messages_kept {PL : ProtoLaws}
    (newPresence : P) hasForwarder (d : D) (b : B) (a : A) opts srvc e sta (n : N) tr w :
  New newPresence hasForwarder d b a opts = Ok (srvc, e, sta) →
  broker_room (length tr) b → (∀ t y, ¬ in_transit b t y) →
  run dial srvc sta (boot e n) tr w → from_wire (log tr) →
  all_justified tr ∧ ∀ addr x, none_lost tr w addr x.
Proof.
  intros HN R Ht Hr Hw. destruct (boot_inv _ _ _ _ _ _ _ _ _ n _ HN R Ht) as [Hsta I].
  destruct (run_good dial srvc sta Hsta _ _ _ 0 Hr I Hw) as (_ & Hj & Hb). split; [done|]. intros addr x.
  specialize (Hb (topic_of addr) x (topic_of_device addr)). unfold none_lost. lia.
Qed.
End server.
