(* ===== verification/Goroutines.v ===== *)
(** * Goroutines: the handlers as programs of calls

    The handlers of Service.v and Forwarding.v are functions of the whole state.  Here
    each is written as the program its goroutine runs: a sequence of calls, one for
    every method of the database, broker, presence repository, attachments manager,
    publisher cache or forwarder it calls, for every access to a field it shares with
    other goroutines, and for every send on the channel [in].  Between two calls other
    goroutines may run.  [alone] runs a program without an interruption, and the
    theorems say that this is what the handlers compute.

    [publisherFor] runs under the mutex of the cache and [Forward] under that of the
    forwarder; the lock is not modelled, so that more interleavings are possible here
    than in the code.  Reading an immutable field of the service, sleeping, logging and
    tracing are not calls. *)

From S2P Require Import Prelude Model Externals DB Broker Presence Attachments Forwarder Service ServiceProps Connection Forwarding Tassis TassisSteps.

Import serviceimpl forwarder forwarding tassis.

Module goroutines.
Section goroutines.
Context {ID : Identity} {PR : Proto}.
Context {D B P A C : Type} {DBI : DB D} {BI : Broker B} {PI : Presence P}
        {AI : Attachments A} {LI : LRU C Publisher} {BV : BrokerView B}.
Context {N Conn : Type} (dial : string → N → N * result Conn).
Context (srvc : Service).
#[local] Abbreviation env := (@env D B P A C).
#[local] Abbreviation tassis := (@tassis D B P A C BI N Conn).
#[local] Abbreviation clientConnection := (clientConnection (BI:=BI)).
#[local] Abbreviation callback := (callback (BI:=BI)).
Implicit Types w : tassis.

(** ** Calls *)

(** A call on what the process shares; an access to the fields of connection [i]; a
    send to its client; a call of the forwarder; a write to the variables of the
    transfer goroutine. *)
Inductive op : Type → Type :=
| Shared {Y} (f : env → outcome (env * Y)) : op Y
| Own {Y} (i : nat) (f : clientConnection → clientConnection * Y) : op Y
| Send (i : nat) (msg : Message) : op unit
| Forwards {Y} (f : Forwarder Conn callback → N → N * Forwarder Conn callback * Y) : op Y
| Turn (m : mover (BI:=BI)) : op unit.

Definition put (i : nat) (c : clientConnection) (n : nat) w : tassis :=
  mkTassis (shared w) (<[i := (c, n)]> (clients w)) (inHand w) (fwd w) (net w) (round w) (transfer w).

(** A panic ends the process; a call that does not return leaves its goroutine where
    it is. *)
Definition perform {Y} (o : op Y) w : outcome (tassis * Y) :=
  match o with
  | Shared f => '(e, y) ← f (shared w); Ret (with_shared e w, y)
  | Own i f =>
      match clients w !! i with
      | Some (c, n) => let '(c', y) := f c in Ret (put i c' n w, y)
      | None => Block
      end
  | Send i msg =>
      match clients w !! i with
      | Some (c, n) => Ret (put i (cn (send msg (mkSt (shared w) c))) n w, tt)
      | None => Block
      end
  | Forwards f =>
      let '(n, f', y) := f (fwd w) (net w) in Ret (with_forwarder (mkF (shared w) f' n) w, y)
  | Turn m => Ret (with_transfer (shared w) (round w) m w, tt)
  end.

(** What a call adds to the record of messages, from the broker before and after it
    and from what it returns. *)
Definition note (Y : Type) : Type := B → B → Y → list entry.

Inductive prog (X : Type) : Type :=
| Done (x : X)
| Call {Y} (o : op Y) (r : note Y) (k : Y → prog X).
#[global] Arguments Done {X}.
#[global] Arguments Call {X Y}.

#[export] Instance prog_ret : MRet prog := @Done.
#[export] Instance prog_bind : MBind prog := λ X Z f, fix bind (p : prog X) : prog Z :=
  match p with
  | Done x => f x
  | Call o r k => Call o r (λ y, bind (k y))
  end.

(** The program without an interruption: the state, the record and the result. *)
Fixpoint alone {X} (p : prog X) w : outcome (tassis * list entry * X) :=
  match p with
  | Done x => Ret (w, [], x)
  | Call o r k =>
      '(w1, y) ← perform o w;
      '(w2, es, x) ← alone (k y) w1;
      Ret (w2, r (broker (shared w)) (broker (shared w1)) y ++ es, x)
  end.

(** *** The calls there are *)

Definition silently {Y} (o : op Y) : prog Y := Call o (λ _ _ _, []) Done.

(** Dereferencing what may be nil. *)
Definition try {Y} (m : outcome Y) : prog Y := silently (Shared (λ e, y ← m; Ret (e, y))).

Definition on_db {Y} (f : D → outcome (D * Y)) : prog Y :=
  silently (Shared (λ e, '(d, y) ← f (db e); Ret (set_db d e, y))).
Definition find (a : option Address) : prog (result string) :=
  silently (Shared (λ e, let '(p, res) := presence_Find a (presenceRepo e) in Ret (set_presence p e, res))).
Definition announce (a : option Address) (host : string) : prog (option goerror) :=
  silently (Shared (λ e, let '(p, err) := presence_Announce a host (presenceRepo e) in Ret (set_presence p e, err))).
Definition authorizeUpload : prog (result UploadAuthorization) :=
  silently (Shared (λ e, let '(a, res) := attachments_AuthorizeUpload (attachmentsManager e) in
                         Ret (set_attachments a e, res))).
Definition maxAttachmentSize : prog Z :=
  silently (Shared (λ e, Ret (e, attachments_MaxAttachmentSize (attachmentsManager e)))).

Definition cacheGet (topic : string) : prog (option Publisher) :=
  silently (Shared (λ e, let '(c, res) := lru_Get topic (publisherCache e) in Ret (set_cache c e, res))).
(** The cache closes what it evicts. *)
Definition cacheAdd (topic : string) (p : Publisher) : prog unit :=
  silently (Shared (λ e, let '(c, evicted) := lru_Add topic p (publisherCache e) in
    Ret (set_broker (foldl (λ b x, broker_ClosePublisher x b) (broker e) evicted) (set_cache c e), tt))).
Definition newPublisher (topic : string) : prog (result Publisher) :=
  silently (Shared (λ e, let '(b, res) := broker_NewPublisher topic (broker e) in Ret (set_broker b e, res))).
Definition newSubscriber (topic : string) : prog (result Subscriber) :=
  silently (Shared (λ e, let '(b, res) := broker_NewSubscriber topic (broker e) in Ret (set_broker b e, res))).
Definition receive (sub : Subscriber) : prog (option (option string * Acker)) :=
  silently (Shared (λ e, let '(b, res) := broker_Receive sub (broker e) in Ret (set_broker b e, res))).
Definition closeSubscriber (sub : Subscriber) : prog unit :=
  silently (Shared (λ e, Ret (set_broker (broker_CloseSubscriber sub (broker e)) e, tt))).

(** Publishing, with what is recorded when it succeeds. *)
Definition publish (p : Publisher) (data : option string) (es : list entry) : prog (option goerror) :=
  Call (Shared (λ e, '(b, err) ← broker_Publish p data (broker e); Ret (set_broker b e, err)))
    (λ _ _ err, match err with None => es | Some _ => [] end) Done.

(** Calling an acker, with what is recorded. *)
Definition callAcker (acker : Acker) (r : note (option goerror)) : prog (option goerror) :=
  Call (Shared (λ e, '(b, err) ← broker_Ack acker (broker e); Ret (set_broker b e, err))) r Done.

Definition on_conn {Y} (i : nat) (f : clientConnection → clientConnection * Y) : prog Y := silently (Own i f).
Definition look {Y} (i : nat) (f : clientConnection → Y) : prog Y := on_conn i (λ c, (c, f c)).
Definition sendTo (i : nat) (msg : Message) : prog unit := silently (Send i msg).

(** ** A client's messages *)

Definition errorTo (i : nat) (msg : Message) (err : goerror) : prog unit := sendTo i (NewError msg (TypedError err)).
Definition ackTo (i : nat) (msg : Message) : prog unit := sendTo i (NewAck msg).

Definition set_closed (c : clientConnection) : clientConnection :=
  mkConn (authNonce c) (identityKey c) (deviceId c) (serviceimpl.mb c) (unackedMessages c) (in_ c) true (subscriptions c) (preKeyChecks c).
Definition put_key (k : string) (c : clientConnection) : clientConnection :=
  mkConn (authNonce c) (Some k) (deviceId c) (serviceimpl.mb c) (unackedMessages c) (in_ c) (closed c) (subscriptions c) (preKeyChecks c).
Definition put_device (d : string) (c : clientConnection) : clientConnection :=
  mkConn (authNonce c) (identityKey c) (Some d) (serviceimpl.mb c) (unackedMessages c) (in_ c) (closed c) (subscriptions c) (preKeyChecks c).
Definition put_mb (b : MessageBuilder) (c : clientConnection) : clientConnection :=
  mkConn (authNonce c) (identityKey c) (deviceId c) b (unackedMessages c) (in_ c) (closed c) (subscriptions c) (preKeyChecks c).
Definition put_unacked (u : gmap Z Acker) (c : clientConnection) : clientConnection :=
  mkConn (authNonce c) (identityKey c) (deviceId c) (serviceimpl.mb c) u (in_ c) (closed c) (subscriptions c) (preKeyChecks c).
Definition put_subscription (sub : Subscriber) (c : clientConnection) : clientConnection :=
  mkConn (authNonce c) (identityKey c) (deviceId c) (serviceimpl.mb c) (unackedMessages c) (in_ c) (closed c)
    (subscriptions c ++ [sub]) (preKeyChecks c).
Definition put_check (c : clientConnection) : clientConnection :=
  mkConn (authNonce c) (identityKey c) (deviceId c) (serviceimpl.mb c) (unackedMessages c) (in_ c) (closed c)
    (subscriptions c) (S (preKeyChecks c)).

Definition closeConn (i : nat) : prog unit := on_conn i (λ c, (set_closed c, tt)).

(** [conn.mb.Build], an atomic increment. *)
Definition build (i : nat) (payload : isMessage_Payload) : prog Message :=
  on_conn i (λ c, let '(b, msg) := Build (serviceimpl.mb c) payload in (put_mb b c, msg)).

Definition publisherFor (topic : string) : prog (result Publisher) :=
  found ← cacheGet topic;
  match found with
  | Some p => mret (Ok p)
  | None =>
      res ← newPublisher topic;
      match res with
      | Err err => mret (Err err)
      | Ok p => _ ← cacheAdd topic p; mret (Ok p)
      end
  end.

Definition handleACK (i : nat) (msg : Message) : prog unit :=
  let sequence := Message_Sequence msg in
  found ← look i (λ c, unackedMessages c !! sequence);
  match found with
  | None => mret tt
  | Some acker =>
      err ← callAcker acker (λ b _ err, match err with
        | None => Acked i (ack_topic acker) <$> option_list (ack_target b acker)
        | Some _ => [] end);
      match err with
      | Some _ => mret tt
      | None => on_conn i (λ c, (put_unacked (delete sequence (unackedMessages c)) c, tt))
      end
  end.

(** The turns of [getNumber]. *)
Fixpoint getNumber (fuel iter : nat) (identityKey preferredNumber : string) : prog (result (string * string)) :=
  match fuel with
  | O => try Block
  | S fuel' =>
      '(newNumber, newShortNumber, lastChance) ← try (candidate preferredNumber iter);
      res ← on_db (db_RegisterChatNumber identityKey newNumber newShortNumber);
      match res with
      | Ok p => mret (Ok p)
      | Err err =>
          if error_Is err ErrNumberTaken && negb lastChance
          then getNumber fuel' (S iter) identityKey preferredNumber
          else mret (Err err)
      end
  end.

Definition startHandlingInbound (i : nat) : prog (option goerror) :=
  key ← look i getIdentityKey;
  dev ← look i getDeviceId;
  res ← newSubscriber (topicFor key dev);
  match res with
  | Err err => mret (Some (Fresh (WithError ErrUnableToOpenSubscriber err)))
  | Ok sub => _ ← on_conn i (λ c, (put_subscription sub c, tt)); mret None
  end.

Definition finishLogin (i : nat) (msg : Message) : prog unit :=
  key ← look i getIdentityKey;
  let preferredNumber := PublicKey_Number key in
  res ← getNumber (getNumberFuel preferredNumber) 0 key preferredNumber;
  '(number, shortNumber) ←
    match res with
    | Ok p => mret p
    | Err err => _ ← errorTo i msg err; _ ← closeConn i; mret ("", "")
    end;
  failed ← startHandlingInbound i;
  match failed with
  | Some err => errorTo i msg err
  | None =>
      _ ← (if decide (0 < checkPreKeysInterval srvc)%Z then on_conn i (λ c, (put_check c, tt)) else mret tt);
      sendTo i (chatNumberMessage srvc msg number shortNumber)
  end.

Definition refuseLogin (i : nat) (msg : Message) (err : goerror) : prog unit := _ ← errorTo i msg err; closeConn i.

Definition handleAuthResponse (i : nat) (msg : Message) : prog unit :=
  authResponse ← try (deref (GetAuthResponse msg));
  match Unmarshal_Login (AuthResponse_Login authResponse) with
  | Err err => refuseLogin i msg err
  | Ok login =>
      nonce ← look i authNonce;
      if decide (nonce = Login_Nonce login) then
        address ← try (deref (Login_Address login));
        if PublicKey_Verify (Address_IdentityKey address) (AuthResponse_Login authResponse)
             (AuthResponse_Signature authResponse)
        then
          _ ← on_conn i (λ c, (put_key (Address_IdentityKey address) c, tt));
          _ ← on_conn i (λ c, (put_device (Address_DeviceId address) c, tt));
          finishLogin i msg
        else refuseLogin i msg (Sentinel ErrUnauthorized)
      else refuseLogin i msg (Sentinel ErrUnauthorized)
  end.

Definition handleRegister (i : nat) (msg : Message) : prog unit :=
  key ← look i getIdentityKey;
  dev ← look i getDeviceId;
  err ← announce (Some (mkAddress key dev)) (publicAddr srvc);
  match err with
  | Some e => errorTo i msg e
  | None =>
      register ← try (deref (GetRegister msg));
      err ← on_db (db_Register key dev register);
      match err with Some e => errorTo i msg e | None => ackTo i msg end
  end.

Definition handleUnregister (i : nat) (msg : Message) : prog unit :=
  key ← look i getIdentityKey;
  dev ← look i getDeviceId;
  err ← on_db (db_Unregister key dev);
  match err with Some e => errorTo i msg e | None => ackTo i msg end.

Definition handleRequestPreKeys (i : nat) (msg : Message) : prog unit :=
  request ← try (deref (GetRequestPreKeys msg));
  res ← on_db (db_RequestPreKeys request);
  match res with
  | Err e => errorTo i msg e
  | Ok preKeys => sendTo i (mkMessage (Message_Sequence msg) (Some (Message_PreKeys (mkPreKeys preKeys))))
  end.

Fixpoint authorizeUploads (n : nat) (auths : list UploadAuthorization) (finalErr : option goerror)
    : prog (list UploadAuthorization * option goerror) :=
  match n with
  | O => mret (auths, finalErr)
  | S n' =>
      res ← authorizeUpload;
      match res with
      | Ok auth => authorizeUploads n' (auths ++ [auth]) finalErr
      | Err err => authorizeUploads n' auths (Some err)
      end
  end.

Definition handleRequestUploadAuthorizations (i : nat) (msg : Message) : prog unit :=
  request ← try (deref (GetRequestUploadAuthorizations msg));
  '(auths, finalErr) ← authorizeUploads (Z.to_nat (RequestUploadAuthorizations_NumRequested request)) [] None;
  match auths with
  | [] => match finalErr with Some e => errorTo i msg e | None => mret tt end
  | _ => sendTo i (mkMessage (Message_Sequence msg)
                    (Some (Message_UploadAuthorizations (mkUploadAuthorizations auths))))
  end.

Definition handleFindChatNumberByShortNumber (i : nat) (msg : Message) : prog unit :=
  request ← try (deref (GetFindChatNumberByShortNumber msg));
  let shortNumber := FindChatNumberByShortNumber_ShortNumber request in
  res ← on_db (db_FindChatNumberByShortNumber shortNumber);
  match res with
  | Err e => errorTo i msg e
  | Ok number => sendTo i (chatNumberMessage srvc msg number shortNumber)
  end.

Definition handleFindChatNumberByIdentityKey (i : nat) (msg : Message) : prog unit :=
  request ← try (deref (GetFindChatNumberByIdentityKey msg));
  res ← on_db (db_FindChatNumberByIdentityKey (FindChatNumberByIdentityKey_IdentityKey request));
  match res with
  | Err e => errorTo i msg e
  | Ok (number, shortNumber) => sendTo i (chatNumberMessage srvc msg number shortNumber)
  end.

(** Publish and acknowledge; the message is accepted when it is published. *)
Definition publishOutbound (i : nat) (msg : Message) (topic : string) (data : option string) (es : list entry)
    : prog unit :=
  res ← publisherFor topic;
  match res with
  | Err err => errorTo i msg err
  | Ok publisher =>
      err ← publish publisher data es;
      match err with Some er => errorTo i msg er | None => ackTo i msg end
  end.

Definition sendOutboundMessage (i : nat) (msg : Message) : prog unit :=
  o ← try (deref (GetOutboundMessage msg));
  res ← find (OutboundMessage_To o);
  match res with
  | Err e => errorTo i msg e
  | Ok host =>
      let tassisHost := to_lower host in
      topic ← try (topicForAddr (OutboundMessage_To o));
      let data := GetUnidentifiedSenderMessage (Some o) in
      if decide (publicAddr srvc = tassisHost)
      then publishOutbound i msg topic data [Accepted topic data]
      else
        match Marshal_ForwardedMessage (mkForwardedMessage (Some o) 0 0) with
        | Err e => errorTo i msg e
        | Ok bytes => publishOutbound i msg forwardingTopic (Some bytes) [Accepted topic data]
        end
  end.

Definition refuse (i : nat) (msg : Message) (err : Error) : prog unit := errorTo i msg (Sentinel err).

Definition doHandleOutboundMessage (i : nat) (msg : Message) : prog unit :=
  let guarded (anonymous : bool) (p : prog unit) :=
    authenticated ← look i isAuthenticated;
    if Bool.eqb authenticated anonymous
    then refuse i msg (if anonymous then ErrNonAnonymous else ErrUnauthorized) else p in
  match Message_Payload msg with
  | Some Message_Ack => handleACK i msg
  | Some (Message_AuthResponse _) => guarded true (handleAuthResponse i msg)
  | Some (Message_Register _) => guarded false (handleRegister i msg)
  | Some Message_Unregister => guarded false (handleUnregister i msg)
  | Some (Message_RequestPreKeys _) => guarded true (handleRequestPreKeys i msg)
  | Some (Message_RequestUploadAuthorizations _) => guarded true (handleRequestUploadAuthorizations i msg)
  | Some (Message_FindChatNumberByShortNumber _) => guarded true (handleFindChatNumberByShortNumber i msg)
  | Some (Message_FindChatNumberByIdentityKey _) => guarded true (handleFindChatNumberByIdentityKey i msg)
  | Some (Message_OutboundMessage _) => guarded true (sendOutboundMessage i msg)
  | _ => mret tt
  end.

(** ** The other goroutines of a connection *)

Definition sendInitMessages (i : nat) : prog unit :=
  nonce ← look i authNonce;
  challenge ← build i (Message_AuthChallenge (mkAuthChallenge nonce));
  _ ← sendTo i challenge;
  size ← maxAttachmentSize;
  configuration ← build i (Message_Configuration (mkConfiguration size));
  sendTo i configuration.

Definition handleInboundMessage (i : nat) (data : option string) (acker : Acker) : prog unit :=
  msg ← build i (Message_InboundMessage (mkInboundMessage data));
  _ ← on_conn i (λ c, (put_unacked (<[Message_Sequence msg := acker]> (unackedMessages c)) c, tt));
  sendTo i msg.

Definition warnPreKeysLowIfNecessary (i : nat) : prog unit :=
  key ← look i getIdentityKey;
  dev ← look i getDeviceId;
  res ← on_db (db_PreKeysRemaining key dev);
  match res with
  | Ok numPreKeys =>
      if decide (numPreKeys < lowPreKeysLimit srvc)%Z
      then
        msg ← build i (Message_PreKeysLow (mkPreKeysLow (wrap_u32 (numPreKeysToRequest srvc))));
        sendTo i msg
      else mret tt
  | Err _ => mret tt
  end.

(** ** Forwarding *)

(** [ack()], with what is recorded. *)
Definition runAck (acker : Acker) (r : B → B → list entry) : prog unit :=
  _ ← callAcker acker (λ b b' _, r b b'); mret tt.

(** The end the message comes to if a copy of it goes. *)
Definition ends (f : string → option string → entry) (m : ForwardedMessage) (b b' : B) : list entry :=
  match carried m with
  | Some (t, x) => if fewer b b' t x then [f t x] else []
  | None => []
  end.
Definition nothing (b b' : B) : list entry := [].

Definition failMessage (c : clock) (cb : callback) : prog unit :=
  let msg := MarkFailed (now_mark c) (cb_msg cb) in
  if decide (forwardingTimeout srvc < HasBeenFailingFor (now_check c) msg)%Z
  then runAck (cb_ack cb) (ends Expired msg)
  else
    match Marshal_ForwardedMessage msg with
    | Err _ => runAck (cb_ack cb) (ends Expired msg)
    | Ok msgBytes =>
        err ← publish (cb_retry cb) (Some msgBytes) [];
        match err with
        | None => runAck (cb_ack cb) nothing
        | Some _ => mret tt
        end
    end.

Definition finished (c : clock) (cb : callback) (forwardingErr : option goerror) : prog unit :=
  match forwardingErr with
  | Some _ => failMessage c cb
  | None => runAck (cb_ack cb) (ends Relayed (cb_msg cb))
  end.

Definition deliverLocally (c : clock) (cb : callback) (o : OutboundMessage) : prog unit :=
  topic ← try (topicForAddr (OutboundMessage_To o));
  res ← publisherFor topic;
  match res with
  | Err _ => failMessage c cb
  | Ok publisher =>
      err ← publish publisher (GetUnidentifiedSenderMessage (Some o)) [];
      match err with
      | Some _ => failMessage c cb
      | None => runAck (cb_ack cb) nothing
      end
  end.

Definition forwardTo (c : clock) (cb : callback) (tassisHost : string) : prog unit :=
  a ← silently (Forwards (λ f n, Forward dial (cb_msg cb) tassisHost cb n f));
  match a with
  | Finished k err => finished c k (Some err)
  | Sending _ _ _ => mret tt
  end.

Definition forwardMessage (c : clock) (retryPublisher : Publisher) (data : option string) (acker : Acker) : prog unit :=
  match Unmarshal_ForwardedMessage (default "" data) with
  | Err _ => runAck acker nothing
  | Ok msg =>
      let cb := mkCallback msg acker retryPublisher in
      o ← try (deref (GetMessage (Some msg)));
      res ← find (OutboundMessage_To o);
      match res with
      | Err _ => failMessage c cb
      | Ok tassisHost =>
          if decide (tassisHost = publicAddr srvc) then deliverLocally c cb o else forwardTo c cb tassisHost
      end
  end.

Definition handleReply (c : clock) (msg : Message) : prog unit :=
  found ← silently (Forwards (λ f n, let '(f', r) := readFrom msg f in (n, f', r)));
  match found with
  | None => mret tt
  | Some (cb, err) => finished c cb err
  end.

(** ** The transfer goroutine *)

(** A device of the list. *)
Definition findMoved (addr : Address) : prog unit :=
  res ← find (Some addr);
  match res with
  | Err _ => silently (Turn Visiting)
  | Ok tassisHost =>
      if decide (tassisHost = publicAddr srvc) then silently (Turn Visiting)
      else
        sub ← newSubscriber (topicFor (Address_IdentityKey addr) (Address_DeviceId addr));
        match sub with
        | Err _ => silently (Turn Visiting)
        | Ok subscriber => silently (Turn (Moving subscriber addr))
        end
  end.

(** A turn of the loop of [transferDeviceMessages]; when it ends the function, the
    subscriber is closed. *)
Definition transferTurn (subscriber : Subscriber) (addr : Address) (publisher : Publisher) : prog unit :=
  let leave (m : mover) := _ ← closeSubscriber subscriber; silently (Turn m) in
  res ← receive subscriber;
  match res with
  | None => leave (Leaving addr)
  | Some (data, acker) =>
      match Marshal_ForwardedMessage (mkForwardedMessage (Some (mkOutboundMessage (Some addr) data)) 0 0) with
      | Err _ => leave Visiting
      | Ok bytes =>
          err ← publish publisher (Some bytes) [];
          match err with
          | Some _ => leave Visiting
          | None => runAck acker nothing
          end
      end
  end.

End goroutines.
End goroutines.

(** ** What the programs compute

    A program that is not interrupted does what the handler does. *)

Section alone.
Context {ID : Identity} {PR : Proto}.
Context {D B P A C : Type} {DBI : DB D} {BI : Broker B} {PI : Presence P}
        {AI : Attachments A} {LI : LRU C Publisher} {BV : BrokerView B}.
Context {N Conn : Type} (dial : string → N → N * result Conn).
Context (srvc : Service).
#[local] Abbreviation env := (@env D B P A C).
#[local] Abbreviation st := (@st D B P A C BI).
#[local] Abbreviation tassis := (@tassis D B P A C BI N Conn).
#[local] Abbreviation prog := (@goroutines.prog D B P A C BI N Conn).
Implicit Types (w : tassis) (s : st) (e : env).

Import goroutines.

Lemma alone_bind {X Z} (p : prog X) (f : X → prog Z) w :
  alone (p ≫= f) w =
  ('(w1, es, x) ← alone p w; '(w2, es', z) ← alone (f x) w1; Ret (w2, es ++ es', z)).
Proof.
  revert w. induction p as [x|Y o r k IH]; intros w; simpl.
  - by destruct (alone (f x) w) as [[[w2 es'] z]| |].
  - destruct (perform o w) as [[w1 y]| |]; [|done..]. simpl. change (prog_bind X Z f (k y)) with (k y ≫= f). rewrite IH.
    destruct (alone (k y) w1) as [[[w2 es] x]| |]; [|done..]. simpl.
    destruct (alone (f x) w2) as [[[w3 es'] z]| |]; [|done..]. simpl. by rewrite app_assoc.
Qed.

(** The world when connection [i] and what it shares are in state [s]. *)
Definition view (i n : nat) s w : tassis := with_client i (mkC s n) w.

Lemma view_id i n c w : clients w !! i = Some (c, n) → view i n (mkSt (shared w) c) w = w.
Proof. destruct w. unfold view, with_client. simpl. intros ?. by rewrite insert_id. Qed.

Lemma put_view i n c s w : put i c n (view i n s w) = view i n (mkSt (en s) c) w.
Proof. unfold put, view, with_client. simpl. by rewrite insert_insert_eq. Qed.

(** A call and what follows it. *)
Lemma then_call {Y Z} (f : env → outcome (env * Y)) (r : note Y) (k : Y → prog Z) w :
  alone (Call (Shared f) r Done ≫= k) w =
  ('(e, y) ← f (shared w); '(w', es, z) ← alone (k y) (with_shared e w);
   Ret (w', r (broker (shared w)) (broker e) y ++ es, z)).
Proof. simpl. by destruct (f (shared w)) as [[e y]| |]. Qed.

Lemma then_silent {Y Z} (f : env → outcome (env * Y)) (k : Y → prog Z) w :
  alone (silently (Shared f) ≫= k) w = ('(e, y) ← f (shared w); alone (k y) (with_shared e w)).
Proof.
  unfold silently. rewrite then_call. destruct (f (shared w)) as [[e y]| |]; [|done..]. simpl.
  by destruct (alone (k y) _) as [[[??]?]| |].
Qed.

Lemma then_shared {Y Z} i n (f : env → outcome (env * Y)) (k : Y → prog Z) s w :
  alone (silently (Shared f) ≫= k) (view i n s w) =
  ('(e, y) ← f (en s); alone (k y) (view i n (mkSt e (cn s)) w)).
Proof. apply then_silent. Qed.

Lemma then_own {Y Z} i n (f : clientConnection → clientConnection * Y) (k : Y → prog Z) s w :
  alone (on_conn i f ≫= k) (view i n s w) =
  alone (k (f (cn s)).2) (view i n (mkSt (en s) (f (cn s)).1) w).
Proof.
  simpl. rewrite lookup_insert_eq. destruct (f (cn s)) as [c y]. simpl. rewrite put_view.
  by destruct (alone (k y) _) as [[[??]?]| |].
Qed.

Lemma then_look {Y Z} i n (f : clientConnection → Y) (k : Y → prog Z) s w :
  alone (look i f ≫= k) (view i n s w) = alone (k (f (cn s))) (view i n s w).
Proof. unfold look. rewrite then_own. by destruct s. Qed.

Lemma then_send {Z} i n msg (k : unit → prog Z) s w :
  alone (sendTo i msg ≫= k) (view i n s w) = alone (k tt) (view i n (send msg s) w).
Proof.
  simpl. rewrite lookup_insert_eq. simpl. rewrite put_view. by destruct (alone (k tt) _) as [[[??]?]| |].
Qed.

Lemma then_try {Y Z} i n (m : outcome Y) (k : Y → prog Z) s w :
  alone (try m ≫= k) (view i n s w) = (y ← m; alone (k y) (view i n s w)).
Proof. unfold try. rewrite then_shared. destruct m; [|done..]. by destruct s. Qed.

Lemma bind_assoc {X Y Z} (p : prog X) (f : X → prog Y) (g : Y → prog Z) w :
  alone ((p ≫= f) ≫= g) w = alone (p ≫= λ x, f x ≫= g) w.
Proof.
  rewrite !alone_bind. destruct (alone p w) as [[[w1 es] x]| |]; [|done..]. simpl. rewrite alone_bind.
  destruct (alone (f x) w1) as [[[w2 es2] y]| |]; [|done..]. simpl.
  destruct (alone (g y) w2) as [[[w3 es3] z]| |]; [|done..]. simpl. by rewrite app_assoc.
Qed.

Lemma then_mret {X Z} (x : X) (k : X → prog Z) w : alone (mret x ≫= k) w = alone (k x) w.
Proof. done. Qed.

Lemma then_db {Y Z} i n (f : D → outcome (D * Y)) (k : Y → prog Z) s w :
  alone (on_db f ≫= k) (view i n s w) =
  ('(d, y) ← f (db (en s)); alone (k y) (view i n (with_en (set_db d) s) w)).
Proof. unfold on_db. rewrite then_shared. by destruct (f _) as [[]| |]. Qed.

Lemma then_find {Z} i n a (k : _ → prog Z) s w :
  alone (find a ≫= k) (view i n s w) =
  let '(p, res) := presence_Find a (presenceRepo (en s)) in alone (k res) (view i n (with_en (set_presence p) s) w).
Proof. unfold find. rewrite then_shared. by destruct (presence_Find _ _). Qed.

Lemma then_publisher {Z} t (k : _ → prog Z) w :
  alone (publisherFor t ≫= k) w =
  let '(e, res) := serviceimpl.publisherFor t (shared w) in alone (k res) (with_shared e w).
Proof.
  unfold publisherFor, serviceimpl.publisherFor, cacheGet, newPublisher, cacheAdd.
  rewrite bind_assoc, then_silent. destruct (lru_Get t _) as [c [p|]]; [done|]. cbn [mbind outcome_bind].
  rewrite bind_assoc, then_silent. cbn [shared with_shared broker set_cache].
  destruct (broker_NewPublisher t _) as [b [p|err]]; [|done]. cbn [mbind outcome_bind].
  rewrite bind_assoc, then_silent. cbn [shared with_shared broker set_cache set_broker publisherCache].
  by destruct (lru_Add t p c).
Qed.

Lemma then_publisherFor {Z} i n t (k : _ → prog Z) s w :
  alone (publisherFor t ≫= k) (view i n s w) =
  let '(e, res) := serviceimpl.publisherFor t (en s) in alone (k res) (view i n (with_en (λ _, e) s) w).
Proof. apply then_publisher. Qed.

Lemma alone_send i n msg s w : alone (sendTo i msg) (view i n s w) = Ret (view i n (send msg s) w, [], tt).
Proof. simpl. rewrite lookup_insert_eq. simpl. by rewrite put_view. Qed.

Lemma alone_own {Y} i n (f : clientConnection → clientConnection * Y) s w :
  alone (on_conn i f) (view i n s w) = Ret (view i n (mkSt (en s) (f (cn s)).1) w, [], (f (cn s)).2).
Proof. simpl. rewrite lookup_insert_eq. destruct (f (cn s)) as [c y]. simpl. by rewrite put_view. Qed.

(** *** The handlers of a connection *)

(** The program, run alone, does to the connection and what it shares what [h] does,
    and records nothing. *)
Definition computes i (p : prog unit) (h : st → outcome st) : Prop :=
  ∀ n s w, alone p (view i n s w) = (s' ← h s; Ret (view i n s' w, [], tt)).

Ltac run_calls :=
  repeat (first [rewrite then_look | rewrite then_db | rewrite then_find | rewrite then_try | rewrite then_send
                |rewrite then_own | rewrite then_mret | rewrite then_publisherFor | rewrite alone_send | rewrite alone_own];
          cbn [mbind outcome_bind mret prog_ret]).


(** Run the calls and follow what they return. *)
Ltac follow :=
  run_calls; try done; cbn [en cn with_en db set_db set_presence set_broker set_attachments];
  match goal with
  | |- mbind _ ?x = _ => destruct x
  | |- match ?x with _ => _ end = _ => destruct x
  | |- alone (match ?x with _ => _ end) _ = _ => destruct x
  end; cbn [mbind outcome_bind mret prog_ret]; try done.

Lemma Register_calls i msg : computes i (handleRegister srvc i msg) (serviceimpl.handleRegister srvc msg).
Proof.
  intros n s w. unfold handleRegister, serviceimpl.handleRegister, errorTo, ackTo, announce. run_calls.
  rewrite then_shared. destruct (presence_Announce _ _ _) as [p [err|]]; cbn [mbind outcome_bind]; repeat follow.
Qed.

Lemma Unregister_calls i msg : computes i (handleUnregister i msg) (serviceimpl.handleUnregister msg).
Proof. intros n s w. unfold handleUnregister, serviceimpl.handleUnregister, errorTo, ackTo. repeat follow. Qed.

Lemma RequestPreKeys_calls i msg : computes i (handleRequestPreKeys i msg) (serviceimpl.handleRequestPreKeys msg).
Proof. intros n s w. unfold handleRequestPreKeys, serviceimpl.handleRequestPreKeys, errorTo. repeat follow. Qed.

Lemma FindByShort_calls i msg :
  computes i (handleFindChatNumberByShortNumber srvc i msg) (serviceimpl.handleFindChatNumberByShortNumber srvc msg).
Proof.
  intros n s w. unfold handleFindChatNumberByShortNumber, serviceimpl.handleFindChatNumberByShortNumber, errorTo. repeat follow.
Qed.

Lemma FindByKey_calls i msg :
  computes i (handleFindChatNumberByIdentityKey srvc i msg) (serviceimpl.handleFindChatNumberByIdentityKey srvc msg).
Proof.
  intros n s w. unfold handleFindChatNumberByIdentityKey, serviceimpl.handleFindChatNumberByIdentityKey, errorTo. repeat follow.
Qed.

Lemma then_authorize {Z} i n m auths err (k : _ → prog Z) s w :
  alone (authorizeUploads m auths err ≫= k) (view i n s w) =
  let '(a, auths', err') := serviceimpl.authorizeUploads m (attachmentsManager (en s)) auths err in
  alone (k (auths', err')) (view i n (with_en (set_attachments a) s) w).
Proof.
  revert auths err s. induction m as [|m IH]; intros auths err s; cbn [authorizeUploads serviceimpl.authorizeUploads].
  - by destruct s as [[] c].
  - unfold authorizeUpload at 1. rewrite bind_assoc, then_shared.
    destruct (attachments_AuthorizeUpload _) as [a [auth|e]]; cbn [mbind outcome_bind]; rewrite IH; cbn [en cn attachmentsManager set_attachments];
    by destruct (serviceimpl.authorizeUploads _ _ _ _) as [[??]?].
Qed.

Lemma Upload_calls i msg :
  computes i (handleRequestUploadAuthorizations i msg) (serviceimpl.handleRequestUploadAuthorizations msg).
Proof.
  intros n s w. unfold handleRequestUploadAuthorizations, serviceimpl.handleRequestUploadAuthorizations, errorTo.
  run_calls. destruct (deref _) as [r| |]; [|done..]. cbn [mbind outcome_bind]. rewrite then_authorize.
  destruct (serviceimpl.authorizeUploads _ _ _ _) as [[??]?]. repeat follow.
Qed.

Lemma then_getNumber {Z} i n fuel iter key num (k : _ → prog Z) s w :
  alone (getNumber fuel iter key num ≫= k) (view i n s w) =
  ('(d, res) ← getNumberLoop fuel iter key num (db (en s)); alone (k res) (view i n (with_en (set_db d) s) w)).
Proof.
  revert iter s. induction fuel as [|fuel IH]; intros iter s; cbn [getNumber getNumberLoop]; [by rewrite then_try|].
  rewrite bind_assoc, then_try. destruct (candidate num iter) as [[[n1 n2] last]| |]; [|done..]. cbn [mbind outcome_bind].
  rewrite bind_assoc, then_db. destruct (db_RegisterChatNumber _ _ _ _) as [[d [p|err]]| |]; [done| |done..].
  cbn [mbind outcome_bind]. destruct (error_Is err ErrNumberTaken && negb last); [|done]. by rewrite IH.
Qed.

Lemma then_subscribe {Z} i n (k : _ → prog Z) s w :
  alone (startHandlingInbound i ≫= k) (view i n s w) =
  let '(s', res) := serviceimpl.startHandlingInbound s in alone (k res) (view i n s' w).
Proof.
  unfold startHandlingInbound, serviceimpl.startHandlingInbound, newSubscriber. rewrite bind_assoc, then_look.
  rewrite bind_assoc, then_look, bind_assoc, then_shared.
  destruct (broker_NewSubscriber _ _) as [b [sub|err]]; cbn [mbind outcome_bind]; [|done].
  by rewrite bind_assoc, then_own.
Qed.

Lemma Login_calls i msg : computes i (finishLogin srvc i msg) (serviceimpl.finishLogin srvc msg).
Proof.
  intros n s w. unfold finishLogin, serviceimpl.finishLogin, serviceimpl.getNumber, errorTo, closeConn. rewrite then_look.
  rewrite then_getNumber. destruct (getNumberLoop _ _ _ _ _) as [[d [[num short]|err]]| |]; [| |done..];
    cbn [mbind outcome_bind].
  - rewrite then_mret, then_subscribe.
    destruct (serviceimpl.startHandlingInbound _) as [s3 [e|]]; [by run_calls|]. by case_decide; run_calls.
  - rewrite bind_assoc, then_send, bind_assoc, then_own. rewrite then_mret, then_subscribe. cbn [fst en cn].
    change (mkSt _ _) with (Close (error msg err (with_en (set_db d) s))).
    destruct (serviceimpl.startHandlingInbound _) as [s3 [e|]]; [by run_calls|]. by case_decide; run_calls.
Qed.

Lemma AuthResponse_calls i msg : computes i (handleAuthResponse srvc i msg) (serviceimpl.handleAuthResponse srvc msg).
Proof.
  intros n s w. unfold handleAuthResponse, serviceimpl.handleAuthResponse, refuseLogin, errorTo, closeConn. run_calls.
  destruct (deref _) as [r| |]; [|done..]. cbn [mbind outcome_bind].
  destruct (Unmarshal_Login _) as [login|err]; run_calls; [|done]. case_decide; run_calls; [|done].
  destruct (deref _) as [a| |]; [|done..]. cbn [mbind outcome_bind]. destruct (PublicKey_Verify _ _ _); run_calls; [|done].
  rewrite Login_calls. done.
Qed.

(** *** Messages and acknowledgements, with their record *)

Lemma then_noted {Y Z} i n (f : env → outcome (env * Y)) r (k : Y → prog Z) s w :
  alone (Call (Shared f) r Done ≫= k) (view i n s w) =
  ('(e, y) ← f (en s); '(w', es, z) ← alone (k y) (view i n (mkSt e (cn s)) w);
   Ret (w', r (broker (en s)) (broker e) y ++ es, z)).
Proof. apply then_call. Qed.

Lemma Ack_calls i n msg s w :
  Message_Payload msg = Some Message_Ack →
  alone (handleACK i msg) (view i n s w) =
  (s' ← serviceimpl.handleACK msg s; Ret (view i n s' w, client_log i (EvOut msg) s s', tt)).
Proof.
  intros Hm. unfold handleACK, serviceimpl.handleACK, callAcker, client_log. rewrite Hm, then_look.
  destruct (unackedMessages (cn s) !! _) as [acker|] eqn:Eu; [|done].
  rewrite then_noted. destruct (broker_Ack _ _) as [[b [err|]]| |]; [| |done..]; cbn [mbind outcome_bind].
  - cbn [cn with_en]. by rewrite Eu.
  - rewrite alone_own. cbn [mbind outcome_bind]. rewrite app_nil_r. simpl. by rewrite lookup_delete_eq.
Qed.

Lemma acknowledged_send msg s s' : cn s' = cn (send msg s) → acknowledged s s' = is_ack msg.
Proof. intros H. apply acknowledged_reply. unfold replies. by rewrite H. Qed.

Lemma publishOutbound_calls i n msg t y es s w :
  alone (publishOutbound i msg t y es) (view i n s w) =
  (s' ← serviceimpl.publishOutbound msg t y s; Ret (view i n s' w, if acknowledged s s' then es else [], tt)).
Proof.
  unfold publishOutbound, serviceimpl.publishOutbound, publish, errorTo, ackTo. rewrite then_publisherFor.
  destruct (serviceimpl.publisherFor t (en s)) as [e [p|err]].
  - rewrite then_noted. cbn [en with_en]. destruct (broker_Publish _ _ _) as [[b [er|]]| |]; [| |done..];
      cbn [mbind outcome_bind]; rewrite alone_send; cbn [mbind outcome_bind];
      by erewrite acknowledged_send by reflexivity; rewrite ?app_nil_r.
  - rewrite alone_send. cbn [mbind outcome_bind]. by erewrite acknowledged_send by reflexivity.
Qed.

Lemma Outbound_calls i n msg o s w :
  Message_Payload msg = Some (Message_OutboundMessage o) →
  alone (sendOutboundMessage srvc i msg) (view i n s w) =
  (s' ← serviceimpl.sendOutboundMessage srvc msg s; Ret (view i n s' w, client_log i (EvOut msg) s s', tt)).
Proof.
  intros Hm. unfold sendOutboundMessage, serviceimpl.sendOutboundMessage, client_log, GetOutboundMessage, errorTo.
  rewrite Hm. cbn [deref]. rewrite then_try. cbn [mbind outcome_bind]. rewrite then_find.
  destruct (presence_Find _ _) as [p [host|er]].
  - rewrite then_try. unfold topicForAddr. destruct (OutboundMessage_To o) as [a|]; [|done].
    cbn [deref mbind outcome_bind]. case_decide.
    + rewrite publishOutbound_calls. done.
    + destruct (Marshal_ForwardedMessage _) as [bytes|er]; [by rewrite publishOutbound_calls|].
      rewrite alone_send. cbn [mbind outcome_bind]. by erewrite acknowledged_send by reflexivity.
  - rewrite alone_send. cbn [mbind outcome_bind]. destruct (OutboundMessage_To o); [|done].
    by erewrite acknowledged_send by reflexivity.
Qed.

(** Handling a message is making its calls.  For every message of a client, in
    every state of the server: the program of calls that its handler consists of, made
    without an interruption, ends as the handler of Service.v ends (it returns, panics
    or never returns), leaves the same connection and the same database, broker,
    presence, attachments and cache, and records the acceptance or the acknowledgement
    of a message as the server of Tassis.v does. *)
Theorem handlers_are_their_calls i c n msg w :
  clients w !! i = Some (c, n) →
  let s := mkSt (shared w) c in
  alone (doHandleOutboundMessage srvc i msg) w =
  (s' ← serviceimpl.doHandleOutboundMessage srvc msg s;
   Ret (with_client i (mkC s' n) w, client_log i (EvOut msg) s s', tt)).
Proof.
  intros Hi s. rewrite <- (view_id _ _ _ _ Hi) at 1. fold s.
  change (with_client i (mkC ?x n) w) with (view i n x w).
  unfold doHandleOutboundMessage, serviceimpl.doHandleOutboundMessage, refuse, serviceimpl.refuse, errorTo.
  destruct (Message_Payload msg) as [[]|] eqn:Em; cbn [mbind outcome_bind]; rewrite ?then_look;
    try (destruct (isAuthenticated (cn s)); cbn [Bool.eqb negb]; rewrite ?alone_send; cbn [mbind outcome_bind]).
  all: try (by apply Ack_calls); try (by eapply Outbound_calls); unfold client_log; rewrite Em; try done.
  all: first [apply AuthResponse_calls|apply Register_calls|apply Unregister_calls|apply RequestPreKeys_calls
    |apply Upload_calls|apply FindByShort_calls|apply FindByKey_calls|idtac].
  destruct (OutboundMessage_To _); [|done]. by erewrite acknowledged_send by reflexivity.
Qed.

(** *** The other goroutines *)

Lemma Init_calls i : computes i (sendInitMessages i) (λ s, Ret (serviceimpl.sendInitMessages s)).
Proof.
  intros n s w. unfold sendInitMessages, build, maxAttachmentSize. run_calls. rewrite then_shared.
  cbn [mbind outcome_bind]. by run_calls.
Qed.

Lemma Inbound_calls i data acker :
  computes i (handleInboundMessage i data acker) (λ s, Ret (serviceimpl.handleInboundMessage data acker s)).
Proof. intros n s w. unfold handleInboundMessage, build. by run_calls. Qed.

Lemma Check_calls i :
  computes i (warnPreKeysLowIfNecessary srvc i) (serviceimpl.warnPreKeysLowIfNecessary srvc).
Proof.
  intros n s w. unfold warnPreKeysLowIfNecessary, serviceimpl.warnPreKeysLowIfNecessary, build. run_calls.
  destruct (db_PreKeysRemaining _ _ _) as [[d [m|err]]| |]; [|done..]. cbn [mbind outcome_bind]. case_decide; [|done].
  by run_calls.
Qed.

(** *** Workers, replies and transfers

    Here the state the program leaves is compared; what it records is accounted for
    in InterleavingInv.v. *)

Definition leaves (p : prog unit) w (m : outcome tassis) : Prop := (λ r, r.1.1) <$> alone p w = m.

Lemma leaves_noted p w es m :
  leaves p w m → (λ r, r.1.1) <$> ('(w', es', z) ← alone p w; Ret (w', es ++ es', z)) = m.
Proof. intros <-. by destruct (alone p w) as [[[??]?]| |]. Qed.

Lemma leaves_ack acker r w : leaves (runAck acker r) w (e ← forwarding.runAck acker (shared w); Ret (with_shared e w)).
Proof.
  unfold leaves, runAck, callAcker, forwarding.runAck. rewrite then_call.
  by destruct (broker_Ack _ _) as [[b err]| |].
Qed.

Lemma leaves_fail cl cb w :
  leaves (failMessage srvc cl cb) w (e ← forwarding.failMessage srvc cl cb (shared w); Ret (with_shared e w)).
Proof.
  unfold failMessage, forwarding.failMessage. destruct (decide _); [apply leaves_ack|].
  destruct (Marshal_ForwardedMessage _) as [bytes|]; [|apply leaves_ack]. unfold leaves, publish. rewrite then_call.
  destruct (broker_Publish _ _ _) as [[b [er|]]| |]; [done| |done..].
  exact (leaves_noted _ _ _ _ (leaves_ack _ _ _)).
Qed.

Lemma leaves_finished cl cb err w :
  leaves (finished srvc cl cb err) w (e ← forwarding.finished srvc cl cb err (shared w); Ret (with_shared e w)).
Proof. destruct err; [apply leaves_fail|apply leaves_ack]. Qed.

(** What a report leaves. *)
Definition reported (m : outcome report) w : outcome tassis := r ← m; Ret (with_forwarder (r_state r) w).

Lemma leaves_failWith cl cb slept err (s : fstate) w :
  leaves (failMessage srvc cl cb) (with_forwarder s w) (reported (failWith srvc cl cb slept err s) w).
Proof.
  unfold leaves. rewrite leaves_fail. unfold reported, failWith. by destruct (forwarding.failMessage _ _ _ _).
Qed.

Lemma leaves_local cl cb slept o (s : fstate) w :
  leaves (deliverLocally srvc cl cb o) (with_forwarder s w)
    (reported (forwarding.deliverLocally srvc cl cb slept o s) w).
Proof.
  unfold deliverLocally, forwarding.deliverLocally, try, leaves. rewrite then_silent.
  destruct (topicForAddr _) as [t| |]; [|done..]. cbn [mbind outcome_bind]. rewrite then_publisher.
  cbn [shared with_shared with_forwarder]. destruct (serviceimpl.publisherFor t (fe s)) as [e [p|er]];
    [|exact (leaves_failWith _ _ _ _ (set_fe e s) w)].
  unfold publish. rewrite then_call. cbn [shared with_shared].
  destruct (broker_Publish _ _ _) as [[b [er|]]| |]; [| |done..].
  - exact (leaves_noted _ _ _ _ (leaves_failWith _ _ _ _ (set_fe (set_broker b e) s) w)).
  - refine (leaves_noted _ _ _ _ (eq_trans (leaves_ack _ _ _) _)). unfold reported.
    cbn [shared with_shared fe set_fe mbind outcome_bind]. by destruct (forwarding.runAck _ _).
Qed.

Lemma leaves_forwardTo cl cb slept host (s : fstate) w :
  leaves (forwardTo dial srvc cl cb host) (with_forwarder s w)
    (reported (forwarding.forwardTo dial srvc cl cb slept host s) w).
Proof.
  unfold leaves, forwardTo, forwarding.forwardTo. cbn [silently mbind prog_bind alone perform fwd net with_forwarder].
  destruct (Forward _ _ _ _ _ _) as [[n f] [k err|conn d m]]; [|done].
  refine (leaves_noted _ _ [] _ (eq_trans (leaves_finished _ _ _ _) _)). unfold reported.
  cbn [mbind outcome_bind shared with_forwarder fe]. by destruct (forwarding.finished _ _ _ _ _).
Qed.

(** Handling a message to be forwarded is its calls. *)
Lemma forwardMessage_calls cl p data acker (s : fstate) w :
  leaves (forwardMessage dial srvc cl p data acker) (with_forwarder s w)
    (reported (forwarding.forwardMessage dial srvc cl p data acker s) w).
Proof.
  unfold forwardMessage, forwarding.forwardMessage. destruct (Unmarshal_ForwardedMessage _) as [m|er].
  - unfold try, find, leaves. rewrite then_silent. destruct (deref _) as [o| |]; [|done..]. cbn [mbind outcome_bind].
    rewrite then_silent. cbn [shared with_shared with_forwarder].
    destruct (presence_Find _ _) as [pr [host|er]]; cbn [mbind outcome_bind];
      [|exact (leaves_failWith _ _ _ _ (set_fe (set_presence pr (fe s)) s) w)].
    case_decide; [exact (leaves_local _ _ _ _ (set_fe (set_presence pr (fe s)) s) w)
                 |exact (leaves_forwardTo _ _ _ _ (set_fe (set_presence pr (fe s)) s) w)].
  - unfold leaves. rewrite leaves_ack. unfold reported. cbn [shared with_forwarder]. by destruct (forwarding.runAck _ _).
Qed.

Lemma handleReply_calls cl msg (s : fstate) w :
  leaves (handleReply srvc cl msg) (with_forwarder s w)
    (s' ← forwarding.handleReply srvc cl msg s; Ret (with_forwarder s' w)).
Proof.
  unfold leaves, handleReply, forwarding.handleReply. cbn [silently mbind prog_bind alone perform fwd net with_forwarder].
  destruct (readFrom _ _) as [f [[cb err]|]]; [|done].
  refine (leaves_noted _ _ [] _ (eq_trans (leaves_finished _ _ _ _) _)).
  cbn [mbind outcome_bind shared with_forwarder fe]. by destruct (forwarding.finished _ _ _ _ _).
Qed.

Lemma findMoved_calls addr w :
  leaves (findMoved srvc addr) w
    (let '(e, res) := forwarding.findMoved srvc addr (shared w) in
     Ret (with_transfer e (round w) (match res with Some sub => Moving sub addr | None => Visiting end) w)).
Proof.
  unfold leaves, findMoved, forwarding.findMoved, find, newSubscriber. rewrite then_silent.
  destruct (presence_Find _ _) as [p [host|er]]; [|done]. cbn [mbind outcome_bind]. case_decide; [done|].
  rewrite then_silent. cbn [shared with_shared]. by destruct (broker_NewSubscriber _ _) as [b [sub|er]].
Qed.

Lemma transferTurn_calls sub addr p w :
  transfer w = Moving sub addr →
  leaves (transferTurn sub addr p) w
    ('(e, r) ← forwarding.transferTurn sub addr p (shared w);
     Ret (match r with
          | None => with_transfer e (round w) (Moving sub addr) w
          | Some err => with_transfer (set_broker (broker_CloseSubscriber sub (broker e)) e) (round w)
                          (match err with Some _ => Visiting | None => Leaving addr end) w
          end)).
Proof.
  intros Hw. unfold leaves, transferTurn, forwarding.transferTurn, receive, closeSubscriber. rewrite then_silent.
  destruct (broker_Receive _ _) as [b [[data acker]|]]; cbn [mbind outcome_bind]; [|done].
  destruct (Marshal_ForwardedMessage _) as [bytes|er]; [|done]. unfold publish. rewrite then_call.
  cbn [shared with_shared]. destruct (broker_Publish _ _ _) as [[b' [er|]]| |]; [done| |done..].
  refine (leaves_noted _ _ _ _ (eq_trans (leaves_ack _ _ _) _)).
  cbn [shared with_shared mbind outcome_bind]. destruct (forwarding.runAck _ _) as [e| |]; [|done..]. simpl.
  unfold with_transfer, with_shared. simpl. by rewrite Hw.
Qed.
End alone.
