(* ===== verification/Interleaving.v ===== *)
(** * Interleaving: a running server, call by call

    The server of Tassis.v, with the goroutines of Goroutines.v: a step is a single
    call of one of them, so that any other goroutine may run between two calls of a
    handler, or a handler may never get to its next call.  A goroutine that takes a
    message, a reply or a request starts running the program of its handler, and is
    gone when the program is done; [handleOutbound] handles one message of its
    connection at a time and the transfer goroutine does one thing at a time, while
    the other goroutines of a connection may run any number of handlers at once here.

    Steps have the labels of Tassis.v; a call has the label of a silent step. *)

From S2P Require Import Prelude Model Externals DB Broker Presence Attachments Forwarder Service ServiceProps Connection Forwarding Tassis TassisSteps Goroutines.

Import serviceimpl forwarder forwarding tassis.

Module interleaving.
Section interleaving.
Context {ID : Identity} {PR : Proto}.
Context {D B P A C : Type} {DBI : DB D} {BI : Broker B} {PI : Presence P}
        {AI : Attachments A} {LI : LRU C Publisher} {BV : BrokerView B}.
Context {N Conn : Type} (dial : string → N → N * result Conn).
Context (srvc : Service) (sta : started (BI:=BI)).
#[local] Abbreviation env := (@env D B P A C).
#[local] Abbreviation tassis := (@tassis D B P A C BI N Conn).
#[local] Abbreviation prog := (@goroutines.prog D B P A C BI N Conn).
#[local] Abbreviation op := (@goroutines.op D B P A C BI N Conn).
#[local] Abbreviation trace := (list (label (BI:=BI) * list entry)).
Implicit Types w : tassis.

(** What a goroutine is doing. *)
Inductive cause :=
| Handling (i : nat) (msg : Message)
| Greeting (i : nat)
| Delivering (i : nat)
| Checking (i : nat)
| Forwarding
| Reading
| Transferring.

(** The connection whose [handleOutbound] it is. *)
Definition owner (z : cause) : option nat := match z with Handling i _ => Some i | _ => None end.

Record goroutine := mkGo { doing : cause; body : prog unit }.

(** [told] has the messages of clients that were answered with an Ack. *)
Record system := mkSys {
  server : tassis; running : list goroutine; told : list (nat * Message) }.

Definition launch (e : env) (n : N) : system := mkSys (boot e n) [] [].

Definition spawn (z : cause) (p : prog unit) (w : tassis) (s : system) : system :=
  mkSys w (running s ++ [mkGo z p]) (told s).

Definition tells {Y} (z : cause) (o : op Y) : list (nat * Message) :=
  match z, o with
  | Handling i msg, goroutines.Send _ m => if is_ack m then [(i, msg)] else []
  | _, _ => []
  end.

(** Turns that are a single call, or none. *)
Definition brief (l : label (BI:=BI)) : bool :=
  match l with
  | LIdle | LTake _ | LOthers => true
  | LClient _ EvClose | LClient _ (EvReceive _) | LClient _ EvEndInbound => true
  | _ => false
  end.

Definition mover_free (s : system) : Prop := Transferring ∉ doing <$> running s.

Inductive step : label (BI:=BI) → list entry → system → system → Prop :=
| g_turn l es w' s :
    brief l = true → tassis.step dial srvc sta l es (server s) w' →
    step l es s (mkSys w' (running s) (told s))
| g_connect i nonce s :
    clients (server s) !! i = None →
    step (LConnect i nonce) [] s
      (spawn (Greeting i) (goroutines.sendInitMessages i) (with_client i (start nonce (shared (server s))) (server s)) s)
| g_out i c n msg s :
    clients (server s) !! i = Some (c, n) → i ∉ omap owner (doing <$> running s) →
    step (LClient i (EvOut msg)) [] s
      (spawn (Handling i msg) (goroutines.doHandleOutboundMessage srvc i msg) (server s) s)
| g_in i c n sub data acker b s :
    clients (server s) !! i = Some (c, n) → sub ∈ subscriptions c →
    broker_Receive sub (broker (shared (server s))) = (b, Some (data, acker)) →
    step (LClient i (EvIn data acker)) [Delivered i (ack_topic acker) data] s
      (spawn (Delivering i) (goroutines.handleInboundMessage i data acker)
         (with_shared (set_broker b (shared (server s))) (server s)) s)
| g_check i c n s :
    clients (server s) !! i = Some (c, n) → preKeyChecks c ≠ 0 →
    step (LClient i EvCheck) [] s (spawn (Checking i) (goroutines.warnPreKeysLowIfNecessary srvc i) (server s) s)
| g_forward ws p k data acker cl s :
    workers sta = Some (ws, p) → inHand (server s) !! k = Some (data, acker) →
    step (LForward data) [] s
      (spawn Forwarding (goroutines.forwardMessage dial srvc cl p data acker)
         (with_hand (delete k (inHand (server s))) (server s)) s)
| g_reply cl msg s :
    step (LReply msg) [] s (spawn Reading (goroutines.handleReply srvc cl msg) (server s) s)
| g_round p d addrs s :
    mover_free s → transfers sta = Some p → transfer (server s) = Visiting → round (server s) = [] →
    db_AllRegisteredDevices (db (shared (server s))) = Ret (d, Ok addrs) →
    step LTransfer [] s
      (mkSys (with_transfer (set_db d (shared (server s))) addrs Visiting (server s)) (running s) (told s))
| g_visit addr rest s :
    mover_free s → transfer (server s) = Visiting → round (server s) = addr :: rest →
    step LTransfer [] s
      (spawn Transferring (goroutines.findMoved srvc addr)
         (with_transfer (shared (server s)) rest Visiting (server s)) s)
| g_move p sub addr s :
    mover_free s → transfers sta = Some p → transfer (server s) = Moving sub addr →
    step LTransfer [] s (spawn Transferring (goroutines.transferTurn sub addr p) (server s) s)
| g_leave addr e s :
    mover_free s → transfer (server s) = Leaving addr → endTransfer addr None (shared (server s)) = Ret e →
    step LTransfer [] s (mkSys (with_transfer e (round (server s)) Visiting (server s)) (running s) (told s))
| g_call {Y} z (o : op Y) r k l1 l2 y w w' tl :
    goroutines.perform o w = Ret (w', y) →
    step LIdle (r (broker (shared w)) (broker (shared w')) y)
      (mkSys w (l1 ++ mkGo z (goroutines.Call o r k) :: l2) tl)
      (mkSys w' (l1 ++ mkGo z (k y) :: l2) (tl ++ tells z o))
| g_done z l1 l2 w tl :
    step LIdle [] (mkSys w (l1 ++ mkGo z (goroutines.Done tt) :: l2) tl) (mkSys w (l1 ++ l2) tl).

Inductive run : system → trace → system → Prop :=
| run_nil s : run s [] s
| run_snoc s tr s' l es s'' : run s tr s' → step l es s' s'' → run s (tr ++ [(l, es)]) s''.

End interleaving.
End interleaving.
