(* ===== verification/Calls.v ===== *)
(** * Calls: what the goroutines do not do

    The programs of Goroutines.v gone through call by call.  Those of the goroutines
    that serve a connection or forward messages are [ordinary]: they leave the
    variables of the transfer goroutine alone, and change what is on the channel to a
    client only by sending there.  InterleavingTransfer.v needs the one, Channels.v the
    other. *)

From S2P Require Import Prelude Model Externals DB Broker Presence Attachments Forwarder Service ServiceProps Connection Forwarding Tassis Goroutines.

Import serviceimpl forwarder forwarding tassis goroutines.

Section calls.
Context {ID : Identity} {PR : Proto}.
Context {D B P A C : Type} {DBI : DB D} {BI : Broker B} {PI : Presence P}
        {AI : Attachments A} {LI : LRU C Publisher} {BV : BrokerView B}.
Context {N Conn : Type} (dial : string → N → N * result Conn).
Context (srvc : Service).
#[local] Abbreviation prog := (@goroutines.prog D B P A C BI N Conn).
#[local] Abbreviation op := (@goroutines.op D B P A C BI N Conn).

(** A call that does not write the variables of the transfer goroutine, and does not
    touch the channel of a connection but by sending there. *)
Definition ordinary_op {Y} (o : op Y) : Prop :=
  match o with Turn _ => False | Own _ f => ∀ c, in_ (f c).1 = in_ c | _ => True end.

Fixpoint ordinary {X} (p : prog X) : Prop :=
  match p with Done _ => True | Call o _ k => ordinary_op o ∧ ∀ y, ordinary (k y) end.

Lemma ordinary_bind {X Y} (p : prog X) (f : X → prog Y) : ordinary p → (∀ x, ordinary (f x)) → ordinary (p ≫= f).
Proof.
  intros Hp Hf. induction p as [x|Z o r k IH]; [apply Hf|]. destruct Hp as [Ho Hk]. split; [done|].
  intros y. by apply IH.
Qed.

(** Go through a program. *)
Ltac ordinary_walk :=
  repeat first
    [ progress cbn beta iota
    | lazymatch goal with
      | |- ordinary (mbind _ _) => apply ordinary_bind; [|intros ?]
      | |- ordinary (match ?x with _ => _ end) => destruct x
      | |- ordinary (mret _) => exact I
      end
    | done ].

Lemma ordinary_publisherFor t : ordinary (publisherFor t : prog _).
Proof. unfold publisherFor. ordinary_walk. Qed.

Lemma ordinary_number fuel iter key num : ordinary (getNumber fuel iter key num : prog _).
Proof. revert iter. induction fuel as [|fuel IH]; intros iter; cbn [getNumber]; ordinary_walk. Qed.

Lemma ordinary_uploads n auths err : ordinary (authorizeUploads n auths err : prog _).
Proof. revert auths err. induction n as [|n IH]; intros; cbn [authorizeUploads]; ordinary_walk; apply IH. Qed.

Lemma ordinary_login i msg : ordinary (finishLogin srvc i msg : prog _).
Proof. unfold finishLogin, startHandlingInbound. ordinary_walk. apply ordinary_number. Qed.

Lemma ordinary_handler i msg : ordinary (doHandleOutboundMessage srvc i msg : prog _).
Proof.
  unfold doHandleOutboundMessage, handleACK, handleAuthResponse, handleRegister, handleUnregister, handleRequestPreKeys,
    handleRequestUploadAuthorizations, handleFindChatNumberByShortNumber, handleFindChatNumberByIdentityKey,
    sendOutboundMessage, publishOutbound, refuseLogin.
  ordinary_walk; first [apply ordinary_login|apply ordinary_uploads|apply ordinary_publisherFor].
Qed.

Lemma ordinary_fail cl cb : ordinary (failMessage srvc cl cb : prog _).
Proof. unfold failMessage, runAck. ordinary_walk. Qed.

Lemma ordinary_finished cl cb err : ordinary (finished srvc cl cb err : prog _).
Proof. unfold finished, runAck. ordinary_walk. apply ordinary_fail. Qed.

Lemma ordinary_forward cl p data acker : ordinary (forwardMessage dial srvc cl p data acker : prog _).
Proof.
  unfold forwardMessage, deliverLocally, forwardTo, runAck. ordinary_walk;
    first [apply ordinary_fail|apply ordinary_finished|apply ordinary_publisherFor].
Qed.

Lemma ordinary_reply cl msg : ordinary (handleReply srvc cl msg : prog _).
Proof. unfold handleReply. ordinary_walk. apply ordinary_finished. Qed.

Lemma ordinary_init i : ordinary (sendInitMessages i : prog _).
Proof. unfold sendInitMessages. ordinary_walk. Qed.

Lemma ordinary_inbound i data acker : ordinary (handleInboundMessage i data acker : prog _).
Proof. unfold handleInboundMessage. ordinary_walk. Qed.

Lemma ordinary_check i : ordinary (warnPreKeysLowIfNecessary srvc i : prog _).
Proof. unfold warnPreKeysLowIfNecessary. ordinary_walk. Qed.

End calls.
