(* ===== verification/InterleavingInv.v ===== *)
(** * InterleavingInv: what every goroutine may rely on

    Reasoning about the system of Interleaving.v: a program is [safe] in a state if,
    whatever other goroutines do before each of its calls, the call keeps the
    invariant of TassisInv.v, is justified by what came before, and pays for the copies
    of messages it removes.  For that a goroutine may have credits: copies it has
    published itself.  One rule for each kind of call; the programs of Goroutines.v are
    safe by these rules. *)

From S2P Require Import Prelude Model Externals DB Broker Presence Attachments Forwarder Service ServiceProps Connection Forwarding Tassis TassisSteps TassisInv TassisProps Goroutines Interleaving.

Import serviceimpl forwarder forwarding tassis goroutines interleaving.

Section later.
Context {ID : Identity} {PR : Proto}.
Context {D B P A C : Type} {BI : Broker B} {LI : LRU C Publisher} {N Conn : Type}.
Context {BL : BrokerLaws B} {LL : LRULaws C Publisher}.
#[local] Abbreviation env := (@env D B P A C).
#[local] Abbreviation tassis := (@tassis D B P A C BI N Conn).
#[local] Abbreviation trace := (list (label (BI:=BI) * list entry)).
#[local] Abbreviation clientConnection := (clientConnection (BI:=BI)).
Implicit Types (w : tassis) (tr : trace) (e : env) (c : clientConnection).

(** ** What other goroutines may do in between *)

Definition same_identity_of c c' : Prop :=
  authNonce c' = authNonce c ∧ identityKey c' = identityKey c ∧ deviceId c' = deviceId c.

(** Only [handleOutbound] of a connection changes its identity; [who] is the
    connection of which the goroutine is that. *)
Record later (who : option nat) tr w tr' w' : Prop := {
  later_trace : ∃ ext, tr' = tr ++ ext;
  later_sub : ∀ s t, sub_topic (broker (shared w)) s = Some t → sub_topic (broker (shared w')) s = Some t;
  later_issued : ∀ a x, issued (broker (shared w)) a x → issued (broker (shared w')) a x;
  later_own : ∀ i c n, who = Some i → clients w !! i = Some (c, n) →
    ∃ c' n', clients w' !! i = Some (c', n') ∧ same_identity_of c c' }.

Lemma later_refl who tr w : later who tr w tr w.
Proof. split; [exists []; by rewrite app_nil_r|done..|]. intros i c n _ ?. exists c, n. by split. Qed.

Lemma later_trans who tr1 w1 tr2 w2 tr3 w3 :
  later who tr1 w1 tr2 w2 → later who tr2 w2 tr3 w3 → later who tr1 w1 tr3 w3.
Proof.
  intros [[e1 ->] Hs1 Hi1 Ho1] [[e2 ->] Hs2 Hi2 Ho2]. split; [|by auto|by auto|].
  - exists (e1 ++ e2). by rewrite app_assoc.
  - intros i c n Hw Hc. destruct (Ho1 i c n Hw Hc) as (c' & n' & Hc' & H1 & H2 & H3).
    destruct (Ho2 i c' n' Hw Hc') as (c'' & n'' & Hc'' & H4 & H5 & H6). exists c'', n''.
    unfold same_identity_of. split; [done|]. by rewrite H4, H5, H6.
Qed.

Lemma later_log who tr w tr' w' x : later who tr w tr' w' → x ∈ log tr → x ∈ log tr'.
Proof. intros [[ext ->] _ _ _]. unfold log. rewrite fmap_app, join_app. intros ?. apply elem_of_app. by left. Qed.

Lemma later_label who tr w tr' w' x : later who tr w tr' w' → x ∈ tr.*1 → x ∈ tr'.*1.
Proof. intros [[ext ->] _ _ _]. rewrite fmap_app. intros ?. apply elem_of_app. by left. Qed.

Lemma later_proven who tr w tr' w' i a : later who tr w tr' w' → proven tr i a → proven tr' i a.
Proof. intros H (nonce & msg & ? & ? & ?). exists nonce, msg. split_and!; [by eapply later_label..|done]. Qed.

Lemma later_handed who tr w tr' w' data acker :
  later who tr w tr' w' → handed (log tr) (broker (shared w)) data acker → handed (log tr') (broker (shared w')) data acker.
Proof.
  intros H (? & ? & ?). split_and!; [by eapply later_issued|done|]. eapply parcel_ok_mono; [|done].
  intros x. by apply (later_log _ _ _ _ _ x H).
Qed.

Lemma later_moves who Φ tr w e x : env_moves Φ (shared w) e → later who tr w (tr ++ [x]) (with_shared e w).
Proof.
  intros [Hm _]. split; [by eexists|apply Hm|apply Hm|]. intros i c n _ ?. exists c, n. by split.
Qed.

Lemma later_put who tr w i c n c' x :
  clients w !! i = Some (c, n) → same_identity_of c c' → later who tr w (tr ++ [x]) (put i c' n w).
Proof.
  intros Hi Hs. split; [by eexists|done..|]. intros j c1 n1 _ Hj. simpl. rewrite lookup_insert. case_decide as E.
  - subst j. exists c', n. split; [done|]. rewrite Hi in Hj. by injection Hj as <- <-.
  - exists c1, n1. by split.
Qed.

Lemma later_same who tr w w' x : shared w' = shared w → clients w' = clients w → later who tr w (tr ++ [x]) w'.
Proof.
  intros Hs Hc. split; [by eexists|by rewrite Hs..|]. intros i c n _ Hi. rewrite Hc. exists c, n. by split.
Qed.
End later.

Section safe.
Context {ID : Identity} {PR : Proto} {PL : ProtoLaws}.
Context {D B P A C : Type} {DBI : DB D} {BI : Broker B} {PI : Presence P}
        {AI : Attachments A} {LI : LRU C Publisher}.
Context {N Conn : Type}.
Context {BL : BrokerLaws B} {LL : LRULaws C Publisher}.
Context (sta : started (BI:=BI)) (Hsta : started_ok sta).
#[local] Abbreviation env := (@env D B P A C).
#[local] Abbreviation tassis := (@tassis D B P A C BI N Conn).
#[local] Abbreviation trace := (list (label (BI:=BI) * list entry)).
#[local] Abbreviation clientConnection := (clientConnection (BI:=BI)).
#[local] Abbreviation prog := (@goroutines.prog D B P A C BI N Conn).
#[local] Abbreviation op := (@goroutines.op D B P A C BI N Conn).
#[local] Abbreviation credits := (list (string * option string)).
#[local] Abbreviation inv := (inv sta).
Implicit Types (w : tassis) (tr : trace) (es L : list entry) (e : env) (b : B) (c : clientConnection)
  (z : cause) (cr : credits).

(** ** Safety of a program *)

Definition credit cr (t : string) (x : option string) : nat := length (filter (λ y, y = (t, x)) cr).

Lemma credit_app cr cr' t x : credit (cr ++ cr') t x = credit cr t x + credit cr' t x.
Proof. unfold credit. by rewrite filter_app, length_app. Qed.

Lemma credit_cons y cr t x : credit (y :: cr) t x = (if decide (y = (t, x)) then 1 else 0) + credit cr t x.
Proof. unfold credit. rewrite filter_cons. by case_decide. Qed.

(** Copies, settled messages and credits make up for accepted messages and for the
    credits that remain. *)
Definition paid cr cr' es b b' : Prop :=
  ∀ t x, ¬ forwarding_name t →
    held b t x + n_accepted es t x + credit cr' t x <= held b' t x + n_settled es t x + credit cr t x.

(** Every message it accepts was sent by a client. *)
Definition vouched tr es : Prop := ∀ t x, Accepted t x ∈ es → ∃ a, topic_of a = t ∧ sent_to tr a x.

Lemma vouched_nil tr : vouched tr [].
Proof. intros t x []%not_elem_of_nil. Qed.

Record called (k : nat) z cr cr' tr es w w' : Prop := {
  called_inv : inv k (tr ++ [(LIdle, es)]) w';
  called_justified : Forall (justified tr) es;
  called_vouched : vouched tr es;
  called_paid : paid cr cr' es (broker (shared w)) (broker (shared w'));
  called_later : ∀ who, who = None ∨ who ≠ owner z → later who tr w (tr ++ [(LIdle, es)]) w' }.

(** A sender is told that its message was accepted after it was. *)
Definition receipt L (msg : Message) : Prop :=
  ∀ o a, Message_Payload msg = Some (Message_OutboundMessage o) → OutboundMessage_To o = Some a →
    Accepted (topic_of a) (OutboundMessage_UnidentifiedSenderMessage o) ∈ L.

Fixpoint safe z (p : prog unit) cr tr w : Prop :=
  match p with
  | Done _ => True
  | Call o r k => ∀ j tr' w' w'' y,
      later (owner z) tr w tr' w' → inv (S j) tr' w' → perform o w' = Ret (w'', y) →
      let es := r (broker (shared w')) (broker (shared w'')) y in
      from_wire (log tr' ++ es) →
      ∃ cr', called j z cr cr' tr' es w' w'' ∧ (∀ i msg, (i, msg) ∈ tells z o → receipt (log tr') msg) ∧
        safe z (k y) cr' (tr' ++ [(LIdle, es)]) w''
  end.

Lemma safe_later z p cr tr w tr' w' : later (owner z) tr w tr' w' → safe z p cr tr w → safe z p cr tr' w'.
Proof. intros Hl. destruct p; [done|]. simpl. intros H j tr1 w1 w2 y Hl'. apply H. by eapply later_trans. Qed.

Lemma safe_assoc {X Y} z (p : prog X) (f : X → prog Y) (g : Y → prog unit) cr tr w :
  safe z (p ≫= λ x, f x ≫= g) cr tr w → safe z ((p ≫= f) ≫= g) cr tr w.
Proof.
  revert cr tr w. induction p as [x|Z o r k IH]; intros cr tr w; [done|]. simpl.
  intros H j tr' w' w'' y Hl I Hp Hw. destruct (H j tr' w' w'' y Hl I Hp Hw) as (cr' & Hc & Ht & Hk).
  exists cr'. split_and!; [done..|]. by apply IH.
Qed.

Lemma later_vouched who tr w tr' w' es : later who tr w tr' w' → vouched tr es → vouched tr' es.
Proof.
  intros Hl H t x (a & Ht & j & msg & o & ? & ?)%H. exists a. split; [done|]. exists j, msg, o.
  split; [by eapply later_label|done].
Qed.

(** *** Calls that store nothing *)

Lemma paid_calm cr b b' : accounted b b' [] [] → paid cr cr [] b b'.
Proof. intros H t x Ht. pose proof (balanced_nil b b' H t x Ht). lia. Qed.

Lemma called_calm k z cr tr w e :
  inv (S k) tr w → calm (shared w) e → called k z cr cr tr [] w (with_shared e w).
Proof.
  intros I Hc. split.
  - eapply (inv_shared sta Hsta _ _ _ _ _ _ (λ _ _, False)); [done|by apply calm_moves|done].
  - constructor.
  - apply vouched_nil.
  - apply paid_calm, Hc.
  - intros who _. by apply (later_moves _ (λ _ _, False)), calm_moves.
Qed.

(** A call on what is shared that stores nothing, with what is known of its result. *)
Lemma safe_calm {Y} z (f : env → outcome (env * Y)) (φ : Y → env → Prop) (k : Y → prog unit) cr tr w :
  (∀ e e' y, broker_wf (broker e) → cache_ok (publisherCache e) → f e = Ret (e', y) → calm e e' ∧ φ y e') →
  (∀ y tr' w', later (owner z) tr w tr' w' → φ y (shared w') → safe z (k y) cr tr' w') →
  safe z (silently (Shared f) ≫= k) cr tr w.
Proof.
  intros Hf Hk j tr' w' w'' y Hl I Hp es Hw. simpl in Hp. apply bind_Ret_inv in Hp as ([e y'] & He & [= <- <-]).
  destruct (Hf _ _ _ (room_weaken_wf _ _ (i_room _ _ _ _ I)) (i_cache _ _ _ _ I) He) as [Hc Hφ].
  exists cr. split_and!; [by apply called_calm|by destruct z; intros ?? []%not_elem_of_nil|].
  apply Hk; [|done]. eapply later_trans; [done|]. by apply (later_moves _ (λ _ _, False)), calm_moves.
Qed.

(** *** Accesses to a connection *)

(** What an access to connection [i] may change, given what is known: a subscription
    is added for an address it has proved, an acker of a message it was given is
    filed; the identity is changed by its own handler only. *)
Record tame z tr w (i : nat) c c' : Prop := {
  tame_nonce : authNonce c' = authNonce c;
  tame_subs : ∀ sub, sub ∈ subscriptions c' → sub ∈ subscriptions c ∨
    ∃ a, sub_topic (broker (shared w)) sub = Some (topic_of a) ∧ proven tr i a;
  tame_unacked : ∀ q acker, unackedMessages c' !! q = Some acker → unackedMessages c !! q = Some acker ∨
    ∃ a x, ack_topic acker = topic_of a ∧ issued (broker (shared w)) acker x ∧ Delivered i (topic_of a) x ∈ log tr;
  tame_identity : owner z = Some i ∨ identityKey c' = identityKey c ∧ deviceId c' = deviceId c }.

Lemma tame_keeps z tr w i c c' :
  authNonce c' = authNonce c → subscriptions c' = subscriptions c → unackedMessages c' ⊆ unackedMessages c →
  identityKey c' = identityKey c → deviceId c' = deviceId c → tame z tr w i c c'.
Proof.
  intros ? Hs Hu ? ?. split; [done|intros sub; rewrite Hs; by left| |by right].
  intros q acker Hq. left. by eapply lookup_weaken.
Qed.

Lemma tame_later z tr w tr' w' i c c' : later (owner z) tr w tr' w' → tame z tr w i c c' → tame z tr' w' i c c'.
Proof.
  intros Hl [Hn Hs Hu Hi]. split; [done| | |done].
  - intros sub [?|(a & ? & ?)]%Hs; [by left|]. right. exists a. split; [by eapply later_sub|by eapply later_proven].
  - intros q acker [?|(a & x & ? & ? & ?)]%Hu; [by left|]. right. exists a, x.
    split_and!; [done|by eapply later_issued|by eapply later_log].
Qed.

Lemma calm_refl e : calm e e.
Proof. by apply calm_same. Qed.

Lemma called_own k z cr tr w i c n c' :
  inv (S k) tr w → clients w !! i = Some (c, n) → tame z tr w i c c' → called k z cr cr tr [] w (put i c' n w).
Proof.
  intros I Hi [Hn Hs Hu Hid].
  pose proof (called_calm k z cr tr w (shared w) I (calm_refl _)) as [Hin Hj Hv Hp Hl].
  split; [|done..|].
  - apply (inv_client sta k _ (with_shared (shared w) w) i c' n Hin).
    destruct (i_clients _ _ _ _ Hin i c n Hi) as [Cn Cs Cu]. split; [by rewrite Hn| |].
    + intros sub [?|(a & ? & ?)]%Hs; [by apply Cs|]. exists a. split; [done|by apply proven_snoc].
    + intros q acker [?|(a & x & ? & ? & ?)]%Hu; [by eapply Cu|]. exists a, x. split_and!; [done..|]. by rewrite log_snoc, app_nil_r.
  - intros who Hw. destruct (Hl who Hw) as [? ? ? Ho]. split; [done..|]. intros j c1 n1 Hj1 Hc1. simpl.
    rewrite lookup_insert. case_decide as Hij; [|by apply (Ho j c1 n1)].
    subst j. exists c', n. split; [done|]. rewrite Hi in Hc1. injection Hc1 as <- <-.
    destruct Hid as [Hid|[? ?]]; [|by split_and!]. destruct Hw as [->|Hne]; [done|]. by rewrite Hid in Hne.
Qed.

(** What the access to [i] has seen and left. *)
Lemma safe_own {Y} z i (f : clientConnection → clientConnection * Y) (k : Y → prog unit) cr tr w :
  (∀ c tr' w', later (owner z) tr w tr' w' → client_ok tr' (broker (shared w')) i c → tame z tr' w' i c (f c).1) →
  (∀ c n tr1 w1 tr' w', later (owner z) tr w tr1 w1 → clients w1 !! i = Some (c, n) →
     client_ok tr1 (broker (shared w1)) i c →
     tr' = tr1 ++ [(LIdle, [])] → w' = put i (f c).1 n w1 → safe z (k (f c).2) cr tr' w') →
  safe z (on_conn i f ≫= k) cr tr w.
Proof.
  intros Hf Hk j tr' w' w'' y Hl I Hp es Hw. simpl in Hp. destruct (clients w' !! i) as [[c n]|] eqn:Ei; [|done].
  pose proof (i_clients _ _ _ _ I i c n Ei) as Hok. specialize (Hf c tr' w' Hl Hok).
  specialize (Hk c n tr' w' _ _ Hl Ei Hok eq_refl eq_refl).
  destruct (f c) as [c' y'] eqn:Ef. injection Hp as <- <-. exists cr.
  split_and!; [by eapply called_own|by destruct z; intros ?? []%not_elem_of_nil|done].
Qed.

(** An access that changes nothing that others rely on. *)
Lemma safe_tame {Y} z i (f : clientConnection → clientConnection * Y) (k : Y → prog unit) cr tr w :
  (∀ c, same_identity_of c (f c).1 ∧ subscriptions (f c).1 = subscriptions c ∧
        unackedMessages (f c).1 ⊆ unackedMessages c) →
  (∀ y tr' w', later (owner z) tr w tr' w' → safe z (k y) cr tr' w') →
  safe z (on_conn i f ≫= k) cr tr w.
Proof.
  intros Hf Hk. apply safe_own.
  - intros c tr' w' _ _. destruct (Hf c) as ((? & ? & ?) & ? & ?). by apply tame_keeps.
  - intros c n tr1 w1 tr' w' Hl Hi _ -> ->. apply Hk. eapply later_trans; [done|]. eapply later_put; [done|apply Hf].
Qed.

(** Reading a field; what is read is what the connection had. *)
Lemma safe_look {Y} z i (f : clientConnection → Y) (k : Y → prog unit) cr tr w :
  (∀ c n tr' w', later (owner z) tr w tr' w' → clients w' !! i = Some (c, n) → client_ok tr' (broker (shared w')) i c →
     safe z (k (f c)) cr tr' w') →
  safe z (look i f ≫= k) cr tr w.
Proof.
  intros Hk. apply safe_own; [intros; by apply tame_keeps|]. intros c n tr1 w1 tr' w' Hl Hi Hok -> ->.
  eapply safe_later; [|by eapply Hk]. by eapply later_put.
Qed.

Lemma safe_send z i msg (k : unit → prog unit) cr tr w :
  (∀ j m tr' w', later (owner z) tr w tr' w' → z = Handling j m → is_ack msg = true → receipt (log tr') m) →
  (∀ tr' w', later (owner z) tr w tr' w' → safe z (k tt) cr tr' w') →
  safe z (sendTo i msg ≫= k) cr tr w.
Proof.
  intros Ht Hk j tr' w' w'' y Hl I Hp es Hw. simpl in Hp. destruct (clients w' !! i) as [[c n]|] eqn:Ei; [|done].
  injection Hp as <- <-. exists cr. split_and!.
  - eapply called_own; [done..|]. by apply tame_keeps.
  - intros i' m Hin. destruct z as [j' m'| | | | | |]; simpl in Hin; [|by apply not_elem_of_nil in Hin..].
    destruct (is_ack msg) eqn:Ea; [|by apply not_elem_of_nil in Hin]. apply list_elem_of_singleton in Hin.
    injection Hin as -> ->. by eapply Ht.
  - apply Hk. eapply later_trans; [done|]. by eapply later_put.
Qed.

(** What is not an acknowledgement may always be sent. *)
Lemma safe_tell z i msg (k : unit → prog unit) cr tr w :
  is_ack msg = false → (∀ tr' w', later (owner z) tr w tr' w' → safe z (k tt) cr tr' w') →
  safe z (sendTo i msg ≫= k) cr tr w.
Proof. intros Hm. apply safe_send. congruence. Qed.

(** *** Publishing *)

(** Publishing what carries the message [X] for [T]: it is accepted with it, or the
    goroutine has credit for it. *)
Lemma safe_publish z p y T X (acc : bool) (k : option goerror → prog unit) cr tr w :
  let es := if acc then [Accepted T X] else [] in
  (∀ L, from_wire L → log tr ⊆ L → es ⊆ L → authentic L (pub_topic p) y ∧ meant (pub_topic p) y = Some (T, X)) →
  vouched tr es →
  (∀ err tr' w', later (owner z) tr w tr' w' → safe z (k (Some err)) cr tr' w') →
  (∀ tr' w', later (owner z) tr w tr' w' → es ⊆ log tr' → safe z (k None) (if acc then cr else (T, X) :: cr) tr' w') →
  safe z (publish p y es ≫= k) cr tr w.
Proof.
  intros es Ha Hsent Hfail Hok j tr' w' w'' err Hl I Hp es' Hw. simpl in Hp.
  apply bind_Ret_inv in Hp as ([e err'] & He & [= <- <-]). apply bind_Ret_inv in He as ([b er] & Hb & [= <- <-]).
  pose proof (room_one _ _ (i_room _ _ _ _ I)) as R. apply publish_result in Hb; [|done].
  destruct er as [er|]; destruct Hb as [Hm Hacc].
  - exists cr. assert (Hc : calm (shared w') (set_broker b (shared w'))) by done.
    split_and!; [by apply called_calm|by destruct z; intros ?? []%not_elem_of_nil|].
    apply Hfail. eapply later_trans; [done|]. by apply (later_moves _ (λ _ _, False)), calm_moves.
  - destruct (Ha (log tr' ++ es)) as [Hau Hme]; [done|intros x Hx; apply elem_of_app; left; by eapply later_log|by apply list_subseteq_app_r|].
    assert (Hv : env_moves (λ t y', t = pub_topic p ∧ y' = y) (shared w') (set_broker b (shared w'))) by (by split).
    exists (if acc then cr else (T, X) :: cr). split_and!; [split| |].
    + eapply inv_shared; [done..|]. by intros t y' [-> ->].
    + unfold es', es. destruct acc; [|constructor]. by constructor; [|constructor].
    + by eapply later_vouched.
    + intros t x Ht. pose proof (held_accounted _ _ _ _ _ x Hacc Ht) as Hh. rewrite copies_nil, copies_one, Hme in Hh.
      unfold es', es. simpl. destruct acc.
      * pose proof (accepted_balance _ _ T X _ _ Hacc Hme t x Ht). lia.
      * rewrite credit_cons. unfold n_accepted, n_settled. simpl.
        destruct (decide ((T, X) = (t, x))) as [E|E].
        -- rewrite decide_True in Hh by congruence. lia.
        -- rewrite decide_False in Hh by congruence. lia.
    + intros who _. by eapply later_moves.
    + by destruct z; intros ?? []%not_elem_of_nil.
    + apply Hok; [|rewrite log_snoc; by apply list_subseteq_app_r]. eapply later_trans; [done|]. by eapply later_moves.
Qed.

(** *** Acknowledging *)

Lemma called_ack k z acker cr cr' tr es w b err :
  inv (S k) tr w → broker_Ack acker (broker (shared w)) = Ret (b, err) → Forall (justified tr) es → vouched tr es →
  paid cr cr' es (broker (shared w)) b → called k z cr cr' tr es w (with_shared (set_broker b (shared w)) w).
Proof.
  intros I Hb Hj Hv0 Hp. destruct (Ack_law _ _ _ _ Hb) as [Hs _].
  assert (Hv : env_moves (λ _ _, False) (shared w) (set_broker b (shared w))).
  { split; [by apply steady_moves|done]. }
  split; [|done..|].
  - by eapply inv_shared.
  - intros who _. by eapply later_moves.
Qed.

Lemma ack_later who tr w acker b err x :
  broker_Ack acker (broker (shared w)) = Ret (b, err) →
  later who tr w (tr ++ [x]) (with_shared (set_broker b (shared w)) w).
Proof.
  intros Hb. destruct (Ack_law _ _ _ _ Hb) as [Hs _]. apply (later_moves _ (λ _ _, False)).
  split; [by apply steady_moves|done].
Qed.

(** A client acknowledges what it was given. *)
Lemma safe_client_ack z i acker a x (k : option goerror → prog unit) cr tr w :
  ack_topic acker = topic_of a → issued (broker (shared w)) acker x → Delivered i (topic_of a) x ∈ log tr →
  (∀ err tr' w', later (owner z) tr w tr' w' → safe z (k err) cr tr' w') →
  safe z (callAcker acker (λ b _ err, match err with
    | None => Acked i (ack_topic acker) <$> option_list (ack_target b acker) | Some _ => [] end) ≫= k) cr tr w.
Proof.
  intros Ht Hiss Hdel Hk j tr' w' w'' err Hl I Hp es Hw. simpl in Hp.
  apply bind_Ret_inv in Hp as ([e err'] & He & [= <- <-]). apply bind_Ret_inv in He as ([b er] & Hb & [= <- <-]).
  destruct (Ack_law _ _ _ _ Hb) as [Hs Hlog]. apply (later_issued _ _ _ _ _ Hl) in Hiss.
  apply (later_log _ _ _ _ _ _ Hl) in Hdel. exists cr. split_and!.
  - eapply called_ack; [done..| | |].
    + unfold es. destruct er as [er|]; [constructor|]. destruct (ack_target _ acker) as [y|] eqn:Et; [|constructor].
      constructor; [|constructor]. rewrite Ht. by rewrite (issued_target _ _ _ _ Hiss Et).
    + intros t y. unfold es. destruct er as [er|]; [by intros ?%not_elem_of_nil|]. by intros (? & ? & _)%list_elem_of_fmap.
    + unfold es. simpl. destruct er as [er|].
      { apply paid_calm. intros t. simpl. by rewrite (Hlog t). }
      intros t y Hty. rewrite Ht. cut (balanced (Acked i (topic_of a) <$> option_list (ack_target (broker (shared w')) acker))
        (broker (shared w')) b); [intros Hbal; specialize (Hbal t y Hty); lia|].
      apply acks_balance. intros t'. simpl. rewrite (Hlog t'), Ht.
      destruct (ack_target _ acker); simpl; [rewrite at_topic_one|]; by case_decide.
  - by destruct z; intros ?? []%not_elem_of_nil.
  - apply Hk. eapply later_trans; [done|]. by eapply ack_later.
Qed.

(** A message to be forwarded, or to be transferred, is acknowledged: the copy that
    replaces it pays. *)
Lemma safe_ack_moved z acker data T X cr tr w :
  issued (broker (shared w)) acker data → meant (ack_topic acker) data = Some (T, X) →
  safe z (runAck acker nothing) ((T, X) :: cr) tr w.
Proof.
  intros Hiss Hm j tr' w' w'' err Hl I Hp es Hw. simpl in Hp.
  apply bind_Ret_inv in Hp as ([e err'] & He & [= <- <-]). apply bind_Ret_inv in He as ([b er] & Hb & [= <- <-]).
  apply (later_issued _ _ _ _ _ Hl) in Hiss.
  destruct (ack_acked _ _ _ _ _ (issued_names _ _ _ Hiss) Hb) as [_ Ha].
  exists cr. split_and!; [|by destruct z; intros ?? []%not_elem_of_nil|done].
  eapply called_ack; [done..|constructor|apply vouched_nil|]. intros t x Ht.
  pose proof (acked_balance _ _ _ _ _ _ _ t x Ha Hm Ht) as Hbal. rewrite copies_nil in Hbal. rewrite credit_cons. simpl.
  unfold es, nothing, n_accepted, n_settled. simpl. lia.
Qed.

(** It is acknowledged because it came to an end. *)
Lemma safe_ack_ends z acker data m (f : string → option string → entry) T X cr tr w :
  issued (broker (shared w)) acker data → meant (ack_topic acker) data = Some (T, X) →
  carried m = Some (T, X) → Accepted T X ∈ log tr → f = Expired ∨ f = Relayed →
  safe z (runAck acker (ends f m)) cr tr w.
Proof.
  intros Hiss Hm Hc Hin Hf j tr' w' w'' err Hl I Hp es Hw. simpl in Hp.
  apply bind_Ret_inv in Hp as ([e err'] & He & [= <- <-]). apply bind_Ret_inv in He as ([b er] & Hb & [= <- <-]).
  apply (later_issued _ _ _ _ _ Hl) in Hiss. apply (later_log _ _ _ _ _ _ Hl) in Hin.
  destruct (ack_acked _ _ _ _ _ (issued_names _ _ _ Hiss) Hb) as [_ Ha].
  exists cr. split_and!; [|by destruct z; intros ?? []%not_elem_of_nil|done].
  assert (E : es = if fewer (broker (shared w')) b T X then [f T X] else []) by (unfold es, ends; by rewrite Hc).
  rewrite E. eapply called_ack; [done..| | |].
  - destruct (fewer _ _ _ _); [|constructor]. constructor; [|constructor]. by destruct Hf; subst f.
  - intros t x. destruct (fewer _ _ _ _); [|by intros ?%not_elem_of_nil]. intros ?%list_elem_of_singleton.
    by destruct Hf; subst f.
  - intros t x Ht. assert (Hbal := acked_gone _ _ _ _ T X (f T X) Ha Hm). simpl.
    enough (balanced (if fewer (broker (shared w')) b T X then [f T X] else []) (broker (shared w')) b) as Hbb.
    { specialize (Hbb t x Ht). lia. }
    by destruct Hf; subst f; apply Hbal.
Qed.

(** *** The forwarder and the variables of the transfer goroutine *)

Definition calls_ok tr w (f : Forwarder Conn callback) : Prop :=
  ∀ q cb, callbacks f !! q = Some cb → callback_ok (log tr) (broker (shared w)) cb.

Lemma safe_forwards {Y} z (f : Forwarder Conn callback → N → N * Forwarder Conn callback * Y) (k : Y → prog unit) cr tr w :
  (∀ tr' w' n f' y, later (owner z) tr w tr' w' → calls_ok tr' w' (fwd w') → f (fwd w') (net w') = (n, f', y) →
     calls_ok tr' w' f' ∧ safe z (k y) cr tr' w') →
  safe z (silently (Forwards f) ≫= k) cr tr w.
Proof.
  intros H j tr' w' w'' y Hl I Hp es Hw. simpl in Hp. destruct (f (fwd w') (net w')) as [[n f'] y'] eqn:E.
  injection Hp as <- <-. destruct (H tr' w' n f' y' Hl (i_calls _ _ _ _ I) E) as [Hf Hk]. exists cr.
  pose proof (called_calm j z cr tr' w' (shared w') I (calm_refl _)) as [Hin Hj Hv Hp _].
  split_and!; [split| |].
  - apply (inv_callbacks sta j _ (with_shared (shared w') w')); [exact Hin|]. intros q cb Hq. unfold es. rewrite log_snoc, app_nil_r.
    by apply (Hf q).
  - done.
  - done.
  - done.
  - intros who _. by apply later_same.
  - by destruct z; intros ?? []%not_elem_of_nil.
  - eapply safe_later; [|exact Hk]. by apply later_same.
Qed.

Lemma safe_turn z (m : mover) cr tr w :
  (∀ sub addr, m = Moving sub addr → sub_topic (broker (shared w)) sub = Some (topic_of addr)) →
  safe z (silently (Turn m)) cr tr w.
Proof.
  intros H j tr' w' w'' y Hl I Hp es Hw. injection Hp as <- <-. exists cr.
  pose proof (called_calm j z cr tr' w' (shared w') I (calm_refl _)) as [Hin Hj Hv Hp _].
  split_and!; [split| |]; [|done..| | |done].
  - apply (inv_transfer sta j _ (with_shared (shared w') w')); [exact Hin|]. intros sub addr Hm. simpl.
    eapply later_sub; [done|]. by apply H.
  - intros who _. by apply later_same.
  - by destruct z; intros ?? []%not_elem_of_nil.
Qed.
End safe.
