(* ===== verification/InterleavingSafe.v ===== *)
(** * InterleavingSafe: the programs of the goroutines are safe

    By the rules of InterleavingInv.v, for every handler of a connection, for the
    workers and readers of forwarded messages and for the transfer goroutine. *)

From S2P Require Import Prelude Model Externals DB Broker Presence Attachments Forwarder Service ServiceProps Connection Forwarding Tassis TassisSteps TassisInv TassisProps Goroutines Interleaving InterleavingInv.

Import serviceimpl forwarder forwarding tassis goroutines interleaving.

Section programs.
Context {ID : Identity} {PR : Proto} {PL : ProtoLaws}.
Context {D B P A C : Type} {DBI : DB D} {BI : Broker B} {PI : Presence P}
        {AI : Attachments A} {LI : LRU C Publisher}.
Context {N Conn : Type} (dial : string → N → N * result Conn).
Context {BL : BrokerLaws B} {LL : LRULaws C Publisher}.
Context (srvc : Service) (sta : started (BI:=BI)) (Hsta : started_ok sta).
#[local] Abbreviation env := (@env D B P A C).
#[local] Abbreviation tassis := (@tassis D B P A C BI N Conn).
#[local] Abbreviation trace := (list (label (BI:=BI) * list entry)).
#[local] Abbreviation clientConnection := (clientConnection (BI:=BI)).
#[local] Abbreviation prog := (@goroutines.prog D B P A C BI N Conn).
#[local] Abbreviation credits := (list (string * option string)).
#[local] Abbreviation safe := (safe sta).
Implicit Types (w : tassis) (tr : trace) (e : env) (b : B) (z : cause) (cr : credits) (msg : Message).

(** ** The calls that store nothing *)

Lemma safe_still {Y} z (f : env → outcome (env * Y)) (k : Y → prog unit) cr tr w :
  (∀ e e' y, f e = Ret (e', y) → broker e' = broker e ∧ publisherCache e' = publisherCache e) →
  (∀ y tr' w', later (owner z) tr w tr' w' → safe z (k y) cr tr' w') →
  safe z (silently (Shared f) ≫= k) cr tr w.
Proof.
  intros Hf Hk. apply (safe_calm sta Hsta z f (λ _ _, True)); [|auto]. intros e e' y _ _ H.
  split; [|done]. destruct (Hf _ _ _ H). by apply calm_same.
Qed.

Lemma safe_db {Y} z (f : D → outcome (D * Y)) (k : Y → prog unit) cr tr w :
  (∀ y tr' w', later (owner z) tr w tr' w' → safe z (k y) cr tr' w') → safe z (on_db f ≫= k) cr tr w.
Proof. apply safe_still. intros e e' y H. apply bind_Ret_inv in H as ([d y'] & _ & [= <- <-]). done. Qed.

Lemma safe_find z a (k : _ → prog unit) cr tr w :
  (∀ res tr' w', later (owner z) tr w tr' w' → safe z (k res) cr tr' w') → safe z (find a ≫= k) cr tr w.
Proof. apply safe_still. intros e e' y. by destruct (presence_Find _ _) as [p res]; intros [= <- <-]. Qed.

Lemma safe_announce z a host (k : _ → prog unit) cr tr w :
  (∀ res tr' w', later (owner z) tr w tr' w' → safe z (k res) cr tr' w') → safe z (announce a host ≫= k) cr tr w.
Proof. apply safe_still. intros e e' y. by destruct (presence_Announce _ _ _) as [p res]; intros [= <- <-]. Qed.

Lemma safe_upload z (k : _ → prog unit) cr tr w :
  (∀ res tr' w', later (owner z) tr w tr' w' → safe z (k res) cr tr' w') → safe z (authorizeUpload ≫= k) cr tr w.
Proof. apply safe_still. intros e e' y. by destruct (attachments_AuthorizeUpload _) as [p res]; intros [= <- <-]. Qed.

Lemma safe_size z (k : _ → prog unit) cr tr w :
  (∀ res tr' w', later (owner z) tr w tr' w' → safe z (k res) cr tr' w') → safe z (maxAttachmentSize ≫= k) cr tr w.
Proof. apply safe_still. by intros e e' y [= <- <-]. Qed.

Lemma safe_try {Y} z (m : outcome Y) (k : Y → prog unit) cr tr w :
  (∀ y tr' w', m = Ret y → later (owner z) tr w tr' w' → safe z (k y) cr tr' w') → safe z (try m ≫= k) cr tr w.
Proof.
  intros Hk. apply (safe_calm sta Hsta z _ (λ y _, m = Ret y)).
  - intros e e' y _ _ H. apply bind_Ret_inv in H as (y' & Hm & [= <- <-]). split; [apply calm_refl|done].
  - auto.
Qed.

Lemma safe_subscribe z t (k : _ → prog unit) cr tr w :
  (∀ res tr' w', later (owner z) tr w tr' w' →
     (∀ sub, res = Ok sub → sub_topic (broker (shared w')) sub = Some t) → safe z (k res) cr tr' w') →
  safe z (newSubscriber t ≫= k) cr tr w.
Proof.
  apply (safe_calm sta Hsta z _ (λ res e, ∀ sub, res = Ok sub → sub_topic (broker e) sub = Some t)).
  intros e e' res W Hc. destruct (broker_NewSubscriber t (broker e)) as [b r] eqn:E. intros [= <- <-].
  apply NewSubscriber_law in E as [Hq Hs]; [|done]. split; [by apply calm_quiet|done].
Qed.

Lemma safe_close z sub (k : _ → prog unit) cr tr w :
  (∀ tr' w', later (owner z) tr w tr' w' → safe z (k tt) cr tr' w') → safe z (closeSubscriber sub ≫= k) cr tr w.
Proof.
  intros Hk. apply (safe_calm sta Hsta z _ (λ _ _, True)); [|by intros [] tr' w' ? _; apply Hk].
  intros e e' y W Hc [= <- <-]. split; [|done]. apply calm_quiet; [by apply CloseSubscriber_law|done].
Qed.

Lemma safe_publisherFor z t (k : _ → prog unit) cr tr w :
  (∀ res tr' w', later (owner z) tr w tr' w' → (∀ p, res = Ok p → pub_topic p = t) → safe z (k res) cr tr' w') →
  safe z (publisherFor t ≫= k) cr tr w.
Proof.
  intros Hk. apply safe_assoc, (safe_calm sta Hsta z _ (λ res _, ∀ p, res = Some p → pub_topic p = t)).
  { intros e e' res W Hc. destruct (lru_Get_law t (publisherCache e)) as (c & -> & Hv). intros [= <- <-]. split.
    - apply calm_quiet; [done|]. intros _ t' p'. simpl. rewrite Hv. apply Hc.
    - intros p Hp. by apply Hc. }
  intros [p|] tr1 w1 Hl1 Hp; [apply Hk; [done|]; intros p' [= <-]; by apply Hp|]. clear Hp.
  apply safe_assoc, (safe_calm sta Hsta z _ (λ res _, ∀ p, res = Ok p → pub_topic p = t)).
  { intros e e' res W Hc. destruct (broker_NewPublisher t (broker e)) as [b r] eqn:E. intros [= <- <-].
    apply NewPublisher_law in E as [Hq Hp]; [|done]. split; [by apply calm_quiet|done]. }
  intros [p|err] tr2 w2 Hl2 Hp; [|by apply Hk; [by eapply later_trans|]]. specialize (Hp p eq_refl).
  apply safe_assoc, (safe_calm sta Hsta z _ (λ _ _, True)).
  - intros e e' [] W Hc. destruct (lru_Add t p (publisherCache e)) as [c out] eqn:E. intros [= <-]. split; [|done].
    apply lru_Add_law in E as [_ Hsub]. apply calm_quiet; [by apply close_all_quiet|]. intros _ t' p' Hl. simpl in Hl.
    eapply lookup_weaken in Hl; [|exact Hsub]. rewrite lookup_insert in Hl. case_decide; [by simplify_eq|by apply Hc].
  - intros [] tr3 w3 Hl3 _. apply Hk; [|by intros p' [= <-]]. eapply later_trans; [exact Hl1|]. by eapply later_trans.
Qed.

(** Replies that end a handler. *)
Lemma safe_reply z i m cr tr w : is_ack m = false → safe z (sendTo i m) cr tr w.
Proof. intros Hm. by apply (safe_tell sta Hsta z i m Done). Qed.

Lemma safe_error z i msg err cr tr w : safe z (errorTo i msg err) cr tr w.
Proof. by apply safe_reply. Qed.

Lemma receipt_later who tr w tr' w' msg : later who tr w tr' w' → receipt (log tr) msg → receipt (log tr') msg.
Proof. intros Hl H o a Ho Ha. eapply later_log; [done|]. by apply (H o a). Qed.

Lemma safe_ack i msg cr tr w : receipt (log tr) msg → safe (Handling i msg) (ackTo i msg) cr tr w.
Proof.
  intros H. apply (safe_send sta Hsta (Handling i msg) i (NewAck msg) Done); [|done].
  intros j m tr' w' Hl [= <- <-] _. by eapply receipt_later.
Qed.

(** A message that is not for another device needs no receipt. *)
Lemma no_receipt L msg : (∀ o, Message_Payload msg ≠ Some (Message_OutboundMessage o)) → receipt L msg.
Proof. intros H o a Ho. by apply H in Ho. Qed.

Lemma safe_closeConn z i (k : unit → prog unit) cr tr w :
  (∀ tr' w', later (owner z) tr w tr' w' → safe z (k tt) cr tr' w') → safe z (closeConn i ≫= k) cr tr w.
Proof. intros Hk. apply safe_tame; [done|by intros c|]. by intros []. Qed.

Lemma safe_build z i payload (k : Message → prog unit) cr tr w :
  (∀ m tr' w', later (owner z) tr w tr' w' → Message_Payload m = Some payload → safe z (k m) cr tr' w') →
  safe z (build i payload ≫= k) cr tr w.
Proof.
  intros Hk. apply safe_own; [done|intros; by apply tame_keeps|].
  intros c n tr1 w1 tr' w' Hl Hi _ -> ->. apply Hk; [|done]. eapply later_trans; [done|]. by eapply later_put.
Qed.

(** ** A client's messages *)

(** Go through the calls of which nothing has to be known. *)
Ltac walk :=
  repeat first
    [ progress cbn beta iota
    | apply safe_error | by apply safe_reply
    | apply safe_reply; unfold is_ack; by match goal with H : Message_Payload ?m = Some _ |- _ => rewrite H end
    | apply safe_try; intros ? ? ? ? ? | apply safe_db; intros ? ? ? ? | apply safe_find; intros ? ? ? ?
    | apply safe_announce; intros ? ? ? ? | apply safe_upload; intros ? ? ? ? | apply safe_size; intros ? ? ? ?
    | apply (safe_look sta Hsta); intros ? ? ? ? ? ? ?
    | apply safe_closeConn; intros ? ? ? | apply safe_build; intros ? ? ? ? ?
    | apply (safe_tell sta Hsta); [reflexivity|intros ? ? ?]
    | lazymatch goal with
      | |- safe _ (match ?x with _ => _ end) _ _ _ => destruct x
      | |- safe _ (mret _) _ _ _ => exact I
      end ].

Lemma safe_Register i msg r cr tr w :
  Message_Payload msg = Some (Message_Register r) → safe (Handling i msg) (handleRegister srvc i msg) cr tr w.
Proof. intros Hm. unfold handleRegister. walk. apply safe_ack, no_receipt. congruence. Qed.

Lemma safe_Unregister i msg cr tr w :
  Message_Payload msg = Some Message_Unregister → safe (Handling i msg) (handleUnregister i msg) cr tr w.
Proof. intros Hm. unfold handleUnregister. walk. apply safe_ack, no_receipt. congruence. Qed.

Lemma safe_RequestPreKeys z i msg cr tr w : safe z (handleRequestPreKeys i msg) cr tr w.
Proof. unfold handleRequestPreKeys. walk. Qed.

Lemma safe_FindByShort z i msg cr tr w : safe z (handleFindChatNumberByShortNumber srvc i msg) cr tr w.
Proof. unfold handleFindChatNumberByShortNumber. walk. Qed.

Lemma safe_FindByKey z i msg cr tr w : safe z (handleFindChatNumberByIdentityKey srvc i msg) cr tr w.
Proof. unfold handleFindChatNumberByIdentityKey. walk. Qed.

Lemma safe_authorizations z n auths err (k : _ → prog unit) cr tr w :
  (∀ res tr' w', safe z (k res) cr tr' w') → safe z (authorizeUploads n auths err ≫= k) cr tr w.
Proof.
  intros Hk. revert auths err tr w. induction n as [|n IH]; intros auths err tr w; [apply Hk|].
  cbn [authorizeUploads]. apply safe_assoc, safe_upload. intros [auth|er] tr' w' _; apply IH.
Qed.

Lemma safe_Upload z i msg cr tr w : safe z (handleRequestUploadAuthorizations i msg) cr tr w.
Proof.
  unfold handleRequestUploadAuthorizations. walk. apply safe_authorizations. intros [auths err] ? ?. walk.
Qed.

Lemma safe_Check z i cr tr w : safe z (warnPreKeysLowIfNecessary srvc i) cr tr w.
Proof. unfold warnPreKeysLowIfNecessary. walk. Qed.

Lemma safe_Init z i cr tr w : safe z (sendInitMessages i) cr tr w.
Proof.
  unfold sendInitMessages. apply (safe_look sta Hsta). intros c n ? ? _ _ _. apply safe_build. intros m ? ? _ Hm.
  apply (safe_tell sta Hsta); [unfold is_ack; by rewrite Hm|]. intros ? ? _. walk.
Qed.

(** *** Logging in *)

(** Connection [i] acts for the address [a]. *)
Definition acts_as (i : nat) (a : Address) w : Prop :=
  ∃ c n, clients w !! i = Some (c, n) ∧ identityKey c = Some (Address_IdentityKey a) ∧
    deviceId c = Some (Address_DeviceId a).

Lemma acts_as_later i a tr w tr' w' : later (Some i) tr w tr' w' → acts_as i a w → acts_as i a w'.
Proof.
  intros Hl (c & n & Hc & Hk & Hd). destruct (later_own _ _ _ _ _ Hl i c n eq_refl Hc) as (c' & n' & Hc' & _ & Hk' & Hd').
  exists c', n'. by rewrite Hk', Hd'.
Qed.

Lemma safe_number z fuel iter key num (k : _ → prog unit) cr tr w :
  (∀ res tr' w', later (owner z) tr w tr' w' → safe z (k res) cr tr' w') →
  safe z (getNumber fuel iter key num ≫= k) cr tr w.
Proof.
  revert iter tr w. induction fuel as [|fuel IH]; intros iter tr w Hk; cbn [getNumber].
  - apply safe_try. done.
  - apply safe_assoc, safe_try. intros [[n1 n2] last] tr1 w1 _ Hl1. apply safe_assoc, safe_db. intros res tr2 w2 Hl2.
    assert (Hl : later (owner z) tr w tr2 w2) by (by eapply later_trans).
    destruct res as [p|err]; [by apply Hk|]. destruct (error_Is err ErrNumberTaken && negb last); [|by apply Hk].
    apply IH. intros res tr3 w3 Hl3. apply Hk. by eapply later_trans.
Qed.

Lemma safe_inbound i msg a (k : _ → prog unit) cr tr w :
  acts_as i a w → proven tr i a → (∀ res tr' w', safe (Handling i msg) (k res) cr tr' w') →
  safe (Handling i msg) (startHandlingInbound i ≫= k) cr tr w.
Proof.
  intros Ha Hp Hk. unfold startHandlingInbound. set (z := Handling i msg).
  apply safe_assoc, (safe_look sta Hsta). intros c1 n1 tr1 w1 Hl1 Hc1 _.
  apply (acts_as_later _ _ _ _ _ _ Hl1) in Ha as Ha1. apply (later_proven _ _ _ _ _ _ _ Hl1) in Hp.
  assert (E1 : getIdentityKey c1 = Address_IdentityKey a).
  { destruct Ha1 as (c & n & Hc & Hk1 & _). rewrite Hc1 in Hc. injection Hc as <- <-. unfold getIdentityKey. by rewrite Hk1. }
  apply safe_assoc, (safe_look sta Hsta). intros c2 n2 tr2 w2 Hl2 Hc2 _.
  apply (acts_as_later _ _ _ _ _ _ Hl2) in Ha1 as Ha2. apply (later_proven _ _ _ _ _ _ _ Hl2) in Hp.
  assert (E2 : getDeviceId c2 = Address_DeviceId a).
  { destruct Ha2 as (c & n & Hc & _ & Hd). rewrite Hc2 in Hc. injection Hc as <- <-. unfold getDeviceId. by rewrite Hd. }
  rewrite E1, E2. apply safe_assoc, safe_subscribe. intros res tr3 w3 Hl3 Hs.
  apply (later_proven _ _ _ _ _ _ _ Hl3) in Hp. destruct res as [sub|err]; [|apply Hk].
  apply safe_assoc, safe_own; [done| |intros; apply Hk].
  intros c tr4 w4 Hl4 _. split; [done| |by left|by left]. intros sub'. simpl.
  intros [?|Hin%list_elem_of_singleton]%elem_of_app; [by left|subst sub']. right. exists a.
  split; [|by eapply later_proven]. eapply later_sub; [done|]. by apply Hs.
Qed.

Lemma safe_Login i msg a cr tr w :
  acts_as i a w → proven tr i a → safe (Handling i msg) (finishLogin srvc i msg) cr tr w.
Proof.
  intros Ha Hp. unfold finishLogin. set (z := Handling i msg).
  assert (Hgo : ∀ n sn tr' w', later (owner z) tr w tr' w' →
    safe z (failed ← startHandlingInbound i;
      match failed with
      | Some err => errorTo i msg err
      | None => _ ← (if decide (0 < checkPreKeysInterval srvc)%Z then on_conn i (λ c, (put_check c, tt)) else mret tt);
                sendTo i (chatNumberMessage srvc msg n sn)
      end) cr tr' w').
  { intros n sn tr' w' Hl. eapply safe_inbound; [by eapply acts_as_later|by eapply later_proven|].
    intros [err|] tr1 w1; [apply safe_error|]. destruct (decide _); [|by apply safe_reply].
    apply safe_tame; [done..|]. intros [] ? ? _. by apply safe_reply. }
  apply (safe_look sta Hsta). intros c n tr1 w1 Hl1 _ _. apply safe_number. intros res tr2 w2 Hl2.
  assert (Hl : later (owner z) tr w tr2 w2) by (by eapply later_trans).
  destruct res as [[num short]|err]; [by apply Hgo|].
  apply safe_assoc, (safe_tell sta Hsta); [done|]. intros tr3 w3 Hl3. apply safe_assoc, safe_closeConn.
  intros tr4 w4 Hl4. apply Hgo. eapply later_trans; [exact Hl|]. by eapply later_trans.
Qed.

Lemma safe_AuthResponse i msg cr tr w :
  LClient i (EvOut msg) ∈ tr.*1 → safe (Handling i msg) (handleAuthResponse srvc i msg) cr tr w.
Proof.
  intros Hin. unfold handleAuthResponse. set (z := Handling i msg).
  assert (Href : ∀ err tr' w', safe z (refuseLogin i msg err) cr tr' w').
  { intros err tr' w'. apply (safe_tell sta Hsta); [done|]. intros ? ? _.
    apply (safe_closeConn z i Done). done. }
  apply safe_try. intros ar tr1 w1 Har Hl1. apply deref_Ret_inv in Har.
  destruct (Unmarshal_Login _) as [login|err] eqn:El; [|apply Href].
  apply (safe_look sta Hsta). intros c n tr2 w2 Hl2 Hc Hok. case_decide as En; [|apply Href].
  apply safe_try. intros a tr3 w3 Ha Hl3. apply deref_Ret_inv in Ha.
  destruct (PublicKey_Verify _ _ _) eqn:Ev; [|apply Href].
  assert (Hp : proven tr3 i a).
  { exists (authNonce c), msg. split_and!.
    - eapply later_label; [done|]. apply (co_nonce _ _ _ _ Hok).
    - eapply later_label; [done|]. eapply later_label; [done|]. by eapply later_label.
    - exists ar, login. split_and!; try done. unfold GetAuthResponse in Har. by repeat case_match; simplify_eq. }
  apply safe_own; [done|intros; by split; [done|by left|by left|by left]|].
  intros c4 n4 tr4 w4 tr5 w5 Hl4 Hc4 _ -> ->. apply (later_proven _ _ _ _ _ _ _ Hl4) in Hp.
  apply safe_own; [done|intros; by split; [done|by left|by left|by left]|].
  intros c6 n6 tr6 w6 tr7 w7 Hl6 Hc6 _ -> ->. apply (safe_Login _ _ a).
  - destruct (later_own _ _ _ _ _ Hl6 i _ n4 eq_refl (lookup_insert_eq _ _ _)) as (c' & n' & Hc' & _ & Hk & _).
    rewrite Hc6 in Hc'. injection Hc' as <- <-. exists (put_device (Address_DeviceId a) c6), n6.
    split; [apply lookup_insert_eq|]. split; [exact Hk|done].
  - apply proven_snoc. eapply later_proven; [exact Hl6|]. by apply proven_snoc.
Qed.

(** *** Messages and acknowledgements *)

Lemma safe_ACK z i msg cr tr w : safe z (handleACK i msg) cr tr w.
Proof.
  unfold handleACK. apply (safe_look sta Hsta). intros c n tr1 w1 Hl1 _ Hok.
  destruct (unackedMessages c !! _) as [acker|] eqn:Eu; [|done].
  destruct (co_unacked _ _ _ _ Hok _ _ Eu) as (a & x & Ht & Hiss & Hdel).
  apply (safe_client_ack sta Hsta _ _ _ a x); [done..|]. intros [err|] tr2 w2 _; [done|].
  apply (safe_tame sta Hsta z i _ Done); [|done]. intros c'. split; [done|]. split; [done|]. apply delete_subseteq.
Qed.

Lemma safe_publishOutbound i msg o a t y cr tr w :
  LClient i (EvOut msg) ∈ tr.*1 →
  Message_Payload msg = Some (Message_OutboundMessage o) → OutboundMessage_To o = Some a → stored_as o a t y →
  safe (Handling i msg)
    (publishOutbound i msg t y [Accepted (topic_of a) (OutboundMessage_UnidentifiedSenderMessage o)]) cr tr w.
Proof.
  intros Hl Hm Ha Hs. apply safe_publisherFor. intros [p|err] tr1 w1 Hl1 Hp; [|apply safe_error].
  apply (safe_publish sta Hsta _ _ _ _ _ true).
  - intros L Hw _ Hin. rewrite (Hp p eq_refl). eapply stored_as_authentic; [done| |done..]. apply Hin. by left.
  - intros T X Hin%list_elem_of_singleton. injection Hin as -> ->. exists a. split; [done|]. exists i, msg, o.
    split; [by eapply later_label|done].
  - intros err tr2 w2 _. apply safe_error.
  - intros tr2 w2 _ Hin. apply safe_ack. intros o' a' Ho' Ha'.
    assert (o' = o) as -> by congruence. assert (a' = a) as -> by congruence. apply Hin. by left.
Qed.

Lemma safe_Outbound i msg o cr tr w :
  LClient i (EvOut msg) ∈ tr.*1 →
  Message_Payload msg = Some (Message_OutboundMessage o) →
  safe (Handling i msg) (sendOutboundMessage srvc i msg) cr tr w.
Proof.
  intros Hin Hm. unfold sendOutboundMessage, GetOutboundMessage. rewrite Hm. apply safe_try. intros o' tr1 w1 [= <-] Hl1.
  apply safe_find. intros [host|err] tr2 w2 Hl2; [|apply safe_error]. apply safe_try. intros t tr3 w3 Ht Hl3.
  apply (later_label _ _ _ _ _ _ Hl1), (later_label _ _ _ _ _ _ Hl2), (later_label _ _ _ _ _ _ Hl3) in Hin.
  unfold topicForAddr in Ht. apply bind_Ret_inv in Ht as (a & Ha & [= <-]). apply deref_Ret_inv in Ha.
  case_decide; [eapply safe_publishOutbound; [done..|by left]|].
  destruct (Marshal_ForwardedMessage _) as [bytes|er] eqn:Em; [|apply safe_error].
  eapply safe_publishOutbound; [done..|]. right. eauto.
Qed.

Lemma safe_handler i msg cr tr w :
  LClient i (EvOut msg) ∈ tr.*1 → safe (Handling i msg) (doHandleOutboundMessage srvc i msg) cr tr w.
Proof.
  intros Hin. unfold doHandleOutboundMessage.
  destruct (Message_Payload msg) as [[]|] eqn:Em; try done; [apply safe_ACK|..];
    (apply (safe_look sta Hsta); intros c n tr1 w1 Hl1 _ _; destruct (Bool.eqb _ _); [apply safe_error|]).
  - apply safe_AuthResponse. by eapply later_label.
  - by eapply safe_Register.
  - by apply safe_Unregister.
  - apply safe_RequestPreKeys.
  - apply safe_Upload.
  - eapply safe_Outbound; [by eapply later_label|done].
  - apply safe_FindByShort.
  - apply safe_FindByKey.
Qed.

Lemma safe_Inbound z i data acker a cr tr w :
  ack_topic acker = topic_of a → issued (broker (shared w)) acker data → Delivered i (topic_of a) data ∈ log tr →
  safe z (handleInboundMessage i data acker) cr tr w.
Proof.
  intros Ht Hiss Hdel. unfold handleInboundMessage. apply safe_build. intros m tr1 w1 Hl1 Hm.
  apply safe_own; [done| |].
  - intros c tr2 w2 Hl2 _. split; [done|by left| |by right]. intros q acker'. simpl. rewrite lookup_insert.
    case_decide; [|by left]. intros [= <-]. right. exists a, data.
    split_and!; [done|eapply later_issued; [done|]; by eapply later_issued|eapply later_log; [done|]; by eapply later_log].
  - intros. apply safe_reply. unfold is_ack. by rewrite Hm.
Qed.

(** ** Forwarding *)

Lemma callback_ok_later who tr w tr' w' cb :
  later who tr w tr' w' → callback_ok (log tr) (broker (shared w)) cb → callback_ok (log tr') (broker (shared w')) cb.
Proof. intros Hl (? & data & ? & ?). split; [done|]. exists data. split; [by eapply later_handed|done]. Qed.

(** What a callback stands for. *)
Lemma callback_inv L b (cb : callback (BI:=BI)) :
  callback_ok L b cb → ∃ data T X, issued b (cb_ack cb) data ∧ meant (ack_topic (cb_ack cb)) data = Some (T, X) ∧
    carried (cb_msg cb) = Some (T, X) ∧ wire_normal (cb_msg cb) ∧ Accepted T X ∈ L ∧
    pub_topic (cb_retry cb) = forwardingRetryTopic.
Proof.
  intros (Hr & data & (Hiss & Hfn & Hpo) & Hu).
  destruct (parcel_ok_inv _ _ Hpo) as (m & o & a & Hu' & Hw & _ & _ & Hca & Hpa & Hin).
  assert (m = cb_msg cb) as -> by congruence. eexists data, _, _. by rewrite meant_forwarding.
Qed.

Lemma safe_failMessage z cl cb cr tr w :
  callback_ok (log tr) (broker (shared w)) cb → safe z (failMessage srvc cl cb) cr tr w.
Proof.
  intros Hcb. destruct (callback_inv _ _ _ Hcb) as (data & T & X & Hiss & Hm & Hc & Hw & Hin & Hr).
  assert (Hends : safe z (runAck (cb_ack cb) (ends Expired (MarkFailed (now_mark cl) (cb_msg cb)))) cr tr w).
  { eapply safe_ack_ends; [done..|by rewrite carried_MarkFailed|done|by left]. }
  unfold failMessage. destruct (decide _); [exact Hends|].
  destruct (Marshal_ForwardedMessage _) as [bytes|er] eqn:Em; [|exact Hends].
  apply (safe_publish sta Hsta _ _ _ T X false); [|apply vouched_nil|done|].
  - intros L _ Hsub _. split.
    + eapply (requeued_authentic L cl cb); [|done..|]; [split; [done|eauto]|]. eexists _, _. split; [done|by apply Hsub].
    + rewrite Hr, meant_forwarding by (by right).
      by rewrite (parcel_marshalled _ _ (wire_normal_MarkFailed _ _ Hw) Em), carried_MarkFailed.
  - intros tr1 w1 Hl1 _. eapply (safe_ack_moved sta Hsta); [by eapply later_issued|done].
Qed.

Lemma safe_finished z cl cb err cr tr w :
  callback_ok (log tr) (broker (shared w)) cb → safe z (finished srvc cl cb err) cr tr w.
Proof.
  intros Hcb. destruct err as [er|]; [by apply safe_failMessage|].
  destruct (callback_inv _ _ _ Hcb) as (data & T & X & Hiss & Hm & Hc & Hw & Hin & Hr).
  eapply safe_ack_ends; [done..|by right].
Qed.

Lemma safe_deliverLocally z cl cb o cr tr w :
  callback_ok (log tr) (broker (shared w)) cb → ForwardedMessage_Message (cb_msg cb) = Some o →
  safe z (deliverLocally srvc cl cb o) cr tr w.
Proof.
  intros Hcb Ho. destruct (callback_inv _ _ _ Hcb) as (data & T & X & Hiss & Hm & Hc & Hw & Hin & Hr).
  unfold deliverLocally. apply safe_try. intros t tr1 w1 Ht Hl1. unfold topicForAddr in Ht.
  apply bind_Ret_inv in Ht as (a & Ha & [= <-]). apply deref_Ret_inv in Ha.
  unfold carried in Hc. rewrite Ho in Hc. simpl in Hc. rewrite Ha in Hc. simpl in Hc. injection Hc as <- <-.
  apply safe_publisherFor. intros res tr2 w2 Hl2 Hp. assert (Hl := later_trans _ _ _ _ _ _ _ Hl1 Hl2).
  destruct res as [p|err]; [|apply safe_failMessage; by eapply callback_ok_later].
  apply (safe_publish sta Hsta _ _ _ (topic_of a) (OutboundMessage_UnidentifiedSenderMessage o) false).
  - intros L _ Hsub _. rewrite (Hp p eq_refl). change (topicFor _ _) with (topic_of a). rewrite meant_device.
    split; [|done]. unfold authentic. rewrite decide_False by apply topic_of_device.
    apply Hsub. eapply later_log; [exact Hl|done].
  - apply vouched_nil.
  - intros er tr3 w3 Hl3. apply safe_failMessage. eapply callback_ok_later; [|done]. by eapply later_trans.
  - intros tr3 w3 Hl3 _. eapply (safe_ack_moved sta Hsta); [|done]. eapply later_issued; [|done]. by eapply later_trans.
Qed.

Lemma safe_forwardTo z cl cb host cr tr w :
  callback_ok (log tr) (broker (shared w)) cb → safe z (forwardTo dial srvc cl cb host) cr tr w.
Proof.
  intros Hcb. apply safe_forwards; [done|]. intros tr1 w1 n f act Hl Hok E.
  apply Forward_files in E as [Hf Ha]. assert (Hcb1 := callback_ok_later _ _ _ _ _ _ Hl Hcb). split.
  - intros q cb' [Hq| ->]%Hf; [by eapply Hok|done].
  - destruct Ha as [(conn & d & q & ->)|[err ->]]; [done|]. by apply (safe_finished z cl cb (Some err)).
Qed.

Lemma safe_forwardMessage z cl p data acker cr tr w :
  handed (log tr) (broker (shared w)) data acker → pub_topic p = forwardingRetryTopic →
  safe z (forwardMessage dial srvc cl p data acker) cr tr w.
Proof.
  intros Hh Hp. destruct (parcel_ok_inv _ _ (proj2 (proj2 Hh))) as (m & o & a & Hu & _ & Ho & _).
  unfold forwardMessage. rewrite Hu. cbn [GetMessage]. rewrite Ho. apply safe_try. intros o' tr1 w1 [= <-] Hl1.
  apply safe_find. intros res tr2 w2 Hl2.
  assert (Hcb : callback_ok (log tr2) (broker (shared w2)) (mkCallback (BI:=BI) m acker p)).
  { split; [done|]. exists data. split; [|done]. eapply later_handed; [|exact Hh]. by eapply later_trans. }
  destruct res as [host|err]; [|by apply safe_failMessage].
  case_decide; [by apply safe_deliverLocally|by apply safe_forwardTo].
Qed.

Lemma safe_handleReply z cl msg cr tr w : safe z (handleReply srvc cl msg) cr tr w.
Proof.
  apply safe_forwards; [done|]. intros tr1 w1 n f r Hl Hok E. destruct (readFrom msg (fwd w1)) as [f1 r1] eqn:Er.
  injection E as <- <- <-. unfold readFrom, triggerCallbackFor in Er.
  destruct (Message_Payload msg) as [[]|]; try (simplify_eq; by split);
    destruct (callbacks (fwd w1) !! _) as [cb|] eqn:Ec; try (simplify_eq; by split); simplify_eq;
    (split; [intros q cb' Hq; simpl in Hq; apply lookup_delete_Some in Hq as [_ Hq]; by eapply Hok|]);
    apply (safe_finished z); by eapply Hok.
Qed.

(** ** Transfers *)

Lemma safe_receive z sub a (k : _ → prog unit) cr tr w :
  sub_topic (broker (shared w)) sub = Some (topic_of a) →
  (∀ res tr' w', later (owner z) tr w tr' w' → (∀ data acker, res = Some (data, acker) →
     ack_topic acker = topic_of a ∧ issued (broker (shared w')) acker data ∧ Accepted (topic_of a) data ∈ log tr') →
     safe z (k res) cr tr' w') →
  safe z (receive sub ≫= k) cr tr w.
Proof.
  intros Hs Hk j tr' w' w'' y Hl I Hp es Hw. simpl in Hp.
  destruct (broker_Receive sub (broker (shared w'))) as [b res] eqn:Eb. injection Hp as <- <-.
  apply Receive_law in Eb as [Hq Hr]; [|by eapply room_weaken_wf, I].
  assert (Hc : calm (shared w') (set_broker b (shared w'))) by (by apply calm_quiet).
  exists cr. split_and!; [by apply called_calm|by destruct z; intros ?? []%not_elem_of_nil|].
  apply Hk; [eapply later_trans; [done|]; by apply (later_moves _ (λ _ _, False)), calm_moves|].
  intros data acker ->. apply (later_sub _ _ _ _ _ Hl) in Hs. destruct (Hr _ _ _ Hs eq_refl) as (Ht & Htr & Hi).
  split_and!; [done..|]. apply (i_transit _ _ _ _ I) in Htr. unfold authentic in Htr.
  rewrite decide_False in Htr by apply topic_of_device. unfold es. by rewrite log_snoc, app_nil_r.
Qed.

Lemma safe_findMoved z addr cr tr w : safe z (findMoved srvc addr) cr tr w.
Proof.
  unfold findMoved. apply safe_find. intros [host|err] tr1 w1 _; [|by apply safe_turn].
  case_decide; [by apply safe_turn|]. apply safe_subscribe. intros [sub|err] tr2 w2 _ Hs; [|by apply safe_turn].
  apply safe_turn; [done|]. intros sub' addr' [= <- <-]. by apply Hs.
Qed.

Lemma safe_transferTurn z sub addr p cr tr w :
  sub_topic (broker (shared w)) sub = Some (topic_of addr) → pub_topic p = forwardingTopic →
  safe z (transferTurn sub addr p) cr tr w.
Proof.
  intros Hs Hp. unfold transferTurn.
  assert (Hleave : ∀ m tr' w', (∀ sub addr, m ≠ Moving sub addr) →
    safe z (_ ← closeSubscriber sub; silently (Turn m)) cr tr' w').
  { intros m tr' w' Hm. apply safe_close. intros tr1 w1 _. apply safe_turn; [done|]. intros s' a' ->. by destruct (Hm s' a'). }
  apply (safe_receive z sub addr); [done|]. intros [[data acker]|] tr1 w1 Hl1 Hr; [|by apply Hleave].
  destruct (Hr _ _ eq_refl) as (Ht & Hiss & Hin).
  destruct (Marshal_ForwardedMessage _) as [bytes|er] eqn:Em; [|by apply Hleave].
  apply (safe_publish sta Hsta _ _ _ (topic_of addr) data false).
  - intros L Hw Hsub _. rewrite Hp.
    apply (stored_as_authentic L (mkOutboundMessage (Some addr) data) addr); [done|by apply Hsub|done|right; eauto].
  - apply vouched_nil.
  - intros er tr2 w2 _. by apply Hleave.
  - intros tr2 w2 Hl2 _. eapply (safe_ack_moved sta Hsta); [by eapply later_issued|]. rewrite Ht. apply meant_device.
Qed.
End programs.
