(* ===== verification/InterleavingProps.v ===== *)
(** * InterleavingProps: messages are safe under every interleaving

    The theorems of TassisProps.v for the system of Interleaving.v, in which any
    goroutine may run between two calls of a handler. *)

From S2P Require Import Prelude Model Externals DB Broker Presence Attachments Forwarder Service ServiceProps Connection Forwarding Tassis TassisSteps TassisInv TassisProps Goroutines Interleaving InterleavingInv InterleavingSafe.

Import serviceimpl forwarder forwarding tassis goroutines interleaving.

Section interleaved.
Context {ID : Identity} {PR : Proto} {PL : ProtoLaws}.
Context {D B P A C : Type} {DBI : DB D} {BI : Broker B} {PI : Presence P}
        {AI : Attachments A} {LI : LRU C Publisher}.
Context {N Conn : Type} (dial : string → N → N * result Conn).
Context {BL : BrokerLaws B} {LL : LRULaws C Publisher}.
#[local] Abbreviation env := (@env D B P A C).
#[local] Abbreviation tassis := (@tassis D B P A C BI N Conn).
#[local] Abbreviation system := (@system D B P A C BI N Conn).
#[local] Abbreviation goroutine := (@goroutine D B P A C BI N Conn).
#[local] Abbreviation trace := (list (label (BI:=BI) * list entry)).
#[local] Abbreviation prog := (@goroutines.prog D B P A C BI N Conn).
#[local] Abbreviation credits := (list (string * option string)).
Implicit Types (w : tassis) (tr : trace) (es : list entry) (b : B) (z : cause) (s : system) (g : goroutine).

(** ** The invariant *)

Section steps.
Context (srvc : Service) (sta : started (BI:=BI)) (Hsta : started_ok sta).
#[local] Abbreviation inv := (inv sta).

Definition all_safe tr w : list goroutine → list credits → Prop :=
  Forall2 (λ g cr, safe sta (doing g) (body g) cr tr w).

(** What was accepted is still there or settled, even if every goroutine spent its
    credit. *)
Definition solvent tr w (crs : list credits) : Prop :=
  ∀ t x, ¬ forwarding_name t →
    n_accepted (log tr) t x + credit (mjoin crs) t x <= held (broker (shared w)) t x + n_settled (log tr) t x.

Record sound (k : nat) tr s : Prop := {
  so_inv : inv k tr (server s);
  so_justified : all_justified tr;
  so_vouched : vouched tr (log tr);
  so_safe : ∃ crs, all_safe tr (server s) (running s) crs ∧ solvent tr (server s) crs;
  so_owners : NoDup (omap owner (doing <$> running s));
  so_told : ∀ i msg, (i, msg) ∈ told s → receipt (log tr) msg }.

Lemma credit_pool (c1 : list credits) cr c2 t x :
  credit (mjoin (c1 ++ cr :: c2)) t x = credit (mjoin (c1 ++ c2)) t x + credit cr t x.
Proof. rewrite !join_app. change (mjoin (cr :: c2)) with (cr ++ mjoin c2). rewrite !credit_app. lia. Qed.

Lemma all_safe_later tr w tr' w' gs crs :
  (∀ g, g ∈ gs → later (owner (doing g)) tr w tr' w') → all_safe tr w gs crs → all_safe tr' w' gs crs.
Proof.
  intros Hl H. induction H as [|g cr gs crs Hg H IH]; [constructor|]. apply Forall2_cons. split.
  - eapply safe_later; [|exact Hg]. apply Hl. by left.
  - apply IH. intros g' Hg'. apply Hl. by right.
Qed.

Lemma vouched_snoc tr l es : vouched tr (log tr) → vouched (tr ++ [(l, es)]) es → vouched (tr ++ [(l, es)]) (log (tr ++ [(l, es)])).
Proof.
  intros H He t x. rewrite log_snoc. intros [(a & Ht & Hs)%H|Hin]%elem_of_app; [|by apply He].
  exists a. split; [done|by apply sent_to_snoc].
Qed.

Lemma receipt_mono L L' msg : L ⊆ L' → receipt L msg → receipt L' msg.
Proof. intros HL H o a Ho Ha. apply HL. by apply (H o a). Qed.

(** A step that is not a call of a program, after which [l'] is running too. *)
Lemma sound_turn k tr l es s w' (l' : list goroutine) :
  sound (S k) tr s → good sta k tr l es (server s) w' → (∀ t x, Accepted t x ∉ es) →
  (∀ who, later who tr (server s) (tr ++ [(l, es)]) w') →
  (∀ g, g ∈ l' → safe sta (doing g) (body g) [] (tr ++ [(l, es)]) w') →
  NoDup (omap owner (doing <$> running s ++ l')) →
  sound k (tr ++ [(l, es)]) (mkSys w' (running s ++ l') (told s)).
Proof.
  intros [I Hj Hv (crs & Hs & Hb) Ho Ht] (I' & He & Hbal) Hna Hl Hnew Hnd.
  split; simpl; [done|by apply all_justified_snoc|by apply vouched_snoc; [|intros t x ?%Hna]| |done|].
  - exists (crs ++ replicate (length l') []). split.
    + apply Forall2_app; [by eapply all_safe_later; [|exact Hs]|]. clear -Hnew. induction l' as [|g l' IH]; [constructor|].
      apply Forall2_cons. split; [apply Hnew; by left|]. apply IH. intros g' ?. apply Hnew. by right.
    + intros t x Htx. specialize (Hb t x Htx). specialize (Hbal t x Htx).
      rewrite log_snoc, n_accepted_app, n_settled_app, join_app, credit_app.
      assert (Hz : credit (mjoin (replicate (length l') [])) t x = 0).
      { clear. generalize (length l') as m. intros m. by induction m. }
      lia.
  - intros i msg Hin. eapply receipt_mono; [|by eapply Ht]. rewrite log_snoc. by apply list_subseteq_app_l.
Qed.

Lemma idle_good k tr l w : inv (S k) tr w → good sta k tr l [] w w.
Proof.
  intros I. assert (Hc : calm (shared w) (shared w)) by (by apply calm_same).
  split_and!; [|constructor|apply balanced_nil, Hc].
  assert (Hin : inv k (tr ++ [(l, [])]) (with_shared (shared w) w)).
  { eapply (inv_shared sta Hsta _ _ _ _ _ _ (λ _ _, False)); [done|by apply calm_moves|done]. }
  by destruct w.
Qed.

Lemma later_still who tr w x : later who tr w (tr ++ [x]) w.
Proof. by apply later_same. Qed.

(** *** Turns without a program *)

Lemma later_client who Φ tr w i c n (cc : conn) x :
  clients w !! i = Some (c, n) → env_moves Φ (shared w) (en (cs cc)) → same_identity_of c (cn (cs cc)) →
  later who tr w (tr ++ [x]) (with_client i cc w).
Proof.
  intros Hi [Hm _] Hid. split; [by eexists|apply Hm|apply Hm|]. intros j c1 n1 _ Hj. simpl. rewrite lookup_insert.
  case_decide as E; [|by exists c1, n1]. subst j. rewrite Hi in Hj. injection Hj as <- <-. by eexists _, _.
Qed.

Lemma brief_later l es w w' who tr :
  broker_wf (broker (shared w)) → brief l = true → tassis.step dial srvc sta l es w w' →
  later who tr w (tr ++ [(l, es)]) w'.
Proof.
  intros W Hb H. destruct H as [i nonce w Hi|i c n ev cc w Hi Hev Hs|sub b w Hr|ws p sub data acker b w Hws Hsub Hr
    |ws p j data acker cl r w Hws Hj Hf|cl msg s w Hr|n pr w|p d addrs w Hp Ht Hrd Hd|addr rest e res w Ht Hrd Hf
    |p sub addr e w Hp Ht Hturn|p sub addr e err w Hp Ht Hturn|addr e w Ht He]; try done.
  - assert (Hid : same_identity_of c (cn (cs cc))).
    { destruct ev; try done; inversion Hs; subst; try done. unfold Receive in *.
      match goal with H : match ?x with _ => _ end = _ |- _ => destruct x end; by simplify_eq. }
    apply (other_event srvc) in Hs as (Hc & _); [|by destruct ev..|done].
    eapply (later_client _ (λ _ _, False)); [done|by apply calm_moves|done].
  - apply Receive_law in Hr as [Hq _]; [|done]. by apply (later_moves _ (λ _ _, False)), calm_moves, calm_quiet.
  - apply Receive_law in Hr as [Hq _]; [|done].
    eapply (later_trans _ _ _ (tr ++ [(LTake data, [])]) (with_shared (set_broker b (shared w)) w));
      [by apply (later_moves _ (λ _ _, False)), calm_moves, calm_quiet|].
    split; [exists []; by rewrite app_nil_r|done..|]. intros i c n _ ?. exists c, n. by split.
  - split; [by eexists|done..|]. intros i c m _ ?. exists c, m. by split.
Qed.

(** Another goroutine starts a program. *)
Lemma sound_spawn k tr l es z p s w' :
  sound (S k) tr s → good sta k tr l es (server s) w' → (∀ t x, Accepted t x ∉ es) →
  (∀ who, later who tr (server s) (tr ++ [(l, es)]) w') →
  safe sta z p [] (tr ++ [(l, es)]) w' → (∀ i, owner z = Some i → i ∉ omap owner (doing <$> running s)) →
  sound k (tr ++ [(l, es)]) (spawn z p w' s).
Proof.
  intros Hs Hg Hna Hl Hp Ho. apply sound_turn; [done..| |].
  - intros g ->%list_elem_of_singleton. done.
  - rewrite fmap_app, omap_app. apply NoDup_app. split_and!; [apply Hs| |].
    + intros i Hi Hin. simpl in Hin. destruct (owner z) as [j|] eqn:E; [|by apply not_elem_of_nil in Hin].
      apply list_elem_of_singleton in Hin as ->. by eapply Ho.
    + simpl. destruct (owner z); [apply NoDup_singleton|constructor].
Qed.

Lemma sound_still k tr l es s w' :
  sound (S k) tr s → good sta k tr l es (server s) w' → (∀ t x, Accepted t x ∉ es) →
  (∀ who, later who tr (server s) (tr ++ [(l, es)]) w') → sound k (tr ++ [(l, es)]) (mkSys w' (running s) (told s)).
Proof.
  intros Hs Hg Hna Hl. pose proof (sound_turn k tr l es s w' [] Hs Hg Hna Hl) as H. rewrite app_nil_r in H.
  apply H; [intros g []%not_elem_of_nil|apply Hs].
Qed.

(** A connection is given a message of its device. *)
Lemma receive_good k tr w i c n sub data acker b :
  inv (S k) tr w → clients w !! i = Some (c, n) → sub ∈ subscriptions c →
  broker_Receive sub (broker (shared w)) = (b, Some (data, acker)) →
  let w' := with_shared (set_broker b (shared w)) w in
  good sta k tr (LClient i (EvIn data acker)) [Delivered i (ack_topic acker) data] w w' ∧
  calm (shared w) (shared w') ∧ issued b acker data ∧ ∃ a, ack_topic acker = topic_of a.
Proof.
  intros I Hi Hsub Hb w'. pose proof (room_weaken_wf _ _ (i_room _ _ _ _ I)) as W.
  apply Receive_law in Hb as [Hq Hr]; [|done].
  destruct (co_subs _ _ _ _ (i_clients _ _ _ _ I _ _ _ Hi) _ Hsub) as (a & Hst & Hp).
  destruct (Hr _ _ _ Hst eq_refl) as (Ht & Htr & Hiss).
  assert (Hc : calm (shared w) (set_broker b (shared w))) by (by apply calm_quiet).
  split_and!; [|apply Hc..|done|by exists a].
  split_and!; [|constructor; [|constructor]|apply balanced_still; [apply Hc|done]].
  - eapply (inv_shared sta Hsta _ _ _ _ _ _ (λ _ _, False)); [done|by apply calm_moves|done].
  - apply (i_transit _ _ _ _ I) in Htr. unfold authentic in Htr.
    rewrite decide_False in Htr by apply topic_of_device. rewrite Ht. split; [done|]. eauto.
Qed.

(** *** Every step *)

Lemma call_sound {Y} k tr z (o : op Y) r (f : Y → prog unit) l1 l2 y w w' tl :
  sound (S k) tr (mkSys w (l1 ++ mkGo z (Call o r f) :: l2) tl) → perform o w = Ret (w', y) →
  let es := r (broker (shared w)) (broker (shared w')) y in
  from_wire (log tr ++ es) →
  sound k (tr ++ [(LIdle, es)]) (mkSys w' (l1 ++ mkGo z (f y) :: l2) (tl ++ tells z o)).
Proof.
  intros [I Hj Hv (crs & Hs & Hb) Ho Ht] Hp es Hw. simpl in *.
  apply Forall2_app_inv_l in Hs as (c1 & c2' & H1 & H2 & ->). inversion H2 as [|? cr ? c2 Hg H2' E1 E2]. subst.
  destruct (Hg k tr w w' y (later_refl _ _ _) I Hp Hw) as (cr' & [I' Hj' Hv' Hpaid Hlater] & Htell & Hsafe).
  rewrite fmap_app, fmap_cons, omap_app in Ho. simpl in Ho.
  assert (Hne : ∀ g, g ∈ l1 ++ l2 → owner (doing g) = None ∨ owner (doing g) ≠ owner z).
  { intros g Hin. destruct (owner (doing g)) as [i|] eqn:Eg; [right|by left]. intros Ez. symmetry in Ez. rewrite Ez in Ho.
    assert (Hi : i ∈ omap owner (doing <$> l1) ∨ i ∈ omap owner (doing <$> l2)).
    { apply elem_of_app in Hin as [Hin|Hin]; [left|right]; apply list_elem_of_omap; exists (doing g);
        (split; [by apply list_elem_of_fmap_2|done]). }
    apply NoDup_app in Ho as (_ & Hd & Hn). apply NoDup_cons in Hn as [Hn _].
    destruct Hi as [Hi|Hi]; [|done]. apply (Hd i Hi). by left. }
  split; simpl; [done|by apply all_justified_snoc| | | |].
  - apply vouched_snoc; [done|]. intros t x (a & Ha & Hst)%Hv'. exists a. split; [done|by apply sent_to_snoc].
  - exists (c1 ++ cr' :: c2). split.
    + apply Forall2_app; [eapply all_safe_later; [|exact H1]; intros g ?; apply Hlater, Hne, elem_of_app; by left|].
      apply Forall2_cons. split; [done|]. eapply all_safe_later; [|exact H2']. intros g ?. apply Hlater, Hne, elem_of_app. by right.
    + intros t x Htx. specialize (Hb t x Htx). specialize (Hpaid t x Htx).
      rewrite log_snoc, n_accepted_app, n_settled_app. rewrite credit_pool in *. fold es in Hpaid. lia.
  - by rewrite fmap_app, fmap_cons, omap_app.
  - assert (HL : log tr ⊆ log (tr ++ [(LIdle, es)])) by (rewrite log_snoc; by apply list_subseteq_app_l).
    intros i msg [Hin|Hin]%elem_of_app; (eapply receipt_mono; [exact HL|]); [by eapply Ht|by eapply Htell].
Qed.

Lemma done_sound k tr z l1 l2 w tl :
  sound (S k) tr (mkSys w (l1 ++ mkGo z (Done tt) :: l2) tl) →
  sound k (tr ++ [(LIdle, [])]) (mkSys w (l1 ++ l2) tl).
Proof.
  intros H. pose proof (sound_still k tr LIdle [] _ _ H (idle_good _ _ _ _ (so_inv _ _ _ H)) (λ _ _, not_elem_of_nil _) (λ who, later_still _ _ _ _)) as H'.
  destruct H' as [I Hj Hv (crs & Hs & Hb) Ho Ht]. simpl in *.
  apply Forall2_app_inv_l in Hs as (c1 & c2' & H1 & H2 & ->). inversion H2 as [|? cr ? c2 _ H2' E1 E2]. subst.
  split; simpl; [done..| | |done].
  - exists (c1 ++ c2). split; [by apply Forall2_app|]. intros t x Htx. specialize (Hb t x Htx).
    rewrite credit_pool in Hb. lia.
  - rewrite fmap_app, fmap_cons, omap_app in Ho. rewrite fmap_app, omap_app. simpl in Ho.
    destruct (owner z); [|done]. eapply sublist_NoDup; [exact Ho|]. apply sublist_app; [done|]. by constructor.
Qed.

Lemma step_sound k tr l es s s' :
  sound (S k) tr s → step dial srvc sta l es s s' → from_wire (log tr ++ es) → sound k (tr ++ [(l, es)]) s'.
Proof.
  intros Hs H Hw. pose proof (so_inv _ _ _ Hs) as I. pose proof (room_weaken_wf _ _ (i_room _ _ _ _ I)) as W.
  assert (Hn : ∀ t x, Accepted t x ∉ []) by (intros; apply not_elem_of_nil).
  assert (Hstay : good sta k tr l [] (server s) (server s)) by (by apply idle_good).
  destruct H as [l es w' s Hb Hst|i nonce s Hi|i c n msg s Hi Ho|i c n sub data acker b s Hi Hsub Hr|i c n s Hi Hc
    |ws p j data acker cl s Hws Hj|cl msg s|p d addrs s Hm Hp Ht Hrd Hd|addr rest s Hm Ht Hrd|p sub addr s Hm Hp Ht
    |addr e s Hm Ht He|Y z o r f l1 l2 y w w' tl Hp|z l1 l2 w tl].
  - apply sound_still; [done|by eapply step_good| |intros who; by eapply brief_later].
    intros t x Hin. destruct (step_accepted _ _ _ _ _ _ _ _ _ Hst Hin) as (? & ? & ? & ? & -> & _). done.
  - apply sound_spawn; [done|by apply connect_good|done| |by apply safe_Init|done].
    intros who. split; [by eexists|done..|]. intros j c n _ Hj. exists c, n. simpl.
    rewrite lookup_insert_ne by (intros ->; congruence). by split.
  - apply sound_spawn; [done..|intros; apply later_still| |by intros j [= <-]].
    apply safe_handler; [done|]. rewrite fmap_app. apply elem_of_app. right. by left.
  - destruct (receive_good k tr _ i c n sub data acker b I Hi Hsub Hr) as (Hg & Hca & Hiss & a & Ht).
    apply sound_spawn; [done..|by intros t x ?%list_elem_of_singleton|intros who; by apply (later_moves _ (λ _ _, False)), calm_moves| |done].
    apply (safe_Inbound _ Hsta _ _ _ _ a); [done..|]. rewrite log_snoc, Ht. apply elem_of_app. right. by left.
  - apply sound_spawn; [done..|intros; apply later_still|by apply safe_Check|done].
  - pose proof (i_hand _ _ _ _ I data acker (list_elem_of_lookup_2 _ _ _ Hj)) as Hh.
    destruct Hstay as (I' & Hj' & Hb').
    apply sound_spawn; [done| |done|intros; by apply later_same| |done].
    + split_and!; [|done..]. apply inv_hand; [done|]. intros d' a' Hd. apply (i_hand _ _ _ _ I').
      by eapply list_elem_of_delete_inv.
    + apply safe_forwardMessage; [done| |by eapply (proj1 Hsta)]. by rewrite log_snoc, app_nil_r.
  - apply sound_spawn; [done..|intros; apply later_still|by apply safe_handleReply|done].
  - apply sound_still; [done|apply calm_good; [done..|by apply calm_same|done]|done|].
    intros who. split; [by eexists|done..|]. intros i c n _ ?. by exists c, n.
  - apply sound_spawn; [done|apply calm_good; [done..|by apply calm_same|done]|done| |by apply safe_findMoved|done].
    intros who. by apply later_same.
  - apply sound_spawn; [done..|intros; apply later_still| |done].
    apply safe_transferTurn; [done|by apply (i_mover _ _ _ _ I)|by apply (proj2 Hsta)].
  - unfold endTransfer in He. apply bind_Ret_inv in He as ([d er] & _ & [= <-]).
    apply sound_still; [done|apply calm_good; [done..|by apply calm_same|done]|done|].
    intros who. split; [by eexists|done..|]. intros i c n _ ?. by exists c, n.
  - by apply call_sound.
  - by eapply done_sound.
Qed.

Lemma run_sound s0 tr s k :
  run dial srvc sta s0 tr s → sound (k + length tr) [] s0 → from_wire (log tr) → sound k tr s.
Proof.
  intros Hr. revert k. induction Hr as [s|s tr s1 l es s2 Hr IH Hs]; intros k H0 Hw.
  - by rewrite Nat.add_0_r in H0.
  - rewrite log_snoc in *. rewrite length_app in H0. simpl in H0.
    replace (k + (length tr + 1)) with (S k + length tr) in H0 by lia.
    eapply step_sound; [apply IH; [done|]|done..]. intros t x Hin. eapply Hw, elem_of_app. by left.
Qed.
End steps.

(** ** The theorems *)

(** A connection [i] may be given [x]: it was sent to the device the connection has
    proved to act for. *)
Definition delivery_due tr (i : nat) (x : option string) : Prop :=
  ∃ a1 a2, sent_to tr a1 x ∧ proven tr i a2 ∧ same_device a1 a2.

(** Senders are told only of messages that were accepted. *)
Definition acks_truthful tr s : Prop := ∀ i msg, (i, msg) ∈ told s → receipt (log tr) msg.

Lemma launch_sound (newPresence : P) hasForwarder (d : D) b (a : A) opts srvc (e : env) sta (n : N) k :
  New newPresence hasForwarder d b a opts = Ok (srvc, e, sta) →
  broker_room k b → (∀ t x, ¬ in_transit b t x) → started_ok sta ∧ sound sta k [] (launch e n : system).
Proof.
  intros HN R Ht. destruct (boot_inv (Conn:=Conn) newPresence hasForwarder d b a opts srvc e sta n k HN R Ht) as [Hsta I].
  split; [done|]. split; simpl; [done|by intros []|apply vouched_nil| |constructor|by intros ? ? ?%not_elem_of_nil].
  exists []. split; [constructor|]. intros t x Htx. unfold n_accepted, n_settled, credit. simpl. lia.
Qed.

Lemma run_prefix srvc sta s0 tr1 tr2 s :
  run dial srvc sta s0 (tr1 ++ tr2) s → ∃ s1, run dial srvc sta s0 tr1 s1.
Proof.
  intros Hr. remember (tr1 ++ tr2) as tr eqn:E. revert tr2 E.
  induction Hr as [s|s tr s1 l es s2 Hr IH Hs]; intros tr2 E.
  - symmetry in E. apply app_eq_nil in E as [-> ->]. eexists. apply run_nil.
  - destruct tr2 as [|y tr2] using rev_ind.
    + rewrite app_nil_r in E. subst tr1. eexists. by eapply run_snoc.
    + rewrite app_assoc in E. apply app_inj_tail in E as [-> _]. by eapply IH.
Qed.

Lemma run_last srvc sta s0 tr l es s :
  run dial srvc sta s0 (tr ++ [(l, es)]) s → ∃ s1 s2, step dial srvc sta l es s1 s2.
Proof.
  intros Hr. inversion Hr as [|? tr' s1 l' es' ? Hr1 Hs E1 E2]; [by destruct tr|].
  apply app_inj_tail in E2 as [-> [= -> ->]]. eauto.
Qed.

(** The step in which a connection is given a message records it. *)
Lemma given_recorded srvc sta i x acker es s s' :
  step dial srvc sta (LClient i (EvIn x acker)) es s s' → es = [Delivered i (ack_topic acker) x].
Proof. inversion 1; [|done]. done. Qed.

(** C2: no accepted message is lost, whatever goroutines run in between.  A handler is
    a sequence of calls (of the database, the broker, the presence repository, the
    cache, the forwarder, the fields of its connection), and between two calls any
    other goroutine may run, any number of times, or the handler may stop for good.
    In every such run of a server that [New] started on a broker with nothing stored
    (and room for one publication per step): every end a message comes to is justified
    by what came before; for every device and content, the messages published for
    senders are no more than the copies still stored, those acknowledged by the device
    or by another host and those given up; and a sender is sent an Ack for a message
    only after this message was published. *)
Theorem interleaved_messages_kept
    (newPresence : P) hasForwarder (d : D) b (a : A) opts srvc e sta (n : N) tr s :
  New newPresence hasForwarder d b a opts = Ok (srvc, e, sta) →
  broker_room (length tr) b → (∀ t y, ¬ in_transit b t y) →
  run dial srvc sta (launch e n) tr s → from_wire (log tr) →
  all_justified tr ∧ (∀ addr x, none_lost tr (server s) addr x) ∧ acks_truthful tr s.
Proof.
  intros HN R Ht Hr Hw. destruct (launch_sound _ _ _ _ _ _ _ _ _ n _ HN R Ht) as [Hsta H0].
  destruct (run_sound srvc sta Hsta _ _ _ 0 Hr H0 Hw) as [_ Hj _ (crs & _ & Hb) _ Htold]. split_and!; [done| |done].
  intros addr x. specialize (Hb (topic_of addr) x (topic_of_device addr)). unfold none_lost. lia.
Qed.

(** C3: messages reach only the device they were sent to, whatever goroutines run in
    between.  In every run of the server, call by call: if the broker hands the content
    [x] to a connection, then some client has before sent a message with this content
    to an address, and the connection has before proved, by a signature over its own
    nonce, that it may act for that device. *)
Theorem interleaved_deliveries_due {IDL : IdentityLaws}
    (newPresence : P) hasForwarder (d : D) b (a : A) opts srvc e sta (n : N) tr s tr1 i x acker es tr2 :
  New newPresence hasForwarder d b a opts = Ok (srvc, e, sta) →
  broker_room (length tr) b → (∀ t y, ¬ in_transit b t y) →
  run dial srvc sta (launch e n) tr s → from_wire (log tr) →
  tr = tr1 ++ (LClient i (EvIn x acker), es) :: tr2 → delivery_due tr1 i x.
Proof.
  intros HN R Ht Hr Hw E. destruct (launch_sound _ _ _ _ _ _ _ _ _ n _ HN R Ht) as [Hsta H0].
  pose proof (so_justified _ _ _ _ (run_sound srvc sta Hsta _ _ _ 0 Hr H0 Hw)) as Hj.
  assert (He : es = [Delivered i (ack_topic acker) x]).
  { subst tr. destruct (run_prefix srvc sta (launch e n) (tr1 ++ [(LClient i (EvIn x acker), es)]) tr2 s) as [s2 Hr2];
      [by rewrite <- app_assoc|]. apply run_last in Hr2 as (s3 & s4 & Hs). by eapply given_recorded. }
  specialize (Hj tr1 _ es tr2 E). rewrite He in Hj. apply Forall_inv in Hj as (Hacc & a2 & Ha2 & Hp).
  subst tr. destruct (run_prefix _ _ _ _ _ _ Hr) as [s1 Hr1].
  assert (Hs1 : sound sta (S (length tr2)) tr1 s1).
  { eapply run_sound; [done..| |].
    - rewrite length_app in H0. simpl in H0. by rewrite (Nat.add_comm (length tr1)) in H0.
    - intros t y Hin. eapply Hw. unfold log. rewrite fmap_app, join_app. apply elem_of_app. by left. }
  destruct (so_vouched _ _ _ _ Hs1 _ _ Hacc) as (a1 & Ha1 & Hsent).
  exists a1, a2. split_and!; [done..|]. apply topic_of_inj. congruence.
Qed.
End interleaved.
