(* ===== verification/InterleavingAccess.v ===== *)
(** * InterleavingAccess: who changes the registry, call by call

    For the system of Interleaving.v, whatever broker, presence repository and
    attachments manager it runs with: a registration changes only by a call that the
    handler of a connection makes, which has proved that it may act for this device.
    The argument is that of InterleavingInv.v, for another property: a program is
    [guarded] if, whatever other goroutines do before each of its calls, the call
    changes of the registry only what it may. *)

From S2P Require Import Prelude Model Externals DB Broker Presence Attachments Forwarder Service ServiceProps Connection Forwarding Tassis TassisInv Goroutines Interleaving InterleavingSafe.

Import serviceimpl forwarder forwarding tassis goroutines interleaving.

Section access.
Context {ID : Identity} {PR : Proto}.
Context {D B P A C : Type} {DBI : DB D} {BI : Broker B} {PI : Presence P}
        {AI : Attachments A} {LI : LRU C Publisher} {BV : BrokerView B}.
Context {N Conn : Type} (dial : string → N → N * result Conn).
Context {DL : DBLaws D}.
Context (srvc : Service) (sta : started (BI:=BI)).
#[local] Abbreviation env := (@env D B P A C).
#[local] Abbreviation tassis := (@tassis D B P A C BI N Conn).
#[local] Abbreviation system := (@system D B P A C BI N Conn).
#[local] Abbreviation goroutine := (@goroutine D B P A C BI N Conn).
#[local] Abbreviation trace := (list (label (BI:=BI) * list entry)).
#[local] Abbreviation clientConnection := (clientConnection (BI:=BI)).
#[local] Abbreviation prog := (@goroutines.prog D B P A C BI N Conn).
#[local] Abbreviation op := (@goroutines.op D B P A C BI N Conn).
Implicit Types (w : tassis) (tr : trace) (e : env) (c : clientConnection) (z : cause) (s : system) (g : goroutine).

(** ** What a call may do *)

(** Connection [i] has proved that it may act for the device. *)
Definition owns_device tr (i : nat) (k d : string) : Prop :=
  ∃ a, proven tr i a ∧ PublicKey_String (Address_IdentityKey a) = k ∧ Address_DeviceId a = d.

(** The message asks for pre keys of the device. *)
Definition asks_keys (msg : Message) (k d : string) : Prop :=
  ∃ rq, GetRequestPreKeys msg = Some rq ∧ PublicKey_String (RequestPreKeys_IdentityKey rq) = k ∧
    d ∉ RequestPreKeys_KnownDeviceIds rq.

(** A registration stays, gives up a one-time key to the handler of a request for pre
    keys of the device, or is changed by the handler of a Register or Unregister on a
    connection that acts for the device; a chat number stays, or an identity without
    one is given one by a connection that acts for it. *)
Definition permitted z tr (σ σ' : DBSpec.state) : Prop :=
  (∀ k d, DBSpec.devices σ' !! (k, d) = DBSpec.devices σ !! (k, d) ∨
     DBSpec.devices σ' !! (k, d) = DBSpec.consume <$> DBSpec.devices σ !! (k, d) ∧
       (∃ i msg, z = Handling i msg ∧ asks_keys msg k d) ∨
     ∃ i msg, z = Handling i msg ∧ needs_auth msg ∧ owns_device tr i k d) ∧
  (∀ k, DBSpec.numbers σ' !! k = DBSpec.numbers σ !! k ∨
     DBSpec.numbers σ !! k = None ∧ ∃ i msg d, z = Handling i msg ∧ owns_device tr i k d).

Lemma permitted_refl z tr σ : permitted z tr σ σ.
Proof. split; intros; by left. Qed.

Lemma permitted_one z tr i msg k d σ σ' :
  z = Handling i msg → needs_auth msg → owns_device tr i k d → DBSpec.numbers σ' = DBSpec.numbers σ →
  (∀ k' d', (k, d) ≠ (k', d') → DBSpec.devices σ' !! (k', d') = DBSpec.devices σ !! (k', d')) → permitted z tr σ σ'.
Proof.
  intros Hz Hm Ho Hn Hd. split; [|intros; left; by rewrite Hn]. intros k' d'.
  destruct (decide ((k, d) = (k', d'))) as [[= <- <-]|Hne]; [right; right; by exists i, msg|left; by apply Hd].
Qed.

Lemma permitted_request z tr i msg rq σ :
  z = Handling i msg → GetRequestPreKeys msg = Some rq →
  permitted z tr σ (DBSpec.request (PublicKey_String (RequestPreKeys_IdentityKey rq)) (RequestPreKeys_KnownDeviceIds rq) σ).
Proof.
  intros Hz Hm. split; [|intros; by left]. intros k' d'. rewrite request_lookup.
  case_decide as E; [right; left|left; apply option_fmap_id]. split; [done|]. exists i, msg. split; [done|].
  exists rq. destruct E as [-> ?]. done.
Qed.

Lemma permitted_assign z tr i msg k d n sn σ :
  z = Handling i msg → owns_device tr i k d → DBSpec.numbers σ !! k = None →
  permitted z tr σ (DBSpec.assign_number k n sn σ).
Proof.
  intros Hz Ho Hk. split; [intros; by left|]. intros k'. simpl. rewrite lookup_insert. case_decide as E; [subst k'|by left].
  right. split; [done|]. by exists i, msg, d.
Qed.

(** ** What holds between calls *)

(** An authenticated connection acts for an address it has proved. *)
Definition identity_proven tr (i : nat) c : Prop :=
  isAuthenticated c = true → ∃ a, proven tr i a ∧ identityKey c = Some (Address_IdentityKey a) ∧
    deviceId c = Some (Address_DeviceId a).

Record stable tr w : Prop := {
  st_db : db_wf (db (shared w));
  st_nonce : ∀ i c n, clients w !! i = Some (c, n) → LConnect i (authNonce c) ∈ tr.*1 }.

(** Time passes for the goroutine that is [handleOutbound] of [who]. *)
Definition same_id c c' : Prop := identityKey c' = identityKey c ∧ deviceId c' = deviceId c.

Record after (who : option nat) tr w tr' w' : Prop := {
  after_trace : ∃ ext, tr' = tr ++ ext;
  after_own : ∀ i c n, who = Some i → clients w !! i = Some (c, n) →
    ∃ c' n', clients w' !! i = Some (c', n') ∧ same_id c c' }.

Lemma after_refl who tr w : after who tr w tr w.
Proof. split; [exists []; by rewrite app_nil_r|]. intros i c n _ ?. by exists c, n. Qed.

Lemma after_trans who tr1 w1 tr2 w2 tr3 w3 :
  after who tr1 w1 tr2 w2 → after who tr2 w2 tr3 w3 → after who tr1 w1 tr3 w3.
Proof.
  intros [[e1 ->] H1] [[e2 ->] H2]. split; [exists (e1 ++ e2); by rewrite app_assoc|].
  intros i c n Hw Hc. destruct (H1 i c n Hw Hc) as (c' & n' & Hc' & [E1 E2]).
  destruct (H2 i c' n' Hw Hc') as (c'' & n'' & Hc'' & [E3 E4]). exists c'', n''. split; [done|]. split; congruence.
Qed.

Lemma after_same who tr w w' x : clients w' = clients w → after who tr w (tr ++ [x]) w'.
Proof. intros E. split; [by eexists|]. intros i c n _ Hc. rewrite E. by exists c, n. Qed.

Lemma after_label who tr w tr' w' x : after who tr w tr' w' → x ∈ tr.*1 → x ∈ tr'.*1.
Proof. intros [[ext ->] _]. rewrite fmap_app. intros ?. apply elem_of_app. by left. Qed.

Lemma after_proven who tr w tr' w' i a : after who tr w tr' w' → proven tr i a → proven tr' i a.
Proof. intros H (nonce & msg & ? & ? & ?). exists nonce, msg. split_and!; [by eapply after_label..|done]. Qed.

Lemma after_acts i a tr w tr' w' : after (Some i) tr w tr' w' → acts_as i a w → acts_as i a w'.
Proof.
  intros Hl (c & n & Hc & Hk & Hd). destruct (after_own _ _ _ _ _ Hl i c n eq_refl Hc) as (c' & n' & Hc' & Hk' & Hd').
  exists c', n'. by rewrite Hk', Hd'.
Qed.

Lemma acts_key i a c n w : clients w !! i = Some (c, n) → acts_as i a w → getIdentityKey c = Address_IdentityKey a.
Proof. intros Hc (c' & n' & Hc' & Hk & _). rewrite Hc in Hc'. injection Hc' as <- <-. unfold getIdentityKey. by rewrite Hk. Qed.

Lemma acts_device i a c n w : clients w !! i = Some (c, n) → acts_as i a w → getDeviceId c = Address_DeviceId a.
Proof. intros Hc (c' & n' & Hc' & _ & Hd). rewrite Hc in Hc'. injection Hc' as <- <-. unfold getDeviceId. by rewrite Hd. Qed.

(** The connection of the goroutine is as it should be when no message is being
    handled. *)
Definition settled z tr w : Prop :=
  ∀ i, owner z = Some i → ∃ c n, clients w !! i = Some (c, n) ∧ identity_proven tr i c.

Lemma identity_later tr tr' i c c' :
  (∀ a, proven tr i a → proven tr' i a) → same_id c c' → identity_proven tr i c → identity_proven tr' i c'.
Proof.
  intros Hp [Hk Hd] H Ha. unfold isAuthenticated, getIdentityKey in Ha. rewrite Hk in Ha.
  destruct (H Ha) as (a & Hpa & Ek & Ed). exists a. rewrite Hk, Hd. auto.
Qed.

Lemma settled_after z tr w tr' w' : after (owner z) tr w tr' w' → settled z tr w → settled z tr' w'.
Proof.
  intros Hl H i Hi. destruct (H i Hi) as (c & n & Hc & Hid).
  destruct (after_own _ _ _ _ _ Hl i c n Hi Hc) as (c' & n' & Hc' & Hsame). exists c', n'. split; [done|].
  eapply identity_later; [|done..]. intros a. by eapply after_proven.
Qed.

(** ** Guarded programs *)

Record called z tr es w w' : Prop := {
  ca_stable : stable (tr ++ [(LIdle, es)]) w';
  ca_permitted : permitted z tr (reg_view (db (shared w))) (reg_view (db (shared w')));
  ca_after : ∀ who, who = None ∨ who ≠ owner z → after who tr w (tr ++ [(LIdle, es)]) w' }.

Fixpoint guarded z (p : prog unit) tr w : Prop :=
  match p with
  | Done _ => settled z tr w
  | Call o r k => ∀ tr' w' w'' y,
      after (owner z) tr w tr' w' → stable tr' w' → perform o w' = Ret (w'', y) →
      let es := r (broker (shared w')) (broker (shared w'')) y in
      called z tr' es w' w'' ∧ guarded z (k y) (tr' ++ [(LIdle, es)]) w''
  end.

Lemma guarded_after z p tr w tr' w' : after (owner z) tr w tr' w' → guarded z p tr w → guarded z p tr' w'.
Proof.
  intros Hl. destruct p; [by apply settled_after|]. simpl. intros H tr1 w1 w2 y Hl'. apply H. by eapply after_trans.
Qed.

Lemma guarded_assoc {X Y} z (p : prog X) (f : X → prog Y) (g : Y → prog unit) tr w :
  guarded z (p ≫= λ x, f x ≫= g) tr w → guarded z ((p ≫= f) ≫= g) tr w.
Proof.
  revert tr w. induction p as [x|Z o r k IH]; intros tr w; [done|]. simpl.
  intros H tr' w' w'' y Hl I Hp. destruct (H tr' w' w'' y Hl I Hp) as [Hc Hk]. split; [done|]. by apply IH.
Qed.

Lemma stable_snoc tr x w : stable tr w → stable (tr ++ [x]) w.
Proof. intros [? H]. split; [done|]. intros i c n Hc%H. rewrite fmap_app. apply elem_of_app. by left. Qed.

(** A call on what is shared. *)
Lemma guarded_shared {Y} z (f : env → outcome (env * Y)) r (k : Y → prog unit) tr w :
  settled z tr w →
  (∀ tr' e e' y, (∃ w', after (owner z) tr w tr' w') → db_wf (db e) → f e = Ret (e', y) →
     db_wf (db e') ∧ permitted z tr' (reg_view (db e)) (reg_view (db e'))) →
  (∀ y tr' w', (∃ e e', f e = Ret (e', y)) → after (owner z) tr w tr' w' → settled z tr' w' →
     guarded z (k y) tr' w') →
  guarded z (Call (Shared f) r Done ≫= k) tr w.
Proof.
  intros Hs Hf Hk tr' w' w'' y Hl I Hp es. simpl in Hp. apply bind_Ret_inv in Hp as ([e y'] & He & [= <- <-]).
  destruct (Hf tr' _ _ _ (ex_intro _ w' Hl) (st_db _ _ I) He) as [Hd Hper].
  assert (Ha : ∀ who, after who tr' w' (tr' ++ [(LIdle, es)]) (with_shared e w')) by (intros; by apply after_same).
  assert (Hl' := after_trans _ _ _ _ _ _ _ Hl (Ha (owner z))). split.
  - split; [|done|auto]. apply stable_snoc. destruct I. by split.
  - apply Hk; [by eexists _, _|done|]. by eapply settled_after.
Qed.

(** One that leaves the database alone. *)
Lemma guarded_still {Y} z (f : env → outcome (env * Y)) r (k : Y → prog unit) tr w :
  settled z tr w → (∀ e e' y, f e = Ret (e', y) → db e' = db e) →
  (∀ y tr' w', after (owner z) tr w tr' w' → settled z tr' w' → guarded z (k y) tr' w') →
  guarded z (Call (Shared f) r Done ≫= k) tr w.
Proof.
  intros Hs Hf Hk. apply guarded_shared; [done| |by intros y tr' w' _; apply Hk]. intros tr' e e' y _ W H. rewrite (Hf _ _ _ H).
  split; [done|apply permitted_refl].
Qed.

Lemma guarded_db {Y} z (f : D → outcome (D * Y)) (k : Y → prog unit) tr w :
  settled z tr w →
  (∀ tr' d d' y, (∃ w', after (owner z) tr w tr' w') → db_wf d → f d = Ret (d', y) →
     db_wf d' ∧ permitted z tr' (reg_view d) (reg_view d')) →
  (∀ y tr' w', after (owner z) tr w tr' w' → settled z tr' w' → guarded z (k y) tr' w') →
  guarded z (on_db f ≫= k) tr w.
Proof.
  intros Hs Hf Hk. apply guarded_shared; [done| |by intros y tr' w' _; apply Hk]. intros tr' e e' y Hl W H.
  apply bind_Ret_inv in H as ([d y'] & Hd & [= <- <-]). by eapply Hf.
Qed.

(** An access to connection [i]. *)
Lemma guarded_own {Y} z i (f : clientConnection → clientConnection * Y) r (k : Y → prog unit) tr w :
  (∀ c, authNonce (f c).1 = authNonce c ∧ (owner z = Some i ∨ same_id c (f c).1)) →
  (∀ c n tr1 w1 tr' w', after (owner z) tr w tr1 w1 → stable tr1 w1 → clients w1 !! i = Some (c, n) →
     (∃ x, tr' = tr1 ++ [x]) → w' = put i (f c).1 n w1 → guarded z (k (f c).2) tr' w') →
  guarded z (Call (Own i f) r Done ≫= k) tr w.
Proof.
  intros Hf Hk tr' w' w'' y Hl I Hp es. simpl in Hp. destruct (clients w' !! i) as [[c n]|] eqn:Ei; [|done].
  specialize (Hk c n tr' w' (tr' ++ [(LIdle, es)]) _ Hl I Ei (ex_intro _ _ eq_refl) eq_refl).
  destruct (Hf c) as [Hn Hid]. destruct (f c) as [c' y'] eqn:Ef. injection Hp as <- <-. simpl in *. split; [|done]. split.
  - apply (stable_snoc _ (LIdle, es)) in I as [? H]. split; [done|]. intros j c1 n1. simpl. rewrite lookup_insert.
    case_decide as E; [|apply H]. intros [= <- <-]. subst j. rewrite Hn. by eapply H.
  - apply permitted_refl.
  - intros who Hwho. split; [by eexists|]. intros j c1 n1 -> Hj. simpl. rewrite lookup_insert. case_decide as E; [|by exists c1, n1].
    subst j. rewrite Ei in Hj. injection Hj as <- <-. exists c', n. split; [done|].
    destruct Hid as [Hid|Hid]; [|done]. destruct Hwho as [?|Hne]; [done|]. by rewrite Hid in Hne.
Qed.

Lemma after_put who tr w i c n c' x :
  clients w !! i = Some (c, n) → same_id c c' → after who tr w (tr ++ [x]) (put i c' n w).
Proof.
  intros Hi Hs. split; [by eexists|]. intros j c1 n1 _ Hj. simpl. rewrite lookup_insert. case_decide as E; [|by exists c1, n1].
  subst j. rewrite Hi in Hj. injection Hj as <- <-. by exists c', n.
Qed.

(** One that keeps the identity. *)
Lemma guarded_tame {Y} z i (f : clientConnection → clientConnection * Y) r (k : Y → prog unit) tr w :
  settled z tr w → (∀ c, authNonce (f c).1 = authNonce c ∧ same_id c (f c).1) →
  (∀ y tr' w', after (owner z) tr w tr' w' → settled z tr' w' → guarded z (k y) tr' w') →
  guarded z (Call (Own i f) r Done ≫= k) tr w.
Proof.
  intros Hs Hf Hk. apply guarded_own; [intros c; destruct (Hf c); auto|].
  intros c n tr1 w1 tr' w' Hl I Hi [x ->] ->.
  assert (Hl' : after (owner z) tr w (tr1 ++ [x]) (put i (f c).1 n w1)).
  { eapply after_trans; [done|]. eapply after_put; [done|apply Hf]. }
  apply Hk; [done|by eapply settled_after].
Qed.

Lemma guarded_look {Y} z i (f : clientConnection → Y) (k : Y → prog unit) tr w :
  settled z tr w →
  (∀ c n tr' w', after (owner z) tr w tr' w' → stable tr' w' → settled z tr' w' → clients w' !! i = Some (c, n) →
     guarded z (k (f c)) tr' w') →
  guarded z (look i f ≫= k) tr w.
Proof.
  intros Hs Hk. apply guarded_own; [by intros c; split; [|right]|]. intros c n tr1 w1 tr' w' Hl I Hi [x ->] ->.
  eapply guarded_after; [by eapply after_put|]. eapply Hk; [done..|by eapply settled_after|done].
Qed.

Lemma guarded_send z i msg (k : unit → prog unit) tr w :
  settled z tr w →
  (∀ tr' w', after (owner z) tr w tr' w' → settled z tr' w' → guarded z (k tt) tr' w') →
  guarded z (sendTo i msg ≫= k) tr w.
Proof.
  intros Hs Hk tr' w' w'' y Hl I Hp es. simpl in Hp.
  pose proof (guarded_tame z i (λ c, (cn (send msg (mkSt (shared w') c)), tt)) (λ _ _ _, []) k tr w Hs) as H.
  apply H; [done| |done|done|]; [intros []; apply Hk|]. simpl.
  destruct (clients w' !! i) as [[c n]|]; [|done]. exact Hp.
Qed.

Lemma guarded_forwards {Y} z (f : Forwarder Conn callback → N → N * Forwarder Conn callback * Y) (k : Y → prog unit) tr w :
  settled z tr w → (∀ y tr' w', after (owner z) tr w tr' w' → settled z tr' w' → guarded z (k y) tr' w') →
  guarded z (silently (Forwards f) ≫= k) tr w.
Proof.
  intros Hs Hk tr' w' w'' y Hl I Hp es. simpl in Hp. destruct (f (fwd w') (net w')) as [[n f'] y'] eqn:E.
  injection Hp as <- <-. set (w2 := with_forwarder _ _).
  assert (Ha : ∀ who, after who tr' w' (tr' ++ [(LIdle, es)]) w2) by (intros; by apply after_same).
  split.
  - split; [|apply permitted_refl|auto]. apply stable_snoc. destruct I. by split.
  - assert (Hl' := after_trans _ _ _ _ _ _ _ Hl (Ha (owner z))). apply Hk; [done|by eapply settled_after].
Qed.

Lemma guarded_turn z (m : mover) tr w : settled z tr w → guarded z (silently (Turn m)) tr w.
Proof.
  intros Hs tr' w' w'' y Hl I Hp es. injection Hp as <- <-.
  assert (Ha : ∀ who, after who tr' w' (tr' ++ [(LIdle, es)]) (with_transfer (shared w') (round w') m w'))
    by (intros; by apply after_same).
  split.
  - split; [|apply permitted_refl|auto]. apply stable_snoc. destruct I. by split.
  - simpl. eapply settled_after; [apply (Ha (owner z))|]. by eapply settled_after.
Qed.

(** *** The calls that do not change the registry *)

Lemma guarded_try {Y} z (m : outcome Y) (k : Y → prog unit) tr w :
  settled z tr w →
  (∀ y tr' w', m = Ret y → after (owner z) tr w tr' w' → settled z tr' w' → guarded z (k y) tr' w') →
  guarded z (try m ≫= k) tr w.
Proof.
  intros Hs Hk. apply guarded_shared; [done| |].
  - intros tr' e e' y _ W H. apply bind_Ret_inv in H as (y' & _ & [= <- <-]). split; [done|apply permitted_refl].
  - intros y tr' w' (e & e' & H). apply bind_Ret_inv in H as (y' & Hm & [= _ <-]). by apply Hk.
Qed.

Section still.
Context (z : cause) (tr : trace) (w : tassis) (Hs : settled z tr w).
#[local] Abbreviation continues k :=
  (∀ y tr' w', after (owner z) tr w tr' w' → settled z tr' w' → guarded z (k y) tr' w').

Lemma guarded_find a (k : _ → prog unit) : continues k → guarded z (find a ≫= k) tr w.
Proof using Hs. apply guarded_still; [done|]. intros e e' y. by destruct (presence_Find _ _); intros [= <- <-]. Qed.

Lemma guarded_announce a host (k : _ → prog unit) : continues k → guarded z (announce a host ≫= k) tr w.
Proof using Hs. apply guarded_still; [done|]. intros e e' y. by destruct (presence_Announce _ _ _); intros [= <- <-]. Qed.

Lemma guarded_upload (k : _ → prog unit) : continues k → guarded z (authorizeUpload ≫= k) tr w.
Proof using Hs. apply guarded_still; [done|]. intros e e' y. by destruct (attachments_AuthorizeUpload _); intros [= <- <-]. Qed.

Lemma guarded_size (k : _ → prog unit) : continues k → guarded z (maxAttachmentSize ≫= k) tr w.
Proof using Hs. apply guarded_still; [done|]. by intros e e' y [= <- <-]. Qed.

Lemma guarded_subscribe t (k : _ → prog unit) : continues k → guarded z (newSubscriber t ≫= k) tr w.
Proof using Hs. apply guarded_still; [done|]. intros e e' y. by destruct (broker_NewSubscriber _ _); intros [= <- <-]. Qed.

Lemma guarded_receive sub (k : _ → prog unit) : continues k → guarded z (receive sub ≫= k) tr w.
Proof using Hs. apply guarded_still; [done|]. intros e e' y. by destruct (broker_Receive _ _); intros [= <- <-]. Qed.

Lemma guarded_close sub (k : _ → prog unit) : continues k → guarded z (closeSubscriber sub ≫= k) tr w.
Proof using Hs. apply guarded_still; [done|]. by intros e e' y [= <- <-]. Qed.

Lemma guarded_publish p y es (k : _ → prog unit) : continues k → guarded z (publish p y es ≫= k) tr w.
Proof using Hs.
  apply guarded_still; [done|]. intros e e' err H. apply bind_Ret_inv in H as ([b er] & _ & [= <- <-]). done.
Qed.

Lemma guarded_callAcker acker r (k : _ → prog unit) : continues k → guarded z (callAcker acker r ≫= k) tr w.
Proof using Hs.
  apply guarded_still; [done|]. intros e e' err H. apply bind_Ret_inv in H as ([b er] & _ & [= <- <-]). done.
Qed.

Lemma guarded_runAck acker r : guarded z (runAck acker r) tr w.
Proof using Hs. by apply guarded_callAcker. Qed.

Lemma guarded_build i payload (k : _ → prog unit) : continues k → guarded z (build i payload ≫= k) tr w.
Proof using Hs. by apply guarded_tame. Qed.

Lemma guarded_closeConn i (k : _ → prog unit) : continues k → guarded z (closeConn i ≫= k) tr w.
Proof using Hs. by apply guarded_tame. Qed.
End still.

Lemma guarded_publisherFor z t (k : _ → prog unit) tr w :
  settled z tr w →
  (∀ y tr' w', after (owner z) tr w tr' w' → settled z tr' w' → guarded z (k y) tr' w') →
  guarded z (publisherFor t ≫= k) tr w.
Proof.
  intros Hs Hk. apply guarded_assoc, guarded_still; [done|by intros e e' y; destruct (lru_Get _ _); intros [= <- <-]|].
  intros [p|] tr1 w1 Hl1 Hs1; [by apply Hk|].
  apply guarded_assoc, guarded_still; [done|by intros e e' y; destruct (broker_NewPublisher _ _); intros [= <- <-]|].
  intros [p|err] tr2 w2 Hl2 Hs2; [|apply Hk; [by eapply after_trans|done]].
  apply guarded_assoc, guarded_still; [done|by intros e e' y; destruct (lru_Add _ _ _); intros [= <- <-]|].
  intros [] tr3 w3 Hl3 Hs3. apply Hk; [|done]. eapply after_trans; [exact Hl1|]. by eapply after_trans.
Qed.

Lemma guarded_reply z i m tr w : settled z tr w → guarded z (sendTo i m) tr w.
Proof. intros Hs. by apply (guarded_send z i m Done). Qed.

Lemma guarded_read {Y} z (f : D → outcome (D * Y)) (k : Y → prog unit) tr w :
  settled z tr w → (∀ d, db_wf d → ∃ y, f d = Ret (d, y)) →
  (∀ y tr' w', after (owner z) tr w tr' w' → settled z tr' w' → guarded z (k y) tr' w') →
  guarded z (on_db f ≫= k) tr w.
Proof.
  intros Hs Hf Hk. apply guarded_db; [done| |done]. intros tr' d d' y _ W H. destruct (Hf d W) as [y' E].
  rewrite E in H. injection H as <- <-. split; [done|apply permitted_refl].
Qed.

(** ** The programs of the goroutines *)

(** Go through the calls of which nothing has to be known. *)
Ltac walk :=
  repeat first
    [ progress cbn beta iota
    | by apply guarded_reply | by apply guarded_runAck | by apply guarded_turn
    | apply guarded_assoc
    | apply guarded_try; [done|intros ? ? ? ? ? ?]
    | apply guarded_look; [done|intros ? ? ? ? ? ? ? ?]
    | apply guarded_find; [done|intros ? ? ? ? ?] | apply guarded_announce; [done|intros ? ? ? ? ?]
    | apply guarded_upload; [done|intros ? ? ? ? ?] | apply guarded_size; [done|intros ? ? ? ? ?]
    | apply guarded_subscribe; [done|intros ? ? ? ? ?] | apply guarded_receive; [done|intros ? ? ? ? ?]
    | apply guarded_close; [done|intros ? ? ? ? ?] | apply guarded_publish; [done|intros ? ? ? ? ?]
    | apply guarded_callAcker; [done|intros ? ? ? ? ?] | apply guarded_build; [done|intros ? ? ? ? ?]
    | apply guarded_closeConn; [done|intros ? ? ? ? ?] | apply guarded_publisherFor; [done|intros ? ? ? ? ?]
    | apply guarded_forwards; [done|intros ? ? ? ? ?] | apply guarded_send; [done|intros ? ? ? ?]
    | lazymatch goal with
      | |- guarded _ (match ?x with _ => _ end) _ _ => destruct x
      | |- guarded _ (mret _) _ _ => assumption
      end ].

Section tame_programs.
Context (z : cause) (tr : trace) (w : tassis) (Hs : settled z tr w).

Lemma guarded_error i msg err : guarded z (errorTo i msg err) tr w.
Proof using Hs. by apply guarded_reply. Qed.

Lemma guarded_FindByShort i msg : guarded z (handleFindChatNumberByShortNumber srvc i msg) tr w.
Proof using Hs.
  unfold handleFindChatNumberByShortNumber. walk. apply guarded_read; [done|apply FindChatNumberByShortNumber_law|].
  intros. unfold errorTo. walk.
Qed.

Lemma guarded_FindByKey i msg : guarded z (handleFindChatNumberByIdentityKey srvc i msg) tr w.
Proof using Hs.
  unfold handleFindChatNumberByIdentityKey. walk. apply guarded_read; [done| |intros; unfold errorTo; walk].
  intros d W. edestruct FindChatNumberByIdentityKey_law as (res & E & _); [done|]. by exists res.
Qed.

Lemma guarded_Check i : guarded z (warnPreKeysLowIfNecessary srvc i) tr w.
Proof using Hs.
  unfold warnPreKeysLowIfNecessary. walk. apply guarded_read; [done| |intros; walk].
  intros d W. edestruct PreKeysRemaining_law as (res & E & _); [done|]. by exists res.
Qed.

Lemma guarded_Init i : guarded z (sendInitMessages i) tr w.
Proof using Hs. unfold sendInitMessages. walk. Qed.

Lemma guarded_Inbound i data acker : guarded z (handleInboundMessage i data acker) tr w.
Proof using Hs. unfold handleInboundMessage. walk. apply guarded_tame; [done..|]. intros. walk. Qed.

Lemma guarded_ACK i msg : guarded z (handleACK i msg) tr w.
Proof using Hs. unfold handleACK. walk. by apply (guarded_tame z i _ _ Done). Qed.

Lemma guarded_Outbound i msg : guarded z (sendOutboundMessage srvc i msg) tr w.
Proof using Hs. unfold sendOutboundMessage, publishOutbound, errorTo, ackTo. walk. Qed.

Lemma guarded_fail cl cb : guarded z (failMessage srvc cl cb) tr w.
Proof using Hs. unfold failMessage. walk. Qed.

Lemma guarded_finished cl cb err : guarded z (finished srvc cl cb err) tr w.
Proof using Hs. destruct err; [apply guarded_fail|by apply guarded_runAck]. Qed.
End tame_programs.

Lemma guarded_authorizations z n auths err (k : _ → prog unit) tr w :
  settled z tr w → (∀ res tr' w', settled z tr' w' → guarded z (k res) tr' w') →
  guarded z (authorizeUploads n auths err ≫= k) tr w.
Proof.
  intros Hs Hk. revert auths err tr w Hs. induction n as [|n IH]; intros auths err tr w Hs; [by apply Hk|].
  cbn [authorizeUploads]. apply guarded_assoc, guarded_upload; [done|]. intros [auth|er] tr' w' _ Hs'; by apply IH.
Qed.

Lemma guarded_Upload z i msg tr w : settled z tr w → guarded z (handleRequestUploadAuthorizations i msg) tr w.
Proof.
  intros Hs. unfold handleRequestUploadAuthorizations, errorTo. walk. apply guarded_authorizations; [done|].
  intros [auths err] ? ? ?. walk.
Qed.

Lemma guarded_forwardMessage z cl p data acker tr w :
  settled z tr w → guarded z (forwardMessage dial srvc cl p data acker) tr w.
Proof.
  intros Hs. unfold forwardMessage, deliverLocally, forwardTo. walk; first [by apply guarded_fail|by apply guarded_finished].
Qed.

Lemma guarded_handleReply z cl msg tr w : settled z tr w → guarded z (handleReply srvc cl msg) tr w.
Proof. intros Hs. unfold handleReply. walk. by apply guarded_finished. Qed.

Lemma guarded_findMoved z addr tr w : settled z tr w → guarded z (findMoved srvc addr) tr w.
Proof. intros Hs. unfold findMoved. walk. Qed.

Lemma guarded_transferTurn z sub addr p tr w : settled z tr w → guarded z (transferTurn sub addr p) tr w.
Proof. intros Hs. unfold transferTurn. walk. Qed.

(** *** The handlers that change the registry *)

(** What a connection that acts for [a] reads of its identity. *)
Lemma guarded_identity i msg a (k : string → string → prog unit) tr w :
  let z := Handling i msg in
  settled z tr w → acts_as i a w → proven tr i a →
  (∀ tr' w', after (Some i) tr w tr' w' → settled z tr' w' → acts_as i a w' → proven tr' i a →
     guarded z (k (Address_IdentityKey a) (Address_DeviceId a)) tr' w') →
  guarded z (key ← look i getIdentityKey; dev ← look i getDeviceId; k key dev) tr w.
Proof.
  intros z Hs Ha Hp Hk. apply guarded_look; [done|]. intros c1 n1 tr1 w1 Hl1 _ Hs1 Hc1.
  apply (after_acts _ _ _ _ _ _ Hl1) in Ha as Ha1. apply (after_proven _ _ _ _ _ _ _ Hl1) in Hp as Hp1.
  rewrite (acts_key _ _ _ _ _ Hc1 Ha1). apply guarded_look; [done|]. intros c2 n2 tr2 w2 Hl2 _ Hs2 Hc2.
  apply (after_acts _ _ _ _ _ _ Hl2) in Ha1 as Ha2. apply (after_proven _ _ _ _ _ _ _ Hl2) in Hp1 as Hp2.
  rewrite (acts_device _ _ _ _ _ Hc2 Ha2). apply Hk; [by eapply after_trans|done..].
Qed.

Lemma proven_owns i a tr tr' :
  (∃ w w', after (Some i) tr w tr' w') → proven tr i a →
  owns_device tr' i (PublicKey_String (Address_IdentityKey a)) (Address_DeviceId a).
Proof. intros (w & w' & Hl) Hp. exists a. split; [by eapply after_proven|done]. Qed.

Lemma guarded_Register i msg a tr w :
  let z := Handling i msg in
  settled z tr w → acts_as i a w → proven tr i a → needs_auth msg → guarded z (handleRegister srvc i msg) tr w.
Proof.
  intros z Hs Ha Hp Hm. apply (guarded_identity _ _ a); [done..|]. intros tr1 w1 _ Hs1 _ Hp1.
  apply guarded_announce; [done|]. intros [er|] tr2 w2 Hl2 Hs2; [by apply guarded_error|].
  apply guarded_try; [done|]. intros r tr3 w3 _ Hl3 Hs3. apply guarded_db; [done| |intros; walk].
  intros tr4 d d' err [w4 Hl4] W E.
  destruct (Register_law (Address_IdentityKey a) (Address_DeviceId a) r d W) as (d1 & e1 & E1 & W1 & V).
  rewrite E in E1. injection E1 as <- <-. split; [done|]. rewrite V. destruct err; [apply permitted_refl|].
  eapply permitted_one; [done..| |done|intros; by apply register_other]. eapply (proven_owns i a tr1); [|done].
  exists w1, w4. eapply after_trans; [exact Hl2|]. by eapply after_trans.
Qed.

Lemma guarded_Unregister i msg a tr w :
  let z := Handling i msg in
  settled z tr w → acts_as i a w → proven tr i a → needs_auth msg → guarded z (handleUnregister i msg) tr w.
Proof.
  intros z Hs Ha Hp Hm. apply (guarded_identity _ _ a); [done..|]. intros tr1 w1 _ Hs1 _ Hp1.
  apply guarded_db; [done| |intros; walk]. intros tr2 d d' err [w2 Hl2] W E.
  destruct (Unregister_law (Address_IdentityKey a) (Address_DeviceId a) d W) as (d1 & e1 & E1 & W1 & V).
  rewrite E in E1. injection E1 as <- <-. split; [done|]. rewrite V. destruct err; [apply permitted_refl|].
  eapply permitted_one; [done..| |done|intros; by apply unregister_other]. eapply (proven_owns i a tr1); [|done].
  by exists w1, w2.
Qed.

Lemma guarded_RequestPreKeys i msg tr w :
  let z := Handling i msg in settled z tr w → guarded z (handleRequestPreKeys i msg) tr w.
Proof.
  intros z Hs. apply guarded_try; [done|]. intros rq tr1 w1 Hrq%deref_Ret_inv _ Hs1. apply guarded_db; [done| |intros; walk].
  intros tr2 d d' res _ W E. destruct (RequestPreKeys_law rq d W) as (d1 & r1 & E1 & W1 & V).
  rewrite E in E1. injection E1 as <- <-. split; [done|]. rewrite V. destruct res; [by eapply permitted_request|apply permitted_refl].
Qed.

(** *** Logging in *)

Lemma acts_settled i msg a tr w : acts_as i a w → proven tr i a → settled (Handling i msg) tr w.
Proof. intros (c & n & Hc & Hk & Hd) Hp j [= <-]. exists c, n. split; [done|]. intros _. by exists a. Qed.

(** What an authenticated connection has proved. *)
Lemma settled_acts i msg tr w c n :
  settled (Handling i msg) tr w → clients w !! i = Some (c, n) → isAuthenticated c = true →
  ∃ a, acts_as i a w ∧ proven tr i a.
Proof.
  intros Hs Hc Ha. destruct (Hs i eq_refl) as (c' & n' & Hc' & Hid). rewrite Hc in Hc'. injection Hc' as <- <-.
  destruct (Hid Ha) as (a & Hp & Hk & Hd). exists a. split; [by exists c, n|done].
Qed.

Lemma guarded_number i msg a fuel iter num (k : _ → prog unit) tr w :
  let z := Handling i msg in
  settled z tr w → proven tr i a →
  (∀ res tr' w', after (Some i) tr w tr' w' → settled z tr' w' → guarded z (k res) tr' w') →
  guarded z (getNumber fuel iter (Address_IdentityKey a) num ≫= k) tr w.
Proof.
  intros z. revert iter tr w. induction fuel as [|fuel IH]; intros iter tr w Hs Hp Hk; cbn [getNumber].
  - by apply guarded_try.
  - apply guarded_assoc, guarded_try; [done|]. intros [[n1 n2] final] tr1 w1 _ Hl1 Hs1.
    apply guarded_assoc, guarded_db; [done| |].
    + intros tr2 d d' res [w2 Hl2] W E.
      destruct (RegisterChatNumber_law (Address_IdentityKey a) n1 n2 d W) as (d1 & r1 & E1 & W1 & V).
      rewrite E in E1. injection E1 as <- <-. split; [done|]. destruct res as [q|er]; [|destruct V as [-> _]; apply permitted_refl].
      destruct (DBSpec.numbers (reg_view d) !! _) eqn:En; [destruct V as [_ ->]; apply permitted_refl|].
      destruct V as (_ & _ & ->). eapply permitted_assign; [done| |done]. eapply (proven_owns i a tr); [|done].
      exists w, w2. by eapply after_trans.
    + intros res tr2 w2 Hl2 Hs2. assert (Hl : after (Some i) tr w tr2 w2) by (by eapply after_trans).
      destruct res as [p|err]; [by apply Hk|]. destruct (error_Is err ErrNumberTaken && negb final); [|by apply Hk].
      apply IH; [done|by eapply after_proven|]. intros res tr3 w3 Hl3. apply Hk. by eapply after_trans.
Qed.

Lemma guarded_inbound z i (k : _ → prog unit) tr w :
  settled z tr w → (∀ res tr' w', settled z tr' w' → guarded z (k res) tr' w') →
  guarded z (startHandlingInbound i ≫= k) tr w.
Proof.
  intros Hs Hk. unfold startHandlingInbound. walk. destruct y as [sub|err]; [|by apply Hk].
  apply guarded_assoc, guarded_tame; [done..|]. intros. by apply Hk.
Qed.

Lemma guarded_Login i msg a tr w :
  let z := Handling i msg in
  acts_as i a w → proven tr i a → guarded z (finishLogin srvc i msg) tr w.
Proof.
  intros z Ha Hp. assert (Hs : settled z tr w) by (by eapply acts_settled). unfold finishLogin.
  assert (Hgo : ∀ n sn tr' w', settled z tr' w' →
    guarded z (failed ← startHandlingInbound i;
      match failed with
      | Some err => errorTo i msg err
      | None => _ ← (if decide (0 < checkPreKeysInterval srvc)%Z then on_conn i (λ c, (put_check c, tt)) else mret tt);
                sendTo i (chatNumberMessage srvc msg n sn)
      end) tr' w').
  { intros n sn tr' w' Hs'. apply guarded_inbound; [done|]. intros [err|] tr1 w1 Hs1; [by apply guarded_error|].
    destruct (decide _); [|by apply guarded_reply]. apply guarded_tame; [done..|]. intros. by apply guarded_reply. }
  apply guarded_look; [done|]. intros c n tr1 w1 Hl1 _ Hs1 Hc. apply (after_acts _ _ _ _ _ _ Hl1) in Ha.
  apply (after_proven _ _ _ _ _ _ _ Hl1) in Hp. rewrite (acts_key _ _ _ _ _ Hc Ha).
  apply guarded_number; [done..|]. intros res tr2 w2 Hl2 Hs2. destruct res as [[num short]|err]; [by apply Hgo|].
  apply guarded_assoc, guarded_send; [done|]. intros tr3 w3 Hl3 Hs3. apply guarded_assoc, guarded_closeConn; [done|].
  intros ? tr4 w4 Hl4 Hs4. by apply Hgo.
Qed.

Lemma guarded_AuthResponse i msg tr w :
  let z := Handling i msg in
  LClient i (EvOut msg) ∈ tr.*1 → settled z tr w → guarded z (handleAuthResponse srvc i msg) tr w.
Proof.
  intros z Hin Hs. unfold handleAuthResponse.
  assert (Href : ∀ err tr' w', settled z tr' w' → guarded z (refuseLogin i msg err) tr' w').
  { intros err tr' w' Hs'. apply guarded_send; [done|]. intros tr1 w1 _ Hs1. by apply (guarded_closeConn z tr1 w1 Hs1 i Done). }
  apply guarded_try; [done|]. intros ar tr1 w1 Har Hl1 Hs1. apply deref_Ret_inv in Har.
  destruct (Unmarshal_Login _) as [login|err] eqn:El; [|by apply Href].
  apply guarded_look; [done|]. intros c n tr2 w2 Hl2 I2 Hs2 Hc. case_decide as En; [|by apply Href].
  apply guarded_try; [done|]. intros a tr3 w3 Ha Hl3 Hs3. apply deref_Ret_inv in Ha.
  destruct (PublicKey_Verify _ _ _) eqn:Ev; [|by apply Href].
  assert (Hp : proven tr3 i a).
  { exists (authNonce c), msg. split_and!.
    - eapply after_label; [done|]. by eapply (st_nonce _ _ I2).
    - eapply after_label; [done|]. eapply after_label; [done|]. by eapply after_label.
    - exists ar, login. split_and!; try done. unfold GetAuthResponse in Har. by repeat case_match; simplify_eq. }
  apply guarded_own; [by intros; split; [|left]|].
  intros c4 n4 tr4 w4 tr5 w5 Hl4 _ Hc4 [x ->] ->. apply (after_proven _ _ _ _ _ _ _ Hl4) in Hp.
  apply guarded_own; [by intros; split; [|left]|].
  intros c6 n6 tr6 w6 tr7 w7 Hl6 _ Hc6 [x' ->] ->. apply (guarded_Login _ _ a).
  - destruct (after_own _ _ _ _ _ Hl6 i _ n4 eq_refl (lookup_insert_eq _ _ _)) as (c' & n' & Hc' & Hk & _).
    rewrite Hc6 in Hc'. injection Hc' as <- <-. exists (put_device (Address_DeviceId a) c6), n6.
    split; [apply lookup_insert_eq|]. split; [exact Hk|done].
  - apply proven_snoc. eapply after_proven; [exact Hl6|]. by apply proven_snoc.
Qed.

(** *** Every handler *)

Lemma guarded_handler i msg tr w :
  let z := Handling i msg in
  LClient i (EvOut msg) ∈ tr.*1 → settled z tr w → guarded z (doHandleOutboundMessage srvc i msg) tr w.
Proof.
  intros z Hin Hs. unfold doHandleOutboundMessage.
  destruct (Message_Payload msg) as [[]|] eqn:Em; try done; [by apply guarded_ACK|..];
    (apply guarded_look; [done|]; intros c n tr1 w1 Hl1 _ Hs1 Hc; apply (after_label _ _ _ _ _ _ Hl1) in Hin;
     destruct (isAuthenticated c) eqn:Ea; cbn [Bool.eqb]; try by apply guarded_error).
  - by apply guarded_AuthResponse.
  - destruct (settled_acts _ _ _ _ _ _ Hs1 Hc Ea) as (a & Ha & Hp). eapply guarded_Register; [done..|].
    unfold needs_auth. by rewrite Em.
  - destruct (settled_acts _ _ _ _ _ _ Hs1 Hc Ea) as (a & Ha & Hp). eapply guarded_Unregister; [done..|].
    unfold needs_auth. by rewrite Em.
  - by apply guarded_RequestPreKeys.
  - by apply guarded_Upload.
  - by apply guarded_Outbound.
  - by apply guarded_FindByShort.
  - by apply guarded_FindByKey.
Qed.

(** ** The invariant *)

Record watched tr s : Prop := {
  wa_stable : stable tr (server s);
  wa_running : ∀ g, g ∈ running s → guarded (doing g) (body g) tr (server s);
  wa_owners : NoDup (omap owner (doing <$> running s));
  wa_idle : ∀ i c n, clients (server s) !! i = Some (c, n) → i ∉ omap owner (doing <$> running s) →
    identity_proven tr i c }.

(** The connections keep their identities; a new one has none. *)
Record kept (l : label (BI:=BI)) w w' : Prop := {
  kept_there : ∀ i c n, clients w !! i = Some (c, n) → ∃ c' n', clients w' !! i = Some (c', n') ∧ same_id c c';
  kept_back : ∀ i c' n', clients w' !! i = Some (c', n') →
    (∃ c n, clients w !! i = Some (c, n) ∧ authNonce c' = authNonce c ∧ same_id c c') ∨
    l = LConnect i (authNonce c') ∧ isAuthenticated c' = false }.

Lemma kept_same l w w' : clients w' = clients w → kept l w w'.
Proof. intros E. split; intros i c n; rewrite E; [by exists c, n|]. left. by exists c, n. Qed.

Lemma kept_client l w i c n (cc : conn) :
  clients w !! i = Some (c, n) → authNonce (cn (cs cc)) = authNonce c → same_id c (cn (cs cc)) →
  kept l w (with_client i cc w).
Proof.
  intros Hi Hn Hid. split; intros j c1 n1; simpl; rewrite lookup_insert; case_decide as E; try subst j.
  - rewrite Hi. intros [= <- <-]. by eexists _, _.
  - by exists c1, n1.
  - intros [= <- <-]. left. by exists c, n.
  - intros. left. by exists c1, n1.
Qed.

Lemma kept_after l es w w' who tr : kept l w w' → after who tr w (tr ++ [(l, es)]) w'.
Proof. intros [H _]. split; [by eexists|]. intros i c n _. apply H. Qed.

Lemma label_snoc tr l es : l ∈ (tr ++ [(l, es)]).*1.
Proof. rewrite fmap_app. apply elem_of_app. right. by left. Qed.

Lemma kept_identity l es tr w w' i c' n' :
  kept l w w' → clients w' !! i = Some (c', n') →
  (∀ c n, clients w !! i = Some (c, n) → identity_proven tr i c) → identity_proven (tr ++ [(l, es)]) i c'.
Proof.
  intros Hk Hc' H. destruct (kept_back _ _ _ Hk i c' n' Hc') as [(c & n & Hc & _ & Hs)|[_ Ha]]; [|intros ?; congruence].
  eapply identity_later; [intros a; apply proven_snoc|exact Hs|by eapply H].
Qed.

(** A step that is not a call of a program, after which [gs] is running too. *)
Lemma watched_turn tr l es s w' (gs : list goroutine) :
  watched tr s → db_wf (db (shared w')) → kept l (server s) w' →
  (∀ g, g ∈ gs → guarded (doing g) (body g) (tr ++ [(l, es)]) w') →
  NoDup (omap owner (doing <$> running s ++ gs)) →
  watched (tr ++ [(l, es)]) (mkSys w' (running s ++ gs) (told s)).
Proof.
  intros [[_ Hn] Hr Ho Hi] Hd Hk Hg Hnd. split; simpl; [split; [done|]| |done|].
  - intros i c' n' Hc'. destruct (kept_back _ _ _ Hk i c' n' Hc') as [(c & n & Hc & -> & _)|[<- _]]; [|apply label_snoc].
    rewrite fmap_app. apply elem_of_app. left. by eapply Hn.
  - intros g [Hin|Hin]%elem_of_app; [|by apply Hg]. eapply guarded_after; [by apply kept_after|by apply Hr].
  - intros i c' n' Hc' Hni. eapply kept_identity; [done..|]. intros c n Hc. apply (Hi i c n Hc).
    intros Hin. apply Hni. rewrite fmap_app, omap_app. apply elem_of_app. by left.
Qed.

Lemma watched_still tr l es s w' :
  watched tr s → db_wf (db (shared w')) → kept l (server s) w' →
  watched (tr ++ [(l, es)]) (mkSys w' (running s) (told s)).
Proof.
  intros Hw Hd Hk. pose proof (watched_turn tr l es s w' [] Hw Hd Hk) as H. rewrite app_nil_r in H.
  apply H; [by intros g ?%not_elem_of_nil|apply Hw].
Qed.

Lemma watched_spawn tr l es z p s w' :
  watched tr s → db_wf (db (shared w')) → kept l (server s) w' →
  guarded z p (tr ++ [(l, es)]) w' → (∀ i, owner z = Some i → i ∉ omap owner (doing <$> running s)) →
  watched (tr ++ [(l, es)]) (spawn z p w' s).
Proof.
  intros Hw Hd Hk Hp Ho. apply watched_turn; [done..|by intros g ->%list_elem_of_singleton|].
  rewrite fmap_app, omap_app. apply NoDup_app. split_and!; [apply Hw| |].
  - intros i Hi Hin. simpl in Hin. destruct (owner z) as [j|] eqn:E; [|by apply not_elem_of_nil in Hin].
    apply list_elem_of_singleton in Hin as ->. by eapply Ho.
  - simpl. destruct (owner z); [apply NoDup_singleton|constructor].
Qed.

Lemma unowned_settled z tr w : owner z = None → settled z tr w.
Proof. intros E i. by rewrite E. Qed.

(** *** Calls *)

Lemma perform_clients {Y} (o : op Y) w w' y j c' n' :
  perform o w = Ret (w', y) → clients w' !! j = Some (c', n') → ∃ c n, clients w !! j = Some (c, n).
Proof.
  destruct o as [Z f|Z i f|i msg|Z f|m]; simpl.
  - intros H. apply bind_Ret_inv in H as ([e y'] & _ & [= <- <-]). by eexists _, _.
  - destruct (clients w !! i) as [[c n]|] eqn:Ei; [|done]. destruct (f c) as [c1 y1]. intros [= <- <-]. simpl.
    rewrite lookup_insert. case_decide; [subst j|]; by eexists _, _.
  - destruct (clients w !! i) as [[c n]|] eqn:Ei; [|done]. intros [= <- <-]. simpl.
    rewrite lookup_insert. case_decide; [subst j|]; by eexists _, _.
  - destruct (f (fwd w) (net w)) as [[n f'] y']. intros [= <- <-]. by eexists _, _.
  - intros [= <- <-]. by eexists _, _.
Qed.

Lemma other_owner (l1 l2 : list goroutine) z p g :
  NoDup (omap owner (doing <$> l1 ++ mkGo z p :: l2)) → g ∈ l1 ++ l2 →
  owner (doing g) = None ∨ owner (doing g) ≠ owner z.
Proof.
  intros Ho Hin. rewrite fmap_app, fmap_cons, omap_app in Ho. simpl in Ho.
  destruct (owner (doing g)) as [i|] eqn:Eg; [right|by left]. intros Ez. symmetry in Ez. rewrite Ez in Ho.
  assert (Hi : i ∈ omap owner (doing <$> l1) ∨ i ∈ omap owner (doing <$> l2)).
  { apply elem_of_app in Hin as [Hin|Hin]; [left|right]; apply list_elem_of_omap; exists (doing g);
      (split; [by apply list_elem_of_fmap_2|done]). }
  apply NoDup_app in Ho as (_ & Hd & Hn). apply NoDup_cons in Hn as [Hn _].
  destruct Hi as [Hi|Hi]; [|done]. apply (Hd i Hi). by left.
Qed.

Lemma call_watched {Y} tr z (o : op Y) r (f : Y → prog unit) l1 l2 y w w' tl :
  watched tr (mkSys w (l1 ++ mkGo z (Call o r f) :: l2) tl) → perform o w = Ret (w', y) →
  let es := r (broker (shared w)) (broker (shared w')) y in
  watched (tr ++ [(LIdle, es)]) (mkSys w' (l1 ++ mkGo z (f y) :: l2) (tl ++ tells z o)) ∧
  permitted z tr (reg_view (db (shared w))) (reg_view (db (shared w'))).
Proof.
  intros [Hst Hr Ho Hi] Hp es. simpl in *.
  destruct (Hr (mkGo z (Call o r f)) ltac:(apply elem_of_app; right; by left) tr w w' y (after_refl _ _ _) Hst Hp)
    as [[Hst' Hper Haf] Hg].
  split; [|done]. split; simpl; [done| | |].
  - intros g Hin. rewrite elem_of_app, elem_of_cons in Hin. destruct Hin as [Hin|[->|Hin]]; [|exact Hg|].
    + eapply guarded_after; [apply Haf; eapply other_owner; [done|apply elem_of_app; by left]|].
      apply Hr, elem_of_app. by left.
    + eapply guarded_after; [apply Haf; eapply other_owner; [done|apply elem_of_app; by right]|].
      apply Hr, elem_of_app. right. by right.
  - by rewrite fmap_app, fmap_cons in *.
  - intros j c' n' Hc' Hj. rewrite fmap_app, fmap_cons in *. destruct (perform_clients _ _ _ _ _ _ _ Hp Hc') as (c & n & Hc).
    assert (Hne : Some j ≠ owner z).
    { intros E. apply Hj. rewrite omap_app, elem_of_app. right. simpl. rewrite <- E. by left. }
    destruct (after_own _ _ _ _ _ (Haf (Some j) (or_intror Hne)) j c n eq_refl Hc) as (c1 & n1 & Hc1 & Hs).
    rewrite Hc' in Hc1. injection Hc1 as <- <-. eapply identity_later; [intros a; apply proven_snoc|exact Hs|].
    by eapply Hi.
Qed.

Lemma done_watched tr z l1 l2 w tl :
  watched tr (mkSys w (l1 ++ mkGo z (Done tt) :: l2) tl) → watched (tr ++ [(LIdle, [])]) (mkSys w (l1 ++ l2) tl).
Proof.
  intros H. apply (watched_still tr LIdle [] _ w) in H as [Hst Hr Ho Hi]; [|apply H|by apply kept_same]. simpl in *.
  split; simpl; [done| | |].
  - intros g [Hin|Hin]%elem_of_app; apply Hr, elem_of_app; [by left|right; by right].
  - rewrite fmap_app, fmap_cons, omap_app in Ho. rewrite fmap_app, omap_app. simpl in Ho.
    destruct (owner z); [|done]. eapply sublist_NoDup; [exact Ho|]. apply sublist_app; [done|]. by constructor.
  - intros i c n Hc Hni. destruct (decide (owner z = Some i)) as [Ez|Ez].
    + destruct (Hr (mkGo z (Done tt)) ltac:(apply elem_of_app; right; by left) i Ez) as (c' & n' & Hc' & Hid).
      simpl in Hc'. rewrite Hc in Hc'. by injection Hc' as <- <-.
    + apply (Hi i c n Hc). rewrite fmap_app, omap_app, elem_of_app in Hni. rewrite fmap_app, fmap_cons, omap_app, elem_of_app. simpl.
      intros [?|Hin]; [by apply Hni; left|]. destruct (owner z) as [j|]; [|by apply Hni; right].
      apply elem_of_cons in Hin as [->|?]; [done|by apply Hni; right].
Qed.

(** *** Turns without a program *)

Lemma brief_kept l es w w' :
  brief l = true → tassis.step dial srvc sta l es w w' → db (shared w') = db (shared w) ∧ kept l w w'.
Proof.
  intros Hb H. destruct H as [| i c n ev cc w Hi Hev Hs | | | | | | | | | |]; try done; try (by split; [|apply kept_same]).
  assert (H : db (en (cs cc)) = db (shared w) ∧ authNonce (cn (cs cc)) = authNonce c ∧ same_id c (cn (cs cc))).
  { destruct ev; try done; inversion Hs; subst; try done. unfold Receive in *.
    match goal with H : match ?x with _ => _ end = _ |- _ => destruct x end; by simplify_eq. }
  destruct H as (? & ? & ?). split; [done|by eapply kept_client].
Qed.

(** ** The theorem *)

(** What the running goroutines may do of the registry: what one of the handlers may,
    and the transfer goroutine removes the device it has moved. *)
Definition registry_guarded tr s (σ σ' : DBSpec.state) : Prop :=
  (∃ z, z ∈ doing <$> running s ∧ permitted z tr σ σ') ∨ σ' = σ ∨
  ∃ addr, transfer (server s) = Leaving addr ∧
    σ' = DBSpec.unregister (PublicKey_String (Address_IdentityKey addr)) (Address_DeviceId addr) σ.

Lemma step_watched tr l es s s' :
  watched tr s → step dial srvc sta l es s s' →
  watched (tr ++ [(l, es)]) s' ∧
  registry_guarded tr s (reg_view (db (shared (server s)))) (reg_view (db (shared (server s')))).
Proof.
  intros Hw H. pose proof (wa_stable _ _ Hw) as Hst. pose proof (st_db _ _ Hst) as W.
  assert (Hstill : ∀ σ, registry_guarded tr s σ σ) by (intros; right; by left).
  destruct H as [l es w' s Hb Hs|i nonce s Hi|i c n msg s Hi Ho|i c n sub data acker b s Hi Hsub Hr|i c n s Hi Hc
    |ws p j data acker cl s Hws Hj|cl msg s|p d addrs s Hm Hp Ht Hrd Hd|addr rest s Hm Ht Hrd|p sub addr s Hm Hp Ht
    |addr e s Hm Ht He|Y z o r f l1 l2 y w w' tl Hp|z l1 l2 w tl].
  - destruct (brief_kept _ _ _ _ Hb Hs) as [E Hk]. simpl. rewrite E. split; [|done].
    apply watched_still; [done|by rewrite E|done].
  - split; [|done]. apply watched_spawn; [done..| |by apply guarded_Init, unowned_settled|done].
    split; intros j c n; simpl; rewrite lookup_insert; case_decide as E; try subst j.
    + by rewrite Hi.
    + by exists c, n.
    + intros [= <- <-]. by right.
    + left. by exists c, n.
  - split; [|done]. apply watched_spawn; [done..|by apply kept_same| |by intros j [= <-]].
    apply guarded_handler; [apply label_snoc|]. intros j [= <-]. exists c, n. split; [done|].
    eapply kept_identity; [by apply kept_same|done|]. intros c1 n1 Hc1. by eapply (wa_idle _ _ Hw).
  - split; [|done]. apply watched_spawn; [done..|by apply kept_same|by apply guarded_Inbound, unowned_settled|done].
  - split; [|done]. apply watched_spawn; [done..|by apply kept_same|by apply guarded_Check, unowned_settled|done].
  - split; [|done]. apply watched_spawn; [done..|by apply kept_same|by apply guarded_forwardMessage, unowned_settled|done].
  - split; [|done]. apply watched_spawn; [done..|by apply kept_same|by apply guarded_handleReply, unowned_settled|done].
  - destruct (AllRegisteredDevices_law _ W) as [res E]. rewrite E in Hd. injection Hd as <- ->.
    split; [|done]. apply watched_still; [done..|by apply kept_same].
  - split; [|done]. apply watched_spawn; [done..|by apply kept_same|by apply guarded_findMoved, unowned_settled|done].
  - split; [|done]. apply watched_spawn; [done..|by apply kept_same|by apply guarded_transferTurn, unowned_settled|done].
  - apply bind_Ret_inv in He as ([d er] & Hd & [= <-]).
    destruct (Unregister_law (Address_IdentityKey addr) (Address_DeviceId addr) _ W) as (d' & er' & E & W' & V).
    rewrite E in Hd. injection Hd as <- <-. split; [apply watched_still; [done..|by apply kept_same]|]. simpl. rewrite V.
    destruct er'; [done|]. right. right. by exists addr.
  - destruct (call_watched _ _ _ _ _ _ _ _ _ _ _ Hw Hp) as [H1 H2]. split; [done|]. left. exists z. split; [|done].
    simpl. rewrite fmap_app. apply elem_of_app. right. by left.
  - split; [by eapply done_watched|done].
Qed.

Lemma launch_watched e (n : N) : db_wf (db e) → watched [] (launch e n : system).
Proof. intros W. split; simpl; [by split|by intros g ?%not_elem_of_nil|constructor|done]. Qed.

Lemma run_watched e (n : N) tr s : db_wf (db e) → run dial srvc sta (launch e n) tr s → watched tr s.
Proof.
  intros W Hr. remember (launch e n) as s0 eqn:E. induction Hr as [s|s tr s1 l es s2 Hr IH Hs]; subst.
  - by apply launch_watched.
  - eapply step_watched; [by apply IH|done].
Qed.

(** C4: the registry belongs to the devices, whatever goroutines run in between.  For
    every database that keeps its contract, with any broker, presence repository,
    attachments manager and cache, and in every run of the server in which any
    goroutine may run between two calls of a handler: a step changes a registration
    only if it is a call of the handler of a Register or Unregister on a connection
    that has proved, by a signature over its own nonce, that it may act for this
    device, or takes one one-time key for a request that asks for keys of this device,
    or is the transfer goroutine removing the device it has moved; and a chat number
    is never replaced, and is given only to an identity a connection has proved. *)
Theorem interleaved_registry_access e (n : N) tr s l es s' :
  db_wf (db e) → run dial srvc sta (launch e n) tr s → step dial srvc sta l es s s' →
  registry_guarded tr s (reg_view (db (shared (server s)))) (reg_view (db (shared (server s')))).
Proof. intros W Hr Hs. eapply step_watched; [by eapply run_watched|done]. Qed.
End access.
