(* ===== verification/InterleavingTransfer.v ===== *)
(** * InterleavingTransfer: why registrations disappear

    For the system of Interleaving.v, with any broker, presence repository and
    attachments manager: a registration goes away only because a connection that acts
    for the device unregisters it, or because the presence repository has placed the
    device at another host before.  The transfer goroutine looks the host up, moves
    messages and unregisters in separate steps, between which anything may happen; the
    argument is about the programs of all goroutines, of which only those of the
    transfer goroutine write its variables. *)

From S2P Require Import Prelude Model Externals DB Broker Presence Attachments Forwarder Service ServiceProps Connection Forwarding Tassis TassisInv Goroutines Interleaving Calls InterleavingSafe InterleavingAccess.

Import serviceimpl forwarder forwarding tassis goroutines interleaving.

Section transfer.
Context {ID : Identity} {PR : Proto}.
Context {D B P A C : Type} {DBI : DB D} {BI : Broker B} {PI : Presence P}
        {AI : Attachments A} {LI : LRU C Publisher} {BV : BrokerView B}.
Context {N Conn : Type} (dial : string → N → N * result Conn).
Context (srvc : Service) (sta : started (BI:=BI)).
#[local] Abbreviation env := (@env D B P A C).
#[local] Abbreviation tassis := (@tassis D B P A C BI N Conn).
#[local] Abbreviation system := (@system D B P A C BI N Conn).
#[local] Abbreviation goroutine := (@goroutine D B P A C BI N Conn).
#[local] Abbreviation trace := (list (label (BI:=BI) * list entry)).
#[local] Abbreviation prog := (@goroutines.prog D B P A C BI N Conn).
#[local] Abbreviation op := (@goroutines.op D B P A C BI N Conn).
#[local] Abbreviation mover := (mover (BI:=BI)).
Implicit Types (w : tassis) (tr : trace) (s : system) (g : goroutine) (S : Address → Prop).

(** The presence repository places the device at another host. *)
Definition away w (addr : Address) : Prop :=
  ∃ p host, presence_Find (Some addr) (presenceRepo (shared w)) = (p, Ok host) ∧ host ≠ publicAddr srvc.

(** ** Programs that move only what was away *)

Definition mover_ok S (m : mover) : Prop :=
  match m with Visiting => True | Moving _ addr | Leaving addr => S addr end.

Definition op_ok S {Y} (o : op Y) : Prop := match o with Turn m => mover_ok S m | _ => True end.

(** [S] has the devices that were seen away so far. *)
Fixpoint honest S (p : prog unit) : Prop :=
  match p with
  | Done _ => True
  | Call o _ k => op_ok S o ∧ ∀ w w' y, perform o w = Ret (w', y) → honest (λ a, S a ∨ away w a) (k y)
  end.

Lemma mover_ok_mono S S' m : (∀ a, S a → S' a) → mover_ok S m → mover_ok S' m.
Proof. intros H. destruct m; simpl; auto. Qed.

Lemma honest_mono S S' p : (∀ a, S a → S' a) → honest S p → honest S' p.
Proof.
  revert S S'. induction p as [x|Y o r k IH]; intros S S' HS; [done|]. simpl. intros [Ho Hk]. split.
  - destruct o; simpl in *; try done. by eapply mover_ok_mono.
  - intros w w' y Hp. eapply IH; [|by eapply Hk]. intros a [?|?]; auto.
Qed.

Lemma ordinary_honest S p : ordinary p → honest S p.
Proof.
  revert S. induction p as [x|Y o r k IH]; intros S; [done|]. simpl. intros [Ho Hk]. split; [by destruct o|].
  intros w w' y _. by apply IH.
Qed.

Lemma honest_turn S m : mover_ok S m → honest S (silently (Turn m) : prog _).
Proof. by intros H. Qed.

Lemma honest_findMoved S addr : honest S (findMoved srvc addr).
Proof.
  unfold findMoved, find. split; [done|]. intros w w' res Hp. simpl in Hp.
  destruct (presence_Find (Some addr) (presenceRepo (shared w))) as [p res'] eqn:Ef. injection Hp as _ <-.
  change (honest (λ a, S a ∨ away w a) (match res' with
    | Err _ => silently (Turn Visiting)
    | Ok tassisHost => if decide (tassisHost = publicAddr srvc) then silently (Turn Visiting)
        else sub ← newSubscriber (topicFor (Address_IdentityKey addr) (Address_DeviceId addr));
             match sub with Err _ => silently (Turn Visiting) | Ok subscriber => silently (Turn (Moving subscriber addr)) end
    end)).
  destruct res' as [host|er]; [|by apply honest_turn]. case_decide as Hh; [by apply honest_turn|].
  split; [done|]. intros w1 w2 [sub|er] _; [|done]. apply honest_turn. simpl. left. right. by exists p, host.
Qed.

Lemma honest_transferTurn S sub addr p : S addr → honest S (transferTurn sub addr p).
Proof.
  intros Ha. unfold transferTurn. split; [done|]. intros w w' [[data acker]|] _.
  2: { split; [done|]. intros ? ? ? _. apply honest_turn. simpl. auto. }
  change (honest (λ a, S a ∨ away w a)
    (match Marshal_ForwardedMessage (mkForwardedMessage (Some (mkOutboundMessage (Some addr) data)) 0 0) with
     | Err _ => _ ← closeSubscriber sub; silently (Turn Visiting)
     | Ok bytes => err ← publish p (Some bytes) [];
         match err with Some _ => _ ← closeSubscriber sub; silently (Turn Visiting) | None => runAck acker nothing end
     end)).
  destruct (Marshal_ForwardedMessage _) as [bytes|er]; [|by split].
  split; [done|]. intros w1 w2 [er|] _; by split.
Qed.

(** ** The invariant *)

(** The run came by a state in which the device was away. *)
Definition was_away s0 tr s (addr : Address) : Prop :=
  ∃ tr1 s1 tr2, tr = tr1 ++ tr2 ∧ run dial srvc sta s0 tr1 s1 ∧ run dial srvc sta s1 tr2 s ∧ away (server s1) addr.

Definition moves_away s0 tr s : Prop :=
  mover_ok (was_away s0 tr s) (transfer (server s)) ∧
  ∀ g, g ∈ running s → honest (was_away s0 tr s) (body g).

Lemma was_away_step s0 tr s l es s' a :
  step dial srvc sta l es s s' → was_away s0 tr s a → was_away s0 (tr ++ [(l, es)]) s' a.
Proof.
  intros Hs (tr1 & s1 & tr2 & -> & H1 & H2 & Ha). exists tr1, s1, (tr2 ++ [(l, es)]).
  rewrite app_assoc. split_and!; [done..| |done]. by eapply run_snoc.
Qed.

Lemma was_away_now s0 tr s l es s' a :
  run dial srvc sta s0 tr s → step dial srvc sta l es s s' → away (server s) a → was_away s0 (tr ++ [(l, es)]) s' a.
Proof.
  intros Hr Hs Ha. exists tr, s, [(l, es)]. split_and!; [done..| |done].
  apply (run_snoc _ _ _ s [] s); [apply run_nil|done].
Qed.

Lemma honest_step s0 tr s l es s' p :
  step dial srvc sta l es s s' → honest (was_away s0 tr s) p → honest (was_away s0 (tr ++ [(l, es)]) s') p.
Proof. intros Hs. apply honest_mono. intros a. by apply was_away_step. Qed.

Lemma perform_transfer {Y} (o : op Y) w w' y S :
  perform o w = Ret (w', y) → op_ok S o → mover_ok S (transfer w) → mover_ok S (transfer w').
Proof.
  destruct o as [Z f|Z i f|i msg|Z f|m]; simpl.
  - intros H. apply bind_Ret_inv in H as ([e y'] & _ & [= <- <-]). done.
  - destruct (clients w !! i) as [[c n]|]; [|done]. destruct (f c). by intros [= <- <-].
  - destruct (clients w !! i) as [[c n]|]; [|done]. by intros [= <- <-].
  - destruct (f (fwd w) (net w)) as [[n f'] y']. by intros [= <- <-].
  - by intros [= <- <-].
Qed.

Lemma brief_transfer l es w w' :
  brief l = true → tassis.step dial srvc sta l es w w' → transfer w' = transfer w.
Proof. intros Hb H. by destruct H. Qed.

Lemma step_moves_away s0 tr s l es s' :
  run dial srvc sta s0 tr s → moves_away s0 tr s → step dial srvc sta l es s s' → moves_away s0 (tr ++ [(l, es)]) s'.
Proof.
  intros Hr [Hm Hg] Hs. pose proof Hs as Hs'.
  assert (Hm' : mover_ok (was_away s0 (tr ++ [(l, es)]) s') (transfer (server s))).
  { eapply mover_ok_mono; [|exact Hm]. intros a. by apply was_away_step. }
  assert (Hg' : ∀ g, g ∈ running s → honest (was_away s0 (tr ++ [(l, es)]) s') (body g)).
  { intros g Hin. eapply honest_step; [done|by apply Hg]. }
  assert (Hadd : ∀ z p, honest (was_away s0 (tr ++ [(l, es)]) s') p →
    ∀ g, g ∈ running s ++ [mkGo z p] → honest (was_away s0 (tr ++ [(l, es)]) s') (body g)).
  { intros z p Hp g [Hin|Hin]%elem_of_app; [by apply Hg'|]. by apply list_elem_of_singleton in Hin as ->. }
  destruct Hs' as [l es w' s Hb Hst|i nonce s Hi|i c n msg s Hi Ho|i c n sub data acker b s Hi Hsub Hrc|i c n s Hi Hc
    |ws p j data acker cl s Hws Hj|cl msg s|p d addrs s Hf Hp Ht Hrd Hd|addr rest s Hf Ht Hrd|p sub addr s Hf Hp Ht
    |addr e s Hf Ht He|Y z o r f l1 l2 y w w' tl Hp|z l1 l2 w tl].
  - split; [|done]. simpl. by rewrite (brief_transfer _ _ _ _ Hb Hst).
  - split; [done|]. apply Hadd, ordinary_honest, ordinary_init.
  - split; [done|]. apply Hadd, ordinary_honest, ordinary_handler.
  - split; [done|]. apply Hadd, ordinary_honest, ordinary_inbound.
  - split; [done|]. apply Hadd, ordinary_honest, ordinary_check.
  - split; [done|]. apply Hadd, ordinary_honest, ordinary_forward.
  - split; [done|]. apply Hadd, ordinary_honest, ordinary_reply.
  - split; [done|]. simpl. exact Hg'.
  - split; [done|]. apply Hadd, honest_findMoved.
  - split; [done|]. apply Hadd, honest_transferTurn. by rewrite Ht in Hm'.
  - split; [done|]. simpl. exact Hg'.
  - simpl in Hg, Hm, Hm', Hg'.
    destruct (Hg (mkGo z (Call o r f))) as [Ho Hk]; [apply elem_of_app; right; by left|]. split; simpl.
    + eapply perform_transfer; [exact Hp| |exact Hm'].
      destruct (Hg' (mkGo z (Call o r f))) as [Ho' _]; [apply elem_of_app; right; by left|]. exact Ho'.
    + intros g Hin. rewrite elem_of_app, elem_of_cons in Hin. destruct Hin as [Hin|[->|Hin]].
      * apply Hg', elem_of_app. by left.
      * simpl. eapply honest_mono; [|exact (Hk w w' y Hp)]. intros a [Ha|Ha]; [by eapply was_away_step|].
        eapply was_away_now; [exact Hr|exact Hs|exact Ha].
      * apply Hg', elem_of_app. right. by right.
  - split; [done|]. simpl. intros g [Hin|Hin]%elem_of_app; apply Hg', elem_of_app; [by left|right; by right].
Qed.

Lemma run_moves_away e (n : N) tr s : run dial srvc sta (launch e n) tr s → moves_away (launch e n) tr s.
Proof.
  intros Hr. remember (launch e n) as s0 eqn:E. induction Hr as [s|s tr s1 l es s2 Hr IH Hs]; subst.
  - split; [done|]. by intros g ?%not_elem_of_nil.
  - eapply step_moves_away; [done|by apply IH|done].
Qed.

(** ** The theorem *)

Context {DL : DBLaws D}.

(** C6: registrations disappear for a reason.  For every database that keeps its
    contract, in every run of the server, call by call: if a step removes the
    registration of a device, then it is a call of the handler of a Register or
    Unregister on a connection that has proved, by a signature over its own nonce, that
    it may act for the device, or it is the transfer goroutine's and the run has come by
    a state in which the presence repository placed the device at a host different from
    this service's public address.  (Whether the device is still away when it is
    unregistered, the transfer goroutine does not look.) *)
Theorem removed_by_owner_or_moved e (n : N) tr s l es s' k d rg :
  db_wf (db e) → run dial srvc sta (launch e n) tr s → step dial srvc sta l es s s' →
  DBSpec.devices (reg_view (db (shared (server s)))) !! (k, d) = Some rg →
  DBSpec.devices (reg_view (db (shared (server s')))) !! (k, d) = None →
  (∃ i msg, Handling i msg ∈ doing <$> running s ∧ needs_auth msg ∧ owns_device tr i k d) ∨
  (∃ addr, PublicKey_String (Address_IdentityKey addr) = k ∧ Address_DeviceId addr = d ∧
     was_away (launch e n) tr s addr).
Proof.
  intros W Hr Hs H1 H2. destruct (run_moves_away _ _ _ _ Hr) as [Hm _].
  destruct (step_watched dial srvc sta tr l es s s' (run_watched dial srvc sta e n tr s W Hr) Hs) as [_ Hg].
  destruct Hg as [(z & Hz & Hper & _)|[E|(addr & Ht & E)]].
  - destruct (Hper k d) as [E|[[E _]|(i & msg & -> & ? & ?)]]; [congruence| |left; by exists i, msg].
    rewrite H1, H2 in E. done.
  - rewrite E in H2. congruence.
  - right. exists addr. rewrite Ht in Hm. rewrite E in H2.
    destruct (decide ((PublicKey_String (Address_IdentityKey addr), Address_DeviceId addr) = (k, d))) as [[= <- <-]|Hne]; [done|].
    rewrite unregister_other in H2 by done. congruence.
Qed.
End transfer.
