(* ===== verification/Channels.v ===== *)
(** * Channels: the room on the channel to the client

    In Interleaving.v a send on the channel [in] of a connection goes ahead at once.
    The channel has room for ten messages (serviceimpl.go, Connect), and a goroutine
    that finds it full waits: a step of the bounded system is a step of Interleaving.v
    after which no channel holds more.  Every bounded run is a run of Interleaving.v,
    so the theorems about those hold for it; what is new is that a goroutine can wait,
    in the middle of its handler and with the calls behind the send still to do. *)

From S2P Require Import Prelude Model Externals DB Broker Presence Attachments Forwarder Service ServiceProps Connection Forwarding Tassis Goroutines Interleaving Calls.

Import serviceimpl forwarder forwarding tassis goroutines interleaving.

Module channels.
Section channels.
Context {ID : Identity} {PR : Proto}.
Context {D B P A C : Type} {DBI : DB D} {BI : Broker B} {PI : Presence P}
        {AI : Attachments A} {LI : LRU C Publisher} {BV : BrokerView B}.
Context {N Conn : Type} (dial : string → N → N * result Conn).
Context (srvc : Service) (sta : started (BI:=BI)).
#[local] Abbreviation system := (@system D B P A C BI N Conn).
#[local] Abbreviation prog := (@goroutines.prog D B P A C BI N Conn).
#[local] Abbreviation trace := (list (label (BI:=BI) * list entry)).

(** No channel holds more than it has room for. *)
Definition bounded (s : system) : Prop :=
  map_Forall (λ _ p, length (in_ p.1) ≤ inCapacity) (clients (server s)).

#[export] Instance bounded_dec s : Decision (bounded s).
Proof. unfold bounded. apply _. Defined.

Definition step (l : label (BI:=BI)) (es : list entry) (s s' : system) : Prop :=
  interleaving.step dial srvc sta l es s s' ∧ bounded s'.

Inductive run : system → trace → system → Prop :=
| run_nil s : run s [] s
| run_snoc s tr s' l es s'' : run s tr s' → step l es s' s'' → run s (tr ++ [(l, es)]) s''.

(** The send that a goroutine comes to next. *)
Definition sending (p : prog unit) : option (nat * Message) :=
  match p with Call (Send i msg) _ _ => Some (i, msg) | _ => None end.

Definition full (i : nat) (s : system) : Prop :=
  ∃ c n, clients (server s) !! i = Some (c, n) ∧ length (in_ c) = inCapacity.

(** The client of connection [i] takes a message from its channel. *)
Definition takes (i : nat) (l : label (BI:=BI)) : bool :=
  match l with LClient j (EvReceive _) => bool_decide (i = j) | _ => false end.

End channels.
End channels.

Import channels.

Section facts.
Context {ID : Identity} {PR : Proto}.
Context {D B P A C : Type} {DBI : DB D} {BI : Broker B} {PI : Presence P}
        {AI : Attachments A} {LI : LRU C Publisher} {BV : BrokerView B}.
Context {N Conn : Type} (dial : string → N → N * result Conn).
Context (srvc : Service) (sta : started (BI:=BI)).
#[local] Abbreviation env := (@env D B P A C).
#[local] Abbreviation tassis := (@tassis D B P A C BI N Conn).
#[local] Abbreviation system := (@system D B P A C BI N Conn).
#[local] Abbreviation goroutine := (@goroutine D B P A C BI N Conn).
#[local] Abbreviation prog := (@goroutines.prog D B P A C BI N Conn).
#[local] Abbreviation op := (@goroutines.op D B P A C BI N Conn).
#[local] Abbreviation trace := (list (label (BI:=BI) * list entry)).
Implicit Types (w : tassis) (s : system) (g : goroutine) (tr : trace).

Lemma brun_run s tr s' : channels.run dial srvc sta s tr s' → interleaving.run dial srvc sta s tr s'.
Proof. induction 1 as [s|s tr s' l es s'' _ IH [Hs _]]; [apply interleaving.run_nil|]. by eapply interleaving.run_snoc. Qed.

(** ** Programs that only add to the channels *)

Fixpoint adding {X} (p : prog X) : Prop :=
  match p with
  | Done _ => True
  | Call o _ k => match o with Own _ f => ∀ c, in_ (f c).1 = in_ c | _ => True end ∧ ∀ y, adding (k y)
  end.

Lemma ordinary_adding {X} (p : prog X) : ordinary p → adding p.
Proof.
  induction p as [x|Y o r k IH]; [done|]. intros [Ho Hk]. split; [by destruct o|]. intros y. by apply IH.
Qed.

Lemma adding_findMoved addr : adding (findMoved srvc addr : prog _).
Proof.
  unfold findMoved, find. split; [done|]. intros [host|er]; [|done].
  change (adding (if decide (host = publicAddr srvc) then silently (Turn Visiting)
    else sub ← newSubscriber (topicFor (Address_IdentityKey addr) (Address_DeviceId addr));
         match sub with Err _ => silently (Turn Visiting) | Ok subscriber => silently (Turn (Moving subscriber addr)) end : prog _)).
  case_decide; [done|]. split; [done|]. by intros [sub|er].
Qed.

Lemma adding_transferTurn sub addr p : adding (transferTurn sub addr p : prog _).
Proof.
  unfold transferTurn. split; [done|]. intros [[data acker]|]; [|by split].
  change (adding
    (match Marshal_ForwardedMessage (mkForwardedMessage (Some (mkOutboundMessage (Some addr) data)) 0 0) with
     | Err _ => _ ← closeSubscriber sub; silently (Turn Visiting)
     | Ok bytes => err ← publish p (Some bytes) [];
         match err with Some _ => _ ← closeSubscriber sub; silently (Turn Visiting) | None => runAck acker nothing end
     end : prog _)).
  destruct (Marshal_ForwardedMessage _) as [bytes|er]; [|by split]. split; [done|]. by intros [er|]; split.
Qed.

Definition all_adding s : Prop := ∀ g, g ∈ running s → adding (body g).

Lemma adding_spawn z p w s : all_adding s → adding p → all_adding (spawn z p w s).
Proof. intros H Hp g. unfold spawn. simpl. rewrite elem_of_app, list_elem_of_singleton. intros [?| ->]; [by apply H|done]. Qed.

Lemma adding_step l es s s' : interleaving.step dial srvc sta l es s s' → all_adding s → all_adding s'.
Proof.
  intros H. destruct H; intros Ha; try exact Ha; try (apply adding_spawn; [exact Ha|]).
  - apply ordinary_adding, ordinary_init.
  - apply ordinary_adding, ordinary_handler.
  - apply ordinary_adding, ordinary_inbound.
  - apply ordinary_adding, ordinary_check.
  - apply ordinary_adding, ordinary_forward.
  - apply ordinary_adding, ordinary_reply.
  - apply adding_findMoved.
  - apply adding_transferTurn.
  - intros g Hg. simpl in Hg. apply elem_of_app in Hg as [Hg|[->|Hg]%elem_of_cons].
    + apply Ha. simpl. set_solver.
    + specialize (Ha (mkGo z (Call o r k))). simpl in Ha. apply Ha. set_solver.
    + apply Ha. simpl. set_solver.
  - intros g Hg. apply Ha. simpl in *. set_solver.
Qed.

Lemma adding_run e n tr s : interleaving.run dial srvc sta (launch e n) tr s → all_adding s.
Proof.
  intros H. remember (launch e n) as s0 eqn:E. induction H as [s|s tr s' l es s'' _ IH Hs]; subst.
  - intros g Hg. by apply elem_of_nil in Hg.
  - eapply adding_step; [exact Hs|by apply IH].
Qed.

(** ** A channel shrinks only when its client takes a message *)

Definition grows (i : nat) w w' : Prop :=
  ∀ c n, clients w !! i = Some (c, n) → ∃ c' n' new, clients w' !! i = Some (c', n') ∧ in_ c' = in_ c ++ new.

Lemma grows_same i w w' : clients w' = clients w → grows i w w'.
Proof. intros E c n H. exists c, n, []. by rewrite E, app_nil_r. Qed.

Lemma grows_insert i j c n c' n' new w w' :
  clients w !! j = Some (c, n) → clients w' = <[j := (c', n')]> (clients w) → in_ c' = in_ c ++ new → grows i w w'.
Proof.
  intros Hj E Hin c1 n1 H. rewrite E. destruct (decide (i = j)) as [->|].
  - rewrite lookup_insert_eq. simplify_eq. eauto.
  - rewrite lookup_insert_ne by done. exists c1, n1, []. by rewrite app_nil_r.
Qed.

Lemma perform_grows {Y} (o : op Y) i w w' y :
  match o with Own _ f => ∀ c, in_ (f c).1 = in_ c | _ => True end → perform o w = Ret (w', y) → grows i w w'.
Proof.
  destruct o as [Z f|Z j f|j msg|Z f|m]; simpl; intros Ho H.
  - apply bind_Ret_inv in H as ([e y'] & _ & [= <- <-]). by apply grows_same.
  - destruct (clients w !! j) as [[c n]|] eqn:E; [|done]. specialize (Ho c). destruct (f c) as [c' y'].
    injection H as <- <-. eapply (grows_insert i j c n c' n []); [done..|]. by rewrite app_nil_r.
  - destruct (clients w !! j) as [[c n]|] eqn:E; [|done]. injection H as <-. by eapply grows_insert.
  - destruct (f (fwd w) (net w)) as [[n f'] y']. injection H as <- <-. by apply grows_same.
  - injection H as <-. by apply grows_same.
Qed.

Lemma brief_grows i l es w w' :
  brief l = true → takes i l = false → tassis.step dial srvc sta l es w w' → grows i w w'.
Proof.
  intros Hb Ht H. destruct H as [| i' c n ev c' w Hc Hne Hs| | | | | | | | | |]; try discriminate Hb; try by apply grows_same.
  destruct (decide (i = i')) as [->|Hi].
  - eapply (grows_insert i' i' c n _ _ []); [exact Hc|reflexivity|]. rewrite app_nil_r.
    destruct ev; try discriminate Hb; simpl in Ht; [|by rewrite bool_decide_eq_false in Ht|]; by inversion Hs.
  - intros c1 n1 H. exists c1, n1, []. rewrite app_nil_r. simpl. by rewrite lookup_insert_ne.
Qed.

Lemma step_grows i l es s s' :
  all_adding s → interleaving.step dial srvc sta l es s s' → takes i l = false → grows i (server s) (server s').
Proof.
  intros Ha H Ht. destruct H; try by apply grows_same.
  - by eapply brief_grows.
  - intros c n Hc. exists c, n, []. rewrite app_nil_r. simpl. rewrite lookup_insert_ne; [done|]. intros ->. congruence.
  - eapply perform_grows; [|done]. specialize (Ha (mkGo z (Call o r k))). apply Ha. simpl. set_solver.
Qed.

(** A run in which nothing is taken and which ends within bounds was within bounds
    all along. *)
Lemma untaken_bounded l es s s' :
  all_adding s → interleaving.step dial srvc sta l es s s' → (∀ i, takes i l = false) → bounded s' → bounded s.
Proof.
  intros Ha Hs Ht Hb i [c n] Hc. destruct (step_grows i _ _ _ _ Ha Hs (Ht i) c n Hc) as (c' & n' & new & Hc' & E).
  specialize (Hb i (c', n') Hc'). simpl in *. rewrite E, length_app in Hb. lia.
Qed.

Lemma untaken_brun e n tr s :
  interleaving.run dial srvc sta (launch e n) tr s → (∀ x i, x ∈ tr → takes i x.1 = false) → bounded s →
  channels.run dial srvc sta (launch e n) tr s.
Proof.
  intros H. remember (launch e n) as s0 eqn:E. induction H as [s|s tr s' l es s'' H IH Hs]; intros Ht Hb; subst.
  - apply run_nil.
  - assert (Ha : all_adding s') by (by eapply adding_run). eapply run_snoc; [|by split]. apply IH; [done|intros; apply Ht; set_solver|].
    eapply untaken_bounded; [done|exact Hs| |done]. intros i. apply (Ht (l, es)). set_solver.
Qed.

(** ** Waiting for room *)

Lemma full_send i msg w w' y (s' : system) :
  perform (Send i msg) w = Ret (w', y) → server s' = w' →
  (∃ c n, clients w !! i = Some (c, n) ∧ length (in_ c) = inCapacity) → bounded s' → False.
Proof.
  intros Hp E (c & n & Hc & Hl) Hb. simpl in Hp. rewrite Hc in Hp. injection Hp as <-. subst.
  specialize (Hb i). rewrite E in Hb. simpl in Hb. rewrite lookup_insert_eq in Hb. specialize (Hb _ eq_refl).
  simpl in Hb. rewrite length_app in Hb. simpl in Hb. lia.
Qed.

Lemma waiting_step i msg g l es s s' :
  all_adding s → channels.step dial srvc sta l es s s' → takes i l = false →
  g ∈ running s → sending (body g) = Some (i, msg) → full i s → g ∈ running s' ∧ full i s'.
Proof.
  intros Ha [Hs Hb] Ht Hg Hsend Hf. split.
  - destruct Hs; simpl in *; try done; try (by apply elem_of_app; left); try set_solver.
    apply elem_of_app in Hg as [Hg|[->|Hg]%elem_of_cons]; [set_solver| |set_solver]. exfalso. destruct o; simplify_eq/=.
    match goal with Hp : _ = Ret _ |- _ => by eapply (full_send i msg _ _ _ _ Hp); [|exact Hf|exact Hb] end.
  - destruct Hf as (c & n & Hc & Hl). destruct (step_grows i _ _ _ _ Ha Hs Ht c n Hc) as (c' & n' & new & Hc' & E).
    exists c', n'. split; [done|]. specialize (Hb i _ Hc'). simpl in Hb. rewrite E, length_app in *. lia.
Qed.

Lemma handling_excludes i msg0 g l es s s' msg :
  interleaving.step dial srvc sta l es s s' → g ∈ running s → doing g = Handling i msg0 → l ≠ LClient i (EvOut msg).
Proof.
  intros Hs Hg Hd ->. inversion Hs as [? ? ? ? Hbr| | ? ? ? ? ? Hc Hn| | | | | | | | | |]; subst; [done|].
  apply Hn, list_elem_of_omap. exists (Handling i msg0). split; [|done]. apply list_elem_of_fmap. by exists g.
Qed.

(** C36: a goroutine that has a message for a client whose channel is full waits until
    the client takes one, whatever happens.  In every run of the bounded system from
    there on in which the client takes nothing, the goroutine stays where it is, in
    the middle of its handler, also when the connection is closed meanwhile; the
    channel stays full; and if the goroutine is the one that handles the client's
    messages, none of those is handled. *)
Theorem full_channel_blocks e n tr0 s tr s' i msg g :
  channels.run dial srvc sta (launch e n) tr0 s →
  g ∈ running s → sending (body g) = Some (i, msg) → full i s →
  channels.run dial srvc sta s tr s' → (∀ x, x ∈ tr → takes i x.1 = false) →
  g ∈ running s' ∧ full i s' ∧
  ∀ msg0, doing g = Handling i msg0 → ∀ msg' es, (LClient i (EvOut msg'), es) ∉ tr.
Proof.
  intros H0 Hg Hs Hf H Ht. apply brun_run in H0.
  assert (Hall : all_adding s) by (by eapply adding_run). clear H0 tr0.
  assert (G : g ∈ running s' ∧ full i s' ∧ all_adding s' ∧
    ∀ msg0, doing g = Handling i msg0 → ∀ msg' es, (LClient i (EvOut msg'), es) ∉ tr); [|tauto].
  induction H as [s|s tr s' l es s'' H IH Hstep]; [set_solver|].
  destruct IH as (Hg' & Hf' & Ha' & Hn); try done; [intros; apply Ht; set_solver|].
  destruct (waiting_step i msg g l es s' s'') as [Hg2 Hf2]; try done; [apply (Ht (l, es)); set_solver|].
  split_and!; [done..|by eapply adding_step, Ha'; apply Hstep|].
  intros msg0 Hd msg' es'. rewrite elem_of_app, list_elem_of_singleton. intros [Hin|[= <- <-]]; [by eapply Hn|].
  by eapply (handling_excludes i msg0 g); [apply Hstep|..].
Qed.

(** With room on the channel the goroutine can go on. *)
Theorem send_goes_ahead i msg g c n s :
  bounded s → g ∈ running s → sending (body g) = Some (i, msg) →
  clients (server s) !! i = Some (c, n) → length (in_ c) < inCapacity →
  ∃ es s', channels.step dial srvc sta LIdle es s s' ∧
    ∃ c', clients (server s') !! i = Some (c', n) ∧ in_ c' = in_ c ++ [msg].
Proof.
  intros Hb Hg Hs Hc Hl. destruct s as [w rs tl]. simpl in *.
  destruct g as [z p]. destruct p as [|Y o r k]; [done|]. destruct o; simplify_eq/=.
  apply list_elem_of_split in Hg as (l1 & l2 & ->). eexists _, (mkSys _ _ _). split; [split|].
  - apply g_call. simpl. by rewrite Hc.
  - intros j q. simpl. destruct (decide (j = i)) as [->|].
    + rewrite lookup_insert_eq. intros [= <-]. simpl. rewrite length_app. simpl. lia.
    + rewrite lookup_insert_ne by done. apply Hb.
  - simpl. eexists. by rewrite lookup_insert_eq.
Qed.
End facts.
