(* ===== verification/Federation.v ===== *)
(** * Federation: two servers

    One server ([home]) forwards messages to another one ([away]): the connections that
    its forwarder dials are connections of clients there (forwarder/forwarder.go over
    service/serviceimpl/serviceimpl.go), what it sends on them is handled there, and
    what these connections are sent comes back as replies.  Both do everything else
    that Tassis.v lets them do.  What one server counts as relayed was accepted by the
    other, so no message is lost between them. *)

From S2P Require Import Prelude Model Externals DB Broker Presence Attachments Forwarder Service ServiceProps Connection Protocol Forwarding Tassis TassisSteps TassisInv TassisProps TassisExec.

Import serviceimpl forwarder forwarding tassis.

Section federation.
Context {ID : Identity} {PR : Proto}.
Context {D B P A C : Type} {DBI : DB D} {BI : Broker B} {PI : Presence P}
        {AI : Attachments A} {LI : LRU C Publisher}.
Context {BL : BrokerLaws B} {LL : LRULaws C Publisher}.
(** The forwarder of [home] dials connections of [away], by their number there. *)
Context {N N' Conn' : Type} (dial : string → N → N * result nat) (dial' : string → N' → N' * result Conn').
Context (srvc srvc' : Service) (sta sta' : started (BI:=BI)).
#[local] Abbreviation server := (@tassis D B P A C BI N nat).
#[local] Abbreviation server' := (@tassis D B P A C BI N' Conn').
#[local] Abbreviation trace := (list (label (BI:=BI) * list entry)).
#[local] Abbreviation report := (@report D B P A C BI N nat).
#[local] Abbreviation fstate := (@fstate D B P A C BI N nat).
Implicit Types (s : fstate) (r : report).

(** [wire] has what was sent and not yet handled, in no particular order; [links] are
    the connections that were dialled. *)
Record fed := mkFed { home : server; away : server'; wire : list (nat * Message); links : list nat }.

Definition federate (w : server) (w' : server') : fed := mkFed w w' [] [].

(** Steps of [home] that have nothing to do with its forwarder. *)
Definition local (l : label (BI:=BI)) : bool := match l with LForward _ | LReply _ => false | _ => true end.

(** Steps of [away] that are not exchanges on one of the links. *)
Definition foreign (ls : list nat) (l : label (BI:=BI)) : bool :=
  match l with LClient i (EvOut _) | LClient i (EvReceive _) => bool_decide (i ∉ ls) | _ => true end.

(** A worker of [home] handles a message. *)
Definition works (data : option string) (es : list entry) (r : report) (w w1 : server) : Prop :=
  ∃ ws p k acker c,
    workers sta = Some (ws, p) ∧ inHand w !! k = Some (data, acker) ∧
    forwardMessage dial srvc c p data acker (fstate_of w) = Ret r ∧
    es = forward_log srvc c data (broker (shared w)) (broker (fe (r_state r))) ∧
    w1 = with_forwarder (r_state r) (with_hand (delete k (inHand w)) w).

Inductive fstep : trace → trace → fed → fed → Prop :=
| f_home l es w f :
    step dial srvc sta l es (home f) w → local l = true →
    fstep [(l, es)] [] f (mkFed w (away f) (wire f) (links f))
| f_away l es w f :
    step dial' srvc' sta' l es (away f) w → foreign (links f) l = true →
    fstep [] [(l, es)] f (mkFed (home f) w (wire f) (links f))
| f_work data es r w f :
    works data es r (home f) w → r_sent r = None →
    fstep [(LForward data, es)] [] f (mkFed w (away f) (wire f) (links f))
| f_send data es r w i msg f :
    works data es r (home f) w → r_sent r = Some (Sending i false msg) →
    fstep [(LForward data, es)] [] f (mkFed w (away f) (wire f ++ [(i, msg)]) (links f))
| f_dial data es r w i msg nonce f :
    works data es r (home f) w → r_sent r = Some (Sending i true msg) →
    clients (away f) !! i = None →
    fstep [(LForward data, es)] [(LConnect i nonce, [])] f
      (mkFed w (with_client i (start nonce (shared (away f))) (away f)) (wire f ++ [(i, msg)]) (i :: links f))
| f_handle i msg es w l1 l2 f :
    wire f = l1 ++ (i, msg) :: l2 →
    step dial' srvc' sta' (LClient i (EvOut msg)) es (away f) w →
    fstep [] [(LClient i (EvOut msg), es)] f (mkFed (home f) w (l1 ++ l2) (links f))
| f_reply i msg es es' w w' f :
    i ∈ links f → step dial srvc sta (LReply msg) es (home f) w →
    step dial' srvc' sta' (LClient i (EvReceive msg)) es' (away f) w' →
    fstep [(LReply msg, es)] [(LClient i (EvReceive msg), es')] f (mkFed w w' (wire f) (links f)).

Inductive frun : fed → trace → trace → fed → Prop :=
| frun_nil f : frun f [] [] f
| frun_snoc f tr tr' f1 ta tb f2 :
    frun f tr tr' f1 → fstep ta tb f1 f2 → frun f (tr ++ ta) (tr' ++ tb) f2.

(** ** Each server makes a run *)

Lemma works_step data es r w w1 : works data es r w w1 → step dial srvc sta (LForward data) es w w1.
Proof. intros (ws & p & k & acker & c & Hw & Hh & Hf & -> & ->). by eapply s_forward. Qed.

Lemma one_step {X Y} (dl : string → X → X * result Y) sv st' l es (w w1 : @tassis D B P A C BI X Y) :
  step dl sv st' l es w w1 → run dl sv st' w [(l, es)] w1.
Proof. intros H. apply (run_snoc _ _ _ w [] w); [apply run_nil|done]. Qed.

Lemma fstep_runs ta tb f f' :
  fstep ta tb f f' → run dial srvc sta (home f) ta (home f') ∧ run dial' srvc' sta' (away f) tb (away f').
Proof.
  destruct 1; simpl; split; try apply run_nil; apply one_step; eauto using works_step, s_connect.
Qed.

Lemma frun_runs f tr tr' f' :
  frun f tr tr' f' → run dial srvc sta (home f) tr (home f') ∧ run dial' srvc' sta' (away f) tr' (away f').
Proof.
  induction 1 as [f|f tr tr' f1 ta tb f2 _ [IH IH'] Hs]; [split; apply run_nil|].
  apply fstep_runs in Hs as [? ?]. split; by eapply run_app.
Qed.
(** ** What a worker sends *)

(** Where a message on the wire goes. *)
Definition bound_for (msg : Message) : option (string * option string) :=
  match Message_Payload msg with
  | Some (Message_OutboundMessage o) =>
      a ← OutboundMessage_To o; Some (topic_of a, OutboundMessage_UnidentifiedSenderMessage o)
  | _ => None
  end.

Definition is_outbound (msg : Message) : bool :=
  match Message_Payload msg with Some (Message_OutboundMessage _) => true | _ => false end.

(** Nothing happened to the forwarder's books, or the message was numbered, filed and
    sent. *)
Definition sends (fw fw' : Forwarder nat (callback (BI:=BI))) (sent : option (action nat callback)) : Prop :=
  match sent with
  | None => callbacks fw' = callbacks fw ∧ mb fw' = mb fw
  | Some (Finished _ _) => False
  | Some (Sending _ _ msg) =>
      ∃ cb, Message_Sequence msg = next_seq (mb fw) ∧ is_outbound msg = true ∧
        bound_for msg = carried (cb_msg cb) ∧
        callbacks fw' = <[Message_Sequence msg := cb]> (callbacks fw) ∧ seq (mb fw') = next_seq (mb fw)
  end.

Lemma failWith_sends c cb slept err s r :
  failWith (Conn:=nat) srvc c cb slept err s = Ret r → sends (ff s) (ff (r_state r)) (r_sent r).
Proof. unfold failWith. intros H. by apply bind_Ret_inv in H as (e & _ & [= <-]). Qed.

Lemma deliverLocally_sends c cb slept o s r :
  deliverLocally (Conn:=nat) srvc c cb slept o s = Ret r → sends (ff s) (ff (r_state r)) (r_sent r).
Proof.
  unfold deliverLocally. intros H. apply bind_Ret_inv in H as (t & _ & H).
  destruct (publisherFor t (fe s)) as [e [p|er]]; [|by apply failWith_sends in H].
  apply bind_Ret_inv in H as ([b [er|]] & _ & H); [by apply failWith_sends in H|].
  by apply bind_Ret_inv in H as (e' & _ & [= <-]).
Qed.

Lemma forwardTo_sends c cb slept host s r o :
  ForwardedMessage_Message (cb_msg cb) = Some o →
  forwardTo dial srvc c cb slept host s = Ret r → sends (ff s) (ff (r_state r)) (r_sent r).
Proof.
  intros Ho H. unfold forwardTo in H. destruct (Forward _ _ _ _ _ _) as [[n fw] act] eqn:E.
  apply Forward_cases in E as [(-> & _ & err & Hact)|(conn & dl & fw0 & E & Hc & Hm & _ & _)].
  - destruct act as [k er|]; [|done]. by apply bind_Ret_inv in H as (e & _ & [= <-]).
  - unfold sendOn in E. injection E as <- <-. injection H as <-. simpl. exists cb. rewrite Hm, Hc.
    unfold bound_for, carried, is_outbound. simpl. by rewrite Ho.
Qed.

Lemma forwardMessage_sends c p data acker s r :
  forwardMessage dial srvc c p data acker s = Ret r → sends (ff s) (ff (r_state r)) (r_sent r).
Proof.
  unfold forwardMessage. intros H. destruct (Unmarshal_ForwardedMessage _) as [m|er] eqn:Eu.
  2:{ by apply bind_Ret_inv in H as (e & _ & [= <-]). }
  apply bind_Ret_inv in H as (o & Ho & H). apply deref_Ret_inv in Ho.
  destruct (presence_Find _ _) as [pr [host|er]]; [|by apply failWith_sends in H].
  case_decide; [by apply deliverLocally_sends in H|]. by eapply (forwardTo_sends _ (mkCallback m acker p)) in H.
Qed.

Lemma works_sends data es r w w1 : works data es r w w1 → sends (fwd w) (fwd w1) (r_sent r).
Proof. intros (ws & p & k & acker & c & _ & _ & Hf & _ & ->). by apply forwardMessage_sends in Hf. Qed.

(** ** Counting *)

Definition n_relayed (es : list entry) (t : string) (x : option string) : nat :=
  length (filter (λ e, e = Relayed t x) es).

Lemma n_relayed_app es es' t x : n_relayed (es ++ es') t x = n_relayed es t x + n_relayed es' t x.
Proof. unfold n_relayed. by rewrite filter_app, length_app. Qed.

(** What is relayed is recorded with the reply. *)
Lemma gone_log_relayed cl m (b b' : B) t x : n_relayed (gone_log srvc cl m b b') t x = 0.
Proof. unfold gone_log. destruct (carried m) as [[? ?]|]; [|done]. by destruct (given_up _ _ _ && _). Qed.

Lemma no_relayed es t x : Forall (λ e, e ≠ Relayed t x) es → n_relayed es t x = 0.
Proof. unfold n_relayed. induction 1 as [|e es He _ IH]; [done|]. by rewrite filter_cons_False. Qed.

Lemma client_log_relayed i ev (s1 s2 : @st D B P A C BI) t x : n_relayed (client_log i ev s1 s2) t x = 0.
Proof.
  apply no_relayed. unfold client_log.
  destruct ev as [| |msg| | | | | |]; try by repeat constructor.
  destruct (Message_Payload msg) as [[]|]; try constructor.
  - destruct (_ !! _); [|constructor]. destruct (_ !! _); [constructor|]. apply Forall_fmap, Forall_true. done.
  - destruct (OutboundMessage_To _); [|constructor]. destruct (acknowledged _ _); by repeat constructor.
Qed.

Lemma works_relayed data es r w w1 t x : works data es r w w1 → n_relayed es t x = 0.
Proof.
  intros (ws & p & k & acker & c & _ & _ & _ & -> & _). unfold forward_log.
  destruct (Unmarshal_ForwardedMessage _); [apply gone_log_relayed|done].
Qed.

Lemma local_step l es w w1 t x :
  step dial srvc sta l es w w1 → local l = true → fwd w1 = fwd w ∧ n_relayed es t x = 0.
Proof. destruct 1; try done. intros _. split; [done|apply client_log_relayed]. Qed.
(** *** Acknowledgements on their way back *)

(** What was sent under each number: the topic and the content, if it has a
    recipient. *)
#[local] Abbreviation ledger := (gmap Z (option (string * option string))).
Implicit Types (g : ledger) (f : fed).

Definition weighs g t x (m : Message) : bool :=
  is_ack m && bool_decide (g !! Message_Sequence m = Some (Some (t, x))).

Definition weight g t x (l : list Message) : nat := length (filter (weighs g t x) l).

Definition acks_at g (w : server') t x (i : nat) : nat :=
  match clients w !! i with Some (c, _) => weight g t x (in_ c) | None => 0 end.

Definition n_acks g f t x : nat := sum_list_with (acks_at g (away f) t x) (links f).

Lemma weight_app g t x l l' : weight g t x (l ++ l') = weight g t x l + weight g t x l'.
Proof. unfold weight. by rewrite filter_app, length_app. Qed.

Lemma weight_none g t x l : Forall (λ m, is_ack m = false) l → weight g t x l = 0.
Proof.
  unfold weight. induction 1 as [|m l Hm _ IH]; [done|]. rewrite filter_cons_False; [done|].
  unfold weighs. rewrite Hm. intros [].
Qed.

Lemma weight_ext g g' t x l :
  (∀ m, m ∈ l → is_ack m = true → g' !! Message_Sequence m = g !! Message_Sequence m) →
  weight g' t x l = weight g t x l.
Proof.
  intros H. unfold weight. f_equal. induction l as [|m l IH]; [done|].
  assert (E : weighs g' t x m = weighs g t x m).
  { unfold weighs. destruct (is_ack m) eqn:Em; [|done]. by rewrite (H m (list_elem_of_here _ _) Em). }
  rewrite !filter_cons, E, IH; [done|]. intros m' Hm. by apply H, list_elem_of_further.
Qed.

(** One summand changes. *)
Lemma sum_change (h h' : nat → nat) (l : list nat) i :
  NoDup l → i ∈ l → (∀ j, j ≠ i → h' j = h j) → sum_list_with h' l + h i = sum_list_with h l + h' i.
Proof.
  intros Hn Hi Hj. induction l as [|j l IH]; [set_solver|]. apply NoDup_cons in Hn as [Hni Hn]. simpl.
  destruct (decide (j = i)) as [->|Hne].
  - assert (E : sum_list_with h' l = sum_list_with h l); [|lia].
    clear IH Hn Hi. induction l as [|k l IH]; [done|]. simpl. rewrite Hj, IH; [done|set_solver..].
  - rewrite Hj by done. assert (i ∈ l) by set_solver. specialize (IH Hn ltac:(done)). lia.
Qed.

Lemma sum_same (h h' : nat → nat) (l : list nat) :
  (∀ j, j ∈ l → h' j = h j) → sum_list_with h' l = sum_list_with h l.
Proof. induction l as [|j l IH]; intros H; [done|]. simpl. rewrite H, IH; [done|set_solver..]. Qed.

(** *** The queues of the links *)

(** Only an answer to a request is an Ack. *)
Lemma unasked_no_ack nonce (ev : event (BI:=BI)) m :
  sent_by nonce ev m → (∀ msg, ev ≠ EvOut msg) → is_ack m = false.
Proof.
  intros H Hne. unfold is_ack. destruct ev; try (by destruct H); try (by destruct (Hne msg));
    repeat match goal with H : sent_by _ _ _ |- _ => destruct H as [_ H] | H : ∃ _, _ |- _ => destruct H
           | H : _ ∧ _ |- _ => destruct H end; by simplify_option_eq.
Qed.

(** How a step of [away] changes the queue of a client. *)
Lemma away_queue l es (w w1 : server') i c n :
  step dial' srvc' sta' l es w w1 → clients w !! i = Some (c, n) →
  ∃ c1 n1, clients w1 !! i = Some (c1, n1) ∧
    (in_ c1 = in_ c ∨
     (∃ m, l = LClient i (EvReceive m) ∧ in_ c = m :: in_ c1) ∨
     ∃ ev l', l = LClient i ev ∧ in_ c1 = in_ c ++ l' ∧ Forall (sent_by (authNonce c) ev) l').
Proof.
  intros H Hi.
  apply step_clients in H as [[Hc _]|[(j & nonce & -> & Hj & _ & Hc)|(j & c0 & n0 & ev & cc & -> & Hj & _ & Hs & _ & Hc)]];
    rewrite Hc.
  - exists c, n. auto.
  - exists c, n. rewrite lookup_insert_ne by congruence. auto.
  - destruct (decide (j = i)) as [->|Hne]; [|exists c, n; rewrite lookup_insert_ne by done; auto].
    rewrite Hi in Hj. injection Hj as <- <-. exists (cn (cs cc)), (sent_init cc). rewrite lookup_insert_eq. split; [done|].
    right. apply step_sends in Hs as [(m & -> & Hin)|(_ & l' & Hin & Hf)]; [left; eauto|right].
    exists ev, l'. by split_and!.
Qed.

(** A step that is no exchange on a link leaves its acknowledgements alone. *)
Lemma foreign_queue l es (w w1 : server') ls i c n :
  step dial' srvc' sta' l es w w1 → foreign ls l = true → i ∈ ls → clients w !! i = Some (c, n) →
  ∃ c1 n1 l', clients w1 !! i = Some (c1, n1) ∧ in_ c1 = in_ c ++ l' ∧ Forall (λ m, is_ack m = false) l'.
Proof.
  intros H Hf Hi Hc. destruct (away_queue _ _ _ _ _ _ _ H Hc) as (c1 & n1 & Hc1 & [E|[(m & -> & _)|(ev & l' & -> & E & Hs)]]).
  - exists c1, n1, []. by rewrite app_nil_r.
  - simpl in Hf. by apply bool_decide_eq_true in Hf.
  - exists c1, n1, l'. split_and!; [done..|]. eapply Forall_impl; [exact Hs|]. intros m Hm.
    eapply unasked_no_ack; [exact Hm|]. intros msg ->. simpl in Hf. by apply bool_decide_eq_true in Hf.
Qed.

(** An outbound message is answered by one message. *)
Lemma outbound_one_reply o msg (s1 s2 : @st D B P A C BI) :
  Message_Payload msg = Some (Message_OutboundMessage o) → doHandleOutboundMessage srvc' msg s1 = Ret s2 →
  one_reply msg s1 s2.
Proof.
  intros Hp H. unfold doHandleOutboundMessage, refuse in H. rewrite Hp in H. destruct (isAuthenticated _).
  - injection H as <-. unfold one_reply, replies. simpl. by eexists.
  - by apply sendOutboundMessage_answers in H as [_ ?].
Qed.

(** If it is acknowledged, it was accepted. *)
Lemma handled_accepted g i msg es (w w1 : server') c n :
  step dial' srvc' sta' (LClient i (EvOut msg)) es w w1 → is_outbound msg = true →
  g !! Message_Sequence msg = Some (bound_for msg) → clients w !! i = Some (c, n) →
  ∃ c1 n1 m, clients w1 = <[i := (c1, n1)]> (clients w) ∧ in_ c1 = in_ c ++ [m] ∧
    Message_Sequence m = Message_Sequence msg ∧ ∀ t x, weight g t x [m] <= n_accepted es t x.
Proof.
  intros H Ho Hg Hi. inversion H as [|? c0 n0 ? cc ? Hi0 Hev Hs| | | | | | | | | |]; subst.
  rewrite Hi in Hi0. injection Hi0 as <- <-. inversion Hs as [| |? s s' ? Hh| | | | | |]; subst. simpl.
  unfold is_outbound in Ho. destruct (Message_Payload msg) as [[]|] eqn:Ep; try discriminate Ho.
  destruct (outbound_one_reply _ _ _ _ Ep Hh) as (m & Hr & Hq).
  exists (cn s'), n, m. split_and!; [done|exact Hr|done|]. intros t x.
  unfold weight. rewrite filter_cons, filter_nil. unfold weighs. rewrite Hq, Hg.
  destruct (is_ack m) eqn:Em; simpl; [|lia]. case_decide as Hd; [|simpl; lia].
  apply bool_decide_unpack in Hd. injection Hd as Hd. unfold bound_for in Hd. rewrite Ep in Hd.
  destruct (OutboundMessage_To o) as [a|] eqn:Ea; [|done]. simpl in Hd. injection Hd as <- <-.
  erewrite acknowledged_reply by exact Hr. rewrite Em. unfold n_accepted. by rewrite filter_cons_True.
Qed.
(** ** The invariant *)

Definition sent_count f : Z := seq (mb (fwd (home f))).

(** [k] more messages can be numbered; [lh] and [la] are the records of the two
    servers. *)
Record finv (k : nat) (lh la : list entry) g f : Prop := {
  v_seq : (0 <= sent_count f ∧ sent_count f + Z.of_nat k < two32)%Z;
  v_dom : ∀ q y, g !! q = Some y → (q <= sent_count f)%Z;
  v_calls : ∀ q cb, callbacks (fwd (home f)) !! q = Some cb → g !! q = Some (carried (cb_msg cb));
  v_wire : ∀ i msg, (i, msg) ∈ wire f → is_outbound msg = true ∧ g !! Message_Sequence msg = Some (bound_for msg);
  v_acks : ∀ i c n m, i ∈ links f → clients (away f) !! i = Some (c, n) → m ∈ in_ c → is_ack m = true →
    is_Some (g !! Message_Sequence m);
  v_links : ∀ i, i ∈ links f → is_Some (clients (away f) !! i);
  v_nodup : NoDup (links f);
  v_count : ∀ t x, n_relayed lh t x + n_acks g f t x <= n_accepted la t x }.

(** A change of [home] that keeps the forwarder's books. *)
Lemma finv_home k k' lh la es g f w :
  finv k lh la g f → k' <= k → callbacks (fwd w) ⊆ callbacks (fwd (home f)) → mb (fwd w) = mb (fwd (home f)) →
  (∀ t x, n_relayed es t x = 0) → finv k' (lh ++ es) la g (mkFed w (away f) (wire f) (links f)).
Proof.
  intros [] Hk Hc Hm He. split; unfold sent_count in *; simpl; rewrite ?Hm; try done; [lia| |].
  - intros q cb Hq. by eapply v_calls0, lookup_weaken.
  - intros t x. rewrite n_relayed_app, He, Nat.add_0_r. apply v_count0.
Qed.

(** A change of [away] that adds no acknowledgement to a link. *)
Lemma finv_away k lh la es g f (w : server') :
  finv k lh la g f →
  (∀ i c n, i ∈ links f → clients (away f) !! i = Some (c, n) →
     ∃ c1 n1 l', clients w !! i = Some (c1, n1) ∧ in_ c1 = in_ c ++ l' ∧ Forall (λ m, is_ack m = false) l') →
  finv k lh (la ++ es) g (mkFed (home f) w (wire f) (links f)).
Proof.
  intros [] H. split; try done; simpl.
  - intros i c1 n1 m Hi Hc1 Hm Ha. destruct (v_links0 _ Hi) as [[c n] Hc].
    destruct (H _ _ _ Hi Hc) as (c2 & n2 & l' & Hc2 & E & Hl'). rewrite Hc1 in Hc2. injection Hc2 as <- <-.
    rewrite E in Hm. apply elem_of_app in Hm as [Hm|Hm]; [by eapply v_acks0|].
    rewrite Forall_forall in Hl'. specialize (Hl' _ Hm). congruence.
  - intros i Hi. destruct (v_links0 _ Hi) as [[c n] Hc]. destruct (H _ _ _ Hi Hc) as (c2 & n2 & _ & -> & _). done.
  - intros t x. rewrite n_accepted_app. specialize (v_count0 t x). unfold n_acks in *. simpl.
    rewrite (sum_same (acks_at g (away f) t x)); [lia|]. intros i Hi. destruct (v_links0 _ Hi) as [[c n] Hc].
    destruct (H _ _ _ Hi Hc) as (c2 & n2 & l' & Hc2 & E & Hl'). unfold acks_at. rewrite Hc, Hc2, E, weight_app.
    rewrite (weight_none _ _ _ l') by done. lia.
Qed.

(** Sending files the next number. *)
Lemma finv_send k lh la g f w i d msg :
  finv (S k) lh la g f → sends (fwd (home f)) (fwd w) (Some (Sending i d msg)) →
  finv k lh la (<[Message_Sequence msg := bound_for msg]> g) (mkFed w (away f) (wire f ++ [(i, msg)]) (links f)).
Proof.
  intros [] (cb & Hq & Ho & Hb & Hc & Hm).
  assert (En : next_seq (mb (fwd (home f))) = (sent_count f + 1)%Z).
  { unfold next_seq. fold (sent_count f). apply wrap_u32_small. unfold two32 in *. lia. }
  rewrite En in Hq, Hm.
  assert (Hg : ∀ q y, g !! q = Some y → <[Message_Sequence msg := bound_for msg]> g !! q = Some y).
  { intros q y Hy. rewrite lookup_insert_ne; [done|]. apply v_dom0 in Hy. lia. }
  split; try done; unfold sent_count in *; simpl.
  - rewrite Hm. lia.
  - intros q y. rewrite Hm, lookup_insert_Some. intros [[<- _]|[_ Hy%v_dom0]]; lia.
  - intros q cb'. rewrite Hc, lookup_insert_Some. intros [[<- <-]|[_ Hq']]; [by rewrite lookup_insert_eq, Hb|].
    by apply Hg, v_calls0.
  - intros j m [[? ?]%v_wire0|Hj%list_elem_of_singleton]%elem_of_app; [split; [done|by apply Hg]|].
    injection Hj as -> ->. by rewrite lookup_insert_eq.
  - intros j c n m Hj Hcl Hin Ha. destruct (v_acks0 _ _ _ _ Hj Hcl Hin Ha) as [y Hy]. exists y. by apply Hg.
  - intros t x. specialize (v_count0 t x). unfold n_acks in *. simpl.
    rewrite (sum_same (acks_at g (away f) t x)); [done|]. intros j Hj. unfold acks_at.
    destruct (clients (away f) !! j) as [[c n]|] eqn:Ec; [|done]. apply weight_ext. intros m Hin Ha.
    destruct (v_acks0 _ _ _ _ Hj Ec Hin Ha) as [y Hy]. by rewrite (Hg _ _ Hy), Hy.
Qed.

(** A link is dialled. *)
Lemma finv_dial k lh la g f i nonce :
  finv k lh la g f → clients (away f) !! i = None →
  finv k lh la g (mkFed (home f) (with_client i (start nonce (shared (away f))) (away f)) (wire f) (i :: links f)).
Proof.
  intros [] Hi. assert (Hni : i ∉ links f) by (intros [? ?]%v_links0; congruence).
  split; try done; simpl.
  - intros j c n m. rewrite lookup_insert. case_decide as Hj.
    + subst j. intros _ [= <- <-]. simpl. by intros ?%not_elem_of_nil.
    + intros [?|?]%elem_of_cons; [congruence|]. by eapply v_acks0.
  - intros j. rewrite lookup_insert. case_decide; [done|]. intros [?|?]%elem_of_cons; [congruence|auto].
  - by apply NoDup_cons.
  - intros t x. specialize (v_count0 t x). unfold n_acks in *. simpl.
    unfold acks_at at 1. simpl. rewrite lookup_insert_eq. simpl.
    rewrite (sum_same (acks_at g (away f) t x)); [done|]. intros j Hj. unfold acks_at. simpl.
    rewrite lookup_insert_ne; [done|congruence].
Qed.
(** The queue of one link changes. *)
Lemma n_acks_link g f (w : server') i c1 n1 h ws t x :
  NoDup (links f) → i ∈ links f → clients w = <[i := (c1, n1)]> (clients (away f)) →
  n_acks g (mkFed h w ws (links f)) t x + acks_at g (away f) t x i = n_acks g f t x + weight g t x (in_ c1).
Proof.
  intros Hn Hi Hc. unfold n_acks. simpl. rewrite (sum_change (acks_at g (away f) t x) (acks_at g w t x) _ i Hn Hi).
  - unfold acks_at at 2. by rewrite Hc, lookup_insert_eq.
  - intros j Hj. unfold acks_at. by rewrite Hc, lookup_insert_ne.
Qed.

Lemma finv_handle k lh la g f i msg es (w : server') l1 l2 :
  finv k lh la g f → wire f = l1 ++ (i, msg) :: l2 →
  step dial' srvc' sta' (LClient i (EvOut msg)) es (away f) w →
  finv k lh (la ++ es) g (mkFed (home f) w (l1 ++ l2) (links f)).
Proof.
  intros V Hw Hs. destruct (v_wire _ _ _ _ _ V i msg) as [Ho Hg]; [rewrite Hw; set_solver|].
  assert (Hcl : ∃ c n, clients (away f) !! i = Some (c, n)) by (inversion Hs; eauto). destruct Hcl as (c & n & Hc).
  destruct (handled_accepted g _ _ _ _ _ _ _ Hs Ho Hg Hc) as (c1 & n1 & m & Hw1 & E & Hq & Hacc).
  destruct V. split; try done; simpl.
  - intros j m' Hm. apply (v_wire0 j). rewrite Hw. set_solver.
  - intros j c' n' m' Hj. rewrite Hw1, lookup_insert. case_decide; [|by apply v_acks0]. intros [= <- <-]. subst j.
    rewrite E. intros [Hm|Hm%list_elem_of_singleton]%elem_of_app Ha; [by eapply v_acks0|]. subst m'. rewrite Hq. by eexists.
  - intros j Hj. rewrite Hw1, lookup_insert. case_decide; [done|auto].
  - intros t x. specialize (v_count0 t x). specialize (Hacc t x). rewrite n_accepted_app.
    destruct (decide (i ∈ links f)) as [Hi|Hi].
    + pose proof (n_acks_link g f w i c1 n1 (home f) (l1 ++ l2) t x v_nodup0 Hi Hw1) as Hn.
      rewrite E, weight_app in Hn. unfold acks_at in Hn. rewrite Hc in Hn. lia.
    + unfold n_acks in *. simpl. rewrite (sum_same (acks_at g (away f) t x)); [lia|]. intros j Hj.
      unfold acks_at. rewrite Hw1, lookup_insert_ne; [done|congruence].
Qed.

(** What a reply settles was sent under its number. *)
Lemma reply_relayed k lh la g f msg es w t x :
  finv k lh la g f → step dial srvc sta (LReply msg) es (home f) w →
  callbacks (fwd w) ⊆ callbacks (fwd (home f)) ∧ mb (fwd w) = mb (fwd (home f)) ∧
  n_relayed es t x <= weight g t x [msg].
Proof.
  intros V Hs. inversion Hs as [| | | | |cl ? s ? Hr| | | | | |]; subst. simpl.
  unfold handleReply in Hr. destruct (readFrom msg (ff (fstate_of (home f)))) as [fw' r] eqn:E. simpl in E.
  unfold reply_log. rewrite E. pose proof E as E'.
  apply readFrom_cases in E as [[-> ->]|(cb & er & Hcb & -> & ->)].
  { injection Hr as <-. simpl. split_and!; [done|done|]. unfold n_relayed. simpl. lia. }
  apply bind_Ret_inv in Hr as (e' & _ & [= <-]). simpl. split_and!; [apply delete_subseteq|done|].
  destruct er as [er|]; [rewrite gone_log_relayed; lia|].
  apply (v_calls _ _ _ _ _ V) in Hcb. destruct (carried (cb_msg cb)) as [[t0 x0]|] eqn:Ec; [|unfold n_relayed; simpl; lia].
  destruct (fewer _ _ _ _); [|unfold n_relayed; simpl; lia]. unfold n_relayed, weight. rewrite !filter_cons, !filter_nil.
  case_decide as Hd; [|simpl; lia]. injection Hd as -> ->.
  assert (Ha : is_ack msg = true).
  { unfold readFrom, triggerCallbackFor in E'. unfold is_ack.
    destruct (Message_Payload msg) as [[]|]; try discriminate E'; [done|]. by destruct (callbacks _ !! _). }
  rewrite decide_True; [done|]. unfold weighs. rewrite Ha, Hcb, bool_decide_true; done.
Qed.

Lemma receive_queue i msg es (w w1 : server') :
  step dial' srvc' sta' (LClient i (EvReceive msg)) es w w1 →
  ∃ c n c1 n1, clients w !! i = Some (c, n) ∧ clients w1 = <[i := (c1, n1)]> (clients w) ∧ in_ c = msg :: in_ c1 ∧ es = [].
Proof.
  intros Hs. inversion Hs as [|? c n ? cc ? Hc _ Hst| | | | | | | | | |]; subst.
  exists c, n, (cn (cs cc)), (sent_init cc). split_and!; [done..| |done].
  apply step_sends in Hst as [(m & [= ->] & E)|(Hne & _)]; [exact E|by destruct (Hne msg)].
Qed.

Lemma finv_reply k lh la g f i msg es es' w (w' : server') :
  finv (S k) lh la g f → i ∈ links f → step dial srvc sta (LReply msg) es (home f) w →
  step dial' srvc' sta' (LClient i (EvReceive msg)) es' (away f) w' →
  finv k (lh ++ es) (la ++ es') g (mkFed w w' (wire f) (links f)).
Proof.
  intros V Hi Hr Hs. destruct (receive_queue _ _ _ _ _ Hs) as (c & n & c1 & n1 & Hc & Hw & E & ->).
  pose proof (λ t x, reply_relayed _ _ _ _ _ _ _ _ t x V Hr) as Hrel.
  destruct (Hrel "" None) as (Hcb & Hmb & _). destruct V. split; unfold sent_count in *; simpl; rewrite ?Hmb; try done; [lia| | | |].
  - intros q cb Hq. by eapply v_calls0, lookup_weaken.
  - intros j c' n' m Hj. rewrite Hw, lookup_insert. case_decide; [|by apply v_acks0]. intros [= <- <-] Hm. subst j.
    eapply v_acks0; [done..|]. rewrite E. by apply list_elem_of_further.
  - intros j Hj. rewrite Hw, lookup_insert. case_decide; [done|auto].
  - intros t x. specialize (v_count0 t x). rewrite n_relayed_app, app_nil_r. destruct (Hrel t x) as (_ & _ & Hle).
    pose proof (n_acks_link g f w' i c1 n1 w (wire f) t x v_nodup0 Hi Hw) as Hn.
    unfold acks_at in Hn. rewrite Hc, E in Hn. change (msg :: in_ c1) with ([msg] ++ in_ c1) in Hn. rewrite weight_app in Hn. lia.
Qed.

(** *** Every step keeps it *)

Lemma fstep_inv ta tb f f' k lh la g :
  fstep ta tb f f' → finv (length ta + k) lh la g f → ∃ g', finv k (lh ++ log ta) (la ++ log tb) g' f'.
Proof.
  intros Hs V. destruct Hs as [l es w f Hs Hl|l es w f Hs Hl|data es r w f Hw Hr|data es r w i msg f Hw Hr
    |data es r w i msg nonce f Hw Hr Hi|i msg es w l1 l2 f Hwire Hs|i msg es es' w w' f Hi Hs Hs'];
    unfold log; simpl in V |- *; rewrite ?app_nil_r.
  - exists g. pose proof (λ t x, local_step _ _ _ _ t x Hs Hl) as H. destruct (H "" None) as [E _].
    eapply finv_home; [exact V|lia|by rewrite E|by rewrite E|apply H].
  - exists g. eapply finv_away; [exact V|]. intros i c n Hi Hc. by eapply foreign_queue.
  - exists g. apply works_sends in Hw as H. rewrite Hr in H. destruct H as [Hc Hm].
    eapply finv_home; [exact V|lia|by rewrite Hc|done|]. intros t x. by eapply works_relayed.
  - apply works_sends in Hw as H. rewrite Hr in H. eexists. eapply finv_send in V; [|exact H].
    eapply (finv_home _ _ _ _ _ _ _ w) in V; [exact V|done|done|done|]. intros t x. by eapply works_relayed.
  - apply works_sends in Hw as H. rewrite Hr in H. eexists. eapply finv_send in V; [|exact H].
    eapply (finv_home _ _ _ _ _ _ _ w) in V; [|done|done|done|intros t x; by eapply works_relayed].
    apply (finv_dial _ _ _ _ _ i nonce) in V; [exact V|done].
  - exists g. by eapply finv_handle.
  - exists g. by eapply finv_reply.
Qed.

Lemma frun_inv f0 tr tr' f k g0 :
  frun f0 tr tr' f → finv (k + length tr) [] [] g0 f0 → ∃ g, finv k (log tr) (log tr') g f.
Proof.
  intros Hr. revert k. induction Hr as [f|f tr tr' f1 ta tb f2 _ IH Hs]; intros k V.
  - exists g0. by rewrite Nat.add_0_r in V.
  - rewrite length_app in V. destruct (IH (length ta + k)) as [g V1]; [by replace (length ta + k + length tr) with (k + (length tr + length ta)) by lia|].
    destruct (fstep_inv _ _ _ _ _ _ _ _ Hs V1) as [g' V2]. exists g'.
    unfold log in *. by rewrite !fmap_app, !join_app.
Qed.

Lemma federate_inv k e n (w' : server') : (Z.of_nat k < two32)%Z → finv k [] [] ∅ (federate (boot e n) w').
Proof.
  intros Hk. split; unfold sent_count; simpl; try done; try set_solver. constructor.
Qed.

(** What [home] counts as relayed was accepted by [away]. *)
Lemma relayed_accepted e n (w' : server') tr tr' f t x :
  frun (federate (boot e n) w') tr tr' f → (Z.of_nat (length tr) < two32)%Z →
  n_relayed (log tr) t x <= n_accepted (log tr') t x.
Proof.
  intros Hr Hk. destruct (frun_inv _ _ _ _ 0 ∅ Hr) as [g V]; [by apply federate_inv|].
  pose proof (v_count _ _ _ _ _ V t x). lia.
Qed.
(** ** No message is lost between two servers *)

(** Acknowledged by a client of this server, or given up here. *)
Definition ends (t : string) (x : option string) (e : entry) : bool :=
  match e with Acked _ t' x' | Expired t' x' => bool_decide (t' = t ∧ x' = x) | _ => false end.

Definition n_ended (es : list entry) (t : string) (x : option string) : nat := length (filter (λ e, ends t x e) es).

Lemma settled_split es t x : n_settled es t x = n_relayed es t x + n_ended es t x.
Proof.
  unfold n_settled, n_relayed, n_ended. induction es as [|e es IH]; [done|]. rewrite !filter_cons.
  assert (Hs : settles t x e ↔ e = Relayed t x ∨ ends t x e).
  { destruct e; simpl; rewrite ?bool_decide_spec; naive_solver. }
  assert (Hd : ¬ (e = Relayed t x ∧ ends t x e)) by (intros [-> []]).
  destruct (decide (settles t x e)), (decide (e = Relayed t x)), (decide (ends t x e)); simpl; try lia; tauto.
Qed.

(** A server that [New] started, with room for [k] publications. *)
Definition fresh_server (k : nat) (sv : Service) (e : @env D B P A C) (st : started (BI:=BI)) : Prop :=
  ∃ newPresence hasForwarder d b a opts,
    New newPresence hasForwarder d b a opts = Ok (sv, e, st) ∧ broker_room k b ∧ ∀ t y, ¬ in_transit b t y.

Lemma fresh_server_kept {PL : ProtoLaws} {X Y} (dl : string → X → X * result Y) sv st e (n : X) tr w addr x :
  fresh_server (length tr) sv e st → run dl sv st (boot e n) tr w → from_wire (log tr) →
  n_accepted (log tr) (topic_of addr) x <=
    held (broker (shared w)) (topic_of addr) x + n_settled (log tr) (topic_of addr) x.
Proof.
  intros (np & hf & d & b & a & opts & HN & R & Ht) Hr Hw.
  destruct (boot_inv (Conn:=Y) _ _ _ _ _ _ _ _ _ n _ HN R Ht) as [Hsta I].
  destruct (run_good dl sv st Hsta _ _ _ 0 Hr I Hw) as (_ & _ & Hb).
  specialize (Hb (topic_of addr) x (topic_of_device addr)). lia.
Qed.

(** C9: no accepted message is lost between two servers.  In every run of two servers
    that [New] started, the first forwarding to the second (fewer than [2^32] steps,
    so that sequence numbers are not used twice): whatever the first server counts as
    relayed, the second has accepted, for the same device and with the same content,
    at least as often; and the messages the first has acknowledged to their senders
    are no more than those still stored by it, those its clients acknowledged or it
    gave up, those stored by the second server, and those that came to an end there. *)
Theorem federated_messages_kept {PL : ProtoLaws} e (n : N) e' (n' : N') tr tr' f addr x :
  fresh_server (length tr) srvc e sta → fresh_server (length tr') srvc' e' sta' →
  (Z.of_nat (length tr) < two32)%Z →
  frun (federate (boot e n) (boot e' n')) tr tr' f → from_wire (log tr) → from_wire (log tr') →
  let t := topic_of addr in
  n_relayed (log tr) t x <= n_accepted (log tr') t x ∧
  n_accepted (log tr) t x <=
    held (broker (shared (home f))) t x + n_ended (log tr) t x +
    held (broker (shared (away f))) t x + n_settled (log tr') t x.
Proof.
  intros S S' Hk Hr Hw Hw' t. pose proof (relayed_accepted _ _ _ _ _ _ t x Hr Hk) as Hrel. split; [exact Hrel|].
  apply frun_runs in Hr as [Hh Ha].
  pose proof (fresh_server_kept _ _ _ _ _ _ _ addr x S Hh Hw) as H1. rewrite settled_split in H1.
  pose proof (fresh_server_kept _ _ _ _ _ _ _ addr x S' Ha Hw') as H2. fold t in H1, H2. lia.
Qed.
End federation.
