(* ===== verification/Scenario.v ===== *)
(** * Scenario: a concrete service

    The service with the in-memory database, broker and presence repository, the
    test suite's attachments manager and the concrete stand-ins for the external
    libraries, and one conversation: Alice logs in and registers, Bob asks for
    her keys and sends her a message, and Alice receives and acknowledges it.
    The theorems of the service files are applied to states of this
    conversation. *)

From S2P Require Import Prelude Model Externals DB MemDB Broker MemBroker Presence Attachments Forwarder Service ServiceProps Connection Protocol Forwarding.
Import serviceimpl forwarder forwarding.
#[local] Existing Instance toy_identity.
#[local] Existing Instance bit_proto.
#[local] Existing Instance toy_prototext.
#[local] Existing Instance canonical_range.
#[local] Existing Instance memdb.memdb_DB.
#[local] Existing Instance memdb.memdb_laws.
#[local] Existing Instance membroker.membroker_Broker.
#[local] Existing Instance mempresence.mempresence_Presence.
#[local] Existing Instance testsupport.noop_Attachments.
#[local] Instance cache_LRU : LRU (lru_list string) (@Publisher membroker.membroker _) := list_LRU string.
#[local] Instance cache_laws : @LRULaws (lru_list string) (@Publisher membroker.membroker _) cache_LRU := @list_LRU_laws string.

Definition world := @env memdb.memdb membroker.membroker mempresence.repo
  testsupport.noopAttachmentsManager (lru_list string).
Definition state := @st memdb.memdb membroker.membroker mempresence.repo
  testsupport.noopAttachmentsManager (lru_list string) membroker.membroker_Broker.

Definition srvc : Service := mkService "tassis.example" "example" 300 10 20 1 3600 60 0.
Definition e0 : world :=
  mkEnv memdb.New membroker.New mempresence.NewRepository
    (testsupport.NewNoopAttachmentsManager 0) (mkLru 10 []).

Definition alice : string := "alice's identity key, 32 bytes..".
Definition alice_phone : Address := mkAddress alice "phone".
Definition nonce : string := "nonce of the connection, 32 byte".

Definition marshalled (l : Login) : string := match Marshal_Login l with Ok b => b | Err _ => "" end.
Definition login_bytes : string := marshalled (mkLogin (Some alice_phone) nonce).
Definition login_msg : Message :=
  mkMessage 1 (Some (Message_AuthResponse (mkAuthResponse login_bytes (alice +:+ login_bytes)))).
Definition alice_keys : Register := mkRegister "signed pre key" ["one-time key"].
Definition register_msg : Message := mkMessage 2 (Some (Message_Register alice_keys)).
Definition request_msg : Message := mkMessage 1 (Some (Message_RequestPreKeys (mkRequestPreKeys alice []))).
Definition hello : OutboundMessage := mkOutboundMessage (Some alice_phone) (Some "sealed hello").
Definition hello_msg : Message := mkMessage 2 (Some (Message_OutboundMessage hello)).

(** Handling a message, for runs that do not panic or block. *)
Definition handled (msg : Message) (s : state) : state :=
  match doHandleOutboundMessage srvc msg s with Ret s' => s' | _ => s end.

Definition returns {X} (o : outcome X) : bool := match o with Ret _ => true | _ => false end.

Lemma handled_Ret msg s :
  returns (doHandleOutboundMessage srvc msg s) = true → doHandleOutboundMessage srvc msg s = Ret (handled msg s).
Proof. unfold handled. by destruct (doHandleOutboundMessage srvc msg s). Qed.

(** Alice's connection after logging in and registering. *)
Definition alice0 : state := Connect nonce e0.
Definition alice1 : state := handled login_msg alice0.
Definition alice2 : state := handled register_msg alice1.

(** Bob's anonymous connection: before and after asking for keys and sending. *)
Definition bob0 : state := Connect "another nonce" (en alice2).
Definition bob1 : state := handled request_msg bob0.
Definition bob2 : state := handled hello_msg bob1.

(** Alice's connection when Bob is done, after the delivery and after the Ack. *)
Definition alice3 : state := mkSt (en bob2) (cn alice2).
Definition delivery : membroker.membroker * option (option string * (string * Z)) :=
  broker_Receive (B:=membroker.membroker) 0 (broker (en alice3)).
Definition hello_acker : string * Z := default ("", 0%Z) (snd <$> delivery.2).
Definition alice4 : state :=
  handleInboundMessage (BI:=membroker.membroker_Broker) (Some "sealed hello") hello_acker (with_en (set_broker delivery.1) alice3).
Definition ack_msg : Message := mkMessage 1 (Some Message_Ack).
Definition alice5 : state := handled ack_msg alice4.

(** The conversation, as its participants see it. *)
Example conversation :
  Message_Payload <$> in_ (cn bob2) =
    [Some (Message_PreKeys (mkPreKeys [mkPreKey "phone" "signed pre key" (Some "one-time key")]));
     Some Message_Ack] ∧
  last (in_ (cn alice4)) =
    Some (mkMessage 1 (Some (Message_InboundMessage (mkInboundMessage (Some "sealed hello"))))) ∧
  backlog (broker (en alice4)) (topicFor alice "phone") = [Some "sealed hello"] ∧
  backlog (broker (en alice5)) (topicFor alice "phone") = [] ∧
  unackedMessages (cn alice5) = ∅.
Proof. vm_compute. done. Qed.

(** ** The service theorems on this conversation *)

Definition bob_early : state := Connect "another nonce" (en alice0).


Lemma empty_upload_request_unanswered_witness :
  ∃ s', doHandleOutboundMessage srvc
          (mkMessage 1 (Some (Message_RequestUploadAuthorizations (mkRequestUploadAuthorizations 0)))) bob0 = Ret s' ∧
        replies bob0 s' [].
Proof.
  apply (empty_upload_request_unanswered srvc _ bob0 (mkRequestUploadAuthorizations 0));
    [vm_compute; reflexivity|reflexivity|done].
Defined.

Lemma wrong_connection_refused_witness :
  ∃ s', doHandleOutboundMessage srvc hello_msg alice2 = Ret s' ∧
    only_sent (mkMessage (Message_Sequence hello_msg) (Some (Message_Error
      (if isAuthenticated (cn alice2) then ErrNonAnonymous else ErrUnauthorized)))) alice2 s'.
Proof. apply (wrong_connection_refused srvc hello_msg alice2). right. split; [done|vm_compute; reflexivity]. Defined.

(** Alice's connection with her address stored. *)
Definition alice_known : state := set_identity alice "phone" alice0.

Lemma getNumber_correct_witness :
  12 <= String.length (PublicKey_Number (getIdentityKey (cn alice_known))) ∧
  ∃ d res, getNumber alice_known = Ret (with_en (set_db d) alice_known, res) ∧ db_wf d.
Proof.
  assert (Hl : 12 <= String.length (PublicKey_Number (getIdentityKey (cn alice_known)))) by (vm_compute; lia).
  split; [done|]. destruct (getNumber_correct alice_known) as (d & res & H & W & _);
    [exact memdb.New_wf|exact Hl|eauto].
Defined.

Lemma registry_access_witness :
  registry_frame login_msg alice0 (reg_view (db (en alice0))) (reg_view (db (en alice1))).
Proof.
  apply (registry_access srvc login_msg alice0 alice1); [exact memdb.New_wf|apply handled_Ret; vm_compute; reflexivity].
Defined.

(** Bob writes to Alice, whose device has announced itself. *)
Definition e1 : world :=
  set_presence (presence_Announce (Some alice_phone) "tassis.example" (presenceRepo e0)).1 e0.
Definition bob3 : state := Connect "another nonce" e1.

Lemma outbound_routed_witness :
  (∃ err, replies bob3 (handled hello_msg bob3) [NewError hello_msg err]) ∨
  ∃ topic x, routed_to srvc hello alice_phone "tassis.example" topic x ∧
             published_or_error hello_msg topic x bob3 (handled hello_msg bob3).
Proof.
  destruct (outbound_routed srvc hello_msg bob3 (handled hello_msg bob3) hello alice_phone
              (presenceRepo e1) "tassis.example") as [_ [[? _]|?]]; [| | | | | |by left|by right].
  - split; [by apply New_room|]. intros t p. vm_compute. done.
  - vm_compute. reflexivity.
  - reflexivity.
  - reflexivity.
  - vm_compute. reflexivity.
  - apply handled_Ret. vm_compute. reflexivity.
Defined.

Lemma login_outcome_witness :
  ∃ s' number sub, doHandleOutboundMessage srvc login_msg alice0 = Ret s' ∧
    login_effect srvc login_msg alice_phone alice0 s' number sub.
Proof.
  assert (Hr : returns (getNumber alice_known) = true) by (vm_compute; reflexivity).
  destruct (getNumber alice_known) as [[s1 number]| |] eqn:Hg; [|done..]. clear Hr.
  destruct (broker_NewSubscriber (topicFor alice "phone") (broker (en alice0))) as [b sub] eqn:Hs.
  destruct (login_outcome srvc login_msg alice0 alice_phone s1 number b sub) as (s' & H & He & _);
    [vm_compute; reflexivity| |exact Hg|exact Hs|by exists s', number, sub].
  exists (mkAuthResponse login_bytes (alice +:+ login_bytes)), (mkLogin (Some alice_phone) nonce).
  split_and!; vm_compute; reflexivity.
Defined.

(** A message without a recipient, with the static presence repository. *)
Definition static_env : @env memdb.memdb membroker.membroker staticpresence.repo
    testsupport.noopAttachmentsManager (lru_list string) :=
  mkEnv memdb.New membroker.New (staticpresence.NewRepository "tassis.example")
    (testsupport.NewNoopAttachmentsManager 0) (mkLru 10 []).
Definition nobody_msg : Message :=
  mkMessage 1 (Some (Message_OutboundMessage (mkOutboundMessage None (Some "sealed")))).

Lemma missing_recipient_panics_witness :
  doHandleOutboundMessage (PI:=staticpresence.staticpresence_Presence) srvc nobody_msg
    (Connect "nonce" static_env) = Panic.
Proof.
  apply (missing_recipient_panics srvc nobody_msg _ (mkOutboundMessage None (Some "sealed"))
           (presenceRepo static_env) "tassis.example"); reflexivity.
Defined.

Definition no_address_bytes : string := marshalled (mkLogin None nonce).
Definition no_address_msg : Message :=
  mkMessage 1 (Some (Message_AuthResponse (mkAuthResponse no_address_bytes ""))).

Lemma login_without_address_panics_witness : doHandleOutboundMessage srvc no_address_msg alice0 = Panic.
Proof.
  apply (login_without_address_panics srvc no_address_msg alice0 (mkAuthResponse no_address_bytes "")
           (mkLogin None nonce)); vm_compute; reflexivity.
Defined.

Lemma alice_logs_in : Connection.run srvc (start nonce e0) [EvOut login_msg] (mkC alice1 0).
Proof.
  apply (run_snoc srvc _ [] (mkC alice0 0)); [apply run_nil|]. apply step_out, handled_Ret.
  vm_compute. reflexivity.
Qed.

Lemma authenticated_by_signature_witness : logged_in nonce [EvOut login_msg] alice1.
Proof.
  apply (authenticated_by_signature srvc nonce e0 [EvOut login_msg] (mkC alice1 0) alice_logs_in).
  vm_compute. reflexivity.
Defined.

Lemma client_messages_typed_witness :
  ∃ m, m ∈ in_ (cn alice1) ∧ is_uint32 (Message_Sequence m) ∧
    ∃ ev, ev ∈ [EvOut (BI:=membroker.membroker_Broker) login_msg] ∧ sent_by nonce ev m.
Proof.
  assert (H : match in_ (cn alice1) with [] => false | _ => true end = true) by (vm_compute; reflexivity).
  destruct (in_ (cn alice1)) as [|m l] eqn:E; [discriminate H|]. exists m. split; [apply list_elem_of_here|].
  apply (client_messages_typed srvc nonce e0 [EvOut login_msg] (mkC alice1 0) m).
  - intros msg Hm. apply list_elem_of_singleton in Hm. injection Hm as ->. split; [done|reflexivity].
  - exact alice_logs_in.
  - right. simpl. rewrite E. apply list_elem_of_here.
Defined.

Lemma identity_immutable_witness : same_identity alice1 alice2.
Proof.
  apply (identity_immutable srvc (mkC alice1 0) [EvOut register_msg] (mkC alice2 0)).
  - vm_compute. reflexivity.
  - apply (run_snoc srvc _ [] (mkC alice1 0)); [apply run_nil|]. apply step_out, handled_Ret.
    vm_compute. reflexivity.
Defined.

Lemma ack_calls_acker_witness :
  replies alice3 alice4
    [mkMessage 1 (Some (Message_InboundMessage (mkInboundMessage (Some "sealed hello"))))].
Proof.
  apply (ack_calls_acker (BI:=membroker.membroker_Broker) srvc (Some "sealed hello") hello_acker (mkC alice3 0) (mkC alice4 0) []
           (mkC alice4 0) ack_msg).
  - apply (step_in (BI:=membroker.membroker_Broker) srvc 0 (Some "sealed hello") hello_acker delivery.1 alice3 0).
    + assert (E : subscriptions (cn alice3) = [0]) by (vm_compute; reflexivity). rewrite E. left.
    + vm_compute. reflexivity.
  - apply run_nil.
  - constructor.
  - done.
  - done.
  - vm_compute. reflexivity.
Defined.

(** ** Forwarding: Alice's device is at the host "up" *)

Lemma mb_room_one k n (t : membroker.topic) :
  (0 <= membroker.seq t)%Z → (membroker.seq t + Z.of_nat k < two63)%Z →
  (∀ q, is_Some (membroker.messages t !! q) → q < membroker.seq t)%Z →
  broker_room k (membroker.mkMembroker {[n := t]} []).
Proof.
  intros H0 Hk Hq.
  assert (Ht : ∀ t', membroker.topicOf t' (membroker.mkMembroker {[n := t]} []) = if decide (t' = n) then t else membroker.newTopic).
  { intros t'. unfold membroker.topicOf; simpl. rewrite lookup_singleton. by repeat case_decide; subst. }
  split; [intros t'|intros t' q|by intros i t' s' m'; simpl]; rewrite Ht; case_decide; simpl; [done|lia|apply Hq|].
  rewrite lookup_empty. by intros [? ?].
Qed.

Definition hello_fwd : ForwardedMessage := mkForwardedMessage (Some hello) 0 0.
Definition hello_bytes : string :=
  match Marshal_ForwardedMessage hello_fwd with Ok b => b | Err _ => "" end.
Definition queue : membroker.topic := membroker.mkTopic 1 [0%Z] {[0%Z := Some hello_bytes]}.
Definition fwd_env : world :=
  mkEnv memdb.New (membroker.mkMembroker {[forwardingTopic := queue]} [])
    (presence_Announce (Some alice_phone) "up" mempresence.NewRepository).1
    (testsupport.NewNoopAttachmentsManager 0) (mkLru 10 []).
Definition fwd0 := mkF (BI:=membroker.membroker_Broker) fwd_env (forwarder.New (Conn:=string)) tt.
Definition clock0 : clock := mkClock 0 1000000 2000000.

Lemma fwd_env_ok : routing_ok (BI:=membroker.membroker_Broker) fwd_env.
Proof.
  split; [|intros t p; vm_compute; done].
  apply (mb_room_one 0); [done..|]. simpl. intros q. rewrite lookup_singleton. case_decide; [subst; lia|]. by intros [? ?].
Qed.

Lemma fwd_env_issued : issued (broker fwd_env) ("forwarding", 0%Z) (Some hello_bytes).
Proof.
  split; [done|]. unfold fwd_env, membroker.topicOf; cbn [broker fst snd membroker.topics].
  unfold forwardingTopic. rewrite lookup_singleton_eq. simpl. rewrite lookup_singleton_eq. by intros y [= <-].
Qed.

Lemma forwarding_keeps_message_witness :
  ∃ r, forwardMessage demo_dial srvc clock0 "forwardingretry" (Some hello_bytes) ("forwarding", 0%Z) fwd0 = Ret r ∧
    fate srvc clock0 (mkCallback (BI:=membroker.membroker_Broker) hello_fwd ("forwarding", 0%Z) "forwardingretry")
      hello alice_phone (Some hello_bytes) (broker fwd_env) (broker (fe (r_state r))) (ff (r_state r)) (r_sent r).
Proof.
  assert (Hr : returns (forwardMessage demo_dial srvc clock0 "forwardingretry" (Some hello_bytes)
                          ("forwarding", 0%Z) fwd0) = true) by (vm_compute; reflexivity).
  destruct (forwardMessage _ _ _ _ _ _ _) as [r| |] eqn:E; [|done..]. exists r. split; [done|].
  apply (forwarding_keeps_message (BI:=membroker.membroker_Broker) demo_dial srvc clock0 "forwardingretry" (Some hello_bytes)
           ("forwarding", 0%Z) fwd0 r hello_fwd hello alice_phone fwd_env_ok fwd_env_issued); [..|exact E];
    vm_compute; reflexivity.
Defined.

(** The message is in flight under number 1; "up" acknowledges it. *)
Definition fwd1 :=
  mkF (BI:=membroker.membroker_Broker) fwd_env
    (mkForwarder {["up" := "conn"]}
       {[1%Z := mkCallback (BI:=membroker.membroker_Broker) hello_fwd ("forwarding", 0%Z) "forwardingretry"]}
       (mkMessageBuilder 1)) tt.

Lemma reply_settles_message_witness :
  ∃ s', handleReply srvc clock0 demo_ack fwd1 = Ret s' ∧
    callbacks (ff s') = delete 1%Z (callbacks (ff fwd1)) ∧ ff s' ≠ ff fwd1.
Proof.
  assert (Hr : match handleReply srvc clock0 demo_ack fwd1 with
               | Ret s' => bool_decide (callbacks (ff s') !! 1%Z = None) = true | _ => False end)
    by (vm_compute; reflexivity).
  destruct (handleReply srvc clock0 demo_ack fwd1) as [s'| |] eqn:E; [|done..].
  exists s'. split; [done|]. apply bool_decide_eq_true in Hr as Hn.
  destruct (reply_settles_message srvc clock0 demo_ack fwd1 s') as [[_ H]|(cb & _ & H & _)];
    [apply fwd_env_ok|exact E| |].
  - rewrite H in Hn. discriminate Hn.
  - split; [exact H|]. intros H'. rewrite H' in Hn. discriminate Hn.
Defined.

Lemma forwarding_workers_squared_witness :
  ∃ e' ws p, startForwarding (mkService "tassis.example" "" 0 0 0 3 0 0 0) fwd_env = (e', Ok (ws, p)) ∧
    Z.of_nat (length ws) = 18%Z.
Proof.
  destruct (startForwarding (mkService "tassis.example" "" 0 0 0 3 0 0 0) fwd_env) as [e' [[ws p]|er]] eqn:E.
  - exists e', ws, p. split; [done|].
    apply (forwarding_workers_squared (mkService "tassis.example" "" 0 0 0 3 0 0 0) fwd_env e' ws p); [done|exact E].
  - exfalso. assert (H : match (startForwarding (mkService "tassis.example" "" 0 0 0 3 0 0 0) fwd_env).2 with
                         | Ok _ => true | Err _ => false end = true) by (vm_compute; reflexivity).
    by rewrite E in H.
Defined.

Definition opts0 : Opts (P:=mempresence.repo) := mkOpts "Tassis.Example" "example" None 0 0 0 0 0 0 0 60.

Lemma New_establishes_witness :
  ∃ srvc' e sta,
    New (BI:=membroker.membroker_Broker) mempresence.NewRepository true memdb.New membroker.New
      (testsupport.NewNoopAttachmentsManager 0) opts0 = Ok (srvc', e, sta) ∧
    publicAddr srvc' = "tassis.example" ∧ routing_ok e.
Proof.
  destruct (New (BI:=membroker.membroker_Broker) (C:=lru_list string) mempresence.NewRepository true memdb.New
    membroker.New (testsupport.NewNoopAttachmentsManager 0) opts0) as [[[srvc' e] sta]|er] eqn:E.
  - exists srvc', e, sta. split; [done|].
    destruct (New_establishes mempresence.NewRepository true memdb.New membroker.New
      (testsupport.NewNoopAttachmentsManager 0) opts0 srvc' e sta) as (Hok & _ & _ & Ha & _); [by apply New_room|exact E|].
    split; [exact Ha|exact Hok].
  - exfalso. assert (H : match New (BI:=membroker.membroker_Broker) (C:=lru_list string) mempresence.NewRepository
      true memdb.New membroker.New (testsupport.NewNoopAttachmentsManager 0) opts0 with
      | Ok _ => true | Err _ => false end = true) by (vm_compute; reflexivity). by rewrite E in H.
Defined.

(** Alice's device, registered here and announced at "up". *)
Definition alice_db : memdb.memdb :=
  match memdb.Register alice "phone" alice_keys memdb.New with Ret (d, _) => d | _ => memdb.New end.

Lemma alice_db_wf : db_wf alice_db.
Proof.
  assert (W0 : db_wf memdb.New) by exact memdb.New_wf.
  destruct (Register_law alice "phone" alice_keys memdb.New W0) as (d & e & H & W & _).
  unfold db_Register in H; simpl in H. unfold alice_db. rewrite H. exact W.
Qed.

(** ** Upper case in the public address

    With the static presence repository of a service whose configured address
    has capital letters, as main.go sets it up, sending compares hosts without
    case and forwarding compares them with case. *)

Definition capital_env : @env memdb.memdb membroker.membroker staticpresence.repo
    testsupport.noopAttachmentsManager (lru_list string) :=
  mkEnv alice_db membroker.New (staticpresence.NewRepository "Tassis.Example")
    (testsupport.NewNoopAttachmentsManager 0) (mkLru 10 []).

(** What is left of Alice's registration and where the message for her is. *)
Definition capital_view (e : @env memdb.memdb membroker.membroker staticpresence.repo
    testsupport.noopAttachmentsManager (lru_list string)) : bool * list nat :=
  (bool_decide (is_Some (DBSpec.devices (reg_view (db e)) !! (PublicKey_String alice, "phone"))),
   [length (backlog (broker e) (topicFor alice "phone")); length (backlog (broker e) forwardingTopic)]).

(** The transfer goroutine comes to the device and moves its one message. *)
Definition transferAlice (e : @env memdb.memdb membroker.membroker staticpresence.repo
    testsupport.noopAttachmentsManager (lru_list string)) :=
  match findMoved (BI:=membroker.membroker_Broker) (PI:=staticpresence.staticpresence_Presence) srvc alice_phone e with
  | (e1, Some sub) =>
      '(e2, _) ← transferTurn (BI:=membroker.membroker_Broker) sub alice_phone forwardingTopic e1;
      '(e3, r) ← transferTurn (BI:=membroker.membroker_Broker) sub alice_phone forwardingTopic e2;
      endTransfer alice_phone (default None r) e3
  | (e1, None) => Ret e1
  end.

(** Hosts are compared with case in one place and without in another.  With a
    public address in mixed case and a static presence repository for it, a
    message for a local device is stored on the device's own topic; yet the transfer
    goroutine takes the device for moved: it moves the message to the forwarding topic
    and unregisters the device. *)
Theorem mixed_case_host_unregisters :
  match doHandleOutboundMessage (BI:=membroker.membroker_Broker)
          (PI:=staticpresence.staticpresence_Presence) srvc hello_msg
          (Connect "nonce" capital_env) with
  | Ret s =>
      capital_view (en s) = (true, [1; 0]) ∧
      match transferAlice (en s) with
      | Ret e => capital_view e = (false, [0; 1])
      | _ => False
      end
  | _ => False
  end.
Proof. vm_compute. done. Qed.
