(* ===== verification/RedisURL.v ===== *)
(** * RedisURL: reading the environment of the server (main.go)

    [parseRedisURL] with its regular expression, and [cleanPEMNewLines].  The
    expression works on bytes here; its delimiters are ASCII characters, so on UTF-8
    text the result is the same. *)

From S2P Require Import Prelude Text Regexp Model Externals.

Module main.

(** ** The Redis URL *)

(** [.] does not match a newline; [\s] is a tab, newline, form feed, return or space. *)
Definition dot (c : ascii) : bool := negb (bool_decide (c = "010"%char)).
Definition is_space (c : ascii) : bool :=
  bool_decide (c ∈ ["009"; "010"; "012"; "013"; " "]%char).
Definition not_space (c : ascii) : bool := negb (is_space c).
Definition is_char (c x : ascii) : bool := bool_decide (x = c).

(** [^redis(s?)://.*:(.+)?@([^\s]+)$] *)
Definition redisURLRegExp : re :=
  Seq (Lit "redis") (Seq (Grp 1 (Opt (Chr (is_char "s")))) (Seq (Lit "://")
    (Seq (Star dot) (Seq (Chr (is_char ":")) (Seq (Opt (Grp 2 (Plus dot)))
      (Seq (Chr (is_char "@")) (Grp 3 (Plus not_space)))))))).

Definition redisURLPattern : string := "^redis(s?)://.*:(.+)?@([^\s]+)$".

Definition parseRedisURL (redisURL : string) : result (bool * string * string) :=
  let ms := FindStringSubmatch redisURLRegExp 3 redisURL in
  if decide (length ms < 4) then Err (Untyped ("should match " +:+ redisURLPattern)%string)
  else Ok (bool_decide (ms !!! 1 = "s"), ms !!! 2, ms !!! 3).

Example parse_tls : parseRedisURL "rediss://:password@localhost:6379" = Ok (true, "password", "localhost:6379").
Proof. reflexivity. Qed.
Example parse_plain : parseRedisURL "redis://:@localhost:6379" = Ok (false, "", "localhost:6379").
Proof. reflexivity. Qed.

(** ** PEM data in one line *)

(** [strings.Replace(pem, "\\n", "\n", -1)] *)
Fixpoint cleanPEMNewLines (pem : string) : string :=
  match pem with
  | String "\"%char (String "n"%char rest) => String "010"%char (cleanPEMNewLines rest)
  | String c rest => String c (cleanPEMNewLines rest)
  | EmptyString => EmptyString
  end.

End main.

Import main.

(** ** What parseRedisURL accepts *)

Lemma run_Lit {A} l s c (k : string → caps → option A) : run (Lit l) (l +:+ s) c k = k s c.
Proof.
  revert s. induction l as [|a l IH]; intros s; [done|]. rewrite str_app_cons. simpl.
  by rewrite bool_decide_true.
Qed.

Lemma run_Lit_some {A} l s c (k : string → caps → option A) x :
  run (Lit l) s c k = Some x → ∃ u, s = (l +:+ u)%string ∧ k u c = Some x.
Proof.
  revert s. induction l as [|a l IH]; intros s H; simpl in H; [by exists s|].
  destruct s as [|b s]; [done|]. case_bool_decide; [|done]. subst. destruct (IH _ H) as (u & -> & Hu). by exists u.
Qed.

Notation k_end := (λ (rest : string) (c : caps), if decide (rest = "") then Some c else None).

(** The host: all that is left. *)
Lemma run_host h c c' :
  run (Grp 3 (Plus not_space)) h c k_end = Some c' ↔ h ≠ "" ∧ str_all not_space h = true ∧ c' = <[3 := h]> c.
Proof.
  assert (Hc : consumed h "" = h).
  { unfold consumed. simpl. rewrite Nat.sub_0_r. induction h as [|a h IH]; simpl; [done|]. by rewrite IH. }
  simpl. destruct h as [|a h]; [by split; [|intros [? _]]|]. destruct (not_space a) eqn:Ha; simpl; rewrite ?Ha; simpl.
  2: { split; [done|]. by intros (_ & ? & _). }
  destruct (star not_space _ h) as [x|] eqn:E.
  - apply star_some in E as (t & u & -> & Ht & Hu & _). destruct (decide (u = "")) as [->|]; [|done].
    injection Hu as <-. rewrite str_app_nil_r in *. rewrite Hc. split; [intros [= <-]; done|]. by intros (_ & _ & ->).
  - split; [done|]. intros (_ & H & _). rewrite star_none in E.
    specialize (E h "" ltac:(by rewrite str_app_nil_r) H). by rewrite decide_True in E.
Qed.

(** The password and the host, after the colon. *)
Definition after_colon (s : string) (c : caps) : option caps :=
  run (Seq (Opt (Grp 2 (Plus dot))) (Seq (Chr (is_char "@")) (Grp 3 (Plus not_space)))) s c k_end.

(** From the at sign on. *)
Definition at_host (s : string) (c : caps) : option caps :=
  run (Seq (Chr (is_char "@")) (Grp 3 (Plus not_space))) s c k_end.

Lemma at_host_some s c c' :
  at_host s c = Some c' ↔ ∃ h, s = String "@" h ∧ h ≠ "" ∧ str_all not_space h = true ∧ c' = <[3 := h]> c.
Proof.
  destruct s as [|a s]; [split; [done|]; by intros (h & ? & _)|].
  change (at_host (String a s) c) with (if is_char "@" a then run (Grp 3 (Plus not_space)) s c k_end else None).
  unfold is_char. case_bool_decide as Ha.
  - subst a. rewrite run_host. split; [by exists s; split_and!; naive_solver|].
    intros (h & [= <-] & ?). done.
  - split; [done|]. by intros (h & [= -> _] & _).
Qed.

Lemma at_host_none s c : at_host s c = None ↔ ∀ h, s = String "@" h → h ≠ "" → str_all not_space h = false.
Proof.
  destruct (at_host s c) as [c'|] eqn:E.
  - apply at_host_some in E as (h & -> & H1 & H2 & _). split; [done|]. intros H. by rewrite (H h) in H2.
  - split; [|done]. intros _ h -> H1. destruct (str_all not_space h) eqn:H2; [|done].
    enough (at_host (String "@" h) c = Some (<[3 := h]> c)) by congruence. apply at_host_some. eauto.
Qed.

(** Non-space text has no newline. *)
Lemma not_space_dot s : str_all not_space s = true → str_all dot s = true.
Proof.
  induction s as [|a s IH]; simpl; [done|]. intros [Ha Hs]%andb_prop. rewrite IH by done. rewrite andb_true_r.
  unfold dot, not_space, is_space in *. apply negb_true_iff in Ha. apply bool_decide_eq_false in Ha.
  apply negb_true_iff, bool_decide_eq_false. intros ->. apply Ha. set_solver.
Qed.

(** [h] is a host: not empty, no spaces, and no at sign but at its end. *)
Definition good_host (h : string) : Prop :=
  h ≠ "" ∧ str_all not_space h = true ∧ ∀ v w, h = (v +:+ String "@" w)%string → w = "".

Lemma opt_group_run s c :
  after_colon s c =
  match s with
  | String a s' =>
      if dot a then match star dot (λ rest, at_host rest (<[2 := consumed s rest]> c)) s' with
                    | Some x => Some x | None => at_host s c end
      else at_host s c
  | EmptyString => at_host s c
  end.
Proof. unfold after_colon, at_host. cbn [run Plus]. by destruct s as [|a s]; [|destruct (dot a)]. Qed.

Lemma consumed_app t u : consumed (t +:+ u) u = t.
Proof.
  unfold consumed. rewrite str_length_app. replace (_ + _ - _) with (String.length t) by lia.
  induction t as [|a t IH]; [by destruct u|]. rewrite str_app_cons. simpl. by rewrite IH.
Qed.

Lemma after_colon_none s c :
  after_colon s c = None ↔
  ∀ pw h, s = (pw +:+ String "@" h)%string → str_all dot pw = true → h ≠ "" → str_all not_space h = false.
Proof.
  rewrite opt_group_run. destruct s as [|a s].
  - rewrite at_host_none. split; [|by intros H h E; destruct h]. by intros _ [|] h E.
  - destruct (dot a) eqn:Ha.
    + destruct (star _ _ s) as [x|] eqn:E.
      * split; [done|]. intros H. apply star_some in E as (t & u & -> & Ht & (h & -> & H1 & H2 & _)%at_host_some & _).
        exfalso. specialize (H (String a t) h eq_refl). simpl in H. rewrite Ha, Ht, H2 in H. by specialize (H eq_refl H1).
      * rewrite star_none in E. rewrite at_host_none. split.
        -- intros H [|b pw] h Es Hpw Hh; [by apply H|]. rewrite str_app_cons in Es. injection Es as <- Es.
           simpl in Hpw. apply andb_prop in Hpw as [_ Hpw]. pose proof (E pw _ Es Hpw) as E1.
           rewrite at_host_none in E1. by apply E1.
        -- intros H h Es. by apply (H "").
    + rewrite at_host_none. split.
      * intros H [|b pw] h Es Hpw Hh; [by apply H|]. rewrite str_app_cons in Es. injection Es as <- Es.
        simpl in Hpw. by rewrite Ha in Hpw.
      * intros H h Es. by apply (H "").
Qed.

Lemma str_all_tail P v w : str_all P (v +:+ w) = true → str_all P v = true ∧ str_all P w = true.
Proof. rewrite str_all_app. by intros []%andb_prop. Qed.

Lemma good_host_intro h c :
  h ≠ "" → str_all not_space h = true →
  (∀ v w, h = (v +:+ String "@" w)%string → str_all dot v = true → at_host (String "@" w) c = None) → good_host h.
Proof.
  intros H1 H2 H. split_and!; [done..|]. intros v w ->. destruct (decide (w = "")); [done|].
  apply str_all_tail in H2 as [Hv [_ Hw]%(str_all_tail _ "@")].
  specialize (H v w eq_refl (not_space_dot _ Hv)). rewrite at_host_none in H. by rewrite (H w) in Hw.
Qed.

Lemma after_colon_some s c c' :
  after_colon s c = Some c' →
  ∃ pw h, s = (pw +:+ String "@" h)%string ∧ str_all dot pw = true ∧ good_host h ∧
    c' = <[3 := h]> (if decide (pw = "") then c else <[2 := pw]> c).
Proof.
  rewrite opt_group_run. destruct s as [|a s].
  { intros (h & ? & _)%at_host_some. done. }
  assert (Hempty : at_host (String a s) c = Some c' →
    (∀ v w, s = (v +:+ String "@" w)%string → str_all dot v = true → at_host (String "@" w) c = None) →
    ∃ pw h, String a s = (pw +:+ String "@" h)%string ∧ str_all dot pw = true ∧ good_host h ∧
      c' = <[3 := h]> (if decide (pw = "") then c else <[2 := pw]> c)).
  { intros (h & [= -> ->] & H1 & H2 & ->)%at_host_some Hmax. exists "", h. split_and!; [done..| |done].
    by apply (good_host_intro h c). }
  destruct (dot a) eqn:Ha.
  - destruct (star _ _ s) as [x|] eqn:E.
    + intros [= ->]. apply star_some in E as (t & u & -> & Ht & Hu & Hmax).
      apply at_host_some in Hu as (h & -> & H1 & H2 & ->). exists (String a t), h.
      pose proof (consumed_app (String a t) (String "@" h)) as Ec. rewrite str_app_cons in Ec. rewrite Ec.
      split_and!; [done|by simpl; rewrite Ha| |by rewrite decide_False].
      apply (good_host_intro h c); [done..|]. intros v w -> Hv.
      specialize (Hmax (String "@" v) (String "@" w) eq_refl ltac:(done) Hv). by rewrite at_host_none in *.
    + intros H. apply Hempty; [done|]. intros v w Es Hv. rewrite star_none in E.
      specialize (E v _ Es Hv). by rewrite at_host_none in *.
  - intros H. apply Hempty; [done|]. apply at_host_some in H as (h & [= -> ->] & _). done.
Qed.

(** Everything after the scheme. *)
Definition after_scheme (s : string) (c : caps) : option caps :=
  star dot (λ u, match u with String a s' => if is_char ":" a then after_colon s' c else None | "" => None end) s.

Lemma after_scheme_some s c c' :
  after_scheme s c = Some c' →
  ∃ user pw h, s = (user +:+ ":" +:+ pw +:+ String "@" h)%string ∧ str_all dot user = true ∧
    str_all dot pw = true ∧ str_all (λ x, negb (is_char ":" x)) pw = true ∧ good_host h ∧
    c' = <[3 := h]> (if decide (pw = "") then c else <[2 := pw]> c).
Proof.
  intros H. apply star_some in H as (user & u & -> & Hu & Hk & Hmax). destruct u as [|a u]; [done|].
  unfold is_char in Hk at 1. case_bool_decide; [subst a|done].
  apply after_colon_some in Hk as (pw & h & -> & Hpw & Hh & ->). exists user, pw, h. split_and!; try done.
  destruct (str_all (λ x, negb (is_char ":" x)) pw) eqn:Hc; [done|]. exfalso.
  apply str_all_false_inv in Hc as (v & x & w & -> & Hx). apply negb_false_iff, bool_decide_eq_true in Hx as ->.
  apply str_all_tail in Hpw as [Hv [_ Hw]%(str_all_tail _ ":")].
  specialize (Hmax (String ":" v) (String ":" (w +:+ String "@" h))).
  rewrite str_app_cons, str_app_assoc in Hmax. specialize (Hmax eq_refl ltac:(done) Hv).
  change (after_colon (w +:+ String "@" h) c = None) in Hmax.
  rewrite after_colon_none in Hmax. destruct Hh as (H1 & H2 & _). by rewrite (Hmax w h) in H2.
Qed.

Lemma after_scheme_none s c :
  after_scheme s c = None →
  ∀ user pw h, s = (user +:+ ":" +:+ pw +:+ String "@" h)%string → str_all dot user = true →
    str_all dot pw = true → ¬ good_host h.
Proof.
  intros H user pw h -> Hu Hpw (H1 & H2 & _). unfold after_scheme in H. rewrite star_none in H.
  specialize (H user _ eq_refl Hu). change (after_colon (pw +:+ String "@" h) c = None) in H.
  rewrite after_colon_none in H. by rewrite (H pw h) in H2.
Qed.

(** The URL for its parts. *)
Definition redis_url (tls : bool) (user pw h : string) : string :=
  ("redis" +:+ (if tls then "s" else "") +:+ "://" +:+ user +:+ ":" +:+ pw +:+ String "@" h)%string.

(** [user], [pw] and [h] are what the expression makes of a URL. *)
Definition url_parts (user pw h : string) : Prop :=
  str_all dot user = true ∧ str_all dot pw = true ∧ str_all (λ x, negb (is_char ":" x)) pw = true ∧ good_host h.

(** Two cuts at a separator: the same, or one part has a separator in it. *)
Lemma sep_cuts (c : ascii) s t s' t' :
  (s +:+ String c t = s' +:+ String c t')%string →
  (s = s' ∧ t = t') ∨ (∃ v, t = v +:+ String c t')%string ∨ (∃ v, t' = v +:+ String c t)%string.
Proof.
  intros [([|b v] & -> & E)|([|b v] & -> & E)]%str_app_split.
  - left. rewrite str_app_nil_r. by injection E.
  - right; left. rewrite str_app_cons in E. injection E as <- ->. by exists v.
  - left. rewrite str_app_nil_r. by injection E.
  - right; right. rewrite str_app_cons in E. injection E as <- ->. by exists v.
Qed.

(** A URL has its parts in one way only. *)
Lemma url_parts_unique user pw h user' pw' h' :
  url_parts user pw h → url_parts user' pw' h' →
  (user +:+ ":" +:+ pw +:+ String "@" h = user' +:+ ":" +:+ pw' +:+ String "@" h')%string →
  pw = pw' ∧ h = h'.
Proof.
  intros (_ & _ & Hc & (H1 & _ & Hh)) (_ & _ & Hc' & (H1' & _ & Hh')) E.
  rewrite <- !(str_app_assoc _ _ (String "@" _)) in E.
  apply sep_cuts in E as [[E ->]|[[v Ev]|[v Ev]]]; [|by apply Hh in Ev|by apply Hh' in Ev].
  apply (sep_cuts ":" user pw user' pw') in E as [[_ ->]|[[v ->]|[v ->]]]; [done| |];
    rewrite str_all_app in Hc || rewrite str_all_app in Hc'; simpl in *; [by rewrite andb_false_r in Hc|by rewrite andb_false_r in Hc'].
Qed.

Lemma run_redis_some u c :
  run redisURLRegExp u ∅ k_end = Some c →
  ∃ tls user pw h, u = redis_url tls user pw h ∧ url_parts user pw h ∧
    c = <[3 := h]> (if decide (pw = "") then <[1 := if tls then "s" else ""]> ∅
                    else <[2 := pw]> (<[1 := if tls then "s" else ""]> ∅)).
Proof.
  intros H. apply (run_Lit_some "redis" u ∅ (λ s' c', run (Grp 1 (Opt (Chr (is_char "s")))) s' c'
    (λ s' c', run (Lit "://") s' c' after_scheme))) in H as (u1 & -> & H).
  set (K := λ s' c', run (Lit "://") s' c' after_scheme).
  assert (HK : ∀ s' c', K s' c' = Some c → ∃ user pw h, s' = ("://" +:+ user +:+ ":" +:+ pw +:+ String "@" h)%string ∧
    url_parts user pw h ∧ c = <[3 := h]> (if decide (pw = "") then c' else <[2 := pw]> c')).
  { intros s' c' (s2 & -> & H2)%run_Lit_some. apply after_scheme_some in H2 as (user & pw & h & -> & ? & ? & ? & ? & ->).
    by exists user, pw, h. }
  assert (H' : run (Grp 1 (Opt (Chr (is_char "s")))) u1 ∅ K = Some c) by exact H. clear H. cbn [run] in H'.
  assert (Hskip : K u1 (<[1 := consumed u1 u1]> ∅) = Some c → ∃ tls user pw h,
    ("redis" +:+ u1)%string = redis_url tls user pw h ∧ url_parts user pw h ∧
    c = <[3 := h]> (if decide (pw = "") then <[1 := if tls then "s" else ""]> ∅
                    else <[2 := pw]> (<[1 := if tls then "s" else ""]> ∅))).
  { intros H. rewrite (consumed_app "" u1 : consumed u1 u1 = "") in H. apply HK in H as (user & pw & h & -> & Hp & Hc). by exists false, user, pw, h. }
  destruct u1 as [|a u1]; [by apply Hskip|]. unfold is_char in H'. case_bool_decide; [subst a|by apply Hskip].
  destruct (K u1 _) as [x|] eqn:E; [|by apply Hskip]. injection H' as ->.
  rewrite (consumed_app "s" u1 : consumed (String "s" u1) u1 = "s") in E.
  apply HK in E as (user & pw & h & -> & Hp & Hc). by exists true, user, pw, h.
Qed.

Lemma parseRedisURL_match u :
  (∃ tls user pw h, u = redis_url tls user pw h ∧ url_parts user pw h ∧ parseRedisURL u = Ok (tls, pw, h)) ∨
  ((∃ e, parseRedisURL u = Err e) ∧ run redisURLRegExp u ∅ k_end = None).
Proof.
  unfold parseRedisURL, FindStringSubmatch. destruct (run redisURLRegExp u ∅ k_end) as [c|] eqn:E; [left|right; eauto].
  apply run_redis_some in E as (tls & user & pw & h & -> & Hp & ->). exists tls, user, pw, h. split_and!; [done..|].
  simpl. rewrite lookup_insert_eq, !lookup_insert_ne by done. simpl. destruct (decide (pw = "")) as [->|Hne].
  - rewrite lookup_insert_eq, lookup_insert_ne by done. simpl. by destruct tls.
  - rewrite lookup_insert_eq, lookup_insert_ne, lookup_insert_eq by done. simpl. by destruct tls.
Qed.

Lemma matches_Lit l : matches (Lit l) l.
Proof.
  induction l as [|a l IH]; [constructor|]. apply (matches_seq _ _ (String a "") l); [|done].
  constructor. by apply bool_decide_eq_true.
Qed.

Lemma matches_Plus p s : s ≠ "" → str_all p s = true → matches (Plus p) s.
Proof.
  intros Hne H. destruct s as [|a s]; [done|]. simpl in H. apply andb_prop in H as [Ha Hs].
  apply (matches_seq _ _ (String a "") s); by constructor.
Qed.

(** A URL with its parts matches. *)
Lemma run_redis_none tls user pw h :
  url_parts user pw h → run redisURLRegExp (redis_url tls user pw h) ∅ k_end ≠ None.
Proof.
  intros (Hu & Hpw & _ & Hh) H.
  assert (Hk : caps_free (A:=caps) k_end) by (intros x c c'; by case_decide).
  rewrite run_none in H by done. specialize (H (redis_url tls user pw h) "").
  rewrite decide_True in H by done. enough (Hm : matches redisURLRegExp (redis_url tls user pw h)).
  { by specialize (H ltac:(by rewrite str_app_nil_r) Hm). }
  destruct Hh as (H1 & H2 & _). apply matches_seq; [apply matches_Lit|].
  apply matches_seq; [apply matches_grp; destruct tls; [apply matches_opt_some|apply matches_opt_none]; by constructor|].
  apply matches_seq; [apply matches_Lit|]. apply matches_seq; [by constructor|].
  apply (matches_seq _ _ ":"); [by constructor|]. apply matches_seq.
  - destruct (decide (pw = "")) as [->|Hne]; [constructor|]. by apply matches_opt_some, matches_grp, matches_Plus.
  - apply (matches_seq _ _ "@" h); [by constructor|]. by apply matches_grp, matches_Plus.
Qed.

Lemma parseRedisURL_iff u tls pw h :
  parseRedisURL u = Ok (tls, pw, h) ↔ ∃ user, u = redis_url tls user pw h ∧ url_parts user pw h.
Proof.
  destruct (parseRedisURL_match u) as [(tls' & user' & pw' & h' & Hu & Hp & ->)|[[e ->] Hnone]].
  - split; [intros [= -> -> ->]; eauto|]. intros (user & Hu2 & Hp2). rewrite Hu in Hu2. unfold redis_url in Hu2.
    apply str_app_inj_l in Hu2.
    assert (tls' = tls) as -> by (by destruct tls, tls'). apply str_app_inj_l, str_app_inj_l in Hu2.
    destruct (url_parts_unique _ _ _ _ _ _ Hp Hp2 Hu2) as [-> ->]. done.
  - split; [done|]. intros (user & -> & Hp). by apply run_redis_none in Hnone.
Qed.

(** C39: what parseRedisURL makes of a URL, against a direct description of it: the
    result is [tls], [pw] and [h] exactly if the URL is redis:// or rediss://, a
    user name, a colon, [pw], an at sign and [h], where the user name and [pw] have
    no newline, [pw] has no colon, and [h] is not empty, has no white space and no
    at sign before its last character. *)
Theorem parseRedisURL_spec u tls pw h :
  parseRedisURL u = Ok (tls, pw, h) ↔ ∃ user, u = redis_url tls user pw h ∧ url_parts user pw h.
Proof. apply parseRedisURL_iff. Qed.

(** A password with a colon in it is cut: of [p1:p2] parseRedisURL keeps [p2],
    without an error. *)
Theorem password_cut_at_colon tls user p1 p2 h :
  url_parts (user +:+ ":" +:+ p1) p2 h →
  parseRedisURL (redis_url tls user (p1 +:+ ":" +:+ p2) h) = Ok (tls, p2, h).
Proof.
  intros Hp. apply parseRedisURL_iff. eexists. split; [|exact Hp]. unfold redis_url. by rewrite !str_app_assoc.
Qed.

(** ** PEM data *)

(** A newline written as a backslash and an n, as in an environment variable. *)
Fixpoint escape_newlines (pem : string) : string :=
  match pem with
  | String c rest =>
      if decide (c = "010"%char) then String "\" (String "n" (escape_newlines rest))
      else String c (escape_newlines rest)
  | EmptyString => EmptyString
  end.

Definition no_backslash : string → bool := str_all (λ c, negb (is_char "\" c)).

Lemma cleanPEM_cons c rest :
  c ≠ "\"%char → cleanPEMNewLines (String c rest) = String c (cleanPEMNewLines rest).
Proof. intros H. destruct c as [[] [] [] [] [] [] [] []]; try done. Qed.

(** PEM data survives the environment: with newlines written as backslash-n,
    or left as they are, cleanPEMNewLines restores text without backslashes. *)
Theorem cleanPEMNewLines_restores pem :
  no_backslash pem = true →
  cleanPEMNewLines (escape_newlines pem) = pem ∧ cleanPEMNewLines pem = pem.
Proof.
  unfold no_backslash. induction pem as [|c pem IH]; [done|]. cbn [str_all]. intros [Hc Hp]%andb_prop.
  destruct (IH Hp) as [E1 E2]. apply negb_true_iff, bool_decide_eq_false in Hc.
  rewrite cleanPEM_cons, E2 by done. split; [|done]. cbn [escape_newlines]. case_decide.
  - subst c. cbn [cleanPEMNewLines]. by rewrite E1.
  - rewrite cleanPEM_cons by done. by rewrite E1.
Qed.

(** ** Instances of the properties *)

Lemma demo_parts : url_parts ("user" +:+ ":" +:+ "pa") "ss" "localhost:6379".
Proof.
  split; [done|]. split; [done|]. split; [done|]. split; [done|]. split; [done|]. intros v w E. apply (f_equal (str_all (λ c, negb (is_char "@" c)))) in E.
  rewrite str_all_app in E. simpl in E. by rewrite andb_false_r in E.
Qed.

Lemma password_cut_at_colon_witness :
  parseRedisURL (redis_url true "user" ("pa" +:+ ":" +:+ "ss") "localhost:6379") = Ok (true, "ss", "localhost:6379").
Proof. exact (password_cut_at_colon true "user" "pa" "ss" "localhost:6379" demo_parts). Defined.

Lemma cleanPEMNewLines_restores_witness :
  cleanPEMNewLines (escape_newlines "BEGIN CERTIFICATE") = "BEGIN CERTIFICATE" ∧
  cleanPEMNewLines "BEGIN CERTIFICATE" = "BEGIN CERTIFICATE".
Proof. exact (cleanPEMNewLines_restores "BEGIN CERTIFICATE" eq_refl). Defined.
