(* ===== verification/Main.v ===== *)
(** * Main: starting the server (main.go)

    [main] checks the environment, builds the options for Redis, and puts the parts
    together.  A call of log.Fatal is the result [Err].  The functions of
    crypto/tls, and the constructors of the Redis broker and database, which only
    load their scripts into the server they are given, are arguments. *)

From S2P Require Import Prelude Text Regexp Model Externals DB MemDB Broker MemBroker Presence Attachments S3Attachments Forwarder Service ServiceProps Forwarding RedisURL.

Import serviceimpl main.

Module server.

(** The environment variables, and the flags; durations are nanoseconds. *)
Record Environ := mkEnviron {
  publicAddr : string; chatNumberDomain : string; httpPort : string; pprofAddr : string;
  redisURL : string; redisPoolSize : string; redisCAPEM : string; redisClientCertPEM : string;
  redisClientKeyPEM : string; awsAccessKeyID : string; awsSecretAccessKey : string;
  awsEndpoint : string; awsRegion : string; awsBucket : string }.

Record Flags := mkFlags {
  checkKeysInterval : Z; lowPreKeysLimit : Z; numPreKeysToRequest : Z; webTimeout : Z }.

Definition defaultFlags : Flags := mkFlags 300000000000 10 10 60000000000.

Section main.
Context {Cert : Type} (AppendCertsFromPEM : string → bool) (X509KeyPair : string → string → result Cert).

Record TLSConfig := mkTLS { RootCAs : string; Certificate : Cert }.

Record RedisOptions := mkRedisOptions {
  Addr : string; Password : string; PoolSize : Z; opTimeout : Z; TLS : option TLSConfig }.

Definition fatal {X} (msg : string) : result X := Err (Untyped msg).
Definition fatalf {X} (msg : string) (err : goerror) : result X :=
  Err (Untyped (msg +:+ ": " +:+ error_text err)%string).

Definition tlsConfig (env : Environ) (useTLS : bool) : result (option TLSConfig) :=
  if negb useTLS then Ok None
  else if decide (redisCAPEM env = "") then fatal "Please specify a REDIS_CA_CERT"
  else if decide (redisClientCertPEM env = "") then fatal "Please specify a REDIS_CLIENT_CERT"
  else if decide (redisClientKeyPEM env = "") then fatal "Please specify a REDIS_CLIENT_KEY"
  else if negb (AppendCertsFromPEM (cleanPEMNewLines (redisCAPEM env)))
  then fatal "Unable to find any certs in REDIS_CA_CERT"
  else
    match X509KeyPair (cleanPEMNewLines (redisClientCertPEM env)) (cleanPEMNewLines (redisClientKeyPEM env)) with
    | Err err => fatalf "Failed to load Redis Client cert and key" err
    | Ok cert => Ok (Some (mkTLS (cleanPEMNewLines (redisCAPEM env)) cert))
    end.

Definition poolSize (env : Environ) : Z :=
  let '(n, err) := atoi (redisPoolSize env) in if err : bool then 100%Z else n.

Definition redisOptions (env : Environ) (flags : Flags) : result RedisOptions :=
  if decide (httpPort env = "") then fatal "Missing PORT environment variable"
  else
    match parseRedisURL (redisURL env) with
    | Err err => fatalf "Failed to parse Redis URL" err
    | Ok (useTLS, redisPassword, redisAddr) =>
        match tlsConfig env useTLS with
        | Err err => Err err
        | Ok cfg => Ok (mkRedisOptions redisAddr redisPassword (poolSize env)
                          (wrap_i64 (webTimeout flags - 500000000)) cfg)
        end
    end.

(** The options of the service; what main leaves out is zero, and there is no
    forwarder. *)
Definition serviceOpts (env : Environ) (flags : Flags) : Opts (P:=staticpresence.repo) :=
  mkOpts (publicAddr env) (chatNumberDomain env) (Some (staticpresence.NewRepository (publicAddr env)))
    0 (checkKeysInterval flags) (lowPreKeysLimit flags) (numPreKeysToRequest flags) 0 0 0 0.

(** The HTTP server, which runs until the process ends. *)
Record httpServer := mkHttpServer { http_Addr : string; ReadTimeout : Z; WriteTimeout : Z }.

Context {ID : Identity} {PR : Proto} {D B C W : Type} {DBI : DB D} {BI : Broker B} {LI : LRU C Publisher} {S3I : S3 W}.
Context (newBroker : RedisOptions → result B) (newDB : RedisOptions → result D).
#[local] Existing Instance s3attachments.s3_Attachments.
#[local] Existing Instance staticpresence.staticpresence_Presence.

Definition main (newPresence : staticpresence.repo) (env : Environ) (flags : Flags) (w : W)
    : result (httpServer * Service * serviceimpl.env (P:=staticpresence.repo) (A:=s3attachments.manager * W) * forwarding.started) :=
  match redisOptions env flags with
  | Err err => Err err
  | Ok redisOpts =>
      match newBroker redisOpts with
      | Err err => fatalf "unable to start redisbroker" err
      | Ok b =>
          match newDB redisOpts with
          | Err err => fatalf "unable to start redisdb" err
          | Ok d =>
              match s3attachments.NewManager (awsAccessKeyID env) (awsSecretAccessKey env) (awsEndpoint env)
                      (awsRegion env) (awsBucket env) 86400000000000 100000000 w with
              | (_, Err err) => fatalf "unable to start s3 attachments manager" err
              | (w1, Ok attachmentsManager) =>
                  match forwarding.New (C:=C) newPresence false d b (attachmentsManager, w1) (serviceOpts env flags) with
                  | Err err => fatalf "unable to create service" err
                  | Ok (srvc, e, st) =>
                      Ok (mkHttpServer (":" +:+ httpPort env) (webTimeout flags) (webTimeout flags), srvc, e, st)
                  end
              end
          end
      end
  end.

End main.
End server.

Import server.

Section main_facts.
Context {Cert : Type} (AppendCertsFromPEM : string → bool) (X509KeyPair : string → string → result Cert).
#[local] Abbreviation redisOptions := (redisOptions AppendCertsFromPEM X509KeyPair).
#[local] Abbreviation tlsConfig := (tlsConfig AppendCertsFromPEM X509KeyPair).

Lemma tlsConfig_ok env useTLS cfg :
  tlsConfig env useTLS = Ok cfg →
  match cfg with
  | None => useTLS = false
  | Some c => useTLS = true ∧ RootCAs c = cleanPEMNewLines (redisCAPEM env) ∧ AppendCertsFromPEM (RootCAs c) = true ∧
      X509KeyPair (cleanPEMNewLines (redisClientCertPEM env)) (cleanPEMNewLines (redisClientKeyPEM env)) = Ok (Certificate c)
  end.
Proof.
  unfold server.tlsConfig. destruct useTLS; simpl; [|by intros [= <-]]. repeat (case_decide; [done|]).
  destruct (AppendCertsFromPEM _) eqn:E; [|done]. simpl. destruct (X509KeyPair _ _) eqn:E2; [|done]. by intros [= <-].
Qed.

(** The connection to Redis.  When main builds options, they have the password
    and the address that REDIS_URL names, and they use TLS, with the certificates
    the environment gives, exactly if the URL says rediss. *)
Theorem redis_options_follow_url env flags o :
  redisOptions env flags = Ok o →
  httpPort env ≠ "" ∧
  ∃ tls user, redisURL env = redis_url tls user (Password o) (Addr o) ∧ url_parts user (Password o) (Addr o) ∧
    match TLS o with
    | None => tls = false
    | Some c => tls = true ∧ RootCAs c = cleanPEMNewLines (redisCAPEM env) ∧ AppendCertsFromPEM (RootCAs c) = true ∧
        X509KeyPair (cleanPEMNewLines (redisClientCertPEM env)) (cleanPEMNewLines (redisClientKeyPEM env)) =
          Ok (Certificate c)
    end.
Proof.
  unfold server.redisOptions. case_decide; [done|]. destruct (parseRedisURL (redisURL env)) as [[[tls pw] h]|] eqn:Ep; [|done].
  destruct (tlsConfig env tls) as [cfg|] eqn:Et; [|done]. intros [= <-]. simpl. split; [done|].
  apply parseRedisURL_iff in Ep as (user & -> & Hp). exists tls, user. split_and!; [done..|]. by apply tlsConfig_ok in Et.
Qed.
End main_facts.

Section started.
Context {Cert : Type} (AppendCertsFromPEM : string → bool) (X509KeyPair : string → string → result Cert).
Context {ID : Identity} {PR : Proto} {D B C W : Type} {DBI : DB D} {BI : Broker B} {LI : LRU C Publisher} {S3I : S3 W}.
Context (newBroker : RedisOptions (Cert:=Cert) → result B) (newDB : RedisOptions (Cert:=Cert) → result D).
#[local] Existing Instance s3attachments.s3_Attachments.
#[local] Existing Instance staticpresence.staticpresence_Presence.

Lemma main_ok newPresence env flags w h srvc e started :
  main AppendCertsFromPEM X509KeyPair (C:=C) newBroker newDB newPresence env flags w = Ok (h, srvc, e, started) →
  server.publicAddr env ≠ "" ∧ serviceimpl.publicAddr srvc = to_lower (server.publicAddr env) ∧
  presenceRepo e = staticpresence.NewRepository (server.publicAddr env) ∧ started = forwarding.mkStarted None None.
Proof.
  unfold main. destruct (redisOptions _ _ _ _); [|done]. destruct (newBroker _); [|done]. destruct (newDB _); [|done].
  destruct (s3attachments.NewManager _ _ _ _ _ _ _ _) as [w1 [am|]]; [|done].
  unfold forwarding.New. cbn [serviceOpts ApplyDefaults Opts_PublicAddr negb Opts_PresenceRepo default].
  case_decide; [done|]. destruct (lru_New _) as [c|]; [|done]. simpl. intros [= <- <- <- <-]. done.
Qed.

(** The server that main starts delivers everything itself.  It has a public
    address and runs no forwarding workers and no user transfers; and a message for
    any device is published on the device's own topic, whatever the case in which
    PUBLIC_ADDR is written. *)
Theorem main_delivers_locally newPresence env flags w h srvc e started :
  main AppendCertsFromPEM X509KeyPair (C:=C) newBroker newDB newPresence env flags w = Ok (h, srvc, e, started) →
  server.publicAddr env ≠ "" ∧ started = forwarding.mkStarted None None ∧
  ∀ msg (s : st (D:=D) (B:=B) (C:=C) (A:=s3attachments.manager * W)) o a,
    presenceRepo (en s) = presenceRepo e →
    GetOutboundMessage msg = Some o → OutboundMessage_To o = Some a →
    sendOutboundMessage srvc msg s =
      publishOutbound msg (topicFor (Address_IdentityKey a) (Address_DeviceId a))
        (OutboundMessage_UnidentifiedSenderMessage o) s.
Proof.
  intros H. apply main_ok in H as (Ha & Hs & Hp & ->). split_and!; [done..|].
  intros msg [[] ?] o a Hpres Hm Hto. simpl in Hpres. subst. unfold sendOutboundMessage. rewrite Hm. simpl. rewrite Hto. simpl.
  rewrite Hs, decide_True by (by rewrite Hp). by rewrite Hp.
Qed.
End started.

(** ** Instances of the properties *)

Section witnesses.
#[local] Existing Instance toy_identity.
#[local] Existing Instance bit_proto.
#[local] Existing Instance toy_prototext.
#[local] Existing Instance canonical_range.
#[local] Existing Instance memdb.memdb_DB.
#[local] Existing Instance membroker.membroker_Broker.
#[local] Existing Instance counting_S3.
#[local] Instance demo_LRU : LRU (lru_list string) (@Publisher membroker.membroker _) := list_LRU string.

Definition demo_env : Environ :=
  mkEnviron "Tassis.example" "example" "8080" "" "redis://:secret@localhost:6379" "" "" "" "" "id" "key" "s3" "" "files".

(** A key pair that is always accepted. *)
Definition any_pair (cert key : string) : result unit := Ok tt.

Lemma redis_options_follow_url_witness :
  ∃ o, redisOptions (λ _, true) any_pair demo_env defaultFlags = Ok o ∧ Password o = "secret" ∧
    ∃ tls user, redisURL demo_env = redis_url tls user (Password o) (Addr o).
Proof.
  eexists. split; [reflexivity|]. split; [reflexivity|].
  destruct (redis_options_follow_url (λ _, true) any_pair demo_env defaultFlags _ eq_refl) as (_ & tls & user & H & _).
  by exists tls, user.
Defined.

Lemma main_delivers_locally_witness :
  ∃ h srvc e started,
    main (λ _, true) any_pair (λ _, Ok membroker.New) (λ _, Ok memdb.New) (staticpresence.NewRepository "")
      demo_env defaultFlags 0%Z = Ok (h, srvc, e, started) ∧ started = forwarding.mkStarted None None.
Proof.
  do 4 eexists. split; [reflexivity|].
  exact (proj1 (proj2 (main_delivers_locally (λ _, true) any_pair (λ _, Ok membroker.New) (λ _, Ok memdb.New)
    (staticpresence.NewRepository "") demo_env defaultFlags 0%Z _ _ _ _ eq_refl))).
Defined.
End witnesses.
