(* ===== verification/WebScenario.v ===== *)
(** * WebScenario: the websocket theorems applied to a concrete connection

    A codec for two kinds of messages: requests to unregister, which a client sends,
    and the challenge, which the server sends first; and a run of a client and a
    handler in which one of each gets across. *)

From S2P Require Import Prelude Model Externals Service Web WebClient Scenario.

#[local] Existing Instance bit_proto.

(** ** A codec *)

Definition message_code (m : Message) : option (Z + Z * string) :=
  match Message_Payload m with
  | Some Message_Unregister => Some (inl (Message_Sequence m))
  | Some (Message_AuthChallenge c) => Some (inr (Message_Sequence m, AuthChallenge_Nonce c))
  | _ => None
  end.

Definition message_of (c : Z + Z * string) : Message :=
  match c with
  | inl q => mkMessage q (Some Message_Unregister)
  | inr (q, nonce) => mkMessage q (Some (Message_AuthChallenge (mkAuthChallenge nonce)))
  end.

#[local] Instance demo_proto : MessageProto := {|
  Marshal_Message := λ m, match message_code m with
                          | Some c => Ok (bits_of (encode c))
                          | None => Err (Untyped "proto: not supported")
                          end;
  Unmarshal_Message := decode_result message_of;
|}.

#[local] Instance demo_proto_laws : MessageProtoLaws.
Proof.
  refine {| wire_form := λ m, m |}. intros m b. simpl. destruct (message_code m) as [c|] eqn:E; [|done].
  intros [= <-]. rewrite decode_result_encode. f_equal. unfold message_code in E. destruct m as [q [p|]]; [|done]. destruct p; simplify_eq/=; try done.
  by match goal with x : AuthChallenge |- _ => destruct x end.
Defined.

Definition unregister_frame : string := bits_of (encode (inl 1%Z : Z + Z * string)).

Lemma unregister_frame_spec :
  unregister_frame ≠ web.forceClose ∧
  Unmarshal_Message unregister_frame = Ok (mkMessage 1 (Some model.Message_Unregister)).
Proof. split; [vm_compute; done|]. exact (decode_result_encode message_of (inl 1%Z)). Qed.

(** ** Runs *)

(** The first message of every connection, and a request. *)
Definition challenge : Message :=
  (model.Build (model.mkMessageBuilder 0) (Message_AuthChallenge (mkAuthChallenge nonce))).2.
Definition request : Message := mkMessage 1 (Some Message_Unregister).

Definition challenge_frame : string := bits_of (encode (inr (Message_Sequence challenge, nonce) : Z + Z * string)).

Lemma challenge_frame_spec : Marshal_Message challenge = Ok challenge_frame ∧ Unmarshal_Message challenge_frame = Ok challenge.
Proof. split; [done|]. exact (decode_result_encode message_of (inr (Message_Sequence challenge, nonce))). Qed.

(** The handler with a challenge on the channel, taken, written; and with a request
    read and accepted. *)
Definition w1 := web.mkHandler web.Reading web.Selecting [challenge] false false [] [] [] [challenge] [].
Definition w2 := web.mkHandler web.Reading (web.Writing challenge_frame) [] false false [] [] [] [challenge] [challenge].
Definition w3 := web.mkHandler web.Reading web.Selecting [] false false [] [challenge_frame] [] [challenge] [challenge].
Definition w4 := web.mkHandler (web.Handing request) web.Selecting [] false false [unregister_frame] [challenge_frame] [] [challenge] [challenge].
Definition w5 := web.mkHandler web.Reading web.Selecting [] false false [unregister_frame] [challenge_frame] [request] [challenge] [challenge].

Lemma w1_step : web.step web.WInternal web.serving w1.
Proof. apply (web.s_service challenge web.serving). simpl. unfold serviceimpl.inCapacity. lia. Qed.

Lemma w2_step : web.step web.WInternal w1 w2.
Proof.
  pose proof (web.s_take challenge [] w1 eq_refl eq_refl) as H. unfold web.onMessage in H.
  by rewrite (proj1 challenge_frame_spec) in H.
Qed.

Lemma w3_step : web.step (web.WWrite challenge_frame) w2 w3.
Proof. by apply (web.s_write challenge_frame w2). Qed.

Lemma w4_step : web.step (web.WRead unregister_frame) w3 w4.
Proof.
  pose proof (web.s_read unregister_frame w3 eq_refl) as H. unfold web.onFrame in H.
  rewrite decide_False, decide_False, (proj2 unregister_frame_spec) in H by apply unregister_frame_spec. exact H.
Qed.

Lemma w5_step : web.step web.WInternal w4 w5.
Proof. by apply (web.s_hand request w4). Qed.

Lemma w5_reached : rtc web.any_step web.serving w5.
Proof.
  eapply rtc_l; [by eexists; apply w1_step|]. eapply rtc_l; [by eexists; apply w2_step|].
  eapply rtc_l; [by eexists; apply w3_step|]. eapply rtc_l; [by eexists; apply w4_step|].
  apply rtc_once. by eexists; apply w5_step.
Qed.

(** One frame was written and one read: the message taken is the frame written, and
    the frame read the message accepted. *)
Lemma websocket_ordered_witness :
  omap web.decode [unregister_frame] = [request] ∧ web.sent w5 = [challenge] ++ [] ∧
  ∃ lost, omap web.encode [challenge] = [challenge_frame] ++ lost ∧ lost = [].
Proof.
  destruct (websocket_ordered w5 w5_reached) as (H1 & H2 & _ & (lost & H3 & H4 & _) & _).
  split; [exact H1|]. split; [exact H2|]. exists lost. split; [exact H3|by apply H4].
Defined.

Lemma handler_can_return_witness : ∃ w', rtc web.any_step w5 w' ∧ web.returned w' = true.
Proof. apply (handler_can_return w5 w5_reached); done. Defined.

Definition one_connection := web.mkServer [web.serving] 1.

Lemma ActiveConnections_counts_witness :
  web.ActiveConnections one_connection = Z.of_nat (active (web.handlers one_connection)).
Proof.
  apply ActiveConnections_counts; [|unfold two63; simpl; lia].
  apply rtc_once. exact (web.serve_connect web.NewHandler).
Defined.

(** ** The client *)

Definition waiting (closed : bool) : webclient.websocketClient :=
  webclient.mkClient 10 [] [challenge; challenge] closed false webclient.CTaking webclient.CReading [] [] [] [] [].

Lemma Drain_counts_witness :
  ∃ c', webclient.Drain 3 0 (waiting false) = Some (c', 2%Z) ∧ webclient.in_ c' = [].
Proof.
  destruct (Drain_counts (waiting false) ltac:(done) eq_refl) as (c' & H1 & H2 & _); [unfold two63; simpl; lia|]. by exists c'.
Defined.

Lemma Drain_closed_diverges_witness : webclient.Drain 1000 0 (waiting true) = None.
Proof. exact (Drain_closed_diverges (waiting true) 1000 0 eq_refl). Defined.

(** The client without buffers: it sends the request, writes it, reads the challenge
    and receives it. *)
Definition client wr rd sent taken written frames received : webclient.websocketClient :=
  webclient.mkClient 0 [] [] false false wr rd sent taken written frames received.

Definition client0 := client webclient.CTaking webclient.CReading [] [] [] [] [].
Definition client1 := client (webclient.CWriting unregister_frame) webclient.CReading [request] [request] [] [] [].
Definition client2 := client webclient.CTaking webclient.CReading [request] [request] [unregister_frame] [] [].
Definition client3 := client webclient.CTaking (webclient.CHanding challenge) [request] [request] [unregister_frame] [challenge_frame] [].
Definition client4 := client webclient.CTaking webclient.CReading [request] [request] [unregister_frame] [challenge_frame] [challenge].

Lemma client3_step : webclient.cstep (webclient.CRead challenge_frame) client2 client3.
Proof.
  pose proof (webclient.cl_read challenge_frame client2 eq_refl) as H. unfold webclient.read in H.
  by rewrite (proj2 challenge_frame_spec) in H.
Qed.

Lemma pipe_reached : rtc pstep (mkPipe client0 web.serving [] []) (mkPipe client4 w5 [] []).
Proof.
  eapply rtc_l; [apply (p_server web.WInternal w1 (mkPipe client0 web.serving [] [])); [by left|apply w1_step]|].
  eapply rtc_l; [apply (p_server web.WInternal w2 (mkPipe client0 w1 [] [])); [by left|apply w2_step]|].
  eapply rtc_l; [apply (p_server_write challenge_frame w3 (mkPipe client0 w2 [] [])), w3_step|].
  eapply rtc_l; [by apply (p_client client1 (mkPipe client0 w3 [] [challenge_frame])), (webclient.cl_send request)|].
  eapply rtc_l; [by apply (p_client_write unregister_frame client2 (mkPipe client1 w3 [] [challenge_frame])),
    (webclient.cl_write unregister_frame client1)|].
  eapply rtc_l; [apply (p_server_read unregister_frame [] w4 (mkPipe client2 w3 [unregister_frame] [challenge_frame]));
    [done|apply w4_step]|].
  eapply rtc_l; [apply (p_server web.WInternal w5 (mkPipe client2 w4 [] [challenge_frame])); [by left|apply w5_step]|].
  eapply rtc_l; [apply (p_client_read challenge_frame [] client3 (mkPipe client2 w5 [] [challenge_frame])); [done|apply client3_step]|].
  apply rtc_once. by apply (p_client client4 (mkPipe client3 w5 [] [])), (webclient.cl_receive client3 client4 (Some challenge)).
Qed.

(** The request was accepted and the challenge received. *)
Lemma websocket_end_to_end_witness :
  [request] `sublist_of` (wire_form <$> [request]) ∧ [challenge] `sublist_of` (wire_form <$> [challenge]).
Proof. exact (websocket_end_to_end 0 client0 (mkPipe client4 w5 [] []) eq_refl pipe_reached). Defined.
