(* ===== verification/TassisScenario.v ===== *)
(** * TassisScenario: the theorems of TassisProps.v on a conversation

    A server that [New] starts with the in-memory parts.  Alice logs in and
    registers, Bob sends her a message, which is delivered and acknowledged. *)

From S2P Require Import Prelude Model Externals DB MemDB Broker MemBroker Presence Attachments Forwarder Service ServiceProps Connection Forwarding Scenario Tassis TassisExec TassisSteps TassisInv TassisProps.
Import serviceimpl forwarder forwarding tassis.
#[local] Existing Instance toy_identity.
#[local] Existing Instance bit_proto.
#[local] Existing Instance toy_prototext.
#[local] Existing Instance canonical_range.
#[local] Existing Instance memdb.memdb_DB.
#[local] Existing Instance memdb.memdb_laws.
#[local] Existing Instance membroker.membroker_Broker.
#[local] Existing Instance mempresence.mempresence_Presence.
#[local] Existing Instance testsupport.noop_Attachments.
#[local] Existing Instance toy_identity_laws.
#[local] Existing Instance bit_proto_laws.
#[local] Instance cache_LRU : LRU (lru_list string) (@Publisher membroker.membroker _) := list_LRU string.
#[local] Instance cache_laws : @LRULaws (lru_list string) (@Publisher membroker.membroker _) cache_LRU := @list_LRU_laws string.

Definition demo_new : result (Service * world * started) :=
  New mempresence.NewRepository true memdb.New membroker.New (testsupport.NewNoopAttachmentsManager 0) opts0.

Definition demo : Service * world * started :=
  match demo_new with Ok x => x | Err _ => (srvc, e0, mkStarted None None) end.

Lemma demo_started : demo_new = Ok demo.
Proof.
  assert (H : match demo_new with Ok _ => true | Err _ => false end = true) by (vm_compute; reflexivity).
  unfold demo. by destruct demo_new.
Qed.

Definition demo_boot := boot (Conn:=string) demo.1.2 tt.

Definition demo_moves : list (move (P:=mempresence.repo) (N:=unit)) :=
  [MConnect 0 nonce; MOut 0 login_msg; MOut 0 register_msg; MConnect 1 "another nonce"; MOut 1 hello_msg;
   MIn 0 0; MReceive 0; MOut 0 ack_msg].

Definition demo_result := exec_all demo_dial demo.1.1 demo.2 demo_moves demo_boot.
Definition demo_trace := match demo_result with Some (tr, _) => tr | None => [] end.
Definition demo_end := match demo_result with Some (_, w) => w | None => demo_boot end.

Lemma server_demo_run : run demo_dial demo.1.1 demo.2 demo_boot demo_trace demo_end.
Proof.
  assert (H : match demo_result with Some _ => true | None => false end = true) by (vm_compute; reflexivity).
  apply (exec_all_sound _ _ _ demo_moves). fold demo_result. unfold demo_trace, demo_end.
  by destruct demo_result as [[tr w]|].
Qed.

(** What became of Bob's message. *)
Example demo_log :
  log demo_trace = [Accepted (topic_of alice_phone) (Some "sealed hello");
                    Delivered 0 (topic_of alice_phone) (Some "sealed hello");
                    Acked 0 (topic_of alice_phone) (Some "sealed hello")].
Proof. vm_compute. reflexivity. Qed.

Lemma demo_wire : from_wire (log demo_trace).
Proof. rewrite demo_log. intros t x. rewrite !elem_of_cons, elem_of_nil. naive_solver. Qed.

Lemma server_refines_connections_witness :
  match clients demo_end !! 0 with
  | Some (c, k) => projects demo.1.1 0 demo_trace (conn_of demo_end c k)
  | None => False
  end.
Proof.
  assert (H : match clients demo_end !! 0 with Some _ => true | None => false end = true) by (vm_compute; reflexivity).
  destruct (clients demo_end !! 0) as [[c k]|] eqn:E; [|discriminate H]. clear H.
  exact (server_refines_connections demo_dial demo.1.1 demo.2 demo.1.2 tt demo_trace demo_end 0 c k server_demo_run E).
Defined.

(** The sixth step is the delivery. *)
Definition delivers (x : option (label (BI:=membroker.membroker_Broker) * list entry)) : bool :=
  match x with
  | Some (LClient 0 (EvIn (Some data) _), _) => bool_decide (data = "sealed hello")
  | _ => false
  end.

Lemma delivers_inv x :
  delivers x = true → ∃ acker es, x = Some (LClient 0 (EvIn (Some "sealed hello") acker), es).
Proof.
  intros H. destruct x as [[[| [|i] [| | |[data|] acker| | | | |] | | | | | |] es]|]; simpl in H; try discriminate H.
  apply bool_decide_eq_true in H as ->. eauto.
Qed.


Lemma accepted_messages_kept_witness :
  all_justified demo_trace ∧ n_accepted (log demo_trace) (topic_of alice_phone) (Some "sealed hello") = 1 ∧
  1 <= held (broker (shared demo_end)) (topic_of alice_phone) (Some "sealed hello") +
       n_settled (log demo_trace) (topic_of alice_phone) (Some "sealed hello").
Proof.
  assert (E : n_accepted (log demo_trace) (topic_of alice_phone) (Some "sealed hello") = 1) by (vm_compute; reflexivity).
  destruct (accepted_messages_kept demo_dial mempresence.NewRepository true memdb.New membroker.New
    (testsupport.NewNoopAttachmentsManager 0) opts0 demo.1.1 demo.1.2 demo.2 tt demo_trace demo_end) as [Hj Hk].
  - rewrite <- !surjective_pairing. exact demo_started.
  - apply New_room. assert (L : length demo_trace = 8) by (vm_compute; reflexivity). rewrite L. done.
  - exact New_no_transit.
  - exact server_demo_run.
  - exact demo_wire.
  - split; [exact Hj|]. split; [exact E|]. rewrite <- E at 1. apply Hk.
Defined.

(** ** A device that comes back during its transfer *)

(** Alice's device is found at another host and its transfer begins; before it ends
    she registers here again. *)
Definition elsewhere_repo : mempresence.repo :=
  (presence_Announce (Some alice_phone) "up" mempresence.NewRepository).1.

Definition return_moves : list (move (P:=mempresence.repo) (N:=unit)) :=
  [MConnect 0 nonce; MOut 0 login_msg; MOut 0 register_msg; MOthers tt elsewhere_repo;
   MTransfer; MTransfer; MOut 0 register_msg; MTransfer; MTransfer].

Definition return_result := exec_all demo_dial demo.1.1 demo.2 return_moves demo_boot.

(** The last message to Alice, where her device is announced, and whether it is
    registered. *)
Definition return_view : option (option (option isMessage_Payload) * option string * bool) :=
  match return_result with
  | None => None
  | Some (_, w) =>
      match clients w !! 0 with
      | None => None
      | Some (c, _) =>
          Some (Message_Payload <$> last (in_ c),
                match (presence_Find (Some alice_phone) (presenceRepo (shared w))).2 with
                | Ok h => Some h | Err _ => None end,
                bool_decide (is_Some (DBSpec.devices (reg_view (db (shared w))) !! (PublicKey_String alice, "phone"))))
      end
  end.

(** Transfers and registrations race.  A run of the server in which a device
    registers here, with an acknowledgement, while its messages are being transferred
    to another host: the transfer ends by unregistering it, so the device is announced
    at this host and registered nowhere. *)
Theorem transfer_unregisters_returned_device :
  return_view = Some (Some (Some Message_Ack), Some "tassis.example", false).
Proof. vm_compute. reflexivity. Qed.
