(* ===== verification/InterleavingScenario.v ===== *)
(** * InterleavingScenario: the theorems of InterleavingProps.v on a conversation

    The steps of Interleaving.v as a function of who moves, and a run in which the
    handlers of two senders alternate call by call, and Alice is given the message of
    the first before its sender is told that it was accepted. *)

From S2P Require Import Prelude Model Externals DB MemDB Broker MemBroker Presence Attachments Forwarder Service ServiceProps Connection Forwarding Scenario Tassis TassisExec TassisSteps TassisInv TassisProps TassisScenario Goroutines Interleaving Calls Channels InterleavingInv InterleavingSafe InterleavingProps InterleavingAccess InterleavingTransfer.
Import serviceimpl forwarder forwarding tassis goroutines interleaving.

(** ** Running goroutines *)

Section exec.
Context {ID : Identity} {PR : Proto}.
Context {D B P A C : Type} {DBI : DB D} {BI : Broker B} {PI : Presence P}
        {AI : Attachments A} {LI : LRU C Publisher} {BV : BrokerView B}.
Context {N Conn : Type} (dial : string → N → N * result Conn).
Context (srvc : Service) (sta : started (BI:=BI)).
#[local] Abbreviation system := (@system D B P A C BI N Conn).
#[local] Abbreviation result3 := (label (BI:=BI) * list entry * system)%type.
Implicit Types s : system.

(** Who moves: a turn without a program; a connection is opened; a message of a
    client, or of the broker for it, is taken; a check of pre keys starts; a worker
    takes the [j]-th message in hand; a reply is read; the transfer goroutine goes on;
    the [j]-th goroutine does its next call, or ends. *)
Inductive gmove :=
| GTurn (m : move (BI:=BI) (P:=P) (N:=N))
| GConnect (i : nat) (nonce : string)
| GOut (i : nat) (msg : Message)
| GIn (i k : nat)
| GCheck (i : nat)
| GForward (j : nat) (c : clock)
| GReply (c : clock) (msg : Message)
| GTransfer
| GCall (j : nat).

Definition gcall (j : nat) s : option result3 :=
  match running s !! j with
  | None => None
  | Some (mkGo z (Done tt)) =>
      Some (LIdle, [], mkSys (server s) (take j (running s) ++ drop (S j) (running s)) (told s))
  | Some (mkGo z (Call o r k)) =>
      match perform o (server s) with
      | Ret (w', y) =>
          Some (LIdle, r (broker (shared (server s))) (broker (shared w')) y,
                mkSys w' (take j (running s) ++ mkGo z (k y) :: drop (S j) (running s)) (told s ++ tells z o))
      | _ => None
      end
  end.

(** The transfer goroutine is running a program. *)
Definition busy s : bool := existsb (λ g, match doing g with Transferring => true | _ => false end) (running s).

Definition gtransfer s : option result3 :=
  let w := server s in
  if busy s then None else
  match transfer w, round w with
  | Visiting, [] =>
      match transfers sta, db_AllRegisteredDevices (db (shared w)) with
      | Some _, Ret (d, Ok addrs) =>
          Some (LTransfer, [], mkSys (with_transfer (set_db d (shared w)) addrs Visiting w) (running s) (told s))
      | _, _ => None
      end
  | Visiting, addr :: rest =>
      Some (LTransfer, [], spawn Transferring (goroutines.findMoved srvc addr) (with_transfer (shared w) rest Visiting w) s)
  | Moving sub addr, _ =>
      match transfers sta with
      | Some p => Some (LTransfer, [], spawn Transferring (goroutines.transferTurn sub addr p) w s)
      | None => None
      end
  | Leaving addr, _ =>
      match endTransfer addr None (shared w) with
      | Ret e => Some (LTransfer, [], mkSys (with_transfer e (round w) Visiting w) (running s) (told s))
      | _ => None
      end
  end.

Definition gexec (m : gmove) s : option result3 :=
  let w := server s in
  match m with
  | GTurn m =>
      match exec dial srvc sta m w with
      | Some (l, es, w') => if brief l then Some (l, es, mkSys w' (running s) (told s)) else None
      | None => None
      end
  | GConnect i nonce =>
      match clients w !! i with
      | None => Some (LConnect i nonce, [], spawn (Greeting i) (goroutines.sendInitMessages i)
                        (with_client i (start nonce (shared w)) w) s)
      | Some _ => None
      end
  | GOut i msg =>
      match clients w !! i with
      | Some _ => if decide (i ∈ omap owner (doing <$> running s)) then None
                  else Some (LClient i (EvOut msg), [],
                             spawn (Handling i msg) (goroutines.doHandleOutboundMessage srvc i msg) w s)
      | None => None
      end
  | GIn i k =>
      match clients w !! i with
      | Some (c, _) =>
          match subscriptions c !! k with
          | Some sub =>
              match broker_Receive sub (broker (shared w)) with
              | (b, Some (data, acker)) =>
                  Some (LClient i (EvIn data acker), [Delivered i (ack_topic acker) data],
                        spawn (Delivering i) (goroutines.handleInboundMessage i data acker)
                          (with_shared (set_broker b (shared w)) w) s)
              | _ => None
              end
          | None => None
          end
      | None => None
      end
  | GCheck i =>
      match clients w !! i with
      | Some (c, _) => if decide (preKeyChecks c = 0) then None
                       else Some (LClient i EvCheck, [],
                                  spawn (Checking i) (goroutines.warnPreKeysLowIfNecessary srvc i) w s)
      | None => None
      end
  | GForward j cl =>
      match workers sta, inHand w !! j with
      | Some (_, p), Some (data, acker) =>
          Some (LForward data, [], spawn Forwarding (goroutines.forwardMessage dial srvc cl p data acker)
                                     (with_hand (delete j (inHand w)) w) s)
      | _, _ => None
      end
  | GReply cl msg => Some (LReply msg, [], spawn Reading (goroutines.handleReply srvc cl msg) w s)
  | GTransfer => gtransfer s
  | GCall j => gcall j s
  end.

Lemma gcall_sound j s l es s' : gcall j s = Some (l, es, s') → step dial srvc sta l es s s'.
Proof.
  unfold gcall. destruct (running s !! j) as [[z [[]|Y o r k]]|] eqn:Ej; [| |done].
  - intros [= <- <- <-]. apply take_drop_middle in Ej. destruct s as [w rs tl]. simpl in *.
    rewrite <- Ej at 1. apply g_done.
  - destruct (perform o (server s)) as [[w' y]| |] eqn:Ep; try done. intros [= <- <- <-].
    apply take_drop_middle in Ej. destruct s as [w rs tl]. simpl in *. rewrite <- Ej at 1. by apply g_call.
Qed.

Lemma busy_free s : busy s = false → mover_free s.
Proof.
  unfold busy, mover_free. intros H (g & Hg & Hin)%list_elem_of_fmap. apply not_true_iff_false in H. apply H.
  apply existsb_exists. exists g. split; [by apply list_elem_of_In|by rewrite <- Hg].
Qed.

Lemma gtransfer_sound s l es s' : gtransfer s = Some (l, es, s') → step dial srvc sta l es s s'.
Proof.
  unfold gtransfer. destruct (busy s) eqn:Eb; [done|]. apply busy_free in Eb.
  destruct (transfer (server s)) as [|sub addr|addr] eqn:Et; [destruct (round (server s)) as [|addr rest] eqn:Er|..].
  - destruct (transfers sta) as [p|] eqn:Ep; [|done].
    destruct (db_AllRegisteredDevices _) as [[d [addrs|er]]| |] eqn:Ed; try done. intros [= <- <- <-]. by eapply g_round.
  - intros [= <- <- <-]. by apply g_visit.
  - destruct (transfers sta) as [p|] eqn:Ep; [|done]. intros [= <- <- <-]. by eapply g_move.
  - destruct (endTransfer _ _ _) as [e| |] eqn:Ee; try done. intros [= <- <- <-]. by eapply g_leave.
Qed.

Lemma gexec_sound m s l es s' : gexec m s = Some (l, es, s') → step dial srvc sta l es s s'.
Proof.
  destruct m as [m|i nonce|i msg|i k|i|j cl|cl msg| |j]; simpl.
  - destruct (exec dial srvc sta m (server s)) as [[[l1 es1] w1]|] eqn:E; [|done].
    destruct (brief l1) eqn:Eb; [|done]. intros [= <- <- <-]. apply g_turn; [done|by eapply exec_sound].
  - destruct (clients _ !! i) eqn:E; [done|]. intros [= <- <- <-]. by apply g_connect.
  - destruct (clients _ !! i) as [[c n]|] eqn:E; [|done]. case_decide; [done|]. intros [= <- <- <-]. by eapply g_out.
  - destruct (clients _ !! i) as [[c n]|] eqn:E; [|done]. destruct (subscriptions c !! k) as [sub|] eqn:Es; [|done].
    destruct (broker_Receive _ _) as [b [[data acker]|]] eqn:Eb; [|done]. intros [= <- <- <-].
    eapply g_in; [done| |exact Eb]. by eapply list_elem_of_lookup_2.
  - destruct (clients _ !! i) as [[c n]|] eqn:E; [|done]. case_decide; [done|]. intros [= <- <- <-]. by eapply g_check.
  - destruct (workers sta) as [[ws p]|] eqn:Ew; [|done]. destruct (inHand _ !! j) as [[data acker]|] eqn:Ej; [|done].
    intros [= <- <- <-]. by eapply g_forward.
  - intros [= <- <- <-]. apply g_reply.
  - apply gtransfer_sound.
  - apply gcall_sound.
Qed.

Fixpoint gexec_all (ms : list gmove) s : option (list (label (BI:=BI) * list entry) * system) :=
  match ms with
  | [] => Some ([], s)
  | m :: rest =>
      match gexec m s with
      | Some (l, es, s1) =>
          match gexec_all rest s1 with Some (tr, s2) => Some ((l, es) :: tr, s2) | None => None end
      | None => None
      end
  end.

Lemma grun_app s0 tr1 s1 tr2 s2 :
  interleaving.run dial srvc sta s0 tr1 s1 → interleaving.run dial srvc sta s1 tr2 s2 →
  interleaving.run dial srvc sta s0 (tr1 ++ tr2) s2.
Proof.
  intros H1 H2. induction H2 as [s|s tr s' l es s'' H IH Hs]; [by rewrite app_nil_r|].
  rewrite app_assoc. by eapply interleaving.run_snoc; [apply IH|].
Qed.

Lemma gexec_all_sound ms s tr s' : gexec_all ms s = Some (tr, s') → interleaving.run dial srvc sta s tr s'.
Proof.
  revert s tr. induction ms as [|m ms IH]; intros s tr; simpl; [intros [= <- <-]; apply interleaving.run_nil|].
  destruct (gexec m s) as [[[l es] s1]|] eqn:Em; [|done].
  destruct (gexec_all ms s1) as [[tr2 s2]|] eqn:Ea; [|done]. intros [= <- <-].
  apply (grun_app s [(l, es)] s1); [|by apply IH].
  apply (interleaving.run_snoc _ _ _ s [] s); [apply interleaving.run_nil|]. by eapply gexec_sound.
Qed.
End exec.

(** ** The conversation *)

#[local] Existing Instance toy_identity.
#[local] Existing Instance bit_proto.
#[local] Existing Instance toy_prototext.
#[local] Existing Instance canonical_range.
#[local] Existing Instance memdb.memdb_DB.
#[local] Existing Instance memdb.memdb_laws.
#[local] Existing Instance membroker.membroker_Broker.
#[local] Existing Instance mempresence.mempresence_Presence.
#[local] Existing Instance testsupport.noop_Attachments.
#[local] Existing Instance toy_identity_laws.
#[local] Existing Instance bit_proto_laws.
#[local] Instance cache_LRU2 : LRU (lru_list string) (@Publisher membroker.membroker _) := list_LRU string.
#[local] Instance cache_laws2 : @LRULaws (lru_list string) (@Publisher membroker.membroker _) cache_LRU2 := @list_LRU_laws string.

#[local] Abbreviation gmoves := (list (gmove (P:=mempresence.repo) (N:=unit) (BI:=membroker.membroker_Broker))).

(** [n] calls of the [j]-th goroutine. *)
Definition calls (j n : nat) : gmoves := replicate n (GCall j).

Definition alice_acks : Message := mkMessage 3 (Some Message_Ack).

(** Alice (0) connects, logs in and registers; Bob (1) and Carol (2) connect.  The
    handlers of their messages to Alice take turns; when Bob's is published, Alice is
    given it, before Bob is told; Carol's handler publishes her message and does not
    come to telling her.  Alice acknowledges the first. *)
Definition gdemo_moves : gmoves :=
  [GConnect 0 nonce] ++ calls 0 7 ++ [GOut 0 login_msg] ++ calls 0 16 ++ [GOut 0 register_msg] ++ calls 0 8 ++
  [GConnect 1 "Bob's nonce"] ++ calls 0 7 ++ [GConnect 2 "Carol's nonce"] ++ calls 0 7 ++
  [GOut 1 hello_msg; GOut 2 hello_msg] ++ mjoin (replicate 4 [GCall 0; GCall 1]) ++
  calls 0 3 ++ calls 1 1 ++ calls 0 1 ++ [GIn 0 0] ++ calls 2 2 ++ calls 1 1 ++ calls 2 2 ++ calls 0 2 ++
  [GOut 0 alice_acks] ++ calls 1 4.

Definition gdemo_boot := launch (Conn:=string) demo.1.2 tt.
Definition gdemo_result := gexec_all demo_dial demo.1.1 demo.2 gdemo_moves gdemo_boot.
Definition gdemo_trace := match gdemo_result with Some (tr, _) => tr | None => [] end.
Definition gdemo_end := match gdemo_result with Some (_, s) => s | None => gdemo_boot end.

Lemma interleaved_demo_run : interleaving.run demo_dial demo.1.1 demo.2 gdemo_boot gdemo_trace gdemo_end.
Proof.
  assert (H : match gdemo_result with Some _ => true | None => false end = true) by (vm_compute; reflexivity).
  apply (gexec_all_sound _ _ _ gdemo_moves). fold gdemo_result. unfold gdemo_trace, gdemo_end.
  by destruct gdemo_result as [[tr s]|].
Qed.

(** Alice has the message before Bob is told; nobody is told of Carol's. *)
Example interleaved_log :
  log gdemo_trace = [Accepted (topic_of alice_phone) (Some "sealed hello");
                     Delivered 0 (topic_of alice_phone) (Some "sealed hello");
                     Accepted (topic_of alice_phone) (Some "sealed hello");
                     Acked 0 (topic_of alice_phone) (Some "sealed hello")].
Proof. vm_compute. reflexivity. Qed.

Example interleaved_told : told gdemo_end = [(0, register_msg); (1, hello_msg)].
Proof. vm_compute. reflexivity. Qed.

Lemma interleaved_wire : from_wire (log gdemo_trace).
Proof. rewrite interleaved_log. intros t x. rewrite !elem_of_cons, elem_of_nil. naive_solver. Qed.

Lemma interleaved_room : broker_room (length gdemo_trace) membroker.New.
Proof. apply New_room. assert (L : length gdemo_trace = 78) by (vm_compute; reflexivity). rewrite L. done. Qed.

Lemma interleaved_messages_kept_witness :
  all_justified gdemo_trace ∧ n_accepted (log gdemo_trace) (topic_of alice_phone) (Some "sealed hello") = 2 ∧
  2 <= held (broker (shared (server gdemo_end))) (topic_of alice_phone) (Some "sealed hello") +
       n_settled (log gdemo_trace) (topic_of alice_phone) (Some "sealed hello") ∧
  receipt (log gdemo_trace) hello_msg.
Proof.
  assert (E : n_accepted (log gdemo_trace) (topic_of alice_phone) (Some "sealed hello") = 2) by (vm_compute; reflexivity).
  destruct (interleaved_messages_kept demo_dial mempresence.NewRepository true memdb.New membroker.New
    (testsupport.NewNoopAttachmentsManager 0) opts0 demo.1.1 demo.1.2 demo.2 tt gdemo_trace gdemo_end) as (Hj & Hk & Ht).
  - rewrite <- !surjective_pairing. exact demo_started.
  - exact interleaved_room.
  - exact New_no_transit.
  - exact interleaved_demo_run.
  - exact interleaved_wire.
  - split; [exact Hj|]. split; [exact E|]. split; [rewrite <- E at 1; apply Hk|].
    apply (Ht 1). rewrite interleaved_told. right. left.
Defined.

Lemma interleaved_deliveries_due_witness : delivery_due (take 65 gdemo_trace) 0 (Some "sealed hello").
Proof.
  assert (H : delivers (gdemo_trace !! 65) = true) by (vm_compute; reflexivity).
  destruct (delivers_inv _ H) as (acker & es & E).
  apply (interleaved_deliveries_due demo_dial mempresence.NewRepository true memdb.New membroker.New
    (testsupport.NewNoopAttachmentsManager 0) opts0 demo.1.1 demo.1.2 demo.2 tt gdemo_trace gdemo_end (take 65 gdemo_trace) 0
    (Some "sealed hello") acker es (drop 66 gdemo_trace)).
  - rewrite <- !surjective_pairing. exact demo_started.
  - exact interleaved_room.
  - exact New_no_transit.
  - exact interleaved_demo_run.
  - exact interleaved_wire.
  - symmetry. exact (take_drop_middle _ _ _ E).
Defined.

(** Bob's message, handled in one go: the calls of the handler and what they record. *)
Lemma handlers_are_their_calls_witness :
  match clients demo_end !! 1 with
  | Some (c, n) =>
      goroutines.alone (goroutines.doHandleOutboundMessage demo.1.1 1 hello_msg) demo_end =
      (s' ← serviceimpl.doHandleOutboundMessage demo.1.1 hello_msg (mkSt (shared demo_end) c);
       Ret (with_client 1 (mkC s' n) demo_end, client_log 1 (EvOut hello_msg) (mkSt (shared demo_end) c) s', tt))
  | None => False
  end.
Proof.
  assert (H : match clients demo_end !! 1 with Some _ => true | None => false end = true) by (vm_compute; reflexivity).
  destruct (clients demo_end !! 1) as [[c n]|] eqn:E; [|discriminate H]. clear H.
  exact (handlers_are_their_calls demo.1.1 1 c n hello_msg demo_end E).
Defined.

(** Alice's device is registered by a call of the handler of her Register. *)
Definition gdemo_before := gexec_all demo_dial demo.1.1 demo.2 (take 31 gdemo_moves) gdemo_boot.
Definition gdemo_trace31 := match gdemo_before with Some (tr, _) => tr | None => [] end.
Definition gdemo_state31 := match gdemo_before with Some (_, s) => s | None => gdemo_boot end.
Definition gdemo_state32 := match gcall 0 gdemo_state31 with Some (_, _, s) => s | None => gdemo_boot end.

Definition alice_registered (σ : DBSpec.state) : bool :=
  bool_decide (is_Some (DBSpec.devices σ !! (PublicKey_String alice, "phone"))).

Lemma gdemo_run31 : interleaving.run demo_dial demo.1.1 demo.2 gdemo_boot gdemo_trace31 gdemo_state31.
Proof.
  assert (H : match gdemo_before with Some _ => true | None => false end = true) by (vm_compute; reflexivity).
  apply (gexec_all_sound _ _ _ (take 31 gdemo_moves)). fold gdemo_before. unfold gdemo_trace31, gdemo_state31.
  destruct gdemo_before as [[tr s1]|]; [reflexivity|discriminate H].
Qed.

Lemma gdemo_step32 : ∃ l es, interleaving.step demo_dial demo.1.1 demo.2 l es gdemo_state31 gdemo_state32.
Proof.
  assert (H : match gcall 0 gdemo_state31 with Some _ => true | None => false end = true) by (vm_compute; reflexivity).
  unfold gdemo_state32. destruct (gcall 0 gdemo_state31) as [[[l es] s]|] eqn:E; [|discriminate H].
  exists l, es. exact (gcall_sound _ _ _ _ _ _ _ _ E).
Qed.

Lemma interleaved_registry_access_witness :
  alice_registered (reg_view (db (shared (server gdemo_state31)))) = false ∧
  alice_registered (reg_view (db (shared (server gdemo_state32)))) = true ∧
  registry_guarded gdemo_trace31 gdemo_state31
    (reg_view (db (shared (server gdemo_state31)))) (reg_view (db (shared (server gdemo_state32)))).
Proof.
  split; [vm_compute; reflexivity|]. split; [vm_compute; reflexivity|].
  destruct gdemo_step32 as (l & es & H).
  apply (interleaved_registry_access demo_dial demo.1.1 demo.2 demo.1.2 tt gdemo_trace31 gdemo_state31 l es gdemo_state32).
  - assert (Hd : db demo.1.2 = memdb.New) by (vm_compute; reflexivity). rewrite Hd. exact memdb.New_wf.
  - exact gdemo_run31.
  - exact H.
Defined.

(** *** A device that moved

    Alice logs in and registers, is announced at another host, and the transfer
    goroutine finds this, moves her messages (there are none) and unregisters her. *)
Definition moved_moves : gmoves :=
  [GConnect 0 nonce] ++ calls 0 7 ++ [GOut 0 login_msg] ++ calls 0 16 ++ [GOut 0 register_msg] ++ calls 0 8 ++
  [GTurn (MOthers tt elsewhere_repo); GTransfer; GTransfer] ++ calls 0 4 ++ [GTransfer] ++ calls 0 4.

Definition moved_before := gexec_all demo_dial demo.1.1 demo.2 moved_moves gdemo_boot.
Definition moved_trace := match moved_before with Some (tr, _) => tr | None => [] end.
Definition moved_state := match moved_before with Some (_, s) => s | None => gdemo_boot end.
Definition moved_after := match gtransfer demo.1.1 demo.2 moved_state with Some (_, _, s) => s | None => gdemo_boot end.

Lemma moved_run : interleaving.run demo_dial demo.1.1 demo.2 gdemo_boot moved_trace moved_state.
Proof.
  assert (H : match moved_before with Some _ => true | None => false end = true) by (vm_compute; reflexivity).
  apply (gexec_all_sound _ _ _ moved_moves). fold moved_before. unfold moved_trace, moved_state.
  destruct moved_before as [[tr s1]|]; [reflexivity|discriminate H].
Qed.

Lemma moved_step : ∃ l es, interleaving.step demo_dial demo.1.1 demo.2 l es moved_state moved_after.
Proof.
  assert (H : match gtransfer demo.1.1 demo.2 moved_state with Some _ => true | None => false end = true) by (vm_compute; reflexivity).
  unfold moved_after. destruct (gtransfer demo.1.1 demo.2 moved_state) as [[[l es] s]|] eqn:E; [|discriminate H].
  exists l, es. exact (gtransfer_sound _ _ _ _ _ _ _ E).
Qed.

Lemma removed_by_owner_or_moved_witness :
  (∃ i msg, Handling i msg ∈ doing <$> running moved_state ∧ needs_auth msg ∧
     owns_device moved_trace i (PublicKey_String alice) "phone") ∨
  (∃ addr, PublicKey_String (Address_IdentityKey addr) = PublicKey_String alice ∧ Address_DeviceId addr = "phone" ∧
     was_away demo_dial demo.1.1 demo.2 (launch demo.1.2 tt) moved_trace moved_state addr).
Proof.
  destruct moved_step as (l & es & H).
  apply (removed_by_owner_or_moved demo_dial demo.1.1 demo.2 demo.1.2 tt moved_trace moved_state l es moved_after
    (PublicKey_String alice) "phone" alice_keys).
  - assert (Hd : db demo.1.2 = memdb.New) by (vm_compute; reflexivity). rewrite Hd. exact memdb.New_wf.
  - exact moved_run.
  - exact H.
  - vm_compute. reflexivity.
  - vm_compute. reflexivity.
Defined.

(** *** A client that does not read

    Alice connects and asks eight times for what needs a login: with the two initial
    messages there are ten on the channel, and the handler of the ninth request waits
    to send its answer.  The connection is closed. *)
Definition refused_msg : Message := mkMessage 1 (Some Message_Unregister).

Definition unread_moves : gmoves :=
  [GConnect 0 nonce] ++ calls 0 7 ++ mjoin (replicate 8 ([GOut 0 refused_msg] ++ calls 0 3)) ++ [GOut 0 refused_msg] ++ calls 0 1.

Definition unread_before := gexec_all demo_dial demo.1.1 demo.2 unread_moves gdemo_boot.
Definition unread_trace := match unread_before with Some (tr, _) => tr | None => [] end.
Definition unread_state := match unread_before with Some (_, s) => s | None => gdemo_boot end.
Definition unread_close := gexec_all demo_dial demo.1.1 demo.2 [GTurn (MClose 0)] unread_state.
Definition unread_trace' := match unread_close with Some (tr, _) => tr | None => [] end.
Definition unread_closed := match unread_close with Some (_, s) => s | None => gdemo_boot end.

Definition not_received (x : label (BI:=membroker.membroker_Broker) * list entry) : bool :=
  match x.1 with LClient _ (EvReceive _) => false | _ => true end.

Lemma untaken_trace (tr : list (label (BI:=membroker.membroker_Broker) * list entry)) :
  forallb not_received tr = true → ∀ x i, x ∈ tr → channels.takes i x.1 = false.
Proof.
  rewrite forallb_forall. intros H x i Hx. apply list_elem_of_In, H in Hx. destruct x as [l es]. unfold not_received in Hx.
  destruct l as [| ? ev | | | | | |]; try reflexivity. by destruct ev.
Qed.

Lemma unread_run : channels.run demo_dial demo.1.1 demo.2 gdemo_boot unread_trace unread_state.
Proof.
  assert (H : match unread_before with Some _ => true | None => false end = true) by (vm_compute; reflexivity).
  assert (Hr : interleaving.run demo_dial demo.1.1 demo.2 gdemo_boot unread_trace unread_state).
  { apply (gexec_all_sound _ _ _ unread_moves). fold unread_before. unfold unread_trace, unread_state.
    destruct unread_before as [[tr s1]|]; [reflexivity|discriminate H]. }
  apply untaken_brun; [exact Hr|..].
  - apply untaken_trace. vm_compute. reflexivity.
  - apply (bool_decide_unpack _). vm_compute. exact I.
Qed.

Lemma unread_close_run : channels.run demo_dial demo.1.1 demo.2 unread_state unread_trace' unread_closed.
Proof.
  assert (H : match gexec demo_dial demo.1.1 demo.2 (GTurn (MClose 0)) unread_state with Some _ => true | None => false end = true)
    by (vm_compute; reflexivity).
  assert (Hb : channels.bounded unread_closed) by (apply (bool_decide_unpack _); vm_compute; exact I).
  revert Hb. unfold unread_closed, unread_trace', unread_close, gexec_all.
  destruct (gexec demo_dial demo.1.1 demo.2 (GTurn (MClose 0)) unread_state) as [[[l es] s]|] eqn:E; [|discriminate H].
  intros Hb. apply (channels.run_snoc _ _ _ unread_state [] unread_state l es s); [apply channels.run_nil|].
  split; [|exact Hb]. exact (gexec_sound _ _ _ _ _ _ _ _ E).
Qed.

(** The first goroutine waits to send to connection 0. *)
Definition waits_for_0 (o : option (goroutine (D:=memdb.memdb) (P:=mempresence.repo) (A:=testsupport.noopAttachmentsManager) (C:=lru_list string)
    (N:=unit) (Conn:=string) (BI:=membroker.membroker_Broker))) : bool :=
  match o with
  | Some g => match channels.sending (body g), doing g with Some (0, _), Handling 0 _ => true | _, _ => false end
  | None => false
  end.

Lemma waits_for_0_inv o : waits_for_0 o = true → ∃ g msg msg0,
  o = Some g ∧ channels.sending (body g) = Some (0, msg) ∧ doing g = Handling 0 msg0.
Proof.
  unfold waits_for_0. destruct o as [g|]; [|done]. destruct (channels.sending (body g)) as [[[|?] msg]|] eqn:E; try done.
  destruct (doing g) as [[|?] msg0| | | | | |] eqn:E'; try done. intros _. by exists g, msg, msg0.
Qed.

Lemma full_channel_blocks_witness :
  ∃ g msg0, g ∈ running unread_closed ∧ doing g = Handling 0 msg0 ∧ channels.full 0 unread_closed ∧
    ∀ msg' es, (LClient 0 (EvOut msg'), es) ∉ unread_trace'.
Proof.
  assert (H : waits_for_0 (running unread_state !! 0) = true) by (vm_compute; reflexivity).
  destruct (waits_for_0_inv _ H) as (g & msg & msg0 & Eg & Es & Ed).
  assert (Hfull : match clients (server unread_state) !! 0 with Some (c, _) => bool_decide (length (in_ c) = inCapacity) | None => false end = true)
    by (vm_compute; reflexivity).
  destruct (full_channel_blocks demo_dial demo.1.1 demo.2 demo.1.2 tt unread_trace unread_state unread_trace' unread_closed 0 msg g) as (H1 & H2 & H3).
  - exact unread_run.
  - exact (list_elem_of_lookup_2 _ _ _ Eg).
  - exact Es.
  - unfold channels.full. destruct (clients (server unread_state) !! 0) as [[c n]|]; [|discriminate Hfull].
    exists c, n. split; [reflexivity|]. exact (bool_decide_eq_true_1 _ Hfull).
  - exact unread_close_run.
  - intros x Hx. exact (untaken_trace unread_trace' ltac:(vm_compute; reflexivity) x 0 Hx).
  - exists g, msg0. split; [exact H1|]. split; [exact Ed|]. split; [exact H2|]. exact (H3 msg0 Ed).
Defined.
