(* ===== verification/FederationScenario.v ===== *)
(** * FederationScenario: a message from one server to another

    The system of Federation.v as a function of the goroutine that moves, and a
    conversation: Alice logs in and registers at the second server, Bob sends her a
    message through the first one, which forwards it. *)

From S2P Require Import Prelude Model Externals DB MemDB Broker MemBroker Presence Attachments Forwarder Service ServiceProps Connection Forwarding Scenario Tassis TassisExec TassisSteps TassisInv Federation.
Import serviceimpl forwarder forwarding tassis.

(** ** Running two servers *)

Section fexec.
Context {ID : Identity} {PR : Proto}.
Context {D B P A C : Type} {DBI : DB D} {BI : Broker B} {PI : Presence P}
        {AI : Attachments A} {LI : LRU C Publisher}.
Context {BL : BrokerLaws B} {LL : LRULaws C Publisher}.
Context {N N' Conn' : Type} (dial : string → N → N * result nat) (dial' : string → N' → N' * result Conn').
Context (srvc srvc' : Service) (sta sta' : started (BI:=BI)).
#[local] Abbreviation fed := (@fed D B P A C BI N N' Conn').
#[local] Abbreviation trace := (list (label (BI:=BI) * list entry)).
Implicit Types f : fed.

(** A server does something of its own; the [j]-th message in hand is handled, with
    the nonce of a connection that may be dialled; the [k]-th message on the wire is
    handled; a reply is read. *)
Inductive fmove :=
| FHome (m : move (BI:=BI) (P:=P) (N:=N))
| FAway (m : move (BI:=BI) (P:=P) (N:=N'))
| FWork (j : nat) (c : clock) (nonce : string)
| FHandle (k : nat)
| FReply (i : nat) (c : clock).

Definition fresult : Type := trace * trace * fed.

Definition fexec_work (j : nat) (c : clock) (nonce : string) f : option fresult :=
  match workers sta, inHand (home f) !! j with
  | Some (_, p), Some (data, acker) =>
      match forwardMessage dial srvc c p data acker (fstate_of (home f)) with
      | Ret r =>
          let es := forward_log srvc c data (broker (shared (home f))) (broker (fe (r_state r))) in
          let w := with_forwarder (r_state r) (with_hand (delete j (inHand (home f))) (home f)) in
          let tr := [(LForward data, es)] in
          match r_sent r with
          | None => Some (tr, [], mkFed w (away f) (wire f) (links f))
          | Some (Sending i false msg) => Some (tr, [], mkFed w (away f) (wire f ++ [(i, msg)]) (links f))
          | Some (Sending i true msg) =>
              match clients (away f) !! i with
              | None => Some (tr, [(LConnect i nonce, [])],
                  mkFed w (with_client i (start nonce (shared (away f))) (away f)) (wire f ++ [(i, msg)]) (i :: links f))
              | Some _ => None
              end
          | Some (Finished _ _) => None
          end
      | _ => None
      end
  | _, _ => None
  end.

Definition fexec_handle (k : nat) f : option fresult :=
  match wire f !! k with
  | Some (i, msg) =>
      match clients (away f) !! i with
      | Some (c, n) =>
          let s := mkSt (shared (away f)) c in
          match doHandleOutboundMessage srvc' msg s with
          | Ret s' => Some ([], [(LClient i (EvOut msg), client_log i (EvOut msg) s s')],
              mkFed (home f) (with_client i (mkC s' n) (away f)) (take k (wire f) ++ drop (S k) (wire f)) (links f))
          | _ => None
          end
      | None => None
      end
  | None => None
  end.

Definition fexec_reply (i : nat) (cl : clock) f : option fresult :=
  match clients (away f) !! i with
  | Some (c, n) =>
      match Receive (mkSt (shared (away f)) c) with
      | Ret (s', msg) =>
          match handleReply srvc cl msg (fstate_of (home f)) with
          | Ret s => Some ([(LReply msg, reply_log srvc cl msg (fwd (home f)) (broker (shared (home f))) (broker (fe s)))],
              [(LClient i (EvReceive msg), [])],
              mkFed (with_forwarder s (home f)) (with_client i (mkC s' n) (away f)) (wire f) (links f))
          | _ => None
          end
      | _ => None
      end
  | None => None
  end.

Definition fexec (m : fmove) f : option fresult :=
  match m with
  | FHome m =>
      match exec dial srvc sta m (home f) with
      | Some (l, es, w) => if local l then Some ([(l, es)], [], mkFed w (away f) (wire f) (links f)) else None
      | None => None
      end
  | FAway m =>
      match exec dial' srvc' sta' m (away f) with
      | Some (l, es, w) =>
          if foreign (links f) l then Some ([], [(l, es)], mkFed (home f) w (wire f) (links f)) else None
      | None => None
      end
  | FWork j c nonce => fexec_work j c nonce f
  | FHandle k => fexec_handle k f
  | FReply i c => if decide (i ∈ links f) then fexec_reply i c f else None
  end.

Fixpoint fexec_all (ms : list fmove) (tr tr' : trace) f : option fresult :=
  match ms with
  | [] => Some (tr, tr', f)
  | m :: rest =>
      match fexec m f with
      | Some (ta, tb, f1) => fexec_all rest (tr ++ ta) (tr' ++ tb) f1
      | None => None
      end
  end.

Lemma fexec_work_sound j c nonce f ta tb f1 :
  fexec_work j c nonce f = Some (ta, tb, f1) → fstep dial dial' srvc srvc' sta sta' ta tb f f1.
Proof.
  unfold fexec_work. destruct (workers sta) as [[ws p]|] eqn:Ew; [|done].
  destruct (inHand (home f) !! j) as [[data acker]|] eqn:Ej; [|done].
  destruct (forwardMessage _ _ _ _ _ _ _) as [r| |] eqn:Ef; try done.
  assert (Hw : works dial srvc sta data
    (forward_log srvc c data (broker (shared (home f))) (broker (fe (r_state r)))) r (home f)
    (with_forwarder (r_state r) (with_hand (delete j (inHand (home f))) (home f)))).
  { exists ws, p, j, acker, c. by split_and!. }
  destruct (r_sent r) as [[|i [|] msg]|] eqn:Er; try done.
  - destruct (clients (away f) !! i) eqn:Ei; [done|]. intros [= <- <- <-]. by eapply f_dial.
  - intros [= <- <- <-]. by eapply f_send.
  - intros [= <- <- <-]. by eapply f_work.
Qed.

Lemma fexec_sound m f ta tb f1 :
  fexec m f = Some (ta, tb, f1) → fstep dial dial' srvc srvc' sta sta' ta tb f f1.
Proof.
  destruct m as [m|m|j c nonce|k|i cl]; simpl.
  - destruct (exec _ _ _ _ _) as [[[l es] w]|] eqn:E; [|done]. destruct (local l) eqn:El; [|done].
    intros [= <- <- <-]. apply exec_sound in E. by eapply f_home.
  - destruct (exec _ _ _ _ _) as [[[l es] w]|] eqn:E; [|done]. destruct (foreign _ l) eqn:El; [|done].
    intros [= <- <- <-]. apply exec_sound in E. by eapply f_away.
  - apply fexec_work_sound.
  - unfold fexec_handle. destruct (wire f !! k) as [[i msg]|] eqn:Ek; [|done].
    destruct (clients (away f) !! i) as [[c n]|] eqn:Ec; [|done].
    destruct (doHandleOutboundMessage _ _ _) as [s'| |] eqn:Eh; try done. intros [= <- <- <-].
    eapply f_handle; [symmetry; exact (take_drop_middle _ _ _ Ek)|].
    by refine (s_client dial' srvc' sta' i c n (EvOut msg) (mkC s' n) (away f) Ec _ (step_out _ _ _ _ _ Eh)).
  - case_decide as Hi; [|done]. unfold fexec_reply. destruct (clients (away f) !! i) as [[c n]|] eqn:Ec; [|done].
    destruct (Receive _) as [[s' msg]| |] eqn:Er; try done.
    destruct (handleReply _ _ _ _) as [s| |] eqn:Eh; try done. intros [= <- <- <-].
    eapply f_reply; [done|by apply s_reply|].
    by refine (s_client dial' srvc' sta' i c n (EvReceive msg) (mkC s' n) (away f) Ec _ (step_receive _ _ _ _ _ Er)).
Qed.

Lemma fexec_all_sound ms f0 tr tr' f tr1 tr1' f1 :
  frun dial dial' srvc srvc' sta sta' f0 tr tr' f → fexec_all ms tr tr' f = Some (tr1, tr1', f1) →
  frun dial dial' srvc srvc' sta sta' f0 tr1 tr1' f1.
Proof.
  revert tr tr' f. induction ms as [|m ms IH]; intros tr tr' f Hr; simpl; [by intros [= <- <- <-]|].
  destruct (fexec m f) as [[[ta tb] f2]|] eqn:E; [|done]. apply fexec_sound in E. apply IH. by eapply frun_snoc.
Qed.
End fexec.

(** ** The conversation *)

#[local] Existing Instance toy_identity.
#[local] Existing Instance bit_proto.
#[local] Existing Instance toy_prototext.
#[local] Existing Instance canonical_range.
#[local] Existing Instance memdb.memdb_DB.
#[local] Existing Instance memdb.memdb_laws.
#[local] Existing Instance membroker.membroker_Broker.
#[local] Existing Instance mempresence.mempresence_Presence.
#[local] Existing Instance testsupport.noop_Attachments.
#[local] Existing Instance toy_identity_laws.
#[local] Existing Instance bit_proto_laws.
#[local] Instance fed_LRU : LRU (lru_list string) (@Publisher membroker.membroker _) := list_LRU string.
#[local] Instance fed_LRU_laws : @LRULaws (lru_list string) (@Publisher membroker.membroker _) fed_LRU := @list_LRU_laws string.

Definition new_at (addr : string) : result (Service * world * started) :=
  New mempresence.NewRepository true memdb.New membroker.New (testsupport.NewNoopAttachmentsManager 0)
    (mkOpts addr "example" None 0 0 0 0 0 0 0 60).

Definition server_at (addr : string) : Service * world * started :=
  match new_at addr with Ok x => x | Err _ => (srvc, e0, mkStarted None None) end.

Definition bobs : Service * world * started := server_at "bobs.example".
Definition alices : Service * world * started := server_at "alices.example".

Lemma bobs_started : new_at "bobs.example" = Ok bobs.
Proof.
  assert (H : match new_at "bobs.example" with Ok _ => true | Err _ => false end = true) by (vm_compute; reflexivity).
  unfold bobs, server_at. by destruct (new_at "bobs.example").
Qed.

Lemma alices_started : new_at "alices.example" = Ok alices.
Proof.
  assert (H : match new_at "alices.example" with Ok _ => true | Err _ => false end = true) by (vm_compute; reflexivity).
  unfold alices, server_at. by destruct (new_at "alices.example").
Qed.

(** The only host that can be reached; the connection dialled is number 7 there. *)
Definition fed_dial (host : string) (n : unit) : unit * result nat :=
  if decide (host = "alices.example") then (n, Ok 7) else (n, Err (Untyped "no such host")).
Definition no_dial (host : string) (n : unit) : unit * result nat := (n, Err (Untyped "no network")).

Definition fed_clock : clock := mkClock 1000000000 1000000000 1000000000.
Definition alice_elsewhere : mempresence.repo :=
  (presence_Announce (Some alice_phone) "alices.example" mempresence.NewRepository).1.

Definition fed_moves : list (fmove (BI:=membroker.membroker_Broker) (P:=mempresence.repo) (N:=unit) (N':=unit)) :=
  [FAway (MConnect 0 nonce); FAway (MOut 0 login_msg); FAway (MOut 0 register_msg);
   FHome (MOthers tt alice_elsewhere); FHome (MConnect 1 "another nonce"); FHome (MOut 1 hello_msg);
   FHome (MTake 0); FWork 0 fed_clock "nonce of the forwarder"; FHandle 0; FReply 7 fed_clock;
   FAway (MIn 0 0); FAway (MReceive 0); FAway (MReceive 0); FAway (MReceive 0); FAway (MOut 0 ack_msg)].

Definition fed0 := federate (Conn':=nat) (boot bobs.1.2 tt) (boot alices.1.2 tt).

Definition fed_result :=
  fexec_all fed_dial no_dial bobs.1.1 alices.1.1 bobs.2 alices.2 fed_moves [] [] fed0.

Definition fed_home_trace := match fed_result with Some (tr, _, _) => tr | None => [] end.
Definition fed_away_trace := match fed_result with Some (_, tr, _) => tr | None => [] end.
Definition fed_end := match fed_result with Some (_, _, f) => f | None => fed0 end.

Lemma fed_run : frun fed_dial no_dial bobs.1.1 alices.1.1 bobs.2 alices.2 fed0 fed_home_trace fed_away_trace fed_end.
Proof.
  assert (H : match fed_result with Some _ => true | None => false end = true) by (vm_compute; reflexivity).
  eapply (fexec_all_sound _ _ _ _ _ _ fed_moves _ [] [] fed0); [apply frun_nil|]. fold fed_result.
  unfold fed_home_trace, fed_away_trace, fed_end. by destruct fed_result as [[[tr tr'] f]|].
Qed.

(** Bob's server accepts the message and relays it; Alice's accepts and delivers it. *)
Example fed_logs :
  log fed_home_trace = [Accepted (topic_of alice_phone) (Some "sealed hello");
                        Relayed (topic_of alice_phone) (Some "sealed hello")] ∧
  log fed_away_trace = [Accepted (topic_of alice_phone) (Some "sealed hello");
                        Delivered 0 (topic_of alice_phone) (Some "sealed hello");
                        Acked 0 (topic_of alice_phone) (Some "sealed hello")].
Proof. vm_compute. split; reflexivity. Qed.

Lemma fed_home_wire : from_wire (log fed_home_trace).
Proof. rewrite (proj1 fed_logs). intros t x. rewrite !elem_of_cons, elem_of_nil. naive_solver. Qed.

Lemma fed_away_wire : from_wire (log fed_away_trace).
Proof. rewrite (proj2 fed_logs). intros t x. rewrite !elem_of_cons, elem_of_nil. naive_solver. Qed.

Lemma fed_fresh addr k :
  (Z.of_nat k < 100)%Z → new_at addr = Ok (server_at addr) →
  fresh_server k (server_at addr).1.1 (server_at addr).1.2 (server_at addr).2.
Proof.
  intros Hk HN. exists mempresence.NewRepository, true, memdb.New, membroker.New,
    (testsupport.NewNoopAttachmentsManager 0), (mkOpts addr "example" None 0 0 0 0 0 0 0 60).
  split_and!; [rewrite <- !surjective_pairing; exact HN|apply New_room|exact New_no_transit].
  unfold two63. lia.
Qed.

Lemma federated_messages_kept_witness :
  n_relayed (log fed_home_trace) (topic_of alice_phone) (Some "sealed hello") = 1 ∧
  1 <= n_accepted (log fed_away_trace) (topic_of alice_phone) (Some "sealed hello").
Proof.
  assert (E : n_relayed (log fed_home_trace) (topic_of alice_phone) (Some "sealed hello") = 1) by (vm_compute; reflexivity).
  split; [exact E|]. rewrite <- E at 1.
  assert (L : length fed_home_trace = 6) by (vm_compute; reflexivity).
  assert (L' : length fed_away_trace = 11) by (vm_compute; reflexivity).
  destruct (federated_messages_kept fed_dial no_dial bobs.1.1 alices.1.1 bobs.2 alices.2 bobs.1.2 tt alices.1.2 tt
    fed_home_trace fed_away_trace fed_end alice_phone (Some "sealed hello")) as [H _].
  - apply fed_fresh; [rewrite L; done|exact bobs_started].
  - apply fed_fresh; [rewrite L'; done|exact alices_started].
  - rewrite L. done.
  - exact fed_run.
  - exact fed_home_wire.
  - exact fed_away_wire.
  - exact H.
Defined.

(** ** Replies from other hosts *)

(** The moves up to the sending of Bob's message, then an Ack with its number that
    some other host, also connected, sends: replies are looked up by their number
    alone. *)
Definition forged_view : option (list entry * list entry * nat * nat) :=
  match fexec_all fed_dial no_dial bobs.1.1 alices.1.1 bobs.2 alices.2 (take 8 fed_moves) [] [] fed0 with
  | Some (_, tr', f) =>
      match exec fed_dial bobs.1.1 bobs.2 (MReply fed_clock (mkMessage 1 (Some Message_Ack))) (home f) with
      | Some (_, es, w) =>
          Some (es, log tr', length (wire f), held (broker (shared w)) (topic_of alice_phone) (Some "sealed hello"))
      | None => None
      end
  | None => None
  end.

(** A host can settle messages that were sent to another one.  The forwarder reads an
    Ack with the number of a message that is still on its way to Alice's server, from
    whatever connection: the message counts as relayed and is no longer stored, though
    Alice's server has accepted nothing. *)
Theorem foreign_reply_settles :
  forged_view = Some ([Relayed (topic_of alice_phone) (Some "sealed hello")], [], 1, 0).
Proof. vm_compute. reflexivity. Qed.
