(* ===== verification/Telemetry.v ===== *)
(** * Telemetry: traces and metrics (telemetry/telemetry.go)

    [Start] sets up the OpenTelemetry library for one of two services, depending on
    the environment, and returns a function that shuts everything down.  The library
    is the class [OpenTelemetry]: exporters, tracer providers, metrics controllers and
    launchers are handles, and [live] says which of them run.  The function that
    [Start] returns is the function itself. *)

From S2P Require Import Prelude Model.

(** A client of a collector: its endpoint and the headers of its requests. *)
Record collector := mkCollector { endpoint : string; headers : gmap string string }.

Class OpenTelemetry (W K : Type) : Type := {
  ConfigureOpentelemetry : string → string → W → W * K;
  launcher_Shutdown : K → W → W;
  otlptrace_New : collector → W → W * result K;
  otlptrace_Shutdown : K → W → W;
  NewTracerProvider : K → Z → list (string * string) → W → W * K;
  TracerProvider_Shutdown : K → W → W;
  SetTracerProvider : K → W → W;
  otlpmetric_New : collector → W → W * result K;
  otlpmetric_Shutdown : K → W → W;
  controller_New : K → list (string * string) → W → W * K;
  controller_Start : K → W → W * option goerror;
  controller_Stop : K → W → W;
  runtimeMetrics_Start : K → W → W * option goerror;
  hostMetrics_Start : K → W → W * option goerror;
  SetMeterProvider : K → W → W }.

Module telemetry.
Section telemetry.
Context {W K : Type} {OT : OpenTelemetry W K}.

(** [func() {}] *)
Definition nothing : W → W := λ w, w.

(** One trace in [sampleRatio] is sampled. *)
Definition sampleRatio : Z := 8000.

Definition initHoneycombTracing (honeycombKey : string) (w : W) : W * (W → W) :=
  let client := mkCollector "api.honeycomb.io:443" {["x-honeycomb-team" := honeycombKey]} in
  match otlptrace_New client w with
  | (w1, Err _) => (w1, nothing)
  | (w1, Ok exporter) =>
      let '(w2, tp) := NewTracerProvider exporter sampleRatio
                         [("service.name", "tassis"); ("SampleRate", "8000")] w1 in
      (SetTracerProvider tp w2,
       λ w, otlptrace_Shutdown exporter (TracerProvider_Shutdown tp w))
  end.

Definition initHoneycombMetrics (honeycombKey : string) (w : W) : W * (W → W) :=
  let client := mkCollector "api.honeycomb.io:443"
                  {["x-honeycomb-team" := honeycombKey; "x-honeycomb-dataset" := "tassis"]} in
  match otlpmetric_New client w with
  | (w1, Err _) => (w1, nothing)
  | (w1, Ok exporter) =>
      let '(w2, c) := controller_New exporter [("service.name", "tassis")] w1 in
      match controller_Start c w2 with
      | (w3, Some _) => (w3, nothing)
      | (w3, None) =>
          match runtimeMetrics_Start c w3 with
          | (w4, Some _) => (w4, nothing)
          | (w4, None) =>
              match hostMetrics_Start c w4 with
              | (w5, Some _) => (w5, nothing)
              | (w5, None) =>
                  (SetMeterProvider c w5, λ w, otlpmetric_Shutdown exporter (controller_Stop c w))
              end
          end
      end
  end.

(** The keys are the values of LIGHTSTEP_KEY and HONEYCOMB_KEY. *)
Definition Start (lightstepKey honeycombKey : string) (w : W) : W * (W → W) :=
  if decide (lightstepKey ≠ "") then
    let '(w', ls) := ConfigureOpentelemetry "tassis" lightstepKey w in (w', launcher_Shutdown ls)
  else if decide (honeycombKey ≠ "") then
    let '(w1, shutdownTracing) := initHoneycombTracing honeycombKey w in
    let '(w2, shutdownMetrics) := initHoneycombMetrics honeycombKey w1 in
    (w2, λ w, shutdownMetrics (shutdownTracing w))
  else (w, nothing).

End telemetry.
End telemetry.
Import telemetry.

(** ** What the library promises *)

(** What runs in the background: exporters from [New] on, providers, launchers, and
    controllers once they are started.  A tracer provider shuts its exporter down
    too ([exporterOf]); a controller does not. *)
Class OpenTelemetryLaws (W K : Type) `{Countable K} {OT : OpenTelemetry W K} : Type := {
  live : W → gset K;
  exporterOf : K → K;
  Configure_law : ∀ n t w w' k, ConfigureOpentelemetry n t w = (w', k) → k ∉ live w ∧ live w' = {[k]} ∪ live w;
  launcher_Shutdown_law : ∀ k w, live (launcher_Shutdown k w) = live w ∖ {[k]};
  otlptrace_New_law : ∀ c w w' r, otlptrace_New c w = (w', r) →
    match r with Ok k => k ∉ live w ∧ live w' = {[k]} ∪ live w | Err _ => live w' = live w end;
  otlptrace_Shutdown_law : ∀ k w, live (otlptrace_Shutdown k w) = live w ∖ {[k]};
  NewTracerProvider_law : ∀ e n a w w' k, NewTracerProvider e n a w = (w', k) →
    k ∉ live w ∧ live w' = {[k]} ∪ live w ∧ exporterOf k = e;
  TracerProvider_Shutdown_law : ∀ k w, live (TracerProvider_Shutdown k w) = live w ∖ {[k; exporterOf k]};
  SetTracerProvider_law : ∀ k w, live (SetTracerProvider k w) = live w;
  otlpmetric_New_law : ∀ c w w' r, otlpmetric_New c w = (w', r) →
    match r with Ok k => k ∉ live w ∧ live w' = {[k]} ∪ live w | Err _ => live w' = live w end;
  otlpmetric_Shutdown_law : ∀ k w, live (otlpmetric_Shutdown k w) = live w ∖ {[k]};
  controller_New_law : ∀ e a w w' k, controller_New e a w = (w', k) → k ∉ live w ∧ live w' = live w;
  controller_Start_law : ∀ k w w' err, controller_Start k w = (w', err) →
    live w' = match err with None => {[k]} ∪ live w | Some _ => live w end;
  controller_Stop_law : ∀ k w, live (controller_Stop k w) = live w ∖ {[k]};
  runtimeMetrics_Start_law : ∀ k w w' err, runtimeMetrics_Start k w = (w', err) → live w' = live w;
  hostMetrics_Start_law : ∀ k w w' err, hostMetrics_Start k w = (w', err) → live w' = live w;
  SetMeterProvider_law : ∀ k w, live (SetMeterProvider k w) = live w }.

(** ** What is left running *)

Section props.
Context {W K : Type} `{Countable K} {OT : OpenTelemetry W K} {OL : OpenTelemetryLaws W K}.
Implicit Types (w : W) (stop : W → W).

(** From then on the library reports no failure. *)
Definition metrics_start : Prop :=
  ∀ c w, (controller_Start c w).2 = None ∧ (runtimeMetrics_Start c w).2 = None ∧ (hostMetrics_Start c w).2 = None.

(** A stop function that undoes what was started since, whatever else runs then. *)
Definition undoes w w' stop : Prop :=
  ∃ X, X ## live w ∧ live w' = X ∪ live w ∧ ∀ u, live (stop u) = live u ∖ X.

Lemma undoes_nothing w w' : live w' = live w → undoes w w' nothing.
Proof. intros E. exists ∅. split_and!; [set_solver..|]. intros u. unfold nothing. set_solver. Qed.

Lemma undoes_end w w' stop : undoes w w' stop → live (stop w') = live w.
Proof. intros (X & Hd & E & Hs). rewrite Hs, E. set_solver. Qed.

Lemma tracing_undone k w w' stop : initHoneycombTracing k w = (w', stop) → undoes w w' stop.
Proof.
  unfold initHoneycombTracing. destruct (otlptrace_New _ _) as [w1 [e|]] eqn:E1; apply otlptrace_New_law in E1.
  - destruct E1 as [He E1]. destruct (NewTracerProvider _ _ _ _) as [w2 tp] eqn:E2.
    apply NewTracerProvider_law in E2 as (Ht & E2 & Ee). intros [= <- <-]. exists {[tp; e]}. split_and!.
    + clear -He Ht E1. set_solver.
    + rewrite SetTracerProvider_law, E2, E1. apply (assoc_L (∪)).
    + intros u. rewrite otlptrace_Shutdown_law, TracerProvider_Shutdown_law, Ee. clear. set_solver.
  - intros [= <- <-]. by apply undoes_nothing.
Qed.

Lemma metrics_undone k w w' stop :
  metrics_start → initHoneycombMetrics k w = (w', stop) → undoes w w' stop.
Proof.
  intros Hok. unfold initHoneycombMetrics. destruct (otlpmetric_New _ _) as [w1 [e|]] eqn:E1; apply otlpmetric_New_law in E1.
  2:{ intros [= <- <-]. by apply undoes_nothing. }
  destruct E1 as [He E1]. destruct (controller_New _ _ _) as [w2 c] eqn:E2. apply controller_New_law in E2 as [Hc E2].
  destruct (controller_Start c w2) as [w3 err3] eqn:E3. destruct (Hok c w2) as [H3 _]. rewrite E3 in H3. simpl in H3. subst err3.
  destruct (runtimeMetrics_Start c w3) as [w4 err4] eqn:E4. destruct (Hok c w3) as (_ & H4 & _). rewrite E4 in H4. simpl in H4. subst err4.
  destruct (hostMetrics_Start c w4) as [w5 err5] eqn:E5. destruct (Hok c w4) as (_ & _ & H5). rewrite E5 in H5. simpl in H5. subst err5.
  apply controller_Start_law in E3. apply runtimeMetrics_Start_law in E4. apply hostMetrics_Start_law in E5.
  intros [= <- <-]. exists {[c; e]}. split_and!.
  - clear -He Hc E1 E2. set_solver.
  - rewrite SetMeterProvider_law, E5, E4, E3, E2, E1. apply (assoc_L (∪)).
  - intros u. rewrite otlpmetric_Shutdown_law, controller_Stop_law. clear. set_solver.
Qed.

Lemma undoes_trans w w1 w2 stop1 stop2 :
  undoes w w1 stop1 → undoes w1 w2 stop2 → undoes w w2 (λ u, stop2 (stop1 u)).
Proof.
  intros (X & Hd & E & Hs) (Y & Hd' & E' & Hs'). exists (X ∪ Y). rewrite E in Hd'.
  split_and!; [clear -Hd Hd'; set_solver|rewrite E', E; clear; set_solver|].
  intros u. rewrite Hs', Hs. apply difference_difference_l_L.
Qed.

(** Telemetry that starts is shut down.  Unless starting the metrics fails after
    their exporter was made, the function that [Start] returns stops everything that
    [Start] started and nothing else, for every environment and every failure to
    reach a collector. *)
Theorem telemetry_shutdown_complete lightstepKey honeycombKey w w' stop :
  metrics_start → Start lightstepKey honeycombKey w = (w', stop) → live (stop w') = live w.
Proof.
  intros Hok HS. apply undoes_end. revert HS. unfold Start. case_decide; [|case_decide].
  - destruct (ConfigureOpentelemetry _ _ _) as [w1 ls] eqn:E. apply Configure_law in E as [Hl E]. intros [= <- <-].
    exists {[ls]}. split_and!; [set_solver..|]. intros u. apply launcher_Shutdown_law.
  - destruct (initHoneycombTracing _ _) as [w1 s1] eqn:E1. destruct (initHoneycombMetrics _ _) as [w2 s2] eqn:E2.
    intros [= <- <-]. eapply undoes_trans; [by eapply tracing_undone|by eapply metrics_undone].
  - intros [= <- <-]. by apply undoes_nothing.
Qed.

(** When the runtime metrics cannot be started, the metrics exporter and controller
    keep running after the shutdown. *)
Lemma failed_metrics_leak k w w1 e w2 c w3 w4 err w' stop :
  otlpmetric_New (mkCollector "api.honeycomb.io:443"
    {["x-honeycomb-team" := k; "x-honeycomb-dataset" := "tassis"]}) w = (w1, Ok e) →
  controller_New e [("service.name", "tassis")] w1 = (w2, c) →
  controller_Start c w2 = (w3, None) → runtimeMetrics_Start c w3 = (w4, Some err) →
  initHoneycombMetrics k w = (w', stop) → live (stop w') = {[c; e]} ∪ live w.
Proof.
  intros E1 E2 E3 E4. unfold initHoneycombMetrics. rewrite E1, E2, E3, E4. intros [= <- <-].
  apply otlpmetric_New_law in E1 as [_ E1]. apply controller_New_law in E2 as [_ E2].
  apply controller_Start_law in E3. apply runtimeMetrics_Start_law in E4.
  unfold nothing. rewrite E4, E3, E2, E1. apply (assoc_L (∪)).
Qed.
End props.

(** ** A library that keeps its promises *)

(** The objects that run; a handle is a number before the handle of the exporter. *)
Definition toy_handle (e : list nat) (w : gset (list nat)) : list nat :=
  fresh (set_map (default 0 ∘ head) w : gset nat) :: e.
Definition toy_new (e : list nat) (w : gset (list nat)) : gset (list nat) * list nat :=
  ({[toy_handle e w]} ∪ w, toy_handle e w).
Definition toy_stop (k : list nat) (w : gset (list nat)) : gset (list nat) := w ∖ {[k]}.

Definition toy_otel : OpenTelemetry (gset (list nat)) (list nat) := {|
  ConfigureOpentelemetry := λ _ _, toy_new [];
  launcher_Shutdown := toy_stop;
  otlptrace_New := λ _ w, let '(w', k) := toy_new [] w in (w', Ok k);
  otlptrace_Shutdown := toy_stop;
  NewTracerProvider := λ e _ _, toy_new e;
  TracerProvider_Shutdown := λ k w, w ∖ {[k; tail k]};
  SetTracerProvider := λ _ w, w;
  otlpmetric_New := λ _ w, let '(w', k) := toy_new [] w in (w', Ok k);
  otlpmetric_Shutdown := toy_stop;
  controller_New := λ e _ w, (w, toy_handle e w);
  controller_Start := λ k w, ({[k]} ∪ w, None);
  controller_Stop := toy_stop;
  runtimeMetrics_Start := λ _ w, (w, None);
  hostMetrics_Start := λ _ w, (w, None);
  SetMeterProvider := λ _ w, w |}.

Lemma toy_handle_fresh e w : toy_handle e w ∉ w.
Proof.
  intros Hin. apply (is_fresh (set_map (default 0 ∘ head) w : gset nat)).
  apply elem_of_map. by exists (toy_handle e w).
Qed.

Definition toy_otel_laws : @OpenTelemetryLaws (gset (list nat)) (list nat) _ _ toy_otel.
Proof.
  refine {| live := id; exporterOf := tail |}; simpl; intros; unfold toy_new in *; simplify_eq/=; try done;
    eauto using toy_handle_fresh.
Defined.

Lemma telemetry_shutdown_complete_witness :
  let '(w, stop) := Start (OT:=toy_otel) "" "key" (∅ : gset (list nat)) in
  size w = 4 ∧ stop w = ∅.
Proof.
  destruct (Start (OT:=toy_otel) "" "key" ∅) as [w stop] eqn:E. split.
  - assert (S : size (Start (OT:=toy_otel) "" "key" (∅ : gset (list nat))).1 = 4) by (vm_compute; reflexivity).
    by rewrite E in S.
  - apply (telemetry_shutdown_complete (OT:=toy_otel) (OL:=toy_otel_laws) "" "key" ∅ w stop); [|exact E].
    intros c w'. done.
Defined.
