(* ===== verification/TestHarness.v ===== *)
(** * TestHarness: two servers under test

    What testsupport/testsupport.go needs to run: two in-memory services that share a
    presence repository and forward to each other inside the process, as
    service/serviceimpl/serviceimpl_test.go builds them, clients, and time.  A test is
    a function of the world that fails, with [None], when a requirement does not
    hold.  Servers only move by [exec] of TassisExec.v
    ([sound] below).

    Goroutines run until none of them can go on, then time passes in units of 100
    milliseconds: this is one of the schedules that are possible. *)

From S2P Require Import Prelude Model Externals DB MemDB Broker MemBroker Presence Attachments Forwarder Service ServiceProps Connection Forwarding Tassis TassisExec.
Import serviceimpl forwarder forwarding tassis.
#[export] Existing Instance toy_identity.
#[export] Existing Instance bit_proto.
#[export] Existing Instance toy_prototext.
#[export] Existing Instance canonical_range.
#[export] Existing Instance memdb.memdb_DB.
#[export] Existing Instance membroker.membroker_Broker.
#[export] Existing Instance mempresence.mempresence_Presence.
#[export] Existing Instance testsupport.noop_Attachments.
#[export] Instance test_LRU : LRU (lru_list string) (@Publisher membroker.membroker _) := list_LRU string.

(** ** Constants *)

Definition millisecond : Z := 1000000.
Definition CheckPreKeysInterval : Z := 200 * millisecond.
Definition slightlyMoreThanCheckPreKeysInterval : Z := 220 * millisecond.
Definition LowPreKeysLimit : Z := 3.
Definition NumPreKeysToRequest : Z := 4.
Definition ForwardingTimeout : Z := 2000 * millisecond.
Definition MinForwardingRetryInterval : Z := 200 * millisecond.
Definition UserTransferInterval : Z := 100 * millisecond.
Definition ChatNumberDomain : string := "lantern.io".
Definition server1 : nat := 1.
Definition server2 : nat := 2.

(** ** The world *)

(** The services of this process, by host.  A forwarder's connection is the server
    and the connection there; dialling numbers the connections from 1000. *)
Definition services : gmap string nat := {["localhost:1" := 1; "localhost:2" := 2]}.

Definition testDial : string → nat → nat * result (nat * nat) :=
  memforwarder.dial (λ sid n, (S n, Ok (sid, n))) services.

Abbreviation server := (@tassis memdb.memdb membroker.membroker mempresence.repo
  testsupport.noopAttachmentsManager (lru_list string) membroker.membroker_Broker nat (nat * nat)).
Abbreviation server_move := (move (BI:=membroker.membroker_Broker) (P:=mempresence.repo) (N:=nat)).

(** A service with its goroutines and its state. *)
Record hosted := mkHosted {
  h_srvc : Service; h_started : started (BI:=membroker.membroker_Broker); h_state : server }.

(** [builder] is the message builder of the test, [fresh] numbers its clients. *)
Record world := mkWorld { host1 : hosted; host2 : hosted; now : Z; fresh : nat; builder : MessageBuilder }.

Definition host (sid : nat) (w : world) : hosted := if decide (sid = 1) then host1 w else host2 w.
Definition set_host (sid : nat) (h : hosted) (w : world) : world :=
  if decide (sid = 1) then mkWorld h (host2 w) (now w) (fresh w) (builder w)
  else mkWorld (host1 w) h (now w) (fresh w) (builder w).
Definition at_time (t : Z) (w : world) : world := mkWorld (host1 w) (host2 w) t (fresh w) (builder w).
Definition with_fresh (n : nat) (w : world) : world := mkWorld (host1 w) (host2 w) (now w) n (builder w).
Definition with_builder (b : MessageBuilder) (w : world) : world := mkWorld (host1 w) (host2 w) (now w) (fresh w) b.
Definition other (sid : nat) : nat := if decide (sid = 1) then 2 else 1.

(** ** Tests *)

Definition test (A : Type) : Type := world → option (A * world).
#[export] Instance test_ret : MRet test := λ A a w, Some (a, w).
#[export] Instance test_bind : MBind test := λ A B f m w,
  match m w with Some (a, w') => f a w' | None => None end.

Definition get : test world := λ w, Some (w, w).
Definition modify (f : world → world) : test unit := λ w, Some (tt, f w).
Definition fail {A} : test A := λ _, None.
Definition require (b : bool) : test unit := if b then mret tt else fail.
Definition expect {A} (o : option A) : test A := match o with Some a => mret a | None => fail end.

Fixpoint each {A} (f : A → test bool) (l : list A) : test bool :=
  match l with
  | [] => mret false
  | a :: l' => x ← f a; y ← each f l'; mret (x || y)
  end.

Fixpoint times (n : nat) (t : test unit) : test unit :=
  match n with O => mret tt | S n' => _ ← t; times n' t end.

(** A move of a server, if it is possible. *)
Definition try_move (sid : nat) (m : server_move) : test bool :=
  w ← get;
  let h := host sid w in
  match exec testDial (h_srvc h) (h_started h) m (h_state h) with
  | None => mret false
  | Some (_, _, s) =>
      _ ← modify (set_host sid (mkHosted (h_srvc h) (h_started h) s)); mret true
  end.

Definition do_move (sid : nat) (m : server_move) : test unit := b ← try_move sid m; require b.

(** The presence repository is shared: the other server sees what [sid] has. *)
Definition share_presence (sid : nat) : test unit :=
  w ← get;
  do_move (other sid)
    (MOthers (net (h_state (host (other sid) w))) (presenceRepo (shared (h_state (host sid w))))).

(** ** Goroutines *)

Definition clock_now (w : world) : clock := mkClock (now w) (now w) (now w).

(** The messages that wait for a client. *)
Definition waiting (sid cid : nat) (w : world) : list Message :=
  match clients (h_state (host sid w)) !! cid with Some (c, _) => in_ c | None => [] end.

(** The forwarder of [sid] reads the replies on its connection [cid] to [tid]. *)
Fixpoint read_replies (fuel sid tid cid : nat) : test unit :=
  match fuel with
  | O => fail
  | S fuel' =>
      w ← get;
      match waiting tid cid w with
      | [] => mret tt
      | msg :: _ =>
          _ ← do_move tid (MReceive cid); _ ← do_move sid (MReply (clock_now w) msg);
          read_replies fuel' sid tid cid
      end
  end.

Definition nonce_of (n : nat) : string := (String (ascii_of_nat n) "..............................." )%string.

(** A worker of [sid] handles the [j]-th message in hand; what it sends goes to the
    other server at once. *)
Definition forward_one (sid j : nat) : test unit :=
  w ← get;
  let h := host sid w in
  match handle testDial (h_srvc h) (h_started h) j (clock_now w) (h_state h) with
  | None => fail
  | Some (_, r) =>
      _ ← do_move sid (MForward j (clock_now w));
      match r_sent r with
      | Some (Sending (tid, cid) dialled msg) =>
          _ ← (if dialled : bool
               then _ ← do_move tid (MConnect cid (nonce_of (cid - 800))); _ ← do_move tid (MInit cid); do_move tid (MInit cid)
               else mret tt);
          _ ← do_move tid (MOut cid msg);
          read_replies 100 sid tid cid
      | _ => mret tt
      end
  end.

(** The [j]-th message in hand need not wait any more. *)
Definition due (sid j : nat) (w : world) : bool :=
  let h := host sid w in
  match inHand (h_state h) !! j with
  | Some (data, _) =>
      match Unmarshal_ForwardedMessage (default "" data) with
      | Ok m => bool_decide (retryDelay (h_srvc h) (clock_now w) m <= 0)%Z
      | Err _ => true
      end
  | None => false
  end.

(** The goroutine of a new subscriber copies what is stored at once. *)
Definition start_subscriber (sid : nat) (sub : nat) : test bool :=
  w ← get;
  match membroker.subscribers (broker (shared (h_state (host sid w)))) !! sub with
  | Some (_, membroker.mkSubscriber membroker.Starting false) => try_move sid (MIdle sub)
  | _ => mret false
  end.

Definition start_subscribers (sid : nat) : test bool :=
  w ← get; each (start_subscriber sid) (List.seq 0 (length (membroker.subscribers (broker (shared (h_state (host sid w))))))).

Definition run_client (sid : nat) (x : nat * (clientConnection * nat)) : test bool :=
  let '(cid, (c, _)) := x in
  if closed c then try_move sid (MEndInbound cid 0)
  else a ← try_move sid (MInit cid); b ← try_move sid (MIn cid 0); mret (a || b).

(** One worker reads the forwarding topic, another one the retry topic. *)
Definition run_workers (sid : nat) : test bool :=
  w ← get;
  let n := length (inHand (h_state (host sid w))) in
  a ← try_move sid (MTake 0);
  _ ← (if a : bool then forward_one sid n else mret tt);
  b ← (if decide (n = 0) then try_move sid (MTake 1) else mret false);
  w ← get;
  c ← (if due sid 0 w then _ ← forward_one sid 0; mret true else mret false);
  mret (a || b || c).

Definition run_server (sid : nat) : test bool :=
  _ ← start_subscribers sid;
  w ← get;
  a ← each (run_client sid) (map_to_list (clients (h_state (host sid w))));
  b ← run_workers sid;
  mret (a || b).

(** Until nothing moves. *)
Fixpoint settle_loop (fuel : nat) : test unit :=
  match fuel with
  | O => fail
  | S fuel' =>
      a ← run_server 1; b ← run_server 2;
      if a || b : bool then settle_loop fuel' else mret tt
  end.
Definition settle : test unit := settle_loop 50.

(** One turn of the transfer goroutine. *)
Fixpoint transfer_loop (fuel sid : nat) : test unit :=
  match fuel with
  | O => fail
  | S fuel' =>
      _ ← do_move sid MTransfer;
      w ← get;
      match transfer (h_state (host sid w)), round (h_state (host sid w)) with
      | Visiting, [] => mret tt
      | _, _ => transfer_loop fuel' sid
      end
  end.

Definition run_check (sid : nat) (x : nat * (clientConnection * nat)) : test bool :=
  if closed x.2.1 then mret false else try_move sid (MCheck x.1).

Definition run_checks (sid : nat) : test bool :=
  w ← get; each (run_check sid) (map_to_list (clients (h_state (host sid w)))).

(** 100 milliseconds pass: users are transferred every time, pre keys checked every
    other time. *)
Definition tick : test unit :=
  w ← get;
  _ ← modify (at_time (now w + UserTransferInterval)%Z);
  _ ← transfer_loop 50 1; _ ← transfer_loop 50 2;
  _ ← (if decide (Z.modulo (now w) CheckPreKeysInterval = 0)%Z then mret false
       else a ← run_checks 1; b ← run_checks 2; mret (a || b));
  settle.

Definition Sleep (d : Z) : test unit := _ ← settle; times (Z.to_nat (d / UserTransferInterval)) tick.

(** ** Clients, as the test uses them *)

Record ClientConnection := mkClient { c_server : nat; c_id : nat }.

Definition Connect (sid : nat) : test ClientConnection :=
  w ← get;
  _ ← modify (with_fresh (S (fresh w)));
  _ ← do_move sid (MConnect (fresh w) (nonce_of (fresh w)));
  mret (mkClient sid (fresh w)).

Definition Send (client : ClientConnection) (msg : Message) : test unit :=
  _ ← do_move (c_server client) (MOut (c_id client) msg);
  _ ← share_presence (c_server client);
  settle.

(** Waits for a message, for at most ten seconds. *)
Fixpoint receive_loop (fuel : nat) (client : ClientConnection) : test Message :=
  match fuel with
  | O => fail
  | S fuel' =>
      w ← get;
      match waiting (c_server client) (c_id client) w with
      | msg :: _ => _ ← do_move (c_server client) (MReceive (c_id client)); mret msg
      | [] => _ ← tick; receive_loop fuel' client
      end
  end.
Definition Receive (client : ClientConnection) : test Message := _ ← settle; receive_loop 100 client.

Definition Drain (client : ClientConnection) : test nat :=
  _ ← settle;
  w ← get;
  let n := length (waiting (c_server client) (c_id client) w) in
  _ ← times n (do_move (c_server client) (MReceive (c_id client)));
  mret n.

Definition Close (client : ClientConnection) : test unit :=
  _ ← do_move (c_server client) (MClose (c_id client)); settle.

Definition Build (payload : isMessage_Payload) : test Message :=
  w ← get;
  let '(b, msg) := Model.model.Build (builder w) payload in
  _ ← modify (with_builder b);
  mret msg.

(** The database of a server, asked directly. *)
Definition PreKeysRemaining (sid : nat) (identityKey deviceId : string) : test (result Z) :=
  w ← get;
  match db_PreKeysRemaining identityKey deviceId (db (shared (h_state (host sid w)))) with
  | Ret (_, res) => mret res
  | _ => fail
  end.

(** The presence repository, asked directly; an announcement is seen by both. *)
Definition Find (addr : Address) : test (result string) :=
  w ← get; mret (presence_Find (Some addr) (presenceRepo (shared (h_state (host1 w))))).2.

Definition Announce (addr : Address) (host_ : string) : test unit :=
  w ← get;
  let p := (presence_Announce (Some addr) host_ (presenceRepo (shared (h_state (host1 w))))).1 in
  _ ← do_move 1 (MOthers (net (h_state (host1 w))) p);
  do_move 2 (MOthers (net (h_state (host2 w))) p).

(** ** Servers only move by their steps *)

Definition played (h h' : hosted) : Prop :=
  h_srvc h' = h_srvc h ∧ h_started h' = h_started h ∧
  ∃ tr, run testDial (h_srvc h) (h_started h) (h_state h) tr (h_state h').

Definition played_both (w w' : world) : Prop := played (host1 w) (host1 w') ∧ played (host2 w) (host2 w').

(** Whatever a test does, each server makes a run. *)
Definition sound {A} (t : test A) : Prop := ∀ w a w', t w = Some (a, w') → played_both w w'.

Lemma played_refl h : played h h.
Proof. split_and!; [done..|]. exists []. constructor. Qed.

Lemma played_trans h1 h2 h3 : played h1 h2 → played h2 h3 → played h1 h3.
Proof.
  intros (Es & Et & tr & H) (Es' & Et' & tr' & H'). rewrite Es, Et in *. split_and!; [done..|].
  exists (tr ++ tr'). by eapply run_app.
Qed.

#[export] Instance played_both_preorder : PreOrder played_both.
Proof.
  split; [intros w; split; apply played_refl|].
  intros w1 w2 w3 [? ?] [? ?]. split; by eapply played_trans.
Qed.

Lemma sound_ret {A} (a : A) : sound (mret a).
Proof. intros w x w' [= _ <-]. reflexivity. Qed.

Lemma sound_fail {A} : sound (fail (A:=A)).
Proof. by intros w a w'. Qed.

Lemma sound_get : sound get.
Proof. intros w x w' [= _ <-]. reflexivity. Qed.

Lemma sound_bind {A B} (t : test A) (k : A → test B) :
  sound t → (∀ a, sound (k a)) → sound (t ≫= k).
Proof.
  intros Ht Hk w b w'. unfold mbind, test_bind. destruct (t w) as [[a w1]|] eqn:E; [|done].
  intros H%Hk. apply Ht in E. by etrans.
Qed.

Lemma sound_modify f : (∀ w, host1 (f w) = host1 w ∧ host2 (f w) = host2 w) → sound (modify f).
Proof. intros H w a w' [= _ <-]. destruct (H w) as [E1 E2]. unfold played_both. rewrite E1, E2. split; apply played_refl. Qed.

Lemma sound_try_move sid m : sound (try_move sid m).
Proof.
  intros w a w'. unfold try_move, mbind, test_bind, get. cbn.
  destruct (exec _ _ _ _ _) as [[[l es] s]|] eqn:E; [|intros [= _ <-]; reflexivity].
  apply exec_sound in E. intros [= _ <-].
  assert (H : played (host sid w) (mkHosted (h_srvc (host sid w)) (h_started (host sid w)) s)).
  { split_and!; [done..|]. exists [(l, es)]. apply (run_snoc _ _ _ _ [] (h_state (host sid w))); [constructor|done]. }
  unfold host, set_host in *. case_decide; split; simpl; auto using played_refl.
Qed.

Lemma sound_times n t : sound t → sound (times n t).
Proof. intros H. induction n as [|n IH]; simpl; [apply sound_ret|by apply sound_bind]. Qed.

Lemma sound_each {A} (f : A → test bool) l : (∀ a, sound (f a)) → sound (each f l).
Proof.
  intros H. induction l as [|a l IH]; simpl; [apply sound_ret|].
  apply sound_bind; [done|]. intros x. apply sound_bind; [done|]. intros y. apply sound_ret.
Qed.

Create HintDb tests.
#[export] Hint Resolve sound_ret sound_fail sound_get sound_try_move sound_each : tests.

(** Goes through a test that has no loop of its own. *)
Ltac test_sound :=
  intros;
  repeat first
    [ progress (auto with tests)
    | apply sound_bind; intros
    | match goal with |- sound (times _ _) => apply sound_times end
    | apply sound_modify; done
    | match goal with |- sound (match ?x with _ => _ end) => destruct x end ].

Lemma sound_require b : sound (require b).
Proof. unfold require. test_sound. Qed.
Lemma sound_expect {A} (o : option A) : sound (expect o).
Proof. unfold expect. test_sound. Qed.
#[export] Hint Resolve sound_require sound_expect : tests.

Lemma sound_do_move sid m : sound (do_move sid m).
Proof. unfold do_move. test_sound. Qed.
#[export] Hint Resolve sound_do_move : tests.

Lemma sound_read_replies fuel sid tid cid : sound (read_replies fuel sid tid cid).
Proof. induction fuel as [|fuel IH]; simpl; test_sound. Qed.
#[export] Hint Resolve sound_read_replies : tests.

Lemma sound_forward_one sid j : sound (forward_one sid j).
Proof. unfold forward_one. test_sound. Qed.
#[export] Hint Resolve sound_forward_one : tests.

Lemma sound_start_subscriber sid sub : sound (start_subscriber sid sub).
Proof. unfold start_subscriber. test_sound. Qed.
Lemma sound_run_client sid x : sound (run_client sid x).
Proof. unfold run_client. test_sound. Qed.
#[export] Hint Resolve sound_start_subscriber sound_run_client : tests.

Lemma sound_run_server sid : sound (run_server sid).
Proof. unfold run_server, start_subscribers, run_workers. test_sound. Qed.
#[export] Hint Resolve sound_run_server : tests.

Lemma sound_settle_loop fuel : sound (settle_loop fuel).
Proof. induction fuel as [|fuel IH]; simpl; test_sound. Qed.
Lemma sound_settle : sound settle.
Proof. apply sound_settle_loop. Qed.
#[export] Hint Resolve sound_settle : tests.

Lemma sound_transfer_loop fuel sid : sound (transfer_loop fuel sid).
Proof. induction fuel as [|fuel IH]; simpl; test_sound. Qed.
#[export] Hint Resolve sound_transfer_loop : tests.

Lemma sound_run_check sid x : sound (run_check sid x).
Proof. unfold run_check. test_sound. Qed.
#[export] Hint Resolve sound_run_check : tests.
Lemma sound_run_checks sid : sound (run_checks sid).
Proof. unfold run_checks. test_sound. Qed.
#[export] Hint Resolve sound_run_checks : tests.

Lemma sound_tick : sound tick.
Proof. unfold tick. test_sound. Qed.
#[export] Hint Resolve sound_tick : tests.

Lemma sound_Sleep d : sound (Sleep d).
Proof. unfold Sleep. test_sound. Qed.
Lemma sound_Connect sid : sound (Connect sid).
Proof. unfold Connect. test_sound. Qed.
Lemma sound_Send client msg : sound (Send client msg).
Proof. unfold Send, share_presence. test_sound. Qed.
Lemma sound_receive_loop fuel client : sound (receive_loop fuel client).
Proof. induction fuel as [|fuel IH]; simpl; test_sound. Qed.
#[export] Hint Resolve sound_receive_loop : tests.
Lemma sound_Receive client : sound (Receive client).
Proof. unfold Receive. test_sound. Qed.
Lemma sound_Drain client : sound (Drain client).
Proof. unfold Drain. test_sound. Qed.
Lemma sound_Close client : sound (Close client).
Proof. unfold Close. test_sound. Qed.
Lemma sound_Build payload : sound (Build payload).
Proof. unfold Build. test_sound. Qed.
Lemma sound_PreKeysRemaining sid k dev : sound (PreKeysRemaining sid k dev).
Proof. unfold PreKeysRemaining. test_sound. Qed.
Lemma sound_Find addr : sound (Find addr).
Proof. unfold Find. test_sound. Qed.
Lemma sound_Announce addr h : sound (Announce addr h).
Proof. unfold Announce. test_sound. Qed.
#[export] Hint Resolve sound_Sleep sound_Connect sound_Send sound_Receive sound_Drain sound_Close sound_Build
  sound_PreKeysRemaining sound_Find sound_Announce : tests.
