(* ===== verification/TestService.v ===== *)
(** * TestService: the service test suite

    [TestService] of testsupport/testsupport.go as a program of TestHarness.v: its
    helpers and each of its [t.Run] blocks, with the requirements they state.  It is
    run the way service/serviceimpl/serviceimpl_test.go runs it, against two in-memory
    services.  The part on rate limiting, which compares wall-clock time with what a
    Redis script allows, is left out. *)

From S2P Require Import Prelude Model Externals DB MemDB Broker MemBroker Presence Attachments Forwarder Service ServiceProps Connection Forwarding Tassis TassisExec TestHarness.
Import serviceimpl forwarder forwarding tassis TestHarness.

Module testservice.

(** ** Keys *)

(** Package [crypto/ed25519] and [ed2curve25519]; entropy is a number. *)
Class Ed25519 := {
  ed25519_GenerateKey : nat → result (string * string);
  Ed25519PublicKeyToCurve25519 : string → string;
  ed25519_Sign : string → string → result string }.

Record KeyPair := mkKeyPair { Public : string; Private : string }.

Definition Sign {ED : Ed25519} (priv data : string) : result string := ed25519_Sign priv data.

(** The signature of an error is nil. *)
Definition signature_of (r : result string) : string := match r with Ok s => s | Err _ => "" end.

(** The public key verifies what the private key signs. *)
Definition usable {ED : Ed25519} {ID : Identity} (kp : KeyPair) : bool :=
  PublicKey_Verify (Public kp) "some message" (signature_of (Sign (Private kp) "some message")).

(** The loop draws entropy until it gets a usable pair; it returns the next entropy
    as well, [None] when [fuel] turns were not enough. *)
Fixpoint GenerateKeyPair {ED : Ed25519} {ID : Identity} (fuel n : nat) : option (nat * result KeyPair) :=
  match fuel with
  | O => None
  | S fuel' =>
      match ed25519_GenerateKey n with
      | Err err => Some (S n, Err err)
      | Ok (public, private) =>
          let kp := mkKeyPair (Ed25519PublicKeyToCurve25519 public) private in
          if usable kp then Some (S n, Ok kp) else GenerateKeyPair fuel' (S n)
      end
  end.

(** Keys to run the suite with: they verify with [toy_identity], except that one
    pair in three is not usable. *)
#[export] Instance toy_ed25519 : Ed25519 := {|
  ed25519_GenerateKey := λ n, Ok (nonce_of n, nonce_of (if decide (n mod 3 = 0) then S n else n));
  Ed25519PublicKeyToCurve25519 := λ k, k;
  ed25519_Sign := λ priv data, Ok (priv +:+ data)%string |}.

Definition newKeyPair : test KeyPair :=
  w ← get;
  match GenerateKeyPair 10 (fresh w) with
  | Some (n, Ok kp) => _ ← modify (with_fresh n); mret kp
  | _ => fail
  end.

(** ** Helpers *)

(** Messages that are not acks are skipped; [fuel] bounds their number. *)
Fixpoint await_ack (fuel : nat) (client : ClientConnection) (msg : Message) : test unit :=
  match fuel with
  | O => fail
  | S fuel' =>
      ack ← Receive client;
      match Message_Payload ack with
      | Some Message_Ack => require (bool_decide (Message_Sequence msg = Message_Sequence ack))
      | _ => await_ack fuel' client msg
      end
  end.

Definition roundTrip (client : ClientConnection) (msg : Message) : test unit :=
  _ ← Send client msg; await_ack 200 client msg.

Definition bytes (l : list nat) : string := fold_right (λ n s, String (ascii_of_nat n) s) "" l.
Definition shortNumber (identityKey : string) : string := String.substring 0 12 (PublicKey_Number identityKey).

Definition requireMaxAttachmentSize (client : ClientConnection) : test unit :=
  msg ← Receive client;
  configuration ← expect (GetConfiguration msg);
  require (bool_decide (Configuration_MaxAttachmentSize configuration = testsupport.maxAttachmentSize)).

Definition doLogin (serverID : nat) (identityKey deviceId privateKey : string)
    : test (ClientConnection * Message) :=
  client ← Connect serverID;
  msg ← Receive client;
  authChallenge ← expect (GetAuthChallenge msg);
  _ ← require (bool_decide (String.length (AuthChallenge_Nonce authChallenge) = 32));
  _ ← requireMaxAttachmentSize client;
  let login := mkLogin (Some (mkAddress identityKey deviceId)) (AuthChallenge_Nonce authChallenge) in
  match Marshal_Login login with
  | Err _ => fail
  | Ok loginBytes =>
      match Sign privateKey loginBytes with
      | Err _ => fail
      | Ok signature =>
          msg ← Build (Message_AuthResponse (mkAuthResponse loginBytes signature));
          _ ← Send client msg;
          mret (client, msg)
      end
  end.

(** The number of [identityKey] in all its forms. *)
Definition requireChatNumber (identityKey : string) (msg : Message) : test unit :=
  number ← expect (GetChatNumber msg);
  _ ← require (bool_decide (ChatNumber_Number number = PublicKey_Number identityKey));
  _ ← require (bool_decide (ChatNumber_ShortNumber number = shortNumber identityKey));
  require (bool_decide (ChatNumber_Domain number = ChatNumberDomain)).

Definition login (serverID : nat) (identityKey deviceId privateKey : string) : test ClientConnection :=
  x ← doLogin serverID identityKey deviceId privateKey;
  let '(client, msg) := x : ClientConnection * Message in
  number ← Receive client;
  _ ← require (bool_decide (Message_Sequence msg = Message_Sequence number));
  _ ← requireChatNumber identityKey number;
  mret client.

Definition connectAnonymous (serverID : nat) : test ClientConnection :=
  client ← Connect serverID;
  _ ← Receive client;
  _ ← requireMaxAttachmentSize client;
  mret client.

Definition register (signedPreKey : string) (preKeys : list nat) : test Message :=
  Build (Message_Register (mkRegister signedPreKey ((λ preKey, bytes [preKey]) <$> preKeys))).

Definition requestPreKeys (identityKey : string) (knownDeviceIds : list string) : test Message :=
  Build (Message_RequestPreKeys (mkRequestPreKeys identityKey knownDeviceIds)).

(** *** Phrases the blocks repeat *)

Definition registerKeys (client : ClientConnection) (signedPreKey : string) (preKeys : list nat) : test unit :=
  msg ← register signedPreKey preKeys; roundTrip client msg.

Definition sendRequest (client : ClientConnection) (identityKey : string) (known : list string) : test Message :=
  req ← requestPreKeys identityKey known; _ ← Send client req; mret req.

Definition receivePreKeys (client : ClientConnection) : test (list PreKey) :=
  msg ← Receive client; preKeys ← expect (GetPreKeys msg); mret (PreKeys_PreKeys preKeys).

Definition requireDrained (client : ClientConnection) : test unit :=
  n ← Drain client; require (bool_decide (n = 0)).

Definition requireKeysRequested (client : ClientConnection) (n : Z) : test unit :=
  msg ← Receive client;
  low ← expect (GetPreKeysLow msg);
  require (bool_decide (PreKeysLow_KeysRequested low = n)).

Definition sendMessage (client : ClientConnection) (to : Address) (text : string) : test unit :=
  msg ← Build (Message_OutboundMessage (mkOutboundMessage (Some to) (Some text))); roundTrip client msg.

Definition receiveMessage (client : ClientConnection) (text : string) : test Message :=
  msg ← Receive client;
  inboundMsg ← expect (GetInboundMessage msg);
  _ ← require (bool_decide (InboundMessage_UnidentifiedSenderMessage inboundMsg = Some text));
  mret msg.

(** Receives the message and acknowledges it. *)
Definition takeMessage (client : ClientConnection) (text : string) : test unit :=
  msg ← receiveMessage client text; Send client (NewAck msg).

Definition requireError (client : ClientConnection) (err : Error) : test unit :=
  msg ← Receive client;
  e ← expect (GetError msg);
  require (bool_decide (Error_Error e = Error_Error err)).

(** ** The blocks *)

Section blocks.
Variables (userAKeyPair userBKeyPair : KeyPair).
Variables (clientA1 clientA1Anonymous clientA2 clientA2Anonymous : ClientConnection).
Variables (clientB1 clientB1Anonymous clientB2 clientB2Anonymous : ClientConnection).
Let userA := Public userAKeyPair.
Let userB := Public userBKeyPair.
Let deviceA1 := bytes [11].
Let deviceA2 := bytes [12].
Let deviceB1 := bytes [21].
Let deviceB2 := bytes [22].

Definition login_failure : test unit :=
  keyPair ← newKeyPair;
  wrongKeyPair ← newKeyPair;
  x ← doLogin server1 (Public keyPair) (bytes [1]) (Private wrongKeyPair);
  let client := (x : ClientConnection * Message).1 in
  _ ← requireError client ErrUnauthorized;
  Close client.

Definition register_devices : test unit :=
  _ ← registerKeys clientA1 "spkA1" [11; 12; 13];
  _ ← registerKeys clientA2 "spkA2" [21; 22; 23];
  _ ← registerKeys clientB1 "spkB1" [31; 32; 33];
  registerKeys clientB2 "spkB2" [41; 42; 43].

Definition look_up_by_short_number : test unit :=
  request ← Build (Message_FindChatNumberByShortNumber (mkFindChatNumberByShortNumber (shortNumber userA)));
  _ ← Send clientB1Anonymous request;
  msg ← Receive clientB1Anonymous;
  number ← expect (GetChatNumber msg);
  require (bool_decide (ChatNumber_Number number = PublicKey_Number userA)).

Definition look_up_by_identity_key : test unit :=
  request ← Build (Message_FindChatNumberByIdentityKey (mkFindChatNumberByIdentityKey userA));
  _ ← Send clientB1Anonymous request;
  response ← Receive clientB1Anonymous;
  requireChatNumber userA response.

Definition request_one_device : test unit :=
  req ← sendRequest clientB1Anonymous userA [deviceA2];
  resp ← Receive clientB1Anonymous;
  _ ← require (bool_decide (Message_Sequence req = Message_Sequence resp));
  preKeys ← expect (GetPreKeys resp);
  preKey ← expect (PreKeys_PreKeys preKeys !! 0);
  _ ← requireDrained clientB1Anonymous;
  require (bool_decide (preKey = mkPreKey deviceA1 "spkA1" (Some (bytes [13])))).

(** The pre keys, by device. *)
Definition by_device (l : list PreKey) : gmap string PreKey :=
  list_to_map ((λ k, (PreKey_DeviceId k, k)) <$> l).

Definition request_all_devices : test unit :=
  _ ← sendRequest clientA2Anonymous userB [];
  preKeysList ← receivePreKeys clientA2Anonymous;
  _ ← requireDrained clientA2Anonymous;
  _ ← require (bool_decide (length preKeysList = 2));
  require (bool_decide (by_device preKeysList = by_device
    [mkPreKey deviceB1 "spkB1" (Some (bytes [33])); mkPreKey deviceB2 "spkB2" (Some (bytes [43]))])).

Definition keys_are_requested : test unit :=
  _ ← Sleep slightlyMoreThanCheckPreKeysInterval;
  _ ← requireKeysRequested clientA1 4;
  _ ← requireKeysRequested clientB1 4;
  _ ← requireKeysRequested clientB2 4;
  _ ← registerKeys clientA1 "spkA1" [14; 15; 16; 17];
  _ ← registerKeys clientB1 "spkB1" [34; 35; 36; 37];
  _ ← registerKeys clientB2 "spkB2" [44; 45; 46; 47];
  _ ← Sleep slightlyMoreThanCheckPreKeysInterval;
  _ ← requireDrained clientA1;
  _ ← requireDrained clientB1;
  requireDrained clientB2.

Definition keys_are_exhausted : test unit :=
  _ ← times 3 (_ ← sendRequest clientB1Anonymous userA [deviceA1]; _ ← Receive clientB1Anonymous; mret tt);
  _ ← requireDrained clientB1Anonymous;
  _ ← sendRequest clientB1Anonymous userA [deviceA1];
  preKeys ← receivePreKeys clientB1Anonymous;
  _ ← require (bool_decide (length preKeys = 1));
  preKey ← expect (preKeys !! 0);
  _ ← requireDrained clientB1Anonymous;
  _ ← require (bool_decide (preKey = mkPreKey deviceA2 "spkA2" None));
  _ ← Sleep slightlyMoreThanCheckPreKeysInterval;
  requireKeysRequested clientA2 4.

Definition upload_authorization : test unit :=
  msg ← Build (Message_RequestUploadAuthorizations (mkRequestUploadAuthorizations 2));
  _ ← Send clientA1Anonymous msg;
  msg ← Receive clientA1Anonymous;
  auths ← expect (GetUploadAuthorizations msg);
  require (bool_decide (0 < length (UploadAuthorizations_Authorizations auths))).

Definition send_and_receive : test unit :=
  _ ← sendMessage clientA1Anonymous (mkAddress userB deviceB1) "ciphertext";
  takeMessage clientB1 "ciphertext".

(** Run when [testMultiClientMessaging]. *)
Definition new_recipient_after_ack : test unit :=
  _ ← sendMessage clientA1Anonymous (mkAddress userB deviceB1) "ciphertext2";
  clientB1Extra ← login server1 userB deviceB1 (Private userBKeyPair);
  _ ← receiveMessage clientB1Extra "ciphertext2";
  _ ← receiveMessage clientB1 "ciphertext2";
  Close clientB1Extra.

Definition new_recipient_without_ack : test unit :=
  _ ← Sleep (10000 * millisecond);
  clientB1Extra ← login server1 userB deviceB1 (Private userBKeyPair);
  _ ← takeMessage clientB1Extra "ciphertext2";
  _ ← requireDrained clientB1;
  Close clientB1Extra.

Definition unregister_user : test unit :=
  msg ← Build Message_Unregister;
  _ ← roundTrip clientA1 msg;
  remaining ← PreKeysRemaining server1 userA deviceA1;
  _ ← require (match remaining with Err err => bool_decide (err = Sentinel ErrUnknownDevice) | Ok _ => false end);
  msg ← Build Message_Unregister;
  _ ← roundTrip clientA2 msg;
  _ ← sendRequest clientB1Anonymous userA [];
  requireError clientB1Anonymous ErrUnknownIdentity.

End blocks.

(** A new user C, at server 1, with a device that has registered. *)
Definition loginC (userCKeyPair : KeyPair) : test ClientConnection :=
  clientC1 ← login server1 (Public userCKeyPair) (bytes [31]) (Private userCKeyPair);
  _ ← registerKeys clientC1 "spkC1" [31; 32; 33];
  mret clientC1.

(** The presence of [addr] is replaced by rubbish; the host it had. *)
Definition corruptPresence (addr : Address) : test string :=
  found ← Find addr;
  match found with
  | Err _ => fail
  | Ok origHost => _ ← Announce addr "garbage"; mret origHost
  end.

Definition forwarding_between_tasses : test unit :=
  userCKeyPair ← newKeyPair;
  clientC1 ← loginC userCKeyPair;
  clientAnonymous ← connectAnonymous server2;
  let deviceC1Addr := mkAddress (Public userCKeyPair) (bytes [31]) in
  origHost ← corruptPresence deviceC1Addr;
  _ ← sendMessage clientAnonymous deviceC1Addr "shouldbelost";
  _ ← Sleep (ForwardingTimeout * 2)%Z;
  _ ← sendMessage clientAnonymous deviceC1Addr "shouldbeforwarded";
  _ ← Announce deviceC1Addr origHost;
  _ ← takeMessage clientC1 "shouldbeforwarded";
  _ ← Close clientAnonymous;
  Close clientC1.

Definition user_transfer_between_tasses : test unit :=
  userCKeyPair ← newKeyPair;
  clientC1 ← loginC userCKeyPair;
  clientAnonymous ← connectAnonymous server2;
  let deviceC1Addr := mkAddress (Public userCKeyPair) (bytes [31]) in
  _ ← sendMessage clientAnonymous deviceC1Addr "forwarded";
  clientC1AtServer2 ← login server2 (Public userCKeyPair) (bytes [31]) (Private userCKeyPair);
  _ ← registerKeys clientC1AtServer2 "spkC1" [34; 35; 36];
  _ ← takeMessage clientC1AtServer2 "forwarded";
  _ ← registerKeys clientC1 "spkC1" [37; 38; 39];
  origHost ← corruptPresence deviceC1Addr;
  _ ← sendMessage clientAnonymous deviceC1Addr "backhome";
  _ ← Sleep (ForwardingTimeout / 2)%Z;
  _ ← Announce deviceC1Addr origHost;
  _ ← takeMessage clientC1 "backhome";
  _ ← Close clientC1AtServer2;
  _ ← Close clientAnonymous;
  Close clientC1.

(** ** The suite *)

Definition blocks_of (testMultiClientMessaging : bool) (userAKeyPair userBKeyPair : KeyPair)
    (clientA1 clientA1Anonymous clientA2 clientA2Anonymous clientB1 clientB1Anonymous clientB2 : ClientConnection)
    : list (string * test unit) :=
  [("login failure", login_failure);
   ("register 4 devices", register_devices clientA1 clientA2 clientB1 clientB2);
   ("short number", look_up_by_short_number userAKeyPair clientB1Anonymous);
   ("identity key", look_up_by_identity_key userAKeyPair clientB1Anonymous);
   ("request a preKey", request_one_device userAKeyPair clientB1Anonymous);
   ("request preKeys", request_all_devices userBKeyPair clientA2Anonymous);
   ("pre-keys low", keys_are_requested clientA1 clientB1 clientB2);
   ("exhaust pre-keys", keys_are_exhausted userAKeyPair clientA2 clientB1Anonymous);
   ("upload authorization", upload_authorization clientA1Anonymous);
   ("send and receive", send_and_receive userBKeyPair clientA1Anonymous clientB1)] ++
  (if testMultiClientMessaging then
     [("recipient after ack", new_recipient_after_ack userBKeyPair clientA1Anonymous clientB1);
      ("recipient without ack", new_recipient_without_ack userBKeyPair clientB1)] else []) ++
  [("unregister", unregister_user userAKeyPair clientA1 clientA2 clientB1Anonymous);
   ("forwarding", forwarding_between_tasses);
   ("user transfer", user_transfer_between_tasses)].

Fixpoint sequence (l : list (test unit)) : test unit :=
  match l with [] => mret tt | t :: l' => _ ← t; sequence l' end.

Definition TestService (testMultiClientMessaging : bool) : test unit :=
  userAKeyPair ← newKeyPair;
  userBKeyPair ← newKeyPair;
  let userA := Public userAKeyPair in
  let userB := Public userBKeyPair in
  clientA1 ← login server1 userA (bytes [11]) (Private userAKeyPair);
  clientA1Anonymous ← connectAnonymous server1;
  clientA2 ← login server1 userA (bytes [12]) (Private userAKeyPair);
  clientA2Anonymous ← connectAnonymous server1;
  clientB1 ← login server1 userB (bytes [21]) (Private userBKeyPair);
  clientB1Anonymous ← connectAnonymous server1;
  clientB2 ← login server1 userB (bytes [22]) (Private userBKeyPair);
  clientB2Anonymous ← connectAnonymous server1;
  _ ← sequence (blocks_of testMultiClientMessaging userAKeyPair userBKeyPair clientA1 clientA1Anonymous
                  clientA2 clientA2Anonymous clientB1 clientB1Anonymous clientB2).*2;
  sequence (Close <$> [clientB2Anonymous; clientB2; clientB1Anonymous; clientB1;
                       clientA2Anonymous; clientA2; clientA1Anonymous; clientA1]).

(** ** The services under test (service/serviceimpl/serviceimpl_test.go) *)

Definition testOpts (serverID : nat) (presenceRepo : mempresence.repo) : Opts :=
  mkOpts (if decide (serverID = 1) then "localhost:1" else "localhost:2") ChatNumberDomain (Some presenceRepo) 0
    CheckPreKeysInterval LowPreKeysLimit NumPreKeysToRequest 0 ForwardingTimeout
    MinForwardingRetryInterval UserTransferInterval.

(** Forwarders number their connections from 1000. *)
Definition buildServiceAndDB (serverID : nat) (at_ : Z) : result hosted :=
  match New (BI:=membroker.membroker_Broker) mempresence.NewRepository true memdb.New membroker.New
          (testsupport.NewNoopAttachmentsManager at_) (testOpts serverID mempresence.NewRepository) with
  | Ok (srvc, e, sta) => Ok (mkHosted srvc sta (boot e 1000))
  | Err err => Err err
  end.

(** The test starts at time [at_].  The scenarios with several clients of one device
    are not run on the membroker, which does not support them. *)
Definition TestServiceInMemory (at_ : Z) : option world :=
  match buildServiceAndDB 1 at_, buildServiceAndDB 2 at_ with
  | Ok h1, Ok h2 =>
      match TestService false (mkWorld h1 h2 at_ 1 (mkMessageBuilder 0)) with
      | Some (_, w) => Some w
      | None => None
      end
  | _, _ => None
  end.

End testservice.

Import testservice.

(** ** Keys that are returned work *)

Lemma GenerateKeyPair_usable `{!Ed25519, !Identity} fuel n n' kp :
  GenerateKeyPair fuel n = Some (n', Ok kp) → usable kp = true.
Proof.
  revert n. induction fuel as [|fuel IH]; intros n; simpl; [done|].
  destruct (ed25519_GenerateKey n) as [[public private]|]; [|done].
  destruct (usable (mkKeyPair _ _)) eqn:E; [|apply IH]. by intros [= _ <-].
Qed.

(** The loop ends as soon as the entropy gives a usable pair, or an error. *)
Lemma GenerateKeyPair_returns `{!Ed25519, !Identity} k n :
  match ed25519_GenerateKey (k + n) with
  | Ok (public, private) => usable (mkKeyPair (Ed25519PublicKeyToCurve25519 public) private) = true
  | Err _ => True
  end → is_Some (GenerateKeyPair (S k) n).
Proof.
  revert n. induction k as [|k IH]; intros n Hk; simpl in Hk |- *.
  - destruct (ed25519_GenerateKey n) as [[public private]|]; [|done]. by rewrite Hk.
  - destruct (ed25519_GenerateKey n) as [[public private]|]; [|done]. destruct (usable _); [done|].
    apply IH. by rewrite Nat.add_succ_r.
Qed.

(** ** The suite *)

Lemma sound_newKeyPair : sound newKeyPair.
Proof. unfold newKeyPair. test_sound. Qed.
Lemma sound_await_ack fuel client msg : sound (await_ack fuel client msg).
Proof. induction fuel as [|fuel IH]; simpl; test_sound. Qed.
#[export] Hint Resolve sound_newKeyPair sound_await_ack : tests.
Lemma sound_roundTrip client msg : sound (roundTrip client msg).
Proof. unfold roundTrip. test_sound. Qed.
Lemma sound_doLogin sid k dev priv : sound (doLogin sid k dev priv).
Proof. unfold doLogin, requireMaxAttachmentSize. test_sound. Qed.
#[export] Hint Resolve sound_roundTrip sound_doLogin : tests.
Lemma sound_login sid k dev priv : sound (login sid k dev priv).
Proof. unfold login, requireChatNumber. test_sound. Qed.
Lemma sound_connectAnonymous sid : sound (connectAnonymous sid).
Proof. unfold connectAnonymous, requireMaxAttachmentSize. test_sound. Qed.
Lemma sound_sequence l : Forall sound l → sound (sequence l).
Proof. induction 1; simpl; test_sound. Qed.
#[export] Hint Resolve sound_login sound_connectAnonymous sound_sequence : tests.

Lemma sound_blocks multi kA kB a1 a1' a2 a2' b1 b1' b2 :
  Forall sound (blocks_of multi kA kB a1 a1' a2 a2' b1 b1' b2).*2.
Proof.
  unfold blocks_of. destruct multi; simpl; repeat (apply Forall_cons; split); try apply Forall_nil_2;
    unfold login_failure, register_devices, look_up_by_short_number, look_up_by_identity_key, request_one_device,
      request_all_devices, keys_are_requested, keys_are_exhausted, upload_authorization, send_and_receive,
      new_recipient_after_ack, new_recipient_without_ack, unregister_user, forwarding_between_tasses,
      user_transfer_between_tasses, loginC, corruptPresence, takeMessage, receiveMessage, sendMessage,
      registerKeys, register, sendRequest, requestPreKeys, receivePreKeys, requireDrained, requireKeysRequested,
      requireError, requireChatNumber; test_sound.
Qed.
#[export] Hint Resolve sound_blocks : tests.

Lemma sound_TestService multi : sound (TestService multi).
Proof. unfold TestService. test_sound. Qed.

(** When the test starts, in nanoseconds. *)
Definition startTime : Z := 1000000000000.

Definition is_ok {A} (r : result A) : bool := match r with Ok _ => true | Err _ => false end.

(** The suite as an example: under one schedule of the goroutines, [TestService], run
    against two services that [New] builds with the in-memory parts, the way
    serviceimpl_test.go does, meets all its requirements; and whatever the suite does,
    each service only makes steps of the running server of Tassis.v. *)
Theorem service_suite_passes :
  ∃ h1 h2 w,
    buildServiceAndDB 1 startTime = Ok h1 ∧ buildServiceAndDB 2 startTime = Ok h2 ∧
    TestServiceInMemory startTime = Some w ∧
    played h1 (host1 w) ∧ played h2 (host2 w).
Proof.
  assert (E1 : is_ok (buildServiceAndDB 1 startTime) = true) by (vm_compute; reflexivity).
  assert (E2 : is_ok (buildServiceAndDB 2 startTime) = true) by (vm_compute; reflexivity).
  assert (E : bool_decide (is_Some (TestServiceInMemory startTime)) = true)
    by (vm_compute; reflexivity).
  apply bool_decide_eq_true in E as [w E]. pose proof E as H. unfold TestServiceInMemory in H.
  destruct (buildServiceAndDB 1 startTime) as [h1|]; [|discriminate E1].
  destruct (buildServiceAndDB 2 startTime) as [h2|]; [|discriminate E2].
  exists h1, h2, w. destruct (TestService _ _) as [[u w']|] eqn:Et; [|discriminate H]. injection H as <-.
  apply sound_TestService in Et as [? ?]. by split_and!.
Qed.
