(* ===== verification/TestRate.v ===== *)
(** * TestRate: the rate limiting block of the service test suite
      (testsupport/testsupport.go, over db/redisdb)

    A hundred goroutines log in at a server whose database is Redis; the block measures
    the time until all are done and requires that the floor of the logins per second be
    two.  The order of the list is the order in which Redis runs the script of the
    attempts; the clock each of them reads, and the time the rest of its login takes, are
    arbitrary.  A quotient of floating point numbers is that of integers here. *)

From S2P Require Import Prelude Text Model Externals DB RedisDB RedisDBProps RedisNumbers.

Import redisdb util.

Module testrate.
Section testrate.
Context {R : Type} {RD : RedisData R}.
Implicit Types (r : R).

(** A login: the time at which it asks for a chat number, in milliseconds, and the
    nanoseconds it takes apart from the wait. *)
Record attempt := mkAttempt { ask : Z; rest : Z }.

Definition done_at (a : attempt) (w : option Z) : Z := ((ask a + default 0 w) * nanosPerMilli + rest a)%Z.

Definition logins (l : list attempt) r : list Z := zip_with done_at l (waits (ask <$> l) r).

(** [wg.Wait] returns when the last is done, or at once. *)
Definition waitAll (start : Z) (l : list Z) : Z := foldr Z.max start l.

(** [math.Floor(100 / delta.Seconds())], with [delta] in nanoseconds. *)
Definition loginsPerSecond (delta : Z) : Z := (100 * 1000000000 / delta)%Z.

(** The block, started at [start] milliseconds. *)
Definition testRateLimiting (start : Z) (l : list attempt) r : bool :=
  let started := (start * nanosPerMilli)%Z in
  bool_decide (loginsPerSecond (waitAll started (logins l r) - started) = 2%Z).
End testrate.
End testrate.

Import testrate.

Section rate_props.
Context {R : Type} {RD : RedisData R} {RL : RedisDataLaws R}.
Implicit Types (r : R) (l : list attempt).

Lemma waitAll_ge start (l : list Z) x : x ∈ l → (x <= waitAll start l)%Z.
Proof. induction l as [|y l IH]; [by intros ?%not_elem_of_nil|]. intros [->|?%IH]%elem_of_cons; simpl; lia. Qed.

Lemma waitAll_le start (l : list Z) m : (start <= m)%Z → (∀ x, x ∈ l → (x <= m)%Z) → (waitAll start l <= m)%Z.
Proof.
  intros Hs H. induction l as [|y l IH]; [done|]. simpl.
  pose proof (H y (list_elem_of_here _ _)). assert (waitAll start l <= m)%Z by (apply IH; intros x ?; apply H; by right). unfold waitAll in *. lia.
Qed.

Lemma waits_length ts r : length (waits ts r) = length ts.
Proof. revert r. induction ts as [|t ts IH]; intros r; [done|]. simpl. destruct (rateLimit _ t r). simpl. by rewrite IH. Qed.

(** When the [i]-th login is done. *)
Lemma login_time l r t0 c i a :
  limiter r t0 c → clock_ok t0 → Forall (λ a, clock_ok (ask a)) l →
  (Z.abs (c - t0) + 2 ^ 52 + 500 * Z.of_nat (length l) < two63)%Z → l !! i = Some a →
  logins l r !! i = Some (Z.max (ask a) (t0 - c + 500 * (Z.of_nat i + 1)) * nanosPerMilli + rest a)%Z.
Proof.
  intros Hl Ht0 Hc Hb Hi.
  destruct (waits_spaced (ask <$> l) r t0 c i (ask a)) as (w & Hw & E);
    [done|done|by apply Forall_fmap|by rewrite length_fmap|by rewrite list_lookup_fmap, Hi|].
  unfold logins. rewrite lookup_zip_with, Hi. simpl. rewrite Hw. simpl. unfold done_at. by rewrite E.
Qed.

Lemma logins_elem l r x : x ∈ logins l r → ∃ i a, l !! i = Some a ∧ logins l r !! i = Some x.
Proof.
  intros [i Hi]%list_elem_of_lookup. exists i. unfold logins in *. pose proof Hi as Hi'. rewrite lookup_zip_with in Hi.
  destruct (l !! i) as [a|]; [|done]. by exists a.
Qed.

(** What the limiter allows without waiting, at the time [start], in milliseconds. *)
Definition spare (t0 c start : Z) : Z := (start - t0 + c)%Z.

(** The block passes if there was something to spare, less than a third of the time a
    hundred registrations take, and the rest of each login takes no longer than that. *)
Theorem rate_limiting_test_passes l r t0 c start :
  length l = 100 → limiter r t0 c → clock_ok t0 → Forall (λ a, clock_ok (ask a)) l →
  (Z.abs (c - t0) + 2 ^ 52 + 50000 < two63)%Z → (0 <= spare t0 c start <= 16666)%Z →
  (∀ a, a ∈ l → start <= ask a <= start + 33334 ∧ 0 <= rest a <= spare t0 c start * nanosPerMilli)%Z →
  testRateLimiting start l r = true.
Proof.
  intros Hlen Hlim Ht0 Hc Hb Hs Hl. unfold testRateLimiting. apply bool_decide_eq_true.
  assert (Htime : ∀ i a, l !! i = Some a →
    logins l r !! i = Some (Z.max (ask a) (t0 - c + 500 * (Z.of_nat i + 1)) * nanosPerMilli + rest a)%Z).
  { intros i a Hi. apply login_time; [done..|by rewrite Hlen|done]. }
  set (T := waitAll _ _).
  assert (Hlo : ((t0 - c + 50000) * nanosPerMilli <= T)%Z).
  { destruct (lookup_lt_is_Some_2 l 99) as [a Ha]; [lia|].
    pose proof (waitAll_ge (start * nanosPerMilli) _ _ (list_elem_of_lookup_2 _ _ _ (Htime 99 a Ha))) as Hge. fold T in Hge.
    destruct (Hl a (list_elem_of_lookup_2 _ _ _ Ha)) as [_ Hr]. unfold nanosPerMilli in *. lia. }
  assert (Hhi : (T <= (start + 50000) * nanosPerMilli)%Z).
  { apply waitAll_le; [unfold nanosPerMilli; lia|]. intros x (i & a & Hi & Hx)%logins_elem.
    rewrite (Htime i a Hi) in Hx. injection Hx as <-. destruct (Hl a (list_elem_of_lookup_2 _ _ _ Hi)) as [Ha Hr].
    apply lookup_lt_Some in Hi. unfold spare, nanosPerMilli in *. lia. }
  unfold loginsPerSecond, spare, nanosPerMilli in *. symmetry. apply (Z.div_unique _ _ _ (100000000000 - 2 * (T - start * 1000000))); lia.
Qed.

(** It does not pass if there was nothing to spare and the last login takes any time at
    all: a hundred registrations at two per second take fifty seconds. *)
Theorem rate_limiting_test_needs_spare l r t0 c start a :
  length l = 100 → limiter r t0 c → clock_ok t0 → Forall (λ a, clock_ok (ask a)) l →
  (Z.abs (c - t0) + 2 ^ 52 + 50000 < two63)%Z → (spare t0 c start <= 0)%Z →
  last l = Some a → (0 < rest a)%Z → testRateLimiting start l r = false.
Proof.
  intros Hlen Hlim Ht0 Hc Hb Hs Hlast Hr. unfold testRateLimiting. apply bool_decide_eq_false.
  assert (Ha : l !! 99 = Some a) by (rewrite last_lookup, Hlen in Hlast; done).
  assert (Hx : logins l r !! 99 = Some (Z.max (ask a) (t0 - c + 500 * (Z.of_nat 99 + 1)) * nanosPerMilli + rest a)%Z)
    by (apply login_time; [done..|by rewrite Hlen|done]).
  pose proof (waitAll_ge (start * nanosPerMilli) _ _ (list_elem_of_lookup_2 _ _ _ Hx)) as Hge.
  set (T := waitAll _ _) in *. unfold loginsPerSecond, spare, nanosPerMilli in *.
  intros E. assert (100 * 1000000000 / (T - start * 1000000) <= 1)%Z; [|lia].
  apply Z.lt_succ_r, Z.div_lt_upper_bound; lia.
Qed.
End rate_props.

(** A hundred logins that ask at once, some time after the last registration. *)
Section rate_example.
#[local] Existing Instances store_redis store_laws.

Definition hundred (start : Z) : list attempt := replicate 100 (mkAttempt start 1000000).

Example ten_seconds_later : testRateLimiting 1600000010000 (hundred 1600000010000) limited_store = true.
Proof. vm_compute. reflexivity. Qed.

Example at_once : testRateLimiting 1600000000000 (hundred 1600000000000) limited_store = false.
Proof. vm_compute. reflexivity. Qed.

Example a_minute_later : testRateLimiting 1600000060000 (hundred 1600000060000) limited_store = false.
Proof. vm_compute. reflexivity. Qed.
End rate_example.
